(* ===== verification/_CoqProject ===== *)
-Q . S2P
Prelude.v
GoBase.v
Strconv.v
Url.v
FilePath.v
Hashes.v
QuickSort.v
Lww.v
Wal.v
WalSpec.v
Store.v
StoreInv.v
Scan.v
Snapshot.v
StoreSpec.v
SnapshotSpec.v
Recovery.v
PowerLoss.v
Locks.v
Concurrency.v
Peer.v
Gossip.v
GossipSpec.v
Replication.v
Config.v
Metrics.v
Utf8.v
Json.v
Codec.v
Api.v
ApiSpec.v
Wire.v
Mux.v
Router.v
RouterSpec.v
Routing.v
Client.v
ClientSpec.v
ClusterSpec.v
Server.v
ServerSpec.v
Membership.v
Cluster.v
Convergence.v
