(* ===== verification/Prelude.v ===== *)
(** * A verified model of the high-performance key-value store

    The program (Go, under [src/]) is a replicated in-memory key-value store:

    - a store of 32 shards with versioned entries, last-write-wins resolution,
      expiry and a paginated listing ([internal/store/store.go], [entry.go]);
    - a write-ahead log ([wal.go]) and snapshots ([snapshot.go]) that make it
      durable, and the start-up code that recovers it ([cmd/server/main.go]);
    - a membership table ([internal/cluster/peer.go]) maintained by gossip with
      failure detection ([gossip.go]), and asynchronous replication of writes
      to the live members ([replication.go]);
    - an HTTP API over all of it ([internal/api/]), metrics
      ([internal/metrics/]), configuration ([internal/config/]) and a client
      ([pkg/client/]).

    Every part is modelled, from the bytes of a URL and of a JSON body down to
    the bytes of the log.

    ** How the parts interact

    A PUT or DELETE handler calls the store, which draws a version, appends a
    record to the log and then updates the map, and hands the write to the
    replicator, which sends it to every live peer; the peer's handler calls its
    store with the version of the writer.  A compactor dumps the map to a
    snapshot and truncates the log.  Gossip pings random peers, merges their
    tables and turns unreachable peers suspect and then dead.  On start-up the
    store is rebuilt from the snapshot and the log.

    ** The files

    - [Prelude]: notations, tactics ([zbool], [zcase]), the hint database [kv]
      and lemmas on lists and finite maps.
    - [GoBase], [Strconv], [Url], [FilePath], [Hashes]: what the code uses of Go
      and its library: integers at their width, byte order, strings, [time],
      [io.ReadFull], the iteration order of maps (the class [MapRange]),
      [strconv], URL escaping, paths, CRC-32 and FNV-1a.
    - [QuickSort]: [sortStrings], [quickSort], [partition].
    - [Lww]: [Entry] and the specification of the store: one finite map with
      last-write-wins mutations; the interface [LwwReplica] and the convergence
      of replicas, proved against the interface only.
    - [Wal], [WalSpec]: the log on a disk with failing operations; what a replay
      recovers.
    - [Store], [StoreInv], [Scan], [StoreSpec]: the store's state ([Store]) and
      operations, composed of their critical sections; the invariant
      [store_ok] and the represented map [view]; the listing; executions
      ([store_step]) and their refinement of the specification.
    - [Snapshot], [SnapshotSpec]: [CreateSnapshot] as the sequence of its disk
      operations, any of which can fail or be the last before a crash, and
      [LoadSnapshot].
    - [Recovery]: the start-up of [main] (steps 2 to 5) and what a restart
      preserves ([serving], [serve_step]).
    - [PowerLoss]: the file operations of [CreateSnapshot] and of [Append] on a
      disk with a write cache ([Cached]), whose unsynced contents a loss of
      power destroys.
    - [Locks]: the lock operations of every store call, of start-up and of
      [Close], run by any number of goroutines.
    - [Concurrency]: every call as a task that performs one critical section
      per step ([task_step]), pools of tasks in any interleaving
      ([pool_step]), and crashes between two sections.
    - [Peer], [Gossip], [GossipSpec]: the membership table, pings, merging, the
      suspicion check, and the time line of failure detection.
    - [Replication]: targets, requests and lag.
    - [Config], [Metrics]: settings; counters, histograms and the exposition.
    - [Utf8], [Json], [Codec]: what the code uses of [encoding/json]: the
      replacement of ill-formed UTF-8, the text of a value and its reader with
      the proof that it reads back what is written, base64, and decoding into
      the fields of a structure.
    - [Api], [ApiSpec]: the handlers and the middlewares on the state of a node
      ([API]); nodes as replicas, the ping exchange, reading one's writes.
    - [Wire]: the JSON texts of requests, responses and peer lists.
    - [Mux], [Router], [RouterSpec]: the multiplexer of [net/http] with path
      cleaning, redirects and wildcards; the route table and the chain of
      middlewares of [router.go]; [Serve], a node's answer to the bytes of a
      request.  [Mux] searches the routing tree as [ServeMux] does, the most
      specific pattern first.
    - [Routing]: the route table as a client sees it, on the segments of paths.
    - [Client], [ClientSpec]: the methods of the client with the parsing of URLs
      and the redirects of [http.Client], over a network that is a parameter;
      the client against a node.
    - [ClusterSpec]: two nodes: the HTTP requests of pings and replications
      from one node's state to the other's.
    - [Server], [ServerSpec]: the loops of the reaper, of gossip, of the
      suspicion check and of the compactor; [main], the events of the running
      process ([server_step], [run]) and the graceful shutdown.
    - [Membership]: what the events of the process do with a dead peer.
    - [Cluster], [Convergence]: many processes and a network that delivers the
      requests of their replicators in any order, or never ([cluster_step]);
      where the served values come from, and runs in which nothing is lost.

    ** What the theorems show

    Refinement: every sequence and every interleaving of calls keeps the
    shards consistent and changes the represented map only by the
    specification's steps, in which an entry disappears only by a deletion or
    when it has expired at a reading the clock gave.  Functional behaviour of Get, Set, Delete, Scan,
    reap and of the handlers on every branch, errors included.  Durability: the
    log and the snapshot are read back as written, a snapshot is atomic with
    respect to failures and crashes, a restart restores the served map (also
    after a loss of power inside a snapshot), and concurrent writers of keys
    without ttl lose nothing in a crash.  Corrupted and torn records are
    detected.  Liveness of the locking.  Membership: merge priority, failure
    detection, pings, dead peers.  Convergence of replicas.  Routing of every
    method and path.  Metrics and all settings of the configuration.
    Composition: the client reads what it wrote, lists and deletes through URL,
    JSON, router, handler and store; a write of one node is served by the peer
    that receives its request; a ping over HTTP introduces two nodes; any
    requests keep the types of a node's state and any events those of the
    process; start-up always comes to a decision; a graceful restart serves
    what was live.  Clusters: no node ever holds a value nobody wrote, over any
    network and any requests; with a complete membership, all nodes end with
    the same map once the writes have arrived, and they can always arrive.
    Some theorems show where the code does not do what it means to: a snapshot
    that destroys an acknowledged write, values a restart brings back or
    drops, replicas that diverge, a suspicion check that kills a node that
    answered, a ping that revives a dead peer, a seed that is never given up,
    keys that no request can address,
    bytes that JSON alters.

    ** Time, fuel and bounds

    A time is the number of nanoseconds since the zero time; each reading of
    the clock is an argument (or a function from the number of readings made),
    so nothing is assumed about it but what a theorem states.  The refinement
    theorems hold for every set [T] of readings.  [quickSort] gets
    one more unit of fuel than the slice is long, which is enough for its
    worst case; the record loops of replay and loading get one more than the
    number of bytes, and every record consumes at least eight.  The JSON reader
    gets twice the length of the text and two, a string in it one more than the
    characters left; the loop over runes gets one more than the length; the
    client follows nine redirects, as [http.Client] does; the search of the
    routing tree gets the length of the longest pattern.  The theorems show
    that none of them runs out.  Versions are 64-bit and theorems that
    need fresh ones assume the counter below its last value.

    ** Parameters

    The iteration order of Go maps ([MapRange]); the texts of floats, times and
    errors ([Texts], with what the library documents of them as hypotheses
    where a theorem needs it); the answers of [http.FileServer]; whether
    [net/url] accepts the host of an address; the network of the client.

    ** Not modelled

    The transport below HTTP requests (connections, headers other than
    [Location], time-outs and contexts: the outcome of a request is an
    argument, or the answer of the other node), logging, the HTML text of
    redirects, registering patterns that conflict (which panics; the patterns
    of the table are disjoint), requests still in flight when the five seconds of
    [srv.Shutdown] are over, the parsing of the command line by [flag], the
    dashboard and the deployment files.  The operations inside one critical
    section are one step: a lock-free reader of the key gauge between them is
    not represented; the events of [Server] are whole requests and ticks, whose
    interleaving inside the store is the subject of [Concurrency].  In
    [Cluster] the outcome of a ping is an argument of its event, and members do
    not restart.  Except in [PowerLoss] a crash is one of the process, which
    keeps what was written to the files; [PowerLoss] assumes that directory
    operations reach the medium in order, which [os.Rename] alone does not
    promise on every file system.  Next: pings as deliveries between the members of a cluster,
    members that restart, and crashes with expiring keys. *)

From stdpp Require Export base tactics numbers list gmap strings relations sorting.
From Stdlib Require Export ZArith Lia.

#[global] Open Scope Z_scope.

Declare Scope kv_scope.
Delimit Scope kv_scope with kv.

(** ** Proof automation *)

(** Turn the boolean comparisons a translated guard is made of into facts
    [lia] understands, in hypotheses and by case analysis on the goal. *)
Ltac zbool :=
  repeat match goal with
  | H : (_ && _)%bool = true |- _ => apply andb_prop in H as [? ?]
  | H : (_ <? _) = true |- _ => apply Z.ltb_lt in H
  | H : (_ <? _) = false |- _ => apply Z.ltb_ge in H
  | H : (_ <=? _) = true |- _ => apply Z.leb_le in H
  | H : (_ <=? _) = false |- _ => apply Z.leb_gt in H
  | H : (_ =? _) = true |- _ => apply Z.eqb_eq in H
  | H : (_ =? _) = false |- _ => apply Z.eqb_neq in H
  end.

Ltac zcase :=
  match goal with
  | |- context [?a <? ?b] => destruct (Z.ltb_spec a b)
  | |- context [?a <=? ?b] => destruct (Z.leb_spec a b)
  | |- context [?a =? ?b] => destruct (Z.eqb_spec a b)
  end.

Create HintDb kv discriminated.
#[export] Hint Constants Opaque : kv.
#[export] Hint Resolve Nat.le_refl Z.le_refl : kv.

(** ** Generic lemmas *)

Lemma bool_decide_elem_cons_ne `{EqDecision A} (x y : A) (l : list A) :
  x <> y -> bool_decide (y ∈ x :: l) = bool_decide (y ∈ l).
Proof. intros H. apply bool_decide_ext. rewrite elem_of_cons. split; [by intros [->|] | by right]. Qed.

Lemma map_to_list_disj_union `{Countable K} {A} (m1 m2 : gmap K A) :
  m1 ##ₘ m2 -> map_to_list (m1 ∪ m2) ≡ₚ map_to_list m1 ++ map_to_list m2.
Proof.
  intros Hd. apply NoDup_Permutation.
  - apply NoDup_map_to_list.
  - apply NoDup_app. split; [apply NoDup_map_to_list|]. split; [|apply NoDup_map_to_list].
    intros [k x] H1%elem_of_map_to_list H2%elem_of_map_to_list.
    by eapply map_disjoint_spec.
  - intros [k x]. rewrite elem_of_app, !elem_of_map_to_list. by apply lookup_union_Some.
Qed.

Lemma concat_map_omap {A B C} (f : B -> option C) (g : A -> list B) (l : list A) :
  concat (map (fun x => omap f (g x)) l) = omap f (concat (map g l)).
Proof. induction l as [|a l IH]; [done|]. cbn. by rewrite omap_app, IH. Qed.

(** ** Executions with visible labels *)

(** Steps may show labels; an execution shows the labels of its steps. *)
Section Trace.
Context {A L : Type} (step : A -> list L -> A -> Prop).

Inductive trace : A -> list L -> A -> Prop :=
  | trace_nil a : trace a [] a
  | trace_cons a l b l' c : step a l b -> trace b l' c -> trace a (l ++ l') c.

Lemma trace_once a l b : step a l b -> trace a l b.
Proof. intros H. rewrite <-(app_nil_r l). eapply trace_cons; [exact H | apply trace_nil]. Qed.

Lemma trace_app a l b l' c : trace a l b -> trace b l' c -> trace a (l ++ l') c.
Proof.
  induction 1 as [|a l b l1 c' Hs _ IH]; intros H2; [done|].
  rewrite <-app_assoc. eapply trace_cons; [exact Hs | by apply IH].
Qed.
End Trace.
