(* ===== verification/GoBase.v ===== *)
(** * Go's machine integers, bytes, times and readers

    What the sources use of the Go language and its standard library, written
    out at its width: [uintN] and [int64] conversions, [encoding/binary]'s
    big-endian accessors, [copy] into a slice, [time.Time] and
    [time.Duration], [io.ReadFull], string comparison and the iteration order
    of a Go map. *)

From Stdlib Require Export Strings.Byte.
From Stdlib Require Import Ascii.
From Stdlib Require String.
From S2P Require Import Prelude.

(** ** Machine integers *)

Definition u8 (z : Z) : Z := z mod 2 ^ 8.
Definition u16 (z : Z) : Z := z mod 2 ^ 16.
Definition u32 (z : Z) : Z := z mod 2 ^ 32.
Definition u64 (z : Z) : Z := z mod 2 ^ 64.
Definition i64 (z : Z) : Z := (z + 2 ^ 63) mod 2 ^ 64 - 2 ^ 63.

Definition is_u64 (z : Z) : Prop := 0 <= z < 2 ^ 64.
Definition is_i64 (z : Z) : Prop := - 2 ^ 63 <= z < 2 ^ 63.

Lemma u16_small z : 0 <= z < 2 ^ 16 -> u16 z = z.
Proof. apply Z.mod_small. Qed.
Lemma u32_small z : 0 <= z < 2 ^ 32 -> u32 z = z.
Proof. apply Z.mod_small. Qed.
Lemma u64_small z : is_u64 z -> u64 z = z.
Proof. apply Z.mod_small. Qed.
Lemma u64_range z : is_u64 (u64 z).
Proof. apply Z.mod_pos_bound. lia. Qed.
Lemma u32_range z : 0 <= u32 z < 2 ^ 32.
Proof. apply Z.mod_pos_bound. lia. Qed.
Lemma i64_range z : is_i64 (i64 z).
Proof.
  unfold i64, is_i64. pose proof (Z.mod_pos_bound (z + 2 ^ 63) (2 ^ 64)). lia.
Qed.
Lemma i64_small z : is_i64 z -> i64 z = z.
Proof. unfold is_i64, i64. intros. rewrite Z.mod_small; lia. Qed.

(** The first wrap-around of a signed 64-bit integer. *)
Lemma i64_wrap z : 2 ^ 63 <= z < 2 ^ 64 -> i64 z = z - 2 ^ 64.
Proof.
  intros Hz. unfold i64. rewrite (Z.mod_eq _ (2 ^ 64)) by lia.
  assert ((z + 2 ^ 63) / 2 ^ 64 = 1) as -> by (symmetry; apply Z.div_unique with (z - 2 ^ 63); lia).
  lia.
Qed.
Lemma i64_u64 z : i64 (u64 z) = i64 z.
Proof. unfold i64, u64. f_equal. by rewrite Zplus_mod_idemp_l. Qed.
Lemma i64_add_l a b : i64 (i64 a + b) = i64 (a + b).
Proof.
  unfold i64. f_equal.
  replace ((a + 2 ^ 63) mod 2 ^ 64 - 2 ^ 63 + b + 2 ^ 63)
    with ((a + 2 ^ 63) mod 2 ^ 64 + b) by lia.
  rewrite Zplus_mod_idemp_l. f_equal. lia.
Qed.

#[export] Hint Resolve u64_range i64_range u32_range : kv.

(** ** Bytes *)

#[global] Instance byte_eq_decision : EqDecision byte := Byte.byte_eq_dec.

Definition byte_to_Z (b : byte) : Z := Z.of_N (Byte.to_N b).

(** [byte(v)]: the conversion to [uint8] keeps the low eight bits. *)
Definition byte_of_Z (z : Z) : byte := default x00 (Byte.of_N (Z.to_N (u8 z))).

Lemma byte_to_Z_range b : 0 <= byte_to_Z b < 256.
Proof. unfold byte_to_Z. pose proof (Byte.to_N_bounded b). lia. Qed.

Lemma byte_to_of_Z z : byte_to_Z (byte_of_Z z) = z mod 256.
Proof.
  unfold byte_to_Z, byte_of_Z, u8. change (2 ^ 8) with 256.
  pose proof (Z.mod_pos_bound z 256 ltac:(lia)) as Hb.
  destruct (Byte.of_N (Z.to_N (z mod 256))) as [b|] eqn:E; simpl.
  - apply Byte.to_of_N in E. rewrite E. lia.
  - apply Byte.of_N_None_iff in E. lia.
Qed.

Lemma byte_of_to_Z b : byte_of_Z (byte_to_Z b) = b.
Proof.
  unfold byte_of_Z, byte_to_Z, u8. pose proof (Byte.to_N_bounded b).
  rewrite Z.mod_small by lia. rewrite N2Z.id, Byte.of_to_N. done.
Qed.

Lemma byte_to_Z_inj b1 b2 : byte_to_Z b1 = byte_to_Z b2 -> b1 = b2.
Proof. intros H. by rewrite <-(byte_of_to_Z b1), H, byte_of_to_Z. Qed.

(** ** [encoding/binary.BigEndian] *)

(** [PutUint16], [PutUint32], [PutUint64] store [byte(v >> 8 * (n - 1))] first. *)
Fixpoint put_be (n : nat) (v : Z) : list byte :=
  match n with
  | O => []
  | S n' => byte_of_Z (Z.shiftr v (8 * Z.of_nat n')) :: put_be n' v
  end.

(** [Uint16], [Uint32], [Uint64] combine the bytes with shifts and ors. *)
Definition get_be (l : list byte) : Z :=
  fold_left (fun acc b => Z.lor (Z.shiftl acc 8) (byte_to_Z b)) l 0.

Lemma put_be_length n v : length (put_be n v) = n.
Proof. induction n; simpl; congruence. Qed.

Lemma shift_or_add acc b : 0 <= b < 256 -> Z.lor (Z.shiftl acc 8) b = acc * 256 + b.
Proof.
  intros Hb. rewrite Z.shiftl_mul_pow2 by lia. change (2 ^ 8) with 256.
  rewrite <-Z.add_lor_land.
  enough (Z.land (acc * 256) b = 0) as -> by lia.
  apply Z.bits_inj'. intros n Hn. rewrite Z.land_spec, Z.bits_0.
  destruct (Z.ltb_spec n 8).
  - change 256 with (2 ^ 8). rewrite Z.mul_pow2_bits_low by lia. done.
  - rewrite andb_comm. rewrite (Z.bits_above_log2 b n); [done | lia |].
    destruct (Z.eq_dec b 0) as [->|]; [simpl; lia|].
    apply Z.log2_lt_pow2; [lia|]. apply Z.lt_le_trans with (2 ^ 8); [lia|].
    apply Z.pow_le_mono_r; lia.
Qed.

Lemma get_be_step l acc :
  fold_left (fun acc b => Z.lor (Z.shiftl acc 8) (byte_to_Z b)) l acc
  = acc * 256 ^ Z.of_nat (length l) + get_be l.
Proof.
  unfold get_be. revert acc. induction l as [|b l IH]; intros acc.
  - simpl. lia.
  - cbn [fold_left length].
    rewrite IH, (IH (Z.lor (Z.shiftl 0 8) _)).
    rewrite !shift_or_add by apply byte_to_Z_range.
    rewrite Nat2Z.inj_succ, Z.pow_succ_r by lia. lia.
Qed.

Lemma get_be_cons b l :
  get_be (b :: l) = byte_to_Z b * 256 ^ Z.of_nat (length l) + get_be l.
Proof.
  unfold get_be at 1. simpl. rewrite get_be_step. f_equal.
Qed.

Lemma get_be_range l : 0 <= get_be l < 256 ^ Z.of_nat (length l).
Proof.
  induction l as [|b l IH].
  - unfold get_be. simpl. lia.
  - rewrite get_be_cons. simpl length. rewrite Nat2Z.inj_succ, Z.pow_succ_r by lia.
    pose proof (byte_to_Z_range b). nia.
Qed.

Lemma get_put_be n v : get_be (put_be n v) = v mod 256 ^ Z.of_nat n.
Proof.
  induction n as [|n IH].
  - simpl. by rewrite Z.mod_1_r.
  - simpl put_be. rewrite get_be_cons, put_be_length, IH, byte_to_of_Z.
    rewrite Z.shiftr_div_pow2 by lia.
    replace (2 ^ (8 * Z.of_nat n)) with (256 ^ Z.of_nat n)
      by (rewrite Z.pow_mul_r by lia; done).
    rewrite Nat2Z.inj_succ, Z.pow_succ_r by lia.
    rewrite (Z.mul_comm 256), Z.rem_mul_r by lia. lia.
Qed.

Lemma get_put_be16 v : get_be (put_be 2 v) = u16 v.
Proof. apply get_put_be. Qed.
Lemma get_put_be32 v : get_be (put_be 4 v) = u32 v.
Proof. apply get_put_be. Qed.
Lemma get_put_be64 v : get_be (put_be 8 v) = u64 v.
Proof. apply get_put_be. Qed.

(** ** Strings *)

(** A Go string is its bytes; [[]byte(s)] and [string(b)] copy them. *)
Definition bytes_of (s : string) : list byte := String.list_byte_of_string s.
Definition string_of (b : list byte) : string := String.string_of_list_byte b.

Lemma string_of_bytes_of s : string_of (bytes_of s) = s.
Proof. apply String.string_of_list_byte_of_string. Qed.
Lemma bytes_of_string_of b : bytes_of (string_of b) = b.
Proof. apply String.list_byte_of_string_of_list_byte. Qed.
Lemma bytes_of_length s : length (bytes_of s) = String.length s.
Proof. induction s as [|c s IH]; [done|]. simpl. f_equal. exact IH. Qed.

(** Go compares strings bytewise: [a < b] is [str_lt a b = true]. *)
Definition str_lt (a b : string) : bool := String.ltb a b.

Lemma str_lt_spec a b : str_lt a b = negb (String.leb b a).
Proof.
  unfold str_lt, String.ltb, String.leb. rewrite (String.compare_antisym b a).
  by destruct (String.compare a b).
Qed.

Lemma str_lt_false a b : str_lt a b = false <-> String.le b a.
Proof.
  rewrite str_lt_spec, negb_false_iff. unfold String.le.
  destruct (String.leb b a); simpl; split; done.
Qed.

Lemma str_lt_true a b : str_lt a b = true <-> String.le a b /\ a <> b.
Proof.
  rewrite str_lt_spec, negb_true_iff. split.
  - intros H. unfold String.le. split.
    + destruct (String.leb_total a b) as [->|E]; [done|congruence].
    + intros ->. destruct (String.leb_total b b); congruence.
  - intros [H1 H2]. destruct (String.leb b a) eqn:E; [|done].
    destruct H2. apply String.leb_antisym; [|done].
    unfold String.le in H1. by destruct (String.leb a b).
Qed.

Lemma str_lt_irrefl a : str_lt a a = false.
Proof. apply str_lt_false. reflexivity. Qed.

Lemma str_lt_le a b : str_lt a b = true -> String.le a b.
Proof. intros H. by apply str_lt_true in H as [? _]. Qed.

Lemma str_lt_empty a : a <> EmptyString -> str_lt EmptyString a = true.
Proof. by destruct a. Qed.

Lemma str_le_lt_trans a b c : String.le a b -> str_lt b c = true -> str_lt a c = true.
Proof.
  intros H1 [H2 H3]%str_lt_true. apply str_lt_true. split; [by etrans|].
  intros ->. apply H3. by apply (anti_symm String.le).
Qed.

Lemma str_lt_le_trans a b c : str_lt a b = true -> String.le b c -> str_lt a c = true.
Proof.
  intros [H2 H3]%str_lt_true H1. apply str_lt_true. split; [by etrans|].
  intros ->. apply H3. by apply (anti_symm String.le).
Qed.

(** [strings.HasPrefix(s, prefix)]. *)
Definition HasPrefix (s prefix : string) : bool := String.prefix prefix s.

(** ** Slices *)

(** [copy(buf[off:], src)] for a [src] that fits. *)
Definition copy_at (off : nat) (src buf : list byte) : list byte :=
  take off buf ++ src ++ drop (off + length src) buf.

Lemma copy_at_mid (a b c src : list byte) :
  length b = length src -> copy_at (length a) src (a ++ b ++ c) = a ++ src ++ c.
Proof.
  intros H. unfold copy_at. rewrite take_app_length, <-H. do 2 f_equal.
  by rewrite (app_assoc a), <-length_app, drop_app_length.
Qed.

(** [s[lo:hi]] of a byte slice whose bounds were checked. *)
Definition slice (lo hi : nat) (b : list byte) : list byte := take (hi - lo) (drop lo b).

Lemma slice_mid (a m c : list byte) :
  slice (length a) (length a + length m) (a ++ m ++ c) = m.
Proof.
  unfold slice. rewrite drop_app_length.
  replace (length a + length m - length a)%nat with (length m) by lia.
  by rewrite take_app_length.
Qed.

(** ** [time.Time] and [time.Duration]

    A time is the number of nanoseconds since the zero [Time] (January 1 of
    year 1, UTC); a duration is an [int64] number of nanoseconds. The
    monotonic reading a [Time] may carry is identified with the wall reading. *)

Definition unixEpoch : Z := 62135596800 * 10 ^ 9.

Definition time_zero : Z := 0.
Definition IsZero (t : Z) : bool := t =? time_zero.
Definition time_After (t u : Z) : bool := u <? t.
Definition time_Add (t d : Z) : Z := t + d.
(** [t.Sub(u)] saturates at the extreme durations. *)
Definition time_Sub (t u : Z) : Z := Z.max (- 2 ^ 63) (Z.min (2 ^ 63 - 1) (t - u)).
(** [UnixNano] is computed in [int64] arithmetic. *)
Definition UnixNano (t : Z) : Z := i64 (t - unixEpoch).
(** [time.Unix(0, nsec)]. *)
Definition time_Unix (nsec : Z) : Z := unixEpoch + nsec.

Definition Millisecond : Z := 10 ^ 6.
Definition Second : Z := 10 ^ 9.

Lemma time_Unix_UnixNano t : is_i64 (t - unixEpoch) -> time_Unix (UnixNano t) = t.
Proof. intros H. unfold time_Unix, UnixNano. rewrite i64_small by done. lia. Qed.

Lemma time_Sub_small t u : is_i64 (t - u) -> time_Sub t u = t - u.
Proof. unfold time_Sub, is_i64. lia. Qed.

(** ** Reading a file

    A file being read is its remaining bytes and what a read beyond them
    reports: the end of the file or an I/O error of the device. *)

Inductive stream_end := AtEOF | AtFault.

Inductive read_error := EOF | ErrUnexpectedEOF | ReadFault.

(** [io.ReadFull(r, buf)] with [len(buf) = n]. *)
Definition ReadFull (n : Z) (e : stream_end) (r : list byte)
  : list byte * list byte + read_error :=
  if n <=? Z.of_nat (length r) then inl (take (Z.to_nat n) r, drop (Z.to_nat n) r)
  else inr (match e with
            | AtFault => ReadFault
            | AtEOF => match r with [] => EOF | _ => ErrUnexpectedEOF end
            end).

Lemma ReadFull_app n e (a r : list byte) :
  Z.of_nat (length a) = n -> ReadFull n e (a ++ r) = inl (a, r).
Proof.
  intros <-. unfold ReadFull. rewrite length_app.
  destruct (Z.leb_spec (Z.of_nat (length a)) (Z.of_nat (length a + length r))); [|lia].
  by rewrite Nat2Z.id, take_app_length, drop_app_length.
Qed.

Lemma ReadFull_short n r :
  Z.of_nat (length r) < n ->
  ReadFull n AtEOF r = inr EOF \/ ReadFull n AtEOF r = inr ErrUnexpectedEOF.
Proof.
  intros H. unfold ReadFull. destruct (Z.leb_spec n (Z.of_nat (length r))); [lia|].
  destruct r; auto.
Qed.

Lemma ReadFull_consumes n e r a r' :
  ReadFull n e r = inl (a, r') -> r = a ++ r' /\ Z.of_nat (length a) = Z.max 0 n.
Proof.
  unfold ReadFull. destruct (Z.leb_spec n (Z.of_nat (length r))); [|done].
  intros [= <- <-]. rewrite take_drop, length_take. split; [done | lia].
Qed.

(** ** The iteration order of a Go map

    [for k, v := range m] visits every entry once in an order the language
    leaves open, so every definition that iterates takes the order as an
    instance of this interface. *)

Class MapRange := {
  range : forall {K : Type} {EK : EqDecision K} {CK : Countable K} {A : Type},
    gmap K A -> list (K * A);
  range_perm : forall (K : Type) (EK : EqDecision K) (CK : Countable K) (A : Type) (m : gmap K A),
    range m ≡ₚ map_to_list m
}.

#[export, refine] Instance range_in_order : MapRange :=
  { range := fun K EK CK A m => map_to_list m }.
Proof. reflexivity. Defined.

Definition range_reversed : MapRange.
Proof.
  refine {| range := fun K EK CK A m => rev (map_to_list m) |}.
  intros K EK CK A m. symmetry. apply Permutation_rev.
Defined.

Section Range.
Context {R : MapRange} `{Countable K} {A : Type}.
Implicit Types m : gmap K A.

Lemma elem_of_range m k x : (k, x) ∈ range m <-> m !! k = Some x.
Proof. rewrite range_perm. apply elem_of_map_to_list. Qed.

Lemma range_NoDup m : NoDup (range m).*1.
Proof. rewrite range_perm. apply NoDup_fst_map_to_list. Qed.

Lemma length_range m : length (range m) = size m.
Proof. rewrite range_perm. by rewrite length_map_to_list. Qed.

Lemma range_to_map m : list_to_map (range m) = m.
Proof.
  rewrite <-(list_to_map_to_list m) at 2. apply list_to_map_proper.
  - apply range_NoDup.
  - apply range_perm.
Qed.
End Range.
