(* ===== verification/Strconv.v ===== *)
(** * Decimal integers: [strconv.Atoi], [strconv.Itoa] and [%d] *)

From S2P Require Import Prelude.
From S2P Require Import GoBase.
From Stdlib Require Import Ascii.

Definition digit_value (c : ascii) : option Z :=
  let n := Z.of_N (N_of_ascii c) in
  if (48 <=? n) && (n <=? 57) then Some (n - 48) else None.

(** The digits from left to right. *)
Fixpoint parse_digits (acc : Z) (s : string) : option Z :=
  match s with
  | EmptyString => Some acc
  | String c s' => d ← digit_value c; parse_digits (10 * acc + d) s'
  end.

(** [Atoi]: an optional sign, at least one digit, and a value that fits [int];
    [None] is an error. *)
Definition Atoi (s : string) : option Z :=
  let parse (neg : bool) (digits : string) :=
    if decide (digits = "") then None
    else
      n ← parse_digits 0 digits;
      let v := if neg then - n else n in
      if (- 2 ^ 63 <=? v) && (v <? 2 ^ 63) then Some v else None in
  match s with
  | String "-" s' => parse true s'
  | String "+" s' => parse false s'
  | _ => parse false s
  end.

Definition digit_char (d : Z) : ascii := ascii_of_N (Z.to_N (48 + d)).

(** The digits of a natural number, most significant first, in front of
    [tail]. *)
Fixpoint digits (fuel : nat) (n : Z) (tail : string) : string :=
  match fuel with
  | O => tail
  | S fuel' =>
      let s := String (digit_char (n mod 10)) tail in
      if n <? 10 then s else digits fuel' (n / 10) s
  end.

Definition Itoa (n : Z) : string :=
  if n <? 0 then String "-" (digits (S (Z.to_nat (Z.log2 (- n)))) (- n) "")
  else digits (S (Z.to_nat (Z.log2 n))) n "".

Example Itoa_run : map Itoa [0; 7; 10; 1000; -42; 2 ^ 63 - 1] = ["0"; "7"; "10"; "1000"; "-42"; "9223372036854775807"].
Proof. vm_compute. reflexivity. Qed.

Example Atoi_run : map Atoi ["12"; "+3"; "-0"; ""; "-"; "1x"; " 1"; "9223372036854775808"]
  = [Some 12; Some 3; Some 0; None; None; None; None; None].
Proof. vm_compute. reflexivity. Qed.

(** A fact that holds of each digit. *)
Lemma digit_ind (P : Z -> Prop) d : Forall P (seqZ 0 10) -> 0 <= d < 10 -> P d.
Proof. rewrite Forall_forall. intros H Hd. apply H, elem_of_seqZ. lia. Qed.

Lemma digit_value_char d : 0 <= d < 10 -> digit_value (digit_char d) = Some d.
Proof. apply (digit_ind (fun d => digit_value (digit_char d) = Some d)). by repeat constructor. Qed.

(** Printing a number and reading it on. *)
Lemma parse_digits_digits fuel : forall n tail acc,
  0 <= n < 2 ^ Z.of_nat fuel -> (0 < fuel)%nat ->
  exists k, 0 <= k /\ parse_digits acc (digits fuel n tail) = parse_digits (acc * 10 ^ k + n) tail.
Proof.
  induction fuel as [|fuel IH]; intros n tail acc Hn Hf; [lia|]. cbn [digits].
  pose proof (Z.mod_pos_bound n 10 ltac:(lia)) as Hm.
  destruct (Z.ltb_spec n 10).
  - exists 1. split; [lia|]. cbn [parse_digits]. rewrite digit_value_char by done. cbn.
    rewrite Z.mod_small by lia. f_equal. lia.
  - assert (0 < fuel)%nat by (destruct fuel; [cbn in Hn; lia | lia]).
    assert (n / 10 < 2 ^ Z.of_nat fuel).
    { apply Z.div_lt_upper_bound; [lia|]. rewrite Nat2Z.inj_succ, Z.pow_succ_r in Hn by lia. lia. }
    destruct (IH (n / 10) (String (digit_char (n mod 10)) tail) acc) as (k & Hk & ->);
      [split; [apply Z.div_pos; lia | done] | done |].
    exists (k + 1). split; [lia|]. cbn [parse_digits]. rewrite digit_value_char by done. cbn.
    f_equal. rewrite Z.pow_add_r by lia. pose proof (Z.div_mod n 10 ltac:(lia)). lia.
Qed.

Lemma parse_Itoa_digits n :
  0 <= n -> parse_digits 0 (digits (S (Z.to_nat (Z.log2 n))) n "") = Some n.
Proof.
  intros Hn. destruct (parse_digits_digits (S (Z.to_nat (Z.log2 n))) n "" 0) as (k & _ & ->).
  - pose proof (Z.log2_nonneg n). split; [done|]. rewrite Nat2Z.inj_succ, Z2Nat.id by done.
    destruct (Z.eq_dec n 0) as [->|]; [done|]. apply Z.log2_spec. lia.
  - lia.
  - done.
Qed.

(** The first character of a printed number is a digit. *)
Lemma digits_head fuel : forall n tail, (0 < fuel)%nat ->
  exists d s, 0 <= d < 10 /\ digits fuel n tail = String (digit_char d) s.
Proof.
  induction fuel as [|fuel IH]; intros n tail Hf; [lia|]. cbn [digits].
  pose proof (Z.mod_pos_bound n 10 ltac:(lia)).
  destruct (n <? 10); [by eexists _, _|]. destruct fuel; [by eexists _, _|]. apply IH. lia.
Qed.

Lemma Atoi_digit d s : 0 <= d < 10 ->
  Atoi (String (digit_char d) s)
  = (n ← parse_digits 0 (String (digit_char d) s);
     if (- 2 ^ 63 <=? n) && (n <? 2 ^ 63) then Some n else None).
Proof.
  intros Hd. revert s. pattern d. revert Hd. apply digit_ind. by repeat constructor.
Qed.

(** Every [int] is read back as it was printed. *)
Lemma Atoi_Itoa n : is_i64 n -> Atoi (Itoa n) = Some n.
Proof.
  intros Hn. unfold is_i64 in Hn. unfold Itoa. destruct (Z.ltb_spec n 0).
  - pose proof (parse_Itoa_digits (- n) ltac:(lia)) as Hp.
    destruct (digits_head (S (Z.to_nat (Z.log2 (- n)))) (- n) "" ltac:(lia)) as (d & s & Hd & E).
    rewrite E in Hp |- *. cbn [Atoi]. rewrite decide_False by done. rewrite Hp. cbn [mbind option_bind].
    replace (- - n) with n by lia. zcase; [|lia]. zcase; [done|lia].
  - pose proof (parse_Itoa_digits n ltac:(lia)) as Hp.
    destruct (digits_head (S (Z.to_nat (Z.log2 n))) n "" ltac:(lia)) as (d & s & Hd & E).
    rewrite E in Hp |- *. rewrite Atoi_digit, Hp by done. cbn [mbind option_bind].
    zcase; [|lia]. zcase; [done|lia].
Qed.

(** What is read fits the type. *)
Lemma parse_digits_nonneg s : forall acc n, 0 <= acc -> parse_digits acc s = Some n -> 0 <= n.
Proof.
  induction s as [|c s IH]; intros acc n Ha; cbn [parse_digits]; [by intros [= <-]|].
  unfold digit_value. destruct ((48 <=? _) && _) eqn:E; [|done]. cbn [mbind option_bind]. zbool.
  apply IH. lia.
Qed.

Lemma Atoi_i64 s n : Atoi s = Some n -> is_i64 n.
Proof.
  unfold Atoi. intros H. repeat case_match; try done; try (by simplify_eq);
    destruct (parse_digits _ _) as [v|]; cbn in H; try done; case_match; try done; simplify_eq;
    zbool; unfold is_i64; lia.
Qed.
