(* ===== verification/Url.v ===== *)
(** * Escaping in URLs: the parts of [net/url] the code uses

    [url.QueryEscape] and [url.PathEscape] on the side of the clients, and
    [Query().Get] on the side of the handlers. *)

From S2P Require Import Prelude.
From S2P Require Import GoBase.
From Stdlib Require Import Ascii.

(** ** Escaping *)

Definition hex_digit (n : N) : ascii := default "0"%char (String.get (N.to_nat n) "0123456789ABCDEF").

Definition unhex (c : ascii) : option N :=
  let n := N_of_ascii c in
  if ((48 <=? n) && (n <=? 57))%N then Some (n - 48)%N
  else if ((97 <=? n) && (n <=? 102))%N then Some (n - 97 + 10)%N
  else if ((65 <=? n) && (n <=? 70))%N then Some (n - 65 + 10)%N
  else None.

Definition is_in (s : string) (c : ascii) : bool :=
  existsb (Ascii.eqb c) (String.list_ascii_of_string s).

(** Letters, digits and the unreserved marks. *)
Definition unreserved (c : ascii) : bool :=
  let n := N_of_ascii c in
  ((97 <=? n) && (n <=? 122))%N || ((65 <=? n) && (n <=? 90))%N || ((48 <=? n) && (n <=? 57))%N
  || is_in "-_.~" c.

Definition percent (c : ascii) : string :=
  let n := N_of_ascii c in
  String "%" (String (hex_digit (n / 16)) (String (hex_digit (n mod 16)) EmptyString)).

Definition escape_query_char (c : ascii) : string :=
  if Ascii.eqb c " " then "+"
  else if unreserved c then String c EmptyString else percent c.

Definition escape_path_char (c : ascii) : string :=
  if unreserved c || is_in "$&+=:@" c then String c EmptyString else percent c.

Fixpoint escape (f : ascii -> string) (s : string) : string :=
  match s with
  | EmptyString => EmptyString
  | String c s' => f c +:+ escape f s'
  end.

Definition QueryEscape : string -> string := escape escape_query_char.
Definition PathEscape : string -> string := escape escape_path_char.

(** [QueryUnescape] ([plus = true]) and [PathUnescape]; [None] is an error. *)
Fixpoint unescape (plus : bool) (s : string) : option string :=
  match s with
  | EmptyString => Some EmptyString
  | String "%" (String a (String b s')) =>
      x ← unhex a; y ← unhex b; r ← unescape plus s';
      Some (String (ascii_of_N (16 * x + y)) r)
  | String "%" _ => None
  | String c s' => r ← unescape plus s'; Some (String (if plus && Ascii.eqb c "+" then " "%char else c) r)
  end.

(** ** Query strings *)

(** [strings.Cut(s, sep)]: what is before the first separator, and what is
    after it ("" when there is none). *)
Fixpoint cut (sep : ascii) (s : string) : string * string :=
  match s with
  | EmptyString => (EmptyString, EmptyString)
  | String c s' =>
      if Ascii.eqb c sep then (EmptyString, s')
      else let '(a, b) := cut sep s' in (String c a, b)
  end.

Fixpoint has_char (x : ascii) (s : string) : bool :=
  match s with
  | EmptyString => false
  | String c s' => Ascii.eqb c x || has_char x s'
  end.

(** One [key=value] of a query; a piece with a semicolon or a bad escape is
    dropped. *)
Definition query_pair (piece : string) : option (string * string) :=
  if decide (piece = "") then None
  else if has_char ";" piece then None
  else
    let '(k, v) := cut "=" piece in
    k' ← unescape true k; v' ← unescape true v; Some (k', v').

Fixpoint parse_query (fuel : nat) (query : string) : list (string * string) :=
  match fuel with
  | O => []
  | S fuel' =>
      if decide (query = "") then []
      else
        let '(piece, rest) := cut "&" query in
        match query_pair piece with
        | Some kv => kv :: parse_query fuel' rest
        | None => parse_query fuel' rest
        end
  end.

(** [r.URL.Query().Get(key)]: the first value of the key, "" when there is
    none. *)
Definition query_get (query key : string) : string :=
  default "" (snd <$> (list_find (fun kv => kv.1 = key) (parse_query (S (String.length query)) query)
                        ≫= fun '(_, kv) => Some kv)).

Example query_get_run :
  query_get "sender_id=node+1%2Fa&sender_addr=10.0.0.1%3A8080" "sender_addr" = "10.0.0.1:8080".
Proof. vm_compute. reflexivity. Qed.

(** ** Round trips *)

Lemma escape_query_char_facts c :
  (forall s, unescape true (escape_query_char c +:+ s) = String c <$> unescape true s) /\
  has_char "&" (escape_query_char c) = false /\ has_char "=" (escape_query_char c) = false /\
  has_char ";" (escape_query_char c) = false.
Proof.
  destruct c as [[] [] [] [] [] [] [] []]; repeat split.
Qed.

Lemma escape_path_char_facts c s :
  unescape false (escape_path_char c +:+ s) = String c <$> unescape false s.
Proof. destruct c as [[] [] [] [] [] [] [] []]; reflexivity. Qed.

Lemma string_cons_app c a b : String c a +:+ b = String c (a +:+ b).
Proof. done. Qed.

Lemma has_char_app x a b : has_char x (a +:+ b) = has_char x a || has_char x b.
Proof. induction a as [|c a IH]; [done|]. rewrite string_cons_app. cbn. by rewrite IH, orb_assoc. Qed.

Lemma QueryUnescape_QueryEscape s : unescape true (QueryEscape s) = Some s.
Proof.
  induction s as [|c s IH]; [done|]. unfold QueryEscape in *. cbn [escape].
  rewrite (proj1 (escape_query_char_facts c)), IH. done.
Qed.

Lemma PathUnescape_PathEscape s : unescape false (PathEscape s) = Some s.
Proof.
  induction s as [|c s IH]; [done|]. unfold PathEscape in *. cbn [escape].
  rewrite escape_path_char_facts, IH. done.
Qed.

Lemma QueryEscape_clean s :
  has_char "&" (QueryEscape s) = false /\ has_char "=" (QueryEscape s) = false /\
  has_char ";" (QueryEscape s) = false.
Proof.
  induction s as [|c s (H1 & H2 & H3)]; [done|]. unfold QueryEscape in *. cbn [escape].
  rewrite !has_char_app, H1, H2, H3.
  destruct (escape_query_char_facts c) as (_ & -> & -> & ->). done.
Qed.

Lemma cut_first sep a b : has_char sep a = false -> cut sep (a +:+ String sep b) = (a, b).
Proof.
  induction a as [|c a IH]; intros H.
  - change ("" +:+ String sep b) with (String sep b). cbn. by rewrite Ascii.eqb_refl.
  - rewrite string_cons_app. cbn in *. apply orb_false_iff in H as [-> H]. by rewrite IH.
Qed.

Lemma cut_none sep a : has_char sep a = false -> cut sep a = (a, "").
Proof.
  induction a as [|c a IH]; cbn; intros H; [done|].
  apply orb_false_iff in H as [-> H]. by rewrite IH.
Qed.

Lemma string_app_assoc (a b c : string) : (a +:+ b) +:+ c = a +:+ (b +:+ c).
Proof. induction a as [|x a IH]; [done|]. rewrite !string_cons_app. by rewrite IH. Qed.

(** One escaped pair. *)
Definition plain_key (k : string) : bool :=
  negb (has_char "&" k || has_char "=" k || has_char ";" k || has_char "%" k || has_char "+" k)
  && negb (bool_decide (k = "")).

Lemma unescape_plain k : has_char "%" k = false -> has_char "+" k = false -> unescape true k = Some k.
Proof.
  induction k as [|c k IH]; intros H1 H2; [done|]. cbn in H1, H2.
  apply orb_false_iff in H1 as [Hc1 H1]. apply orb_false_iff in H2 as [Hc2 H2].
  specialize (IH H1 H2). destruct c as [[] [] [] [] [] [] [] []]; try discriminate Hc1;
    try discriminate Hc2; cbn; rewrite IH; reflexivity.
Qed.

Lemma plain_key_facts k : plain_key k = true ->
  has_char "&" k = false /\ has_char "=" k = false /\ has_char ";" k = false /\
  unescape true k = Some k /\ k <> "".
Proof.
  unfold plain_key. intros [H Hne]%andb_prop. apply negb_true_iff in H, Hne.
  rewrite !orb_false_iff in H. destruct H as ((((H1 & H2) & H3) & H4) & H5).
  apply bool_decide_eq_false in Hne. repeat split; try done. by apply unescape_plain.
Qed.

Lemma query_pair_escaped k v : plain_key k = true ->
  query_pair (k +:+ String "=" (QueryEscape v)) = Some (k, v).
Proof.
  intros (_ & H2 & H3 & H4 & H5)%plain_key_facts. unfold query_pair.
  rewrite decide_False by (by destruct k). rewrite has_char_app. cbn [has_char].
  destruct (QueryEscape_clean v) as (_ & _ & Hv3). rewrite H3, Hv3. cbn [orb Ascii.eqb Bool.eqb].
  rewrite cut_first by done. rewrite H4. cbn. by rewrite QueryUnescape_QueryEscape.
Qed.

Lemma pair_no_amp k v : plain_key k = true ->
  has_char "&" (k +:+ String "=" (QueryEscape v)) = false.
Proof.
  intros (H1 & _)%plain_key_facts. destruct (QueryEscape_clean v) as (Hv & _).
  rewrite has_char_app. cbn [has_char]. by rewrite H1, Hv.
Qed.

(** A query of two escaped pairs is parsed to the two pairs. *)
Lemma parse_two_pairs k1 k2 v1 v2 :
  plain_key k1 = true -> plain_key k2 = true ->
  let q := k1 +:+ String "=" (QueryEscape v1 +:+ String "&" (k2 +:+ String "=" (QueryEscape v2))) in
  parse_query (S (String.length q)) q = [(k1, v1); (k2, v2)].
Proof.
  intros H1 H2 q.
  assert (q = (k1 +:+ String "=" (QueryEscape v1)) +:+ String "&" (k2 +:+ String "=" (QueryEscape v2)))
    as Eq by (subst q; by rewrite string_app_assoc).
  assert (exists n, String.length q = S (S n)) as [n Hn].
  { destruct k1 as [|c1 k1]; [done|]. subst q. destruct k1 as [|c2 k1]; by eexists. }
  rewrite Hn. cbn [parse_query].
  rewrite decide_False by (subst q; by destruct k1).
  rewrite Eq, cut_first by (by apply pair_no_amp). rewrite query_pair_escaped by done.
  rewrite decide_False by (by destruct k2).
  rewrite cut_none by (by apply pair_no_amp). rewrite query_pair_escaped by done.
  by rewrite decide_True.
Qed.

(** ** Queries of any number of pairs *)

Lemma string_length_app (a b : string) :
  String.length (a +:+ b) = (String.length a + String.length b)%nat.
Proof. induction a as [|c a IH]; [done|]. rewrite string_cons_app. cbn. by rewrite IH. Qed.

Definition encode_pair (kv : string * string) : string := kv.1 +:+ String "=" (QueryEscape kv.2).
Definition encode_pairs (l : list (string * string)) : string := String.concat "&" (map encode_pair l).

Lemma encode_pairs_cons kv l : l <> [] -> encode_pairs (kv :: l) = encode_pair kv +:+ String "&" (encode_pairs l).
Proof. by destruct l. Qed.

(** An encoded query is parsed to its pairs. *)
Lemma parse_encode_pairs l : forall fuel,
  Forall (fun kv => plain_key kv.1 = true) l -> (String.length (encode_pairs l) < fuel)%nat ->
  parse_query fuel (encode_pairs l) = l.
Proof.
  induction l as [|[k v] l IH]; intros fuel Hl Hf; (destruct fuel as [|fuel]; [lia|]); [done|].
  inversion Hl as [|? ? Hk Hl']; subst. cbn [fst] in Hk.
  destruct (plain_key_facts k Hk) as (_ & _ & _ & _ & Hne).
  assert (forall t, encode_pair (k, v) +:+ t <> "") as Hpair by (intros t; by destruct k).
  cbn [parse_query]. destruct (decide (l = [])) as [->|Hcons].
  - change (encode_pairs [(k, v)]) with (encode_pair (k, v)) in *.
    rewrite decide_False by (by destruct k). rewrite cut_none by (by apply pair_no_amp).
    unfold encode_pair; cbn [fst snd]. rewrite query_pair_escaped by done. by destruct fuel.
  - rewrite encode_pairs_cons in Hf |- * by done. rewrite decide_False by done.
    rewrite string_length_app in Hf. cbn [String.length] in Hf.
    rewrite cut_first by (by apply pair_no_amp). unfold encode_pair at 1; cbn [fst snd].
    rewrite query_pair_escaped by done. rewrite IH; [done|done|lia].
Qed.
