(* ===== verification/FilePath.v ===== *)
(** * [path/filepath] on Unix

    [Clean], [Join] and [Dir] as the sources use them to place [wal.log],
    [snapshot.bin] and [snapshot.bin.tmp] in the data directory.  The lemma at
    the end shows that the path the snapshot is written to, computed from the
    log's path, is the path the server reads at start-up. *)

From S2P Require Import Prelude.
From S2P Require Import GoBase.
From Stdlib Require Import Ascii.
From Stdlib Require String.

Definition is_slash (c : ascii) : bool := Ascii.eqb c "/".

(** The elements between slashes, empty ones included. *)
Fixpoint split_slash (s : string) : list string :=
  match s with
  | EmptyString => [EmptyString]
  | String c s' =>
      if is_slash c then EmptyString :: split_slash s'
      else match split_slash s' with
           | h :: t => String c h :: t
           | [] => [String c EmptyString]
           end
  end.

(** One element of [Clean]'s scan; [out] is the output so far, last element
    first. *)
Definition clean_step (rooted : bool) (out : list string) (e : string) : list string :=
  if decide (e = "" \/ e = ".") then out
  else if decide (e = "..") then
    match out with
    | top :: out' =>
        if decide (top = "..") then (if rooted then out else e :: out) else out'
    | [] => if rooted then [] else [e]
    end
  else e :: out.

Definition rooted (path : string) : bool :=
  match path with String c _ => is_slash c | EmptyString => false end.

Definition render (r : bool) (out : list string) : string :=
  let body := String.concat "/" (rev out) in
  if r then "/" +:+ body else match out with [] => "." | _ => body end.

Definition Clean (path : string) : string :=
  render (rooted path) (fold_left (clean_step (rooted path)) (split_slash path) []).

Definition Join (dir file : string) : string :=
  if decide (dir = "") then (if decide (file = "") then "" else Clean file)
  else Clean (dir +:+ "/" +:+ file).

Fixpoint has_slash (s : string) : bool :=
  match s with
  | EmptyString => false
  | String c s' => is_slash c || has_slash s'
  end.

(** [path[:i+1]] for the last slash at [i], [""] when there is none. *)
Fixpoint dir_part (s : string) : string :=
  match s with
  | EmptyString => EmptyString
  | String c s' => if has_slash s then String c (dir_part s') else EmptyString
  end.

Definition Dir (path : string) : string := Clean (dir_part path).

Example filepath_run :
  (Join "./data" "wal.log", Join "/var//kv/../db/" "wal.log", Dir "data/wal.log",
   Join "../x/.." "f", Dir "/wal.log")
  = ("data/wal.log", "/var/db/wal.log", "data", "../f", "/").
Proof. reflexivity. Qed.

(** ** Splitting *)

Definition plain (e : string) : Prop := has_slash e = false.

Lemma has_slash_app a b : has_slash (a +:+ b) = has_slash a || has_slash b.
Proof.
  induction a as [|c a IH]; [done|].
  change (String c a +:+ b) with (String c (a +:+ b)). simpl. by rewrite IH, orb_assoc.
Qed.

Lemma split_slash_nonempty s : split_slash s <> [].
Proof.
  destruct s as [|c s]; [done|]. simpl. destruct (is_slash c); [done|].
  by destruct (split_slash s).
Qed.

Lemma split_slash_app a b : split_slash (a +:+ "/" +:+ b) = split_slash a ++ split_slash b.
Proof.
  induction a as [|c a IH]; [done|].
  change (String c a +:+ "/" +:+ b) with (String c (a +:+ "/" +:+ b)).
  cbn [split_slash]. rewrite IH. destruct (is_slash c); [done|].
  destruct (split_slash a) eqn:E; [by destruct (split_slash_nonempty a) | done].
Qed.

Lemma split_slash_plain e : plain e -> split_slash e = [e].
Proof.
  unfold plain. induction e as [|c e IH]; [done|]. simpl. intros H.
  apply orb_false_iff in H as [-> H]. by rewrite IH.
Qed.

Lemma split_slash_all_plain s : Forall plain (split_slash s).
Proof.
  induction s as [|c s IH]; [by repeat constructor|]. simpl.
  destruct (is_slash c) eqn:Hc; [by constructor|].
  destruct IH as [|h t Hh Ht]; [by repeat constructor; unfold plain; simpl; rewrite Hc|].
  constructor; [|done]. unfold plain in *. simpl. by rewrite Hc, Hh.
Qed.

Lemma concat_snoc (l : list string) f :
  l <> [] -> String.concat "/" (l ++ [f]) = String.concat "/" l +:+ "/" +:+ f.
Proof.
  induction l as [|a l IH]; [done|]. intros _. destruct l as [|b l]; [done|].
  cbn [app String.concat] in *. rewrite IH by done. clear.
  induction a as [|c a IH]; [done|].
  change (String c (a +:+ "/" +:+ (String.concat "/" (b :: l) +:+ "/" +:+ f))
    = String c ((a +:+ "/" +:+ String.concat "/" (b :: l)) +:+ "/" +:+ f)).
  by f_equal.
Qed.

Lemma split_concat l :
  l <> [] -> Forall plain l -> split_slash (String.concat "/" l) = l.
Proof.
  induction l as [|f l IH] using rev_ind; [done|]. intros _ [Hl Hf]%Forall_app.
  inversion Hf; subst. destruct (decide (l = [])) as [->|Hne].
  - by apply split_slash_plain.
  - by rewrite concat_snoc, split_slash_app, IH, split_slash_plain.
Qed.

(** ** What a cleaned path looks like *)

(** The output of [Clean], last element first: proper elements, with [".."]
    only at the start of a relative path. *)
Inductive cleaned (r : bool) : list string -> Prop :=
  | cleaned_nil : cleaned r []
  | cleaned_dots out : r = false -> cleaned r out -> Forall (eq "..") out ->
      cleaned r (".." :: out)
  | cleaned_elem e out : plain e -> e <> "" -> e <> "." -> e <> ".." ->
      cleaned r out -> cleaned r (e :: out).

Lemma clean_step_cleaned r out e :
  cleaned r out -> plain e -> cleaned r (clean_step r out e).
Proof.
  intros Hc He. unfold clean_step. case_decide as H1; [done|].
  case_decide as H2; [|constructor; auto; naive_solver].
  subst. destruct Hc as [|out -> Hc Hd|e out ? ? ? ? Hc].
  - destruct r; by repeat constructor.
  - rewrite decide_True by done. constructor; [done|by constructor|by constructor].
  - by rewrite decide_False.
Qed.

Lemma clean_fold_cleaned r l out :
  cleaned r out -> Forall plain l -> cleaned r (fold_left (clean_step r) l out).
Proof.
  intros Hc Hl. revert out Hc. induction Hl; intros out Hc; [done|].
  simpl. auto using clean_step_cleaned.
Qed.

Lemma cleaned_plain r out : cleaned r out -> Forall plain out.
Proof. by induction 1; constructor. Qed.

(** Scanning a cleaned path again rebuilds it. *)
Lemma clean_fold_id r out :
  cleaned r out -> fold_left (clean_step r) (rev out) [] = out.
Proof.
  induction 1 as [|out -> Hc IH Hd|e out ? ? ? ? Hc IH]; [done|..];
    simpl; rewrite fold_left_app, IH; simpl; unfold clean_step.
  - rewrite decide_False by (by intros [|]). rewrite decide_True by done.
    destruct Hd as [|? ? <- ?]; [done|]. by rewrite decide_True.
  - rewrite decide_False by (by intros [|]). by rewrite decide_False.
Qed.

Definition file_name (f : string) : Prop :=
  plain f /\ f <> "" /\ f <> "." /\ f <> "..".

Lemma clean_step_file r out f : file_name f -> clean_step r out f = f :: out.
Proof.
  intros (_ & ? & ? & ?). unfold clean_step. rewrite decide_False by (by intros [|]).
  by rewrite decide_False.
Qed.

(** The elements [Clean] keeps of a directory path. *)
Definition dir_elems (d : string) : list string :=
  fold_left (clean_step (rooted d)) (split_slash d) [].

Lemma dir_elems_cleaned d : cleaned (rooted d) (dir_elems d).
Proof. apply clean_fold_cleaned; [constructor | apply split_slash_all_plain]. Qed.

Lemma rooted_app d s : d <> "" -> rooted (d +:+ s) = rooted d.
Proof. by destruct d. Qed.

Lemma Join_render d f :
  file_name f -> Join d f = render (rooted d) (f :: dir_elems d).
Proof.
  intros Hf. unfold Join, Clean. case_decide as Hd.
  - subst. rewrite decide_False by apply Hf. cbn [rooted dir_elems split_slash fold_left].
    rewrite split_slash_plain by apply Hf.
    assert (rooted f = false) as ->.
    { destruct Hf as [Hf _]. destruct f; [done|]. unfold plain in Hf. simpl in *.
      by apply orb_false_iff in Hf as [? _]. }
    simpl. by rewrite clean_step_file.
  - rewrite rooted_app, split_slash_app, fold_left_app by done.
    rewrite (split_slash_plain f) by apply Hf. simpl. by rewrite clean_step_file.
Qed.

Lemma render_nonempty r out : cleaned r out -> render r out <> "".
Proof.
  intros Hc. unfold render. destruct r; [done|].
  destruct out as [|e out]; [done|]. simpl.
  destruct (decide (rev out = [])) as [->|Hr]; [inversion Hc; subst; done|].
  rewrite concat_snoc by done. by destruct (String.concat "/" (rev out)).
Qed.

Lemma render_rooted r out : cleaned r out -> rooted (render r out) = r.
Proof.
  intros Hc. unfold render. destruct r; [done|]. destruct out as [|e out]; [done|].
  assert (Forall plain (rev (e :: out))) as Hp
    by (rewrite <-(Permutation_rev (e :: out)); by apply cleaned_plain in Hc).
  assert (Forall (.≠ "") (rev (e :: out))) as Hn.
  { rewrite <-(Permutation_rev (e :: out)). clear Hp.
    by induction Hc; constructor. }
  destruct (rev (e :: out)) as [|x l] eqn:E; [done|].
  inversion Hp as [|? ? Hx _]; inversion Hn; subst. clear E.
  destruct x as [|c x]; [done|]. unfold plain in Hx. simpl in Hx.
  apply orb_false_iff in Hx as [Hx _]. by destruct l.
Qed.

Lemma render_elems r out : cleaned r out -> dir_elems (render r out) = out.
Proof.
  intros Hc. unfold dir_elems. rewrite render_rooted by done.
  assert (Forall plain (rev out)) as Hp
    by (rewrite <-(Permutation_rev out); by apply cleaned_plain in Hc).
  destruct out as [|e out]; [by destruct r|].
  assert (rev (e :: out) <> []) as Hne by (simpl; by destruct (rev out)).
  destruct r; unfold render.
  - change ("/" +:+ ?b) with ("" +:+ "/" +:+ b).
    rewrite split_slash_app, fold_left_app, split_concat by done.
    change (fold_left (clean_step true) (split_slash "") []) with (@nil string).
    by apply clean_fold_id.
  - rewrite split_concat by done. by apply clean_fold_id.
Qed.

(** ** [Dir] undoes [Join] *)

Lemma dir_part_plain f : plain f -> dir_part f = "".
Proof. unfold plain. destruct f; [done|]. cbn [dir_part]. by intros ->. Qed.

Lemma dir_part_snoc a f : plain f -> dir_part (a +:+ "/" +:+ f) = a +:+ "/" +:+ "".
Proof.
  intros Hf. induction a as [|c a IH].
  - change (dir_part (String "/" f) = "/"). cbn [dir_part has_slash].
    change (is_slash "/") with true. simpl. by rewrite dir_part_plain.
  - change (dir_part (String c (a +:+ "/" +:+ f)) = String c (a +:+ "/" +:+ "")).
    cbn [dir_part has_slash]. rewrite IH, has_slash_app.
    change (has_slash ("/" +:+ f)) with true. by rewrite !orb_true_r.
Qed.

Lemma Clean_trailing_slash r out :
  cleaned r out -> Clean (render r out +:+ "/" +:+ "") = render r out.
Proof.
  intros Hc. unfold Clean.
  rewrite rooted_app by (by apply render_nonempty). rewrite render_rooted by done.
  rewrite split_slash_app, fold_left_app.
  pose proof (render_elems r out Hc) as He. unfold dir_elems in He.
  rewrite render_rooted in He by done. rewrite He. simpl.
  unfold clean_step. by rewrite decide_True by auto.
Qed.

Lemma Dir_render r f out :
  file_name f -> cleaned r out -> Dir (render r (f :: out)) = render r out.
Proof.
  intros Hf Hc. unfold Dir. destruct out as [|e out].
  - destruct r; unfold render; simpl.
    + change (Clean (dir_part ("" +:+ "/" +:+ f)) = "/"). by rewrite dir_part_snoc by apply Hf.
    + by rewrite dir_part_plain by apply Hf.
  - assert (render r (f :: e :: out) = render r (e :: out) +:+ "/" +:+ f) as ->.
    { unfold render. change (rev (f :: e :: out)) with (rev (e :: out) ++ [f]).
      rewrite concat_snoc by (simpl; by destruct (rev out)). by destruct r. }
    rewrite dir_part_snoc by apply Hf. by apply Clean_trailing_slash.
Qed.

(** A sibling of a file in the data directory has the path the data directory
    gives it. *)
Lemma Join_Dir_Join d f g :
  file_name f -> file_name g -> Join (Dir (Join d f)) g = Join d g.
Proof.
  intros Hf Hg. pose proof (dir_elems_cleaned d) as Hc.
  rewrite (Join_render d f), Dir_render, !Join_render by done.
  by rewrite render_rooted, render_elems.
Qed.

(** Different file names give different paths. *)
Lemma Join_inj d f g : file_name f -> file_name g -> Join d f = Join d g -> f = g.
Proof.
  intros Hf Hg. rewrite !Join_render by done. intros H.
  pose proof (dir_elems_cleaned d) as Hc.
  assert (forall h, file_name h -> cleaned (rooted d) (h :: dir_elems d)) as Hx
    by (intros h (? & ? & ? & ?); by constructor).
  apply (f_equal dir_elems) in H. rewrite !render_elems in H by auto. by inversion H.
Qed.
