(* ===== verification/Hashes.v ===== *)
(** * The hash functions the store relies on

    [hash/crc32]'s [ChecksumIEEE], which protects the records of the log and
    of the snapshot, and [hash/fnv]'s 32-bit FNV-1a, which selects a shard. *)

From S2P Require Import Prelude.
From S2P Require Import GoBase.

(** ** CRC-32 (IEEE), bit by bit in the reflected form *)

Definition crc_poly : Z := 0xEDB88320.

Definition crc_bit (c : Z) : Z :=
  if Z.odd c then Z.lxor (Z.shiftr c 1) crc_poly else Z.shiftr c 1.

Definition crc_byte (c : Z) (b : byte) : Z :=
  Nat.iter 8 crc_bit (Z.lxor c (byte_to_Z b)).

Definition ChecksumIEEE (p : list byte) : Z :=
  Z.lxor (fold_left crc_byte p 0xFFFFFFFF) 0xFFFFFFFF.

(** ** FNV-1a *)

Definition fnv_step (h : Z) (b : byte) : Z :=
  u32 (Z.lxor h (byte_to_Z b) * 16777619).

Definition fnv32a (p : list byte) : Z := fold_left fnv_step p 2166136261.

(** Published check values of the two functions. *)
Example crc32_check : ChecksumIEEE (bytes_of "123456789") = 0xCBF43926.
Proof. vm_compute. reflexivity. Qed.

Example fnv32a_check :
  (fnv32a [], fnv32a (bytes_of "a"), fnv32a (bytes_of "foobar"))
  = (0x811c9dc5, 0xe40c292c, 0xbf9cf968).
Proof. vm_compute. reflexivity. Qed.

(** ** Ranges *)

Lemma lxor_range n a b :
  0 <= n -> 0 <= a < 2 ^ n -> 0 <= b < 2 ^ n -> 0 <= Z.lxor a b < 2 ^ n.
Proof.
  intros Hn Ha Hb.
  enough (Z.lxor a b = Z.lxor a b mod 2 ^ n) as -> by (apply Z.mod_pos_bound; lia).
  rewrite <-Z.land_ones by done.
  apply Z.bits_inj'. intros i Hi. rewrite Z.land_spec, Z.lxor_spec.
  rewrite <-(Z.mod_small a (2 ^ n)), <-(Z.mod_small b (2 ^ n)) by done.
  destruct (Z.ltb_spec i n).
  - rewrite Z.ones_spec_low by lia. by rewrite andb_true_r.
  - by rewrite !Z.mod_pow2_bits_high by lia.
Qed.

Definition is_u32 (z : Z) : Prop := 0 <= z < 2 ^ 32.

Lemma shiftr1_range c : is_u32 c -> 0 <= Z.shiftr c 1 < 2 ^ 31.
Proof.
  unfold is_u32. intros H. rewrite Z.shiftr_div_pow2 by lia. change (2 ^ 1) with 2.
  split; [apply Z.div_pos; lia | apply Z.div_lt_upper_bound; lia].
Qed.

Lemma crc_bit_u32 c : is_u32 c -> is_u32 (crc_bit c).
Proof.
  intros H%shiftr1_range. unfold crc_bit, is_u32. destruct (Z.odd c); [|lia].
  apply lxor_range; [lia | lia | unfold crc_poly; lia].
Qed.

Lemma crc_iter_u32 n c : is_u32 c -> is_u32 (Nat.iter n crc_bit c).
Proof. intros H. induction n; [done|]. by apply crc_bit_u32. Qed.

Lemma byte_u32 b : is_u32 (byte_to_Z b).
Proof. unfold is_u32. pose proof (byte_to_Z_range b). lia. Qed.

Lemma lxor_u32 a b : is_u32 a -> is_u32 b -> is_u32 (Z.lxor a b).
Proof. intros. by apply lxor_range. Qed.

Lemma crc_byte_u32 c b : is_u32 c -> is_u32 (crc_byte c b).
Proof. intros H. apply crc_iter_u32. apply lxor_u32; [done | apply byte_u32]. Qed.

#[export] Hint Resolve crc_bit_u32 crc_byte_u32 lxor_u32 byte_u32 : kv.

Lemma crc_fold_u32 p c : is_u32 c -> is_u32 (fold_left crc_byte p c).
Proof. revert c. induction p; simpl; auto with kv. Qed.

Lemma ChecksumIEEE_range p : 0 <= ChecksumIEEE p < 2 ^ 32.
Proof. apply lxor_u32; [apply crc_fold_u32|]; unfold is_u32; lia. Qed.

Lemma fnv32a_range p : 0 <= fnv32a p < 2 ^ 32.
Proof.
  unfold fnv32a. assert (is_u32 2166136261) as H by (unfold is_u32; lia).
  revert H. generalize 2166136261. induction p as [|b p IH]; intros h H; [done|].
  simpl. apply IH. apply u32_range.
Qed.

(** ** The CRC register never forgets a difference *)

Lemma lxor_cancel_r a b c : Z.lxor a c = Z.lxor b c -> a = b.
Proof.
  intros H. apply (f_equal (fun x => Z.lxor x c)) in H.
  by rewrite !Z.lxor_assoc, Z.lxor_nilpotent, !Z.lxor_0_r in H.
Qed.

Lemma lxor_cancel_l a b c : Z.lxor c a = Z.lxor c b -> a = b.
Proof. rewrite !(Z.lxor_comm c). apply lxor_cancel_r. Qed.

(** The top bit of the shifted register is the bit that was shifted out. *)
Lemma crc_bit_top c : is_u32 c -> Z.testbit (crc_bit c) 31 = Z.odd c.
Proof.
  intros H%shiftr1_range. unfold crc_bit.
  assert (Z.testbit (Z.shiftr c 1) 31 = false) as Hs.
  { rewrite <-(Z.mod_small _ (2 ^ 31)) by done. by apply Z.mod_pow2_bits_high. }
  destruct (Z.odd c); [|done]. by rewrite Z.lxor_spec, Hs.
Qed.

Lemma crc_bit_inj c d : is_u32 c -> is_u32 d -> crc_bit c = crc_bit d -> c = d.
Proof.
  intros Hc Hd H.
  assert (Z.odd c = Z.odd d) as Ho by (by rewrite <-!crc_bit_top, H).
  assert (Z.shiftr c 1 = Z.shiftr d 1) as Hs.
  { revert H. unfold crc_bit. rewrite Ho.
    destruct (Z.odd d); [apply lxor_cancel_r | done]. }
  rewrite (Z.div2_odd c), (Z.div2_odd d), !Z.div2_spec. by rewrite Hs, Ho.
Qed.

Lemma crc_iter_inj n c d :
  is_u32 c -> is_u32 d -> Nat.iter n crc_bit c = Nat.iter n crc_bit d -> c = d.
Proof.
  intros Hc Hd. induction n as [|n IH]; [done|]. intros H.
  apply IH, crc_bit_inj; [by apply crc_iter_u32.. | exact H].
Qed.

Lemma crc_byte_inj_l c d b :
  is_u32 c -> is_u32 d -> crc_byte c b = crc_byte d b -> c = d.
Proof. intros Hc Hd H%crc_iter_inj; auto with kv. by apply lxor_cancel_r in H. Qed.

Lemma crc_byte_inj_r c a b : is_u32 c -> crc_byte c a = crc_byte c b -> a = b.
Proof.
  intros Hc H%crc_iter_inj; auto with kv.
  apply lxor_cancel_l in H. by apply byte_to_Z_inj.
Qed.

Lemma crc_fold_inj p c d :
  is_u32 c -> is_u32 d -> fold_left crc_byte p c = fold_left crc_byte p d -> c = d.
Proof.
  revert c d. induction p as [|b p IH]; intros c d Hc Hd H; [done|].
  simpl in H. apply (crc_byte_inj_l c d b); auto. apply IH; auto with kv.
Qed.

(** Two payloads of the same length that differ in exactly one byte have
    different checksums. *)
Lemma ChecksumIEEE_one_byte (p q : list byte) (a b : byte) :
  ChecksumIEEE (p ++ a :: q) = ChecksumIEEE (p ++ b :: q) -> a = b.
Proof.
  unfold ChecksumIEEE. intros H%lxor_cancel_r.
  rewrite !fold_left_app in H. simpl in H.
  assert (is_u32 (fold_left crc_byte p 0xFFFFFFFF)) as Hp
    by (apply crc_fold_u32; unfold is_u32; lia).
  apply crc_fold_inj in H; auto with kv. by apply crc_byte_inj_r in H.
Qed.
