(* ===== verification/QuickSort.v ===== *)
(** * The in-place quicksort of [internal/store/store.go]

    [sortStrings], [quickSort] and [partition] on a Go slice of strings:
    the slice is a list updated by index, an index out of range is a panic
    ([None]), and the recursion of [quickSort] is bounded by fuel.  The
    theorems show that the fuel [sortStrings] is given always suffices, that no
    index is ever out of range, and that the result is the sorted permutation
    of the input. *)

From S2P Require Import Prelude.
From S2P Require Import GoBase.

(** ** Slice access *)

Definition arr_get (arr : list string) (i : Z) : option string :=
  if 0 <=? i then arr !! Z.to_nat i else None.

Definition arr_set (arr : list string) (i : Z) (x : string) : option (list string) :=
  if (0 <=? i) && (i <? Z.of_nat (length arr)) then Some (<[Z.to_nat i := x]> arr)
  else None.

(** [arr[i], arr[j] = arr[j], arr[i]]. *)
Definition swap (arr : list string) (i j : Z) : option (list string) :=
  a ← arr_get arr i;
  b ← arr_get arr j;
  arr1 ← arr_set arr i b;
  arr_set arr1 j a.

(** ** The code *)

(** The [for j := low; j < high; j++] loop, [n] iterations to go. *)
Fixpoint partition_loop (n : nat) (arr : list string) (pivot : string) (i j : Z)
  : option (list string * Z) :=
  match n with
  | O => Some (arr, i)
  | S n' =>
      k ← arr_get arr j;
      if str_lt k pivot then
        arr' ← swap arr (i + 1) j;
        partition_loop n' arr' pivot (i + 1) (j + 1)
      else partition_loop n' arr pivot i (j + 1)
  end.

Definition partition (arr : list string) (low high : Z) : option (list string * Z) :=
  pivot ← arr_get arr high;
  '(arr1, i) ← partition_loop (Z.to_nat (high - low)) arr pivot (low - 1) low;
  arr2 ← swap arr1 (i + 1) high;
  Some (arr2, i + 1).

Fixpoint quickSort (fuel : nat) (arr : list string) (low high : Z)
  : option (list string) :=
  match fuel with
  | O => None
  | S fuel' =>
      if low <? high then
        '(arr1, p) ← partition arr low high;
        arr2 ← quickSort fuel' arr1 low (p - 1);
        quickSort fuel' arr2 (p + 1) high
      else Some arr
  end.

Definition sortStrings (arr : list string) : option (list string) :=
  if Z.of_nat (length arr) <? 2 then Some arr
  else quickSort (S (length arr)) arr 0 (Z.of_nat (length arr) - 1).

Example sortStrings_run :
  sortStrings ["b"; "a"; ""; "ab"; "b"] = Some [""; "a"; "ab"; "b"; "b"].
Proof. reflexivity. Qed.

(** ** Slice access at a known split of the slice *)

Lemma arr_get_mid l1 x l2 i :
  i = Z.of_nat (length l1) -> arr_get (l1 ++ x :: l2) i = Some x.
Proof.
  intros ->. unfold arr_get. destruct (Z.leb_spec 0 (Z.of_nat (length l1))); [|lia].
  rewrite Nat2Z.id. by apply list_lookup_middle.
Qed.

Lemma arr_set_mid l1 x y l2 i :
  i = Z.of_nat (length l1) -> arr_set (l1 ++ x :: l2) i y = Some (l1 ++ y :: l2).
Proof.
  intros ->. unfold arr_set. rewrite length_app. simpl.
  destruct (Z.leb_spec 0 (Z.of_nat (length l1))); [|lia].
  destruct (Z.ltb_spec (Z.of_nat (length l1)) (Z.of_nat (length l1 + S (length l2))));
    [|lia].
  simpl. rewrite Nat2Z.id, insert_app_r_alt by lia. by rewrite Nat.sub_diag.
Qed.

Lemma swap_mid l1 a m b l2 i j :
  i = Z.of_nat (length l1) -> j = Z.of_nat (length l1 + S (length m)) ->
  swap (l1 ++ a :: m ++ b :: l2) i j = Some (l1 ++ b :: m ++ a :: l2).
Proof.
  intros Hi Hj. unfold swap. rewrite (arr_get_mid l1 a _ i) by done. simpl.
  assert (forall c, l1 ++ c :: m ++ b :: l2 = (l1 ++ c :: m) ++ b :: l2) as E
    by (intros c; by rewrite <-app_assoc).
  rewrite (E a), arr_get_mid by (rewrite length_app; simpl; lia). simpl.
  rewrite <-(E a), arr_set_mid by done. simpl.
  rewrite (E b), arr_set_mid by (rewrite length_app; simpl; lia).
  by rewrite <-app_assoc.
Qed.

Lemma swap_same l1 a l2 i :
  i = Z.of_nat (length l1) -> swap (l1 ++ a :: l2) i i = Some (l1 ++ a :: l2).
Proof.
  intros Hi. unfold swap. rewrite !arr_get_mid by done. simpl.
  rewrite arr_set_mid by done. simpl. by apply arr_set_mid.
Qed.

(** Moving the first element that is not below the pivot behind the ones that
    are: the swap of the loop body and of the end of [partition]. *)
Lemma swap_rotate l1 (G : list string) x l2 i j :
  i = Z.of_nat (length l1) -> j = Z.of_nat (length l1 + length G) ->
  exists G', swap (l1 ++ G ++ x :: l2) i j = Some (l1 ++ x :: G' ++ l2) /\ G' ≡ₚ G.
Proof.
  intros Hi Hj. destruct G as [|g G].
  - exists []. simpl in *. rewrite Nat.add_0_r in Hj. subst.
    split; [by apply swap_same | done].
  - exists (G ++ [g]). rewrite <-app_assoc. split.
    + apply swap_mid; [done|]. simpl in Hj. lia.
    + by rewrite Permutation_app_comm.
Qed.

(** ** [partition] *)

Section Partition.
Context (pivot : string).

Definition below (k : string) : Prop := str_lt k pivot = true.
Definition not_below (k : string) : Prop := str_lt k pivot = false.

(** The loop invariant: the processed part is the elements below the pivot
    followed by the others. *)
Lemma partition_loop_spec R : forall l1 L G l2 i j,
  i = Z.of_nat (length l1 + length L) - 1 ->
  j = Z.of_nat (length l1 + length L + length G) ->
  Forall below L -> Forall not_below G ->
  exists L' G',
    partition_loop (length R) (l1 ++ L ++ G ++ R ++ l2) pivot i j
      = Some (l1 ++ L' ++ G' ++ l2, Z.of_nat (length l1 + length L') - 1) /\
    Forall below L' /\ Forall not_below G' /\ L' ++ G' ≡ₚ L ++ G ++ R.
Proof.
  induction R as [|x R IH]; intros l1 L G l2 i j -> -> HL HG.
  - exists L, G. simpl. by rewrite app_nil_r.
  - cbn [length partition_loop].
    replace (l1 ++ L ++ G ++ (x :: R) ++ l2)
      with ((l1 ++ L ++ G) ++ x :: R ++ l2) by (by rewrite <-!app_assoc).
    rewrite arr_get_mid by (rewrite !length_app; lia). simpl.
    destruct (str_lt x pivot) eqn:Hx.
    + destruct (swap_rotate (l1 ++ L) G x (R ++ l2)
        (Z.of_nat (length l1 + length L) - 1 + 1)
        (Z.of_nat (length l1 + length L + length G))) as (G1 & Hs & HG1);
        [rewrite length_app; lia .. |].
      rewrite <-!app_assoc in *. rewrite Hs. simpl.
      assert (length G1 = length G) as Hlen by (by rewrite HG1).
      replace (l1 ++ L ++ x :: G1 ++ R ++ l2)
        with (l1 ++ (L ++ [x]) ++ G1 ++ R ++ l2) by (by rewrite <-!app_assoc).
      destruct (IH l1 (L ++ [x]) G1 l2
        (Z.of_nat (length l1 + length L) - 1 + 1)
        (Z.of_nat (length l1 + length L + length G) + 1))
        as (L' & G' & -> & HL' & HG' & HP);
        [rewrite length_app; simpl; lia .. | |by rewrite HG1|].
      { apply Forall_app; split; [done|]. by repeat constructor. }
      exists L', G'. repeat split; [done..|]. rewrite HP, HG1, <-!app_assoc. simpl.
      apply Permutation_app_head. by rewrite (Permutation_middle G R x).
    + replace ((l1 ++ L ++ G) ++ x :: R ++ l2)
        with (l1 ++ L ++ (G ++ [x]) ++ R ++ l2) by (by rewrite <-!app_assoc).
      destruct (IH l1 L (G ++ [x]) l2
        (Z.of_nat (length l1 + length L) - 1)
        (Z.of_nat (length l1 + length L + length G) + 1))
        as (L' & G' & -> & HL' & HG' & HP);
        [lia | rewrite length_app; simpl; lia | done | |].
      { apply Forall_app; split; [done|]. by repeat constructor. }
      exists L', G'. repeat split; [done..|]. by rewrite HP, <-!app_assoc.
Qed.
End Partition.

Lemma partition_spec l1 seg x l2 low high :
  low = Z.of_nat (length l1) -> high = Z.of_nat (length l1 + length seg) ->
  exists A B,
    partition (l1 ++ seg ++ x :: l2) low high
      = Some (l1 ++ A ++ x :: B ++ l2, Z.of_nat (length l1 + length A)) /\
    Forall (below x) A /\ Forall (not_below x) B /\ A ++ B ≡ₚ seg.
Proof.
  intros -> ->. unfold partition.
  rewrite (app_assoc l1 seg), arr_get_mid by (rewrite length_app; lia).
  rewrite <-app_assoc. simpl.
  destruct (partition_loop_spec x seg l1 [] [] (x :: l2)
    (Z.of_nat (length l1) - 1) (Z.of_nat (length l1)))
    as (A & G & E & HA & HG & HP); [simpl; lia .. | done | done |].
  simpl in E, HP.
  replace (Z.to_nat _) with (length seg) by lia. rewrite E. simpl.
  assert (length A + length G = length seg)%nat as Hl
    by (rewrite <-length_app; by rewrite HP).
  destruct (swap_rotate (l1 ++ A) G x l2
    (Z.of_nat (length l1 + length A) - 1 + 1) (Z.of_nat (length l1 + length seg)))
    as (B & Hs & HB); [rewrite length_app; lia ..|].
  rewrite <-!app_assoc in Hs. rewrite Hs. simpl. exists A, B.
  repeat split; [do 2 f_equal; lia | done | by rewrite HB | by rewrite HB].
Qed.

(** ** [quickSort] *)

Lemma sorted_join A x B :
  StronglySorted String.le A -> StronglySorted String.le B ->
  Forall (below x) A -> Forall (not_below x) B ->
  StronglySorted String.le (A ++ x :: B).
Proof.
  intros HA HB Hlt Hge.
  assert (Forall (String.le x) B) as HxB
    by (eapply Forall_impl; [exact Hge|]; intros ?; apply str_lt_false).
  induction HA as [|a A HA IH Ha].
  - by constructor.
  - inversion Hlt as [|? ? Hax Hrest]; subst. simpl. constructor; [by apply IH|].
    apply str_lt_le in Hax. apply Forall_app; split; [done|].
    constructor; [done|]. eapply Forall_impl; [exact HxB|]. intros y Hy. by etrans.
Qed.

Lemma quickSort_spec fuel : forall l1 seg l2 low high,
  (length seg < fuel)%nat ->
  low = Z.of_nat (length l1) -> high = Z.of_nat (length l1 + length seg) - 1 ->
  exists seg', quickSort fuel (l1 ++ seg ++ l2) low high = Some (l1 ++ seg' ++ l2)
    /\ seg' ≡ₚ seg /\ StronglySorted String.le seg'.
Proof.
  induction fuel as [|fuel IH]; intros l1 seg l2 low high Hf -> ->; [lia|].
  cbn [quickSort].
  destruct (Z.ltb_spec (Z.of_nat (length l1)) (Z.of_nat (length l1 + length seg) - 1)).
  - destruct seg as [|x seg _] using rev_ind; [simpl in *; lia|].
    rewrite length_app in *. simpl in *. rewrite <-app_assoc. simpl.
    destruct (partition_spec l1 seg x l2 (Z.of_nat (length l1))
      (Z.of_nat (length l1 + (length seg + 1)) - 1)) as (A & B & -> & HA & HB & HP);
      [lia..|]. simpl.
    assert (length A + length B = length seg)%nat as Hl
      by (rewrite <-length_app; by rewrite HP).
    destruct (IH l1 A (x :: B ++ l2) (Z.of_nat (length l1))
      (Z.of_nat (length l1 + length A) - 1)) as (A' & -> & HA' & SA); [lia..|]. simpl.
    assert (length A' = length A) as HlA by (by rewrite HA').
    replace (l1 ++ A' ++ x :: B ++ l2) with ((l1 ++ A' ++ [x]) ++ B ++ l2)
      by (by rewrite <-!app_assoc).
    destruct (IH (l1 ++ A' ++ [x]) B l2 (Z.of_nat (length l1 + length A) + 1)
      (Z.of_nat (length l1 + (length seg + 1)) - 1)) as (B' & -> & HB' & SB);
      [lia | rewrite !length_app; simpl; lia .. |].
    exists (A' ++ x :: B'). split; [by rewrite <-!app_assoc|]. split.
    + rewrite HA', HB', <-HP. by rewrite <-Permutation_middle, Permutation_cons_append.
    + apply sorted_join; [done | done | by rewrite HA' | by rewrite HB'].
  - exists seg. split; [done|]. split; [done|].
    destruct seg as [|x [|y seg]]; [constructor | by repeat constructor | simpl in *; lia].
Qed.

(** The slice [sortStrings] leaves behind is total, sorted, and has the same
    elements. *)
Lemma sortStrings_spec arr :
  exists arr', sortStrings arr = Some arr' /\ arr' ≡ₚ arr /\ StronglySorted String.le arr'.
Proof.
  unfold sortStrings. destruct (Z.ltb_spec (Z.of_nat (length arr)) 2).
  - exists arr. split; [done|]. split; [done|].
    destruct arr as [|x [|y arr]]; [constructor | by repeat constructor | simpl in *; lia].
  - destruct (quickSort_spec (S (length arr)) [] arr [] 0 (Z.of_nat (length arr) - 1))
      as (arr' & E & HP & HS); [simpl; lia..|].
    simpl in E. rewrite !app_nil_r in E. by exists arr'.
Qed.

(** C27: the hand-written quicksort is a sort: on every slice it stops without
    an index out of range (the fuel, one more than the length, is enough even
    for the quadratic worst case, whose recursion is as deep as the slice is
    long) and leaves the result of the library's merge sort for byte-wise
    string order. *)
Theorem sortStrings_is_merge_sort arr : sortStrings arr = Some (merge_sort String.le arr).
Proof.
  destruct (sortStrings_spec arr) as (arr' & -> & HP & HS). f_equal.
  apply (StronglySorted_unique String.le); [done | apply StronglySorted_merge_sort; apply _ |].
  by rewrite merge_sort_Permutation.
Qed.
