(* ===== verification/Lww.v ===== *)
(** * The abstract key-value map with last-write-wins resolution

    The specification the sharded store implements: one finite map from keys
    to versioned entries, and the two mutations the store promises on it.  The
    class [LwwStore] is the interface the replication layer is verified
    against; the sharded store is an instance of it. *)

From S2P Require Import Prelude.
From S2P Require Import GoBase.

(** [internal/store/entry.go]: a versioned value with an optional expiry. *)
Record Entry := mkEntry {
  Value : list byte;
  Version : Z;
  ExpiresAt : Z
}.

#[global] Instance Entry_eq_dec : EqDecision Entry.
Proof. solve_decision. Defined.

(** [IsExpired], with the reading [now] of the clock. *)
Definition IsExpired (now : Z) (e : Entry) : bool :=
  if IsZero (ExpiresAt e) then false else time_After now (ExpiresAt e).

Abbreviation KV := (gmap string Entry).

(** An incoming entry replaces the current one unless its version is older. *)
Definition lww_set (k : string) (e : Entry) (m : KV) : KV :=
  match m !! k with
  | Some c => if Version e <? Version c then m else <[k := e]> m
  | None => <[k := e]> m
  end.

(** A deletion removes the current entry unless the entry is newer. *)
Definition lww_delete (k : string) (v : Z) (m : KV) : KV :=
  match m !! k with
  | Some c => if v <? Version c then m else delete k m
  | None => m
  end.

(** Entries that have not expired at [now]. *)
Definition live (now : Z) (m : KV) : KV :=
  filter (fun kv => IsExpired now (snd kv) = false) m.

Lemma lookup_live now m k :
  live now m !! k = match m !! k with
                    | Some e => if IsExpired now e then None else Some e
                    | None => None
                    end.
Proof.
  unfold live. rewrite map_lookup_filter. destruct (m !! k) as [e|]; simpl; [|done].
  by destruct (IsExpired now e) eqn:E; simplify_option_eq.
Qed.

(** Entries without expiry never expire. *)
Lemma live_forever now (m : KV) : map_Forall (fun _ e => ExpiresAt e = time_zero) m -> live now m = m.
Proof.
  intros Hm. apply map_eq. intros k. rewrite lookup_live.
  destruct (m !! k) as [e|] eqn:E; [|done]. unfold IsExpired. by rewrite (Hm k e E).
Qed.

Lemma lookup_lww_set_ne k k' e m : k <> k' -> lww_set k e m !! k' = m !! k'.
Proof.
  intros H. unfold lww_set. destruct (m !! k) as [c|]; [case_match|];
    by rewrite ?lookup_insert_ne.
Qed.

Lemma lookup_lww_set k e m :
  lww_set k e m !! k = Some (match m !! k with
                             | Some c => if Version e <? Version c then c else e
                             | None => e
                             end).
Proof.
  unfold lww_set. destruct (m !! k) as [c|] eqn:E; [case_match|];
    by rewrite ?lookup_insert_eq.
Qed.

Lemma lookup_lww_delete_ne k k' v m : k <> k' -> lww_delete k v m !! k' = m !! k'.
Proof.
  intros H. unfold lww_delete. destruct (m !! k) as [c|]; [case_match|];
    by rewrite ?lookup_delete_ne.
Qed.

Lemma lookup_lww_delete k v m :
  lww_delete k v m !! k = match m !! k with
                          | Some c => if v <? Version c then Some c else None
                          | None => None
                          end.
Proof.
  unfold lww_delete. destruct (m !! k) as [c|] eqn:E; [case_match|];
    by rewrite ?lookup_delete_eq.
Qed.

(** Deliveries of writes to different keys, or of differently versioned writes
    to the same key, commute. *)
Lemma lww_set_comm k1 e1 k2 e2 m :
  k1 <> k2 \/ Version e1 <> Version e2 ->
  lww_set k1 e1 (lww_set k2 e2 m) = lww_set k2 e2 (lww_set k1 e1 m).
Proof.
  intros H. apply map_eq. intros k.
  destruct (decide (k1 = k2)) as [->|Hne].
  - destruct H as [|H]; [done|].
    destruct (decide (k2 = k)) as [->|]; [|by rewrite !lookup_lww_set_ne].
    rewrite !lookup_lww_set. f_equal.
    destruct (m !! k) as [c|]; [|repeat zcase; done || lia].
    destruct (Z.ltb_spec (Version e1) (Version c)), (Z.ltb_spec (Version e2) (Version c));
      repeat zcase; done || lia.
  - destruct (decide (k1 = k)) as [->|]; [|destruct (decide (k2 = k)) as [->|]].
    + rewrite (lookup_lww_set_ne k2 k) by done.
      by rewrite !lookup_lww_set, lookup_lww_set_ne.
    + rewrite (lookup_lww_set_ne k1 k) by done.
      by rewrite !lookup_lww_set, lookup_lww_set_ne.
    + by rewrite !lookup_lww_set_ne.
Qed.

(** Delivering the same write twice is delivering it once. *)
Lemma lww_set_idemp k e m : lww_set k e (lww_set k e m) = lww_set k e m.
Proof.
  apply map_eq. intros k'. destruct (decide (k = k')) as [->|];
    [|by rewrite !lookup_lww_set_ne].
  rewrite !lookup_lww_set. f_equal. destruct (m !! k') as [c|]; [|by zcase].
  destruct (Z.ltb_spec (Version e) (Version c)); zcase; done || lia.
Qed.

(** ** Sequences of mutations *)

Inductive mutation :=
  | MSet (k : string) (e : Entry)
  | MDelete (k : string) (v : Z).
#[global] Instance mutation_eq_dec : EqDecision mutation.
Proof. solve_decision. Defined.

Definition mutate (op : mutation) (m : KV) : KV :=
  match op with
  | MSet k e => lww_set k e m
  | MDelete k v => lww_delete k v m
  end.

Definition run_mutations (l : list mutation) (m : KV) : KV := fold_left (fun m op => mutate op m) l m.

(** What a mutation does to the entry of one key. *)
Definition mutate_at (k : string) (op : mutation) (c : option Entry) : option Entry :=
  match op with
  | MSet k' e =>
      if decide (k' = k) then
        Some (match c with Some c' => if Version e <? Version c' then c' else e | None => e end)
      else c
  | MDelete k' v =>
      if decide (k' = k) then
        match c with Some c' => if v <? Version c' then Some c' else None | None => None end
      else c
  end.

Lemma lookup_mutate k op m : mutate op m !! k = mutate_at k op (m !! k).
Proof.
  destruct op as [k' e|k' v]; cbn; case_decide; subst.
  - apply lookup_lww_set.
  - by apply lookup_lww_set_ne.
  - apply lookup_lww_delete.
  - by apply lookup_lww_delete_ne.
Qed.

Lemma lookup_run_mutations k l : forall m,
  run_mutations l m !! k = fold_left (fun c op => mutate_at k op c) l (m !! k).
Proof.
  induction l as [|op l IH]; intros m; [done|]. cbn. unfold run_mutations in IH.
  by rewrite IH, lookup_mutate.
Qed.

Lemma run_mutations_app l1 l2 m : run_mutations (l1 ++ l2) m = run_mutations l2 (run_mutations l1 m).
Proof. apply fold_left_app. Qed.

(** Two runs of the same mutations, one from an entry at least as new as the
    other's: they meet, or the newer start survives. *)
Lemma runs_meet k l (x : Entry) : forall c,
  (forall y, c = Some y -> Version y <= Version x) ->
  let f := fun c op => mutate_at k op c in
  fold_left f l (Some x) = fold_left f l c \/
  fold_left f l (Some x) = Some x /\ (forall y, fold_left f l c = Some y -> Version y <= Version x).
Proof.
  induction l as [|op l IH]; intros c Hc f; [by right|]. cbn [fold_left].
  assert (f (Some x) op = f c op \/
    f (Some x) op = Some x /\ forall y, f c op = Some y -> Version y <= Version x) as [->|[-> H]].
  { subst f. destruct op as [k' e|k' v]; cbn; case_decide; [|by right| |by right].
    - destruct (Z.ltb_spec (Version e) (Version x)).
      + right. split; [done|]. intros y [= <-]. destruct c as [c|]; [|lia].
        specialize (Hc c eq_refl). destruct (Z.ltb_spec (Version e) (Version c)); lia.
      + left. destruct c as [c|]; [|done]. specialize (Hc c eq_refl).
        by destruct (Z.ltb_spec (Version e) (Version c)); [lia|].
    - destruct (Z.ltb_spec v (Version x)).
      + right. split; [done|]. intros y. destruct c as [c|]; [|done].
        destruct (v <? Version c); [|done]. intros [= <-]. by apply Hc.
      + left. destruct c as [c|]; [|done]. specialize (Hc c eq_refl).
        by destruct (Z.ltb_spec v (Version c)); [lia|]. }
  - by left.
  - by apply IH.
Qed.

(** Replaying a sequence of mutations over the map it produced changes
    nothing: the log may be replayed over a snapshot that already contains
    it. *)
Lemma run_mutations_idemp l m : run_mutations l (run_mutations l m) = run_mutations l m.
Proof.
  apply map_eq. intros k. rewrite !lookup_run_mutations.
  set (f := fun c op => mutate_at k op c). generalize (m !! k) as c. intros c.
  destruct (fold_left f l c) as [x|] eqn:E.
  - destruct c as [y|].
    + destruct (Z.le_gt_cases (Version y) (Version x)).
      * destruct (runs_meet k l x (Some y)) as [H'|[H' _]]; [by intros ? [= <-]|exact (eq_trans H' E)|done].
      * destruct (runs_meet k l y (Some x)) as [H'|[H' _]]; [intros ? [= <-]; lia| |];
          fold f in H'; [congruence|]. assert (x = y) by congruence. subst. lia.
    + destruct (runs_meet k l x None) as [H'|[H' _]]; [done|exact (eq_trans H' E)|done].
  - destruct c as [y|]; [|done]. destruct (runs_meet k l y None) as [H'|[H' _]]; [done| |];
      fold f in H'; congruence.
Qed.

(** ** The steps of the specification *)

(** A mutation is visible; the removal of an expired entry is not.  [T] holds
    of the readings the clock gives during the run: an entry is dropped only
    if it has expired at one of them. *)
Inductive lww_step (T : Z -> Prop) : KV -> list mutation -> KV -> Prop :=
  | spec_mutate op m : lww_step T m [op] (mutate op m)
  | spec_expire k e now m :
      T now -> m !! k = Some e -> IsExpired now e = true -> lww_step T m [] (delete k m).

(** Dropping any set of expired entries is a sequence of expirations. *)
Lemma expire_some (T : Z -> Prop) now m m' :
  T now -> m' ⊆ m ->
  (forall k e, m !! k = Some e -> m' !! k = None -> IsExpired now e = true) ->
  trace (lww_step T) m [] m'.
Proof.
  intros HT. remember (size m) as n eqn:Hn. revert m Hn.
  induction n as [n IH] using lt_wf_ind. intros m -> Hsub Hexp.
  destruct (decide (m' = m)) as [->|Hne]; [constructor|].
  assert (exists k e, m !! k = Some e /\ m' !! k = None) as (k & e & Hk & Hk').
  { destruct (map_choose (m ∖ m')) as (k & e & H%lookup_difference_Some).
    - intros H. apply Hne, (anti_symm (⊆)); [done|].
      rewrite <-(map_difference_union m' m Hsub), H, (right_id_L ∅ (∪)). done.
    - by exists k, e. }
  eapply (trace_cons (lww_step T) m [] (delete k m) []).
  - apply (spec_expire T k e now m HT Hk). by apply (Hexp k).
  - apply (IH (size (delete k m))); [|done| |].
    + rewrite map_size_delete_Some by done.
      assert (size m <> 0%nat) by (apply map_size_ne_0_lookup; eauto). lia.
    + apply map_subseteq_spec. intros j x Hj. destruct (decide (k = j)) as [->|]; [congruence|].
      rewrite lookup_delete_ne by done. by eapply lookup_weaken.
    + intros j x [? Hj]%lookup_delete_Some Hj'. by apply (Hexp j).
Qed.

Lemma expire_reap (T : Z -> Prop) now m : T now -> trace (lww_step T) m [] (live now m).
Proof.
  intros HT. apply (expire_some T now); [done|..].
  - apply map_subseteq_spec. intros k e. rewrite lookup_live. repeat case_match; congruence.
  - intros k e Hk. rewrite lookup_live, Hk. by destruct (IsExpired now e).
Qed.

(** ** The interface *)

(** A replica: a state that shows its clients a key-value map and resolves the
    operations it accepts by last write wins.  An operation carries a mutation
    with its version (a replicated or a replayed write); [rep_ok] is the
    replica's own invariant, and [rep_accepts] the operations it does not
    reject. *)
Class LwwReplica (St Op : Type) := {
  rep_ok : St -> Prop;
  rep_view : St -> KV;
  rep_accepts : Op -> Prop;
  rep_mutation : Op -> mutation;
  rep_apply : Op -> St -> St;
  rep_apply_ok : forall op s, rep_ok s -> rep_accepts op -> rep_ok (rep_apply op s);
  rep_apply_view : forall op s, rep_ok s -> rep_accepts op ->
    rep_view (rep_apply op s) = mutate (rep_mutation op) (rep_view s)
}.

(** The abstract map is a replica of itself. *)
#[export, refine] Instance KV_replica : LwwReplica KV mutation := {
  rep_ok := fun _ => True;
  rep_view := fun m => m;
  rep_accepts := fun _ => True;
  rep_mutation := fun op => op;
  rep_apply := mutate
}.
Proof. all: done. Defined.

Section Deliver.
Context {St Op : Type} {L : LwwReplica St Op}.

(** The operations in the order in which they arrive. *)
Definition deliver (l : list Op) (s : St) : St := fold_left (fun s op => rep_apply op s) l s.

Lemma deliver_view l : forall s, rep_ok s -> Forall rep_accepts l ->
  rep_ok (deliver l s) /\
  rep_view (deliver l s) = run_mutations (rep_mutation <$> l) (rep_view s).
Proof.
  induction l as [|op l IH]; intros s Hs Hl; [done|]. inversion Hl; subst. cbn.
  destruct (IH (rep_apply op s)) as [H3 H4]; [by apply rep_apply_ok | done |].
  split; [done|]. unfold deliver in H4. rewrite H4, rep_apply_view by done. done.
Qed.
End Deliver.

(** ** Writes of one key *)

(** The writes of key [k] among the mutations. *)
Definition writes_of (k : string) (l : list mutation) : list Entry :=
  omap (fun op => match op with MSet k' e => if decide (k' = k) then Some e else None
                            | MDelete _ _ => None end) l.

Lemma elem_of_writes_of k l e : e ∈ writes_of k l <-> MSet k e ∈ l.
Proof.
  unfold writes_of. rewrite list_elem_of_omap. split.
  - intros ([k' e'|] & Hin & H); [|done]. case_decide; [|done]. by simplify_eq.
  - intros Hin. exists (MSet k e). by rewrite decide_True.
Qed.

Definition is_write (op : mutation) : Prop :=
  match op with MSet _ _ => True | MDelete _ _ => False end.

(** After a sequence of writes the key holds the newest of them and of what it
    held before. *)
Lemma run_sets_newest k l : forall c,
  Forall is_write l ->
  let r := fold_left (fun c op => mutate_at k op c) l c in
  match r with
  | None => c = None /\ writes_of k l = []
  | Some e => (c = Some e \/ e ∈ writes_of k l) /\
      (forall x, c = Some x \/ x ∈ writes_of k l -> Version x <= Version e)
  end.
Proof.
  induction l as [|op l IH]; intros c Hl r; subst r.
  { destruct c as [e|]; cbn; [|done]. split; [by left|].
    intros x [[= ->]|Hx]; [lia|by apply not_elem_of_nil in Hx]. }
  inversion Hl as [|? ? Hop Hl']; subst. destruct op as [k' e0|]; [|done]. cbn [fold_left].
  specialize (IH (mutate_at k (MSet k' e0) c) Hl'). cbv zeta in IH.
  change (writes_of k (MSet k' e0 :: l)) with
    (match (if decide (k' = k) then Some e0 else None) with
     | Some e => e :: writes_of k l | None => writes_of k l end).
  cbn [mutate_at] in *. destruct (decide (k' = k)) as [->|Hne]; [|exact IH].
  destruct (fold_left _ l _) as [e|]; [|by destruct IH].
  destruct IH as [IH1 IH2]. split.
  - destruct IH1 as [IH1|]; [|by right; right].
    destruct c as [x|]; [|injection IH1 as <-; right; left].
    destruct (Version e0 <? Version x); injection IH1 as <-; [by left | right; left].
  - assert (forall x, x = e0 \/ c = Some x -> Version x <= Version e) as Hstep.
    { intros x Hx. destruct c as [y|].
      - pose proof (IH2 _ (or_introl eq_refl)) as Hv.
        destruct (Z.ltb_spec (Version e0) (Version y)); destruct Hx as [->|[= ->]]; lia.
      - destruct Hx as [->|?]; [|done]. apply IH2. by left. }
    intros x [Hx|[->|Hx]%elem_of_cons]; [by apply Hstep; right | by apply Hstep; left | apply IH2; by right].
Qed.

(** Writes are versioned consistently when one version of a key names one
    entry. *)
Definition consistent (m : KV) (l : list mutation) : Prop :=
  forall k e e', (m !! k = Some e \/ MSet k e ∈ l) -> (m !! k = Some e' \/ MSet k e' ∈ l) ->
  Version e = Version e' -> e = e'.

(** Consistent writes end in the same map however they are ordered and however
    often each arrives. *)
Lemma run_sets_converge l1 l2 m :
  Forall is_write l1 ->
  (forall op, op ∈ l1 <-> op ∈ l2) -> consistent m l1 ->
  run_mutations l1 m = run_mutations l2 m.
Proof.
  intros H1 Heq Hc. apply map_eq. intros k. rewrite !lookup_run_mutations.
  assert (Forall is_write l2) as H2.
  { rewrite Forall_forall in H1 |- *. intros op Hop. by apply H1, Heq. }
  assert (forall e, e ∈ writes_of k l1 <-> e ∈ writes_of k l2) as Hw
    by (intros e; rewrite !elem_of_writes_of; apply Heq).
  pose proof (run_sets_newest k l1 (m !! k) H1) as R1. pose proof (run_sets_newest k l2 (m !! k) H2) as R2.
  cbv zeta in *. destruct (fold_left _ l1 _) as [e1|], (fold_left _ l2 _) as [e2|].
  - destruct R1 as [R1 M1], R2 as [R2 M2]. f_equal.
    assert (m !! k = Some e1 \/ MSet k e1 ∈ l1) as I1 by (rewrite <-elem_of_writes_of; done).
    assert (m !! k = Some e2 \/ MSet k e2 ∈ l1) as I2 by (rewrite <-elem_of_writes_of, Hw; done).
    apply (Hc k e1 e2 I1 I2). apply Z.le_antisymm.
    + apply M2. by rewrite <-Hw.
    + apply M1. by rewrite Hw.
  - exfalso. destruct R1 as [R1 _], R2 as [Hn R2]. destruct R1 as [?|R1]; [congruence|].
    rewrite Hw, R2 in R1. by apply not_elem_of_nil in R1.
  - exfalso. destruct R2 as [R2 _], R1 as [Hn R1]. destruct R2 as [?|R2]; [congruence|].
    rewrite <-Hw, R1 in R2. by apply not_elem_of_nil in R2.
  - done.
Qed.

(** Two replicas that show the same map and receive the same writes, each in
    its own order and with its own repetitions, show the same map again. *)
Lemma deliver_converge {A Oa B Ob} {LA : LwwReplica A Oa} {LB : LwwReplica B Ob}
    (a : A) (b : B) (la : list Oa) (lb : list Ob) :
  rep_ok a -> rep_ok b -> rep_view a = rep_view b ->
  Forall rep_accepts la -> Forall rep_accepts lb -> Forall is_write (rep_mutation <$> la) ->
  (forall op, op ∈ rep_mutation <$> la <-> op ∈ rep_mutation <$> lb) ->
  consistent (rep_view a) (rep_mutation <$> la) ->
  rep_view (deliver la a) = rep_view (deliver lb b).
Proof.
  intros Ha Hb Hv Hla Hlb Hw Heq Hc.
  rewrite (proj2 (deliver_view la a Ha Hla)), (proj2 (deliver_view lb b Hb Hlb)), <-Hv.
  by apply run_sets_converge.
Qed.
