(* ===== verification/Wal.v ===== *)
(** * The write-ahead log: [internal/store/wal.go]

    The record format, [Append] and [Replay], over a disk that maps paths to
    file contents.  Every system call that can fail has its outcome as an
    argument, so the theorems cover the error paths: a write may store any
    prefix of the record before it fails, a sync may fail after the record is
    in the file, a read may hit a device error. *)

From S2P Require Import Prelude.
From S2P Require Import GoBase.
From S2P Require Import Hashes.
From S2P Require Import FilePath.

(** ** Errors of the package *)

Inductive error :=
  | ErrChecksumMismatch
  | ErrCorruptRecord
  | KeyTooLong (keyLen : Z)
  | OpenWALFailed
  | StatWALFailed
  | WriteWALFailed
  | SyncWALFailed
  | SeekStartFailed
  | SeekEndFailed
  | ReadHeaderFailed
  | ReadPayloadFailed (e : read_error)
  | ApplyFailed (e : error)
  | CloseFailed
  | WalAppendFailed (e : error)
  | SnapshotWithoutWAL
  | OpenTempSnapshotFailed
  | WriteSnapshotHeaderFailed
  | WriteSnapshotRecordFailed
  | SyncSnapshotFailed
  | CloseSnapshotFailed
  | CommitSnapshotFailed
  | TruncateWALFailed
  | SeekWALFailed
  | OpenSnapshotFailed
  | ReadSnapshotHeaderFailed (e : read_error)
  | BadSnapshotMagic
  | BadSnapshotVersion (v : Z)
  | ReadSnapshotRecordHeaderFailed
  | ReadSnapshotPayloadFailed (e : read_error).

#[global] Instance read_error_eq_dec : EqDecision read_error.
Proof. solve_decision. Defined.
#[global] Instance error_eq_dec : EqDecision error.
Proof. solve_decision. Defined.

(** ** The disk *)

Abbreviation Disk := (gmap string (list byte)).

Definition file_of (d : Disk) (path : string) : list byte := default [] (d !! path).

(** Writing to a file opened with [O_APPEND] adds to its end. *)
Definition append_file (d : Disk) (path : string) (b : list byte) : Disk :=
  <[path := file_of d path ++ b]> d.

Lemma file_of_append d p b : file_of (append_file d p b) p = file_of d p ++ b.
Proof. unfold file_of at 1, append_file. by rewrite lookup_insert_eq. Qed.

Lemma file_of_append_ne d p q b : p <> q -> file_of (append_file d p b) q = file_of d q.
Proof. intros H. unfold file_of at 1, append_file. by rewrite lookup_insert_ne. Qed.

(** The outcome of [file.Write(buf)]: all of [buf], or an error after [n] bytes. *)
Inductive write_outcome := WriteOk | WriteFails (n : nat).

(** ** Records *)

Definition RecordTypeSet : byte := x01.
Definition RecordTypeDelete : byte := x02.

Record LogRecord := mkLogRecord {
  lr_type : byte;
  lr_key : string;
  lr_value : list byte;
  lr_version : Z;
  lr_expiresAt : Z
}.

(** The expiry as it is stored: Unix nanoseconds, 0 for no expiry. *)
Definition expNano_of (expiresAt : Z) : Z :=
  if IsZero expiresAt then 0 else UnixNano expiresAt.

(** The buffer [Append] fills and writes: Length(4) + CRC(4) + Payload. *)
Definition record_bytes (recType : byte) (key : string) (value : list byte)
    (version expiresAt : Z) : list byte :=
  let keyBytes := bytes_of key in
  let keyLen := length keyBytes in
  let valLen := length value in
  let payloadSize := (1 + 8 + 8 + 2 + keyLen + valLen)%nat in
  let recordSize := (4 + 4 + payloadSize)%nat in
  let buf := replicate recordSize x00 in
  let buf := copy_at 0 (put_be 4 (u32 (Z.of_nat payloadSize))) buf in
  let buf := copy_at 8 [recType] buf in
  let buf := copy_at (8 + 1) (put_be 8 version) buf in
  let buf := copy_at (8 + 9) (put_be 8 (u64 (expNano_of expiresAt))) buf in
  let buf := copy_at (8 + 17) (put_be 2 (u16 (Z.of_nat keyLen))) buf in
  let buf := copy_at (8 + 19) keyBytes buf in
  let buf := if (0 <? valLen)%nat then copy_at (8 + 19 + keyLen) value buf else buf in
  let checksum := ChecksumIEEE (drop 8 buf) in
  copy_at 4 (put_be 4 checksum) buf.

(** The payload as the concatenation of its fields. *)
Definition payload_of (recType : byte) (key : string) (value : list byte)
    (version expiresAt : Z) : list byte :=
  [recType] ++ put_be 8 version ++ put_be 8 (u64 (expNano_of expiresAt))
  ++ put_be 2 (u16 (Z.of_nat (length (bytes_of key)))) ++ bytes_of key ++ value.

Definition framed (payload : list byte) : list byte :=
  put_be 4 (u32 (Z.of_nat (length payload))) ++ put_be 4 (ChecksumIEEE payload) ++ payload.

Lemma payload_length t k v ver e :
  length (payload_of t k v ver e) = (19 + length (bytes_of k) + length v)%nat.
Proof.
  unfold payload_of. rewrite !length_app, !put_be_length. simpl. lia.
Qed.

(** Filling the zeroed buffer from the left: the bytes [p] are in place, [src]
    goes behind them. *)
Lemma copy_at_zeros n (p src : list byte) m :
  length p = n -> (length src <= m)%nat ->
  copy_at n src (p ++ replicate m x00) = (p ++ src) ++ replicate (m - length src) x00.
Proof.
  intros <- H. unfold copy_at. rewrite take_app_length, <-app_assoc. do 2 f_equal.
  rewrite drop_app_add. by rewrite drop_replicate.
Qed.

Lemma skip_zeros (p : list byte) n m :
  (n <= m)%nat -> p ++ replicate m x00 = (p ++ replicate n x00) ++ replicate (m - n) x00.
Proof. intros H. rewrite <-app_assoc, <-replicate_add. do 2 f_equal. lia. Qed.

Ltac lengths := rewrite ?length_app, ?length_replicate, ?put_be_length; simpl; lia.

Lemma record_bytes_framed t k v ver e :
  record_bytes t k v ver e = framed (payload_of t k v ver e).
Proof.
  unfold record_bytes, framed. rewrite payload_length. cbv zeta.
  set (kb := bytes_of k). set (n := (1 + 8 + 8 + 2 + length kb + length v)%nat).
  set (len4 := put_be 4 (u32 (Z.of_nat n))).
  change (replicate (4 + 4 + n) x00) with ([] ++ replicate (4 + 4 + n) x00).
  rewrite (copy_at_zeros 0), (skip_zeros _ 4) by lengths.
  rewrite (copy_at_zeros 8), (copy_at_zeros (8 + 1)), (copy_at_zeros (8 + 9)),
    (copy_at_zeros (8 + 17)), (copy_at_zeros (8 + 19)) by lengths.
  match goal with |- context [(?p ++ kb) ++ replicate ?m x00] =>
    set (pre := p ++ kb); set (left := m) end.
  assert ((if (0 <? length v)%nat then copy_at (8 + 19 + length kb) v (pre ++ replicate left x00)
           else pre ++ replicate left x00) = pre ++ v) as ->.
  { assert (left = length v) as -> by (unfold left, n; lengths).
    destruct (Nat.ltb_spec 0 (length v)).
    - rewrite copy_at_zeros by (unfold pre, len4; lengths).
      by rewrite Nat.sub_diag, app_nil_r.
    - by destruct v; [|simpl in *; lia]. }
  assert (pre ++ v = len4 ++ replicate 4 x00 ++ payload_of t k v ver e) as ->
    by (unfold pre, payload_of; by rewrite <-!app_assoc).
  rewrite (app_assoc len4), drop_app_length' by (unfold len4; lengths).
  rewrite <-app_assoc.
  replace 4%nat with (length len4) at 1 by (unfold len4; lengths).
  by rewrite copy_at_mid by lengths.
Qed.

(** ** Parsing a payload *)

(** The checks and field accesses both readers make on a payload whose
    checksum matched. *)
Definition parse_payload (payload : list byte) : LogRecord + error :=
  if (length payload <? 19)%nat then inr ErrCorruptRecord
  else
    let recType := default x00 (payload !! 0%nat) in
    let version := get_be (slice 1 9 payload) in
    let expNano := i64 (get_be (slice 9 17 payload)) in
    let keyLen := Z.to_nat (get_be (slice 17 19 payload)) in
    if (length payload <? 19 + keyLen)%nat then inr ErrCorruptRecord
    else
      let key := string_of (slice 19 (19 + keyLen) payload) in
      let val := if (19 + keyLen <? length payload)%nat
                 then drop (19 + keyLen) payload else [] in
      let expiresAt := if 0 <? expNano then time_Unix expNano else time_zero in
      inl (mkLogRecord recType key val version expiresAt).

(** An expiry the format can represent: none, or a time after the Unix epoch
    whose Unix nanoseconds fit an [int64]. *)
Definition storable_expiry (e : Z) : Prop := e = time_zero \/ 0 < e - unixEpoch < 2 ^ 63.

(** What the record format can represent. *)
Record storable (lr : LogRecord) : Prop := {
  st_key : Z.of_nat (length (bytes_of (lr_key lr))) <= 65535;
  st_version : is_u64 (lr_version lr);
  st_expiry : storable_expiry (lr_expiresAt lr);
  st_size : 19 + Z.of_nat (length (bytes_of (lr_key lr)))
              + Z.of_nat (length (lr_value lr)) < 2 ^ 32
}.

Definition lr_payload (lr : LogRecord) : list byte :=
  payload_of (lr_type lr) (lr_key lr) (lr_value lr) (lr_version lr) (lr_expiresAt lr).

Definition lr_bytes (lr : LogRecord) : list byte :=
  record_bytes (lr_type lr) (lr_key lr) (lr_value lr) (lr_version lr) (lr_expiresAt lr).

(** The expiry survives the trip through [int64] Unix nanoseconds. *)
Lemma expiry_roundtrip e :
  storable_expiry e ->
  (let n := i64 (u64 (u64 (expNano_of e))) in if 0 <? n then time_Unix n else time_zero) = e.
Proof.
  intros H. cbv zeta. rewrite !i64_u64. unfold expNano_of, IsZero.
  destruct H as [->|H]; [done|].
  destruct (Z.eqb_spec e time_zero) as [->|_];
    [unfold time_zero, unixEpoch in H; lia|].
  unfold UnixNano. rewrite !(i64_small (e - unixEpoch)) by (unfold is_i64; lia).
  destruct (Z.ltb_spec 0 (e - unixEpoch)); [|lia]. unfold time_Unix. lia.
Qed.

(** Reading field [m] of a payload split around it. *)
Lemma slice_field n l (a m c : list byte) :
  length a = n -> (n + length m)%nat = l -> slice n l (a ++ m ++ c) = m.
Proof. intros <- <-. apply slice_mid. Qed.

Lemma slice_front l (m c : list byte) : length m = l -> slice 0 l (m ++ c) = m.
Proof. intros <-. apply (slice_mid []). Qed.

Lemma parse_lr_payload lr : storable lr -> parse_payload (lr_payload lr) = inl lr.
Proof.
  destruct lr as [t k v ver e]. intros [Hk Hv He _]. simpl in *.
  unfold lr_payload, parse_payload.
  cbn [lr_type lr_key lr_value lr_version lr_expiresAt].
  rewrite payload_length. set (p := payload_of t k v ver e).
  destruct (Nat.ltb_spec (19 + length (bytes_of k) + length v) 19); [lia|].
  assert (p !! 0%nat = Some t) as -> by done.
  assert (slice 1 9 p = put_be 8 ver) as ->
    by (unfold p, payload_of; apply slice_field; lengths).
  assert (slice 9 17 p = put_be 8 (u64 (expNano_of e))) as ->
    by (unfold p, payload_of; rewrite (app_assoc [t]); apply slice_field; lengths).
  assert (slice 17 19 p = put_be 2 (u16 (Z.of_nat (length (bytes_of k))))) as ->
    by (unfold p, payload_of; rewrite (app_assoc [t]), app_assoc;
        apply slice_field; lengths).
  set (pre := [t] ++ put_be 8 ver ++ put_be 8 (u64 (expNano_of e))
               ++ put_be 2 (u16 (Z.of_nat (length (bytes_of k))))).
  assert (p = pre ++ bytes_of k ++ v) as Hp
    by (unfold p, pre, payload_of; by rewrite <-!app_assoc).
  assert (length pre = 19%nat) as Hpre by (unfold pre; lengths).
  rewrite !get_put_be64, get_put_be16, (u64_small ver) by done.
  rewrite (u16_small (u16 _)), (u16_small (Z.of_nat _)) by (rewrite ?u16_small; lia).
  rewrite Nat2Z.id.
  destruct (Nat.ltb_spec (19 + length (bytes_of k) + length v)
    (19 + length (bytes_of k))); [lia|].
  assert (slice 19 (19 + length (bytes_of k)) p = bytes_of k) as ->
    by (rewrite Hp; by apply slice_field; rewrite ?Hpre).
  assert (drop (19 + length (bytes_of k)) p = v) as ->
    by (rewrite Hp, app_assoc; apply drop_app_length'; rewrite length_app, Hpre; done).
  rewrite string_of_bytes_of. f_equal. f_equal.
  - destruct (Nat.ltb_spec (19 + length (bytes_of k))
      (19 + length (bytes_of k) + length v)); [done|].
    destruct v; [done | simpl in *; lia].
  - by apply expiry_roundtrip.
Qed.

(** ** The WAL handle and its operations *)

Record WAL := mkWAL {
  wal_path : string;
  wal_size : Z;
  wal_closed : bool
}.

(** [NewWAL]: [O_CREATE] leaves an empty file where there was none. *)
Definition NewWAL (open_ok stat_ok : bool) (d : Disk) (dataDir filename : string)
  : Disk * (WAL + error) :=
  let path := Join dataDir filename in
  if negb open_ok then (d, inr OpenWALFailed)
  else
    let d' := <[path := file_of d path]> d in
    if negb stat_ok then (d', inr StatWALFailed)
    else (d', inl (mkWAL path (Z.of_nat (length (file_of d path))) false)).

Record append_io := mkAppendIO { aio_write : write_outcome; aio_sync_ok : bool }.
Definition append_io_ok : append_io := mkAppendIO WriteOk true.

Definition WAL_Append (io : append_io) (d : Disk) (w : WAL) (recType : byte)
    (key : string) (value : list byte) (version expiresAt : Z)
  : Disk * WAL * option error :=
  let keyLen := Z.of_nat (length (bytes_of key)) in
  if 65535 <? keyLen then (d, w, Some (KeyTooLong keyLen))
  else
    let buf := record_bytes recType key value version expiresAt in
    if wal_closed w then (d, w, Some WriteWALFailed)
    else match aio_write io with
    | WriteFails n => (append_file d (wal_path w) (take n buf), w, Some WriteWALFailed)
    | WriteOk =>
        let d' := append_file d (wal_path w) buf in
        let w' := mkWAL (wal_path w) (i64 (wal_size w + Z.of_nat (length buf))) (wal_closed w) in
        if negb (aio_sync_ok io) then (d', w', Some SyncWALFailed) else (d', w', None)
    end.

(** One iteration of the loop of [Replay] up to the callback.  The loop of
    [LoadSnapshot] makes the same reads and checks, with its own errors for a
    failed read of a header ([eh]) and of a payload ([ep]). *)
Inductive read_result := RecEnd | RecFail (e : error) | RecOk (lr : LogRecord) (rest : list byte).

Definition next_record (eh : error) (ep : read_error -> error) (e : stream_end) (r : list byte)
  : read_result :=
  match ReadFull 8 e r with
  | inr ReadFault => RecFail eh
  | inr _ => RecEnd
  | inl (headerBuf, r1) =>
      let payloadSize := get_be (slice 0 4 headerBuf) in
      let expectedCrc := get_be (slice 4 8 headerBuf) in
      match ReadFull payloadSize e r1 with
      | inr err => RecFail (ep err)
      | inl (payload, r2) =>
          let actualCrc := ChecksumIEEE payload in
          if negb (actualCrc =? expectedCrc) then RecFail ErrChecksumMismatch
          else match parse_payload payload with
               | inr err => RecFail err
               | inl lr => RecOk lr r2
               end
      end
  end.

Section Replay.
Context {St : Type} (eh : error) (ep : read_error -> error).

(** The callback: it may change the state even when it reports an error. *)
Context (applyFunc : LogRecord -> St -> St * option error).

(** The loop of [Replay]; [None] is running out of fuel. *)
Fixpoint replay_loop (fuel : nat) (e : stream_end) (r : list byte) (s : St)
  : option (St * option error) :=
  match fuel with
  | O => None
  | S fuel' =>
      match next_record eh ep e r with
      | RecEnd => Some (s, None)
      | RecFail err => Some (s, Some err)
      | RecOk lr rest =>
          match applyFunc lr s with
          | (s', Some err) => Some (s', Some (ApplyFailed err))
          | (s', None) => replay_loop fuel' e rest s'
          end
      end
  end.

(** Applying a list of records until one fails. *)
Fixpoint apply_all (l : list LogRecord) (s : St) : St * option error :=
  match l with
  | [] => (s, None)
  | lr :: l' =>
      match applyFunc lr s with
      | (s', Some err) => (s', Some (ApplyFailed err))
      | (s', None) => apply_all l' s'
      end
  end.
End Replay.

Record replay_io := mkReplayIO { rio_seek_start_ok : bool; rio_seek_end_ok : bool; rio_end : stream_end }.

Definition WAL_Replay {St : Type} (applyFunc : LogRecord -> St -> St * option error)
    (io : replay_io) (d : Disk) (w : WAL) (s : St) : option (St * option error) :=
  if negb (rio_seek_start_ok io) || wal_closed w then Some (s, Some SeekStartFailed)
  else
    let r := file_of d (wal_path w) in
    match replay_loop ReadHeaderFailed ReadPayloadFailed applyFunc (S (length r)) (rio_end io) r s with
    | Some (s', None) =>
        if negb (rio_seek_end_ok io) then Some (s', Some SeekEndFailed) else Some (s', None)
    | res => res
    end.

Definition replay_io_ok : replay_io := mkReplayIO true true AtEOF.

Definition WAL_Close (close_ok : bool) (w : WAL) : WAL * option error :=
  if negb close_ok || wal_closed w
  then (mkWAL (wal_path w) (wal_size w) true, Some CloseFailed)
  else (mkWAL (wal_path w) (wal_size w) true, None).

Definition WAL_Size (w : WAL) : Z := wal_size w.
Definition WAL_Path (w : WAL) : string := wal_path w.

(** ** Reading what was written *)

Lemma framed_length p : length (framed p) = (8 + length p)%nat.
Proof. unfold framed. lengths. Qed.

Lemma lr_bytes_framed lr : lr_bytes lr = framed (lr_payload lr).
Proof. apply record_bytes_framed. Qed.

Lemma lr_payload_size lr : storable lr -> 0 <= Z.of_nat (length (lr_payload lr)) < 2 ^ 32.
Proof. intros [_ _ _ H]. unfold lr_payload. rewrite payload_length. lia. Qed.

Section ReadBack.
Context (eh : error) (ep : read_error -> error).

(** A frame that starts with a length and a checksum, then a payload of that
    length. *)
Lemma next_record_frame e n crc payload r :
  0 <= n < 2 ^ 32 -> 0 <= crc < 2 ^ 32 -> Z.of_nat (length payload) = n ->
  next_record eh ep e (put_be 4 n ++ put_be 4 crc ++ payload ++ r)
  = if negb (ChecksumIEEE payload =? crc) then RecFail ErrChecksumMismatch
    else match parse_payload payload with
         | inr err => RecFail err
         | inl lr => RecOk lr r
         end.
Proof.
  intros Hn Hc Hp. unfold next_record.
  rewrite (app_assoc (put_be 4 n)), ReadFull_app by lengths.
  rewrite <-(app_nil_r (put_be 4 n ++ put_be 4 crc)), <-app_assoc.
  rewrite (slice_field 4 8) by lengths.
  rewrite (slice_front 4) by lengths.
  rewrite !get_put_be32, !u32_small by done. by rewrite ReadFull_app.
Qed.

Lemma next_record_lr e lr r :
  storable lr -> next_record eh ep e (lr_bytes lr ++ r) = RecOk lr r.
Proof.
  intros H. rewrite lr_bytes_framed. unfold framed. rewrite <-!app_assoc.
  pose proof (lr_payload_size lr H). pose proof (ChecksumIEEE_range (lr_payload lr)).
  rewrite u32_small by done. rewrite next_record_frame by done.
  by rewrite Z.eqb_refl, parse_lr_payload.
Qed.

(** A file that ends inside a header reads as the end of the log. *)
Lemma next_record_short r : (length r < 8)%nat -> next_record eh ep AtEOF r = RecEnd.
Proof.
  intros H. unfold next_record.
  destruct (ReadFull_short 8 r) as [->| ->]; [lia | done | done].
Qed.

(** Every successful iteration consumes at least the eight header bytes. *)
Lemma next_record_consumes e r lr rest :
  next_record eh ep e r = RecOk lr rest -> (length rest + 8 <= length r)%nat.
Proof.
  unfold next_record. destruct (ReadFull 8 e r) as [[h r1]|[]] eqn:E1; try done.
  apply ReadFull_consumes in E1 as [-> Hh].
  destruct (ReadFull (get_be (slice 0 4 h)) e r1) as [[p r2]|] eqn:E2; [|done].
  apply ReadFull_consumes in E2 as [-> _].
  destruct (negb _); [done|]. destruct (parse_payload p); [|done].
  intros [= -> ->]. rewrite !length_app. lia.
Qed.


(** Whatever the bytes are, a version that was read is a [uint64]. *)
Lemma next_record_version e r lr rest :
  next_record eh ep e r = RecOk lr rest -> is_u64 (lr_version lr).
Proof.
  unfold next_record. destruct (ReadFull 8 e r) as [[h r1]|[]]; try done.
  destruct (ReadFull (get_be (slice 0 4 h)) e r1) as [[p r2]|]; [|done].
  destruct (negb _); [done|]. unfold parse_payload.
  destruct (Nat.ltb_spec (length p) 19); [done|].
  destruct (length p <? _)%nat; [done|]. intros [= <- _]. cbn.
  pose proof (get_be_range (slice 1 9 p)) as Hr.
  assert (length (slice 1 9 p) = 8%nat) as Hl
    by (unfold slice; rewrite length_take, length_drop; lia).
  rewrite Hl in Hr. exact Hr.
Qed.
End ReadBack.

Section ReplayFacts.
Context {St : Type} (eh : error) (ep : read_error -> error) (f : LogRecord -> St -> St * option error).
Implicit Types s : St.

(** Enough fuel always gives the same answer: the loop terminates. *)
Lemma replay_loop_total e : forall n r s, (length r < n)%nat ->
  exists res, forall fuel, (length r < fuel)%nat -> replay_loop eh ep f fuel e r s = Some res.
Proof.
  induction n as [|n IH]; intros r s Hn; [lia|].
  destruct (next_record eh ep e r) as [|err|lr rest] eqn:E.
  - exists (s, None). intros [|fuel] ?; [lia|]. cbn [replay_loop]. by rewrite E.
  - exists (s, Some err). intros [|fuel] ?; [lia|]. cbn [replay_loop]. by rewrite E.
  - pose proof (next_record_consumes _ _ _ _ _ _ E). destruct (f lr s) as [s' [err|]] eqn:Ef.
    + exists (s', Some (ApplyFailed err)). intros [|fuel] ?; [lia|].
      cbn [replay_loop]. by rewrite E, Ef.
    + destruct (IH rest s') as [res Hres]; [lia|]. exists res.
      intros [|fuel] ?; [lia|]. cbn [replay_loop]. rewrite E, Ef. apply Hres. lia.
Qed.

(** The loop with the fuel [WAL_Replay] gives it. *)
Definition replay (e : stream_end) (r : list byte) (s : St) : option (St * option error) :=
  replay_loop eh ep f (S (length r)) e r s.

Lemma replay_unfold e r s :
  replay e r s =
  match next_record eh ep e r with
  | RecEnd => Some (s, None)
  | RecFail err => Some (s, Some err)
  | RecOk lr rest =>
      match f lr s with
      | (s', Some err) => Some (s', Some (ApplyFailed err))
      | (s', None) => replay e rest s'
      end
  end.
Proof.
  unfold replay at 1. cbn [replay_loop]. destruct (next_record eh ep e r) eqn:E; [done..|].
  destruct (f lr s) as [s' [err|]]; [done|].
  pose proof (next_record_consumes _ _ _ _ _ _ E).
  destruct (replay_loop_total e (S (length rest)) rest s') as [res Hres]; [lia|].
  unfold replay. rewrite !Hres by lia. done.
Qed.

(** The records at the front of the file are applied in order; what follows
    them is read next, unless a callback failed. *)
Lemma replay_records e l : forall tail s, Forall storable l ->
  replay e (concat (map lr_bytes l) ++ tail) s =
  match apply_all f l s with
  | (s', None) => replay e tail s'
  | (s', Some err) => Some (s', Some err)
  end.
Proof.
  induction l as [|lr l IH]; intros tail s Hl; [done|].
  inversion Hl; subst. cbn [map concat apply_all]. rewrite <-app_assoc.
  rewrite replay_unfold, next_record_lr by done.
  destruct (f lr s) as [s' [err|]]; [done|]. by apply IH.
Qed.

Lemma replay_torn_header r s : (length r < 8)%nat -> replay AtEOF r s = Some (s, None).
Proof. intros H. rewrite replay_unfold. by rewrite next_record_short. Qed.

(** An invariant of the callback is an invariant of the replay. *)
Lemma replay_invariant (P : St -> Prop) e :
  (forall lr s, is_u64 (lr_version lr) -> P s -> P (f lr s).1) ->
  forall fuel r s res, P s -> replay_loop eh ep f fuel e r s = Some res -> P res.1.
Proof.
  intros Hf. induction fuel as [|fuel IH]; intros r s res Hs H; [done|].
  cbn [replay_loop] in H. destruct (next_record eh ep e r) as [|err|lr rest] eqn:E;
    [by inversion H..|].
  pose proof (Hf lr s (next_record_version _ _ _ _ _ _ E) Hs) as Hs'.
  destruct (f lr s) as [s' [err|]]; [by inversion H|]. by eapply IH.
Qed.

Lemma apply_all_app l1 l2 s :
  apply_all f (l1 ++ l2) s =
  match apply_all f l1 s with
  | (s', None) => apply_all f l2 s'
  | res => res
  end.
Proof.
  revert s. induction l1 as [|lr l1 IH]; intros s; [done|]. simpl.
  by destruct (f lr s) as [s' [err|]].
Qed.
End ReplayFacts.
