(* ===== verification/WalSpec.v ===== *)
(** * Properties of the write-ahead log

    What [Append] stores, [Replay] reads back: for complete logs, for logs
    whose last record was torn by a crash, and for logs a byte of which was
    changed. *)

From S2P Require Import Prelude.
From S2P Require Import GoBase.
From S2P Require Import Hashes.
From S2P Require Import FilePath.
From S2P Require Import Wal.

(** A file that holds exactly these records. *)
Definition log_of (l : list LogRecord) : list byte := concat (map lr_bytes l).

Definition append_record (io : append_io) (d : Disk) (w : WAL) (lr : LogRecord)
  : Disk * WAL * option error :=
  WAL_Append io d w (lr_type lr) (lr_key lr) (lr_value lr) (lr_version lr) (lr_expiresAt lr).

(** Successive appends that all succeed. *)
Fixpoint append_all (d : Disk) (w : WAL) (l : list LogRecord) : option (Disk * WAL) :=
  match l with
  | [] => Some (d, w)
  | lr :: l' =>
      match append_record append_io_ok d w lr with
      | (d', w', None) => append_all d' w' l'
      | _ => None
      end
  end.

(** Close the log and open it again, as a restart does, then replay it. *)
Definition reopen_replay {St} (f : LogRecord -> St -> St * option error) (io : replay_io)
    (d : Disk) (dataDir : string) (s : St) : option (St * option error) :=
  match NewWAL true true d dataDir "wal.log" with
  | (d', inl w) => WAL_Replay f io d' w s
  | (_, inr err) => Some (s, Some err)
  end.

(** A callback that collects the records. *)
Definition collect (lr : LogRecord) (acc : list LogRecord) : list LogRecord * option error :=
  (acc ++ [lr], None).

Lemma log_of_app l1 l2 : log_of (l1 ++ l2) = log_of l1 ++ log_of l2.
Proof. unfold log_of. by rewrite map_app, concat_app. Qed.

Lemma append_record_ok d w lr :
  storable lr -> wal_closed w = false ->
  append_record append_io_ok d w lr
  = (append_file d (wal_path w) (lr_bytes lr),
     mkWAL (wal_path w) (i64 (wal_size w + Z.of_nat (length (lr_bytes lr)))) false, None).
Proof.
  intros [Hk _ _ _] Hc. unfold append_record, WAL_Append. rewrite Hc.
  destruct (Z.ltb_spec 65535 (Z.of_nat (length (bytes_of (lr_key lr))))); [lia|done].
Qed.

(** The log file and the size after a run of appends. *)
Lemma append_all_ok l : forall d w,
  Forall storable l -> wal_closed w = false -> is_i64 (wal_size w) ->
  exists d', append_all d w l
      = Some (d', mkWAL (wal_path w) (i64 (wal_size w + Z.of_nat (length (log_of l)))) false) /\
    file_of d' (wal_path w) = file_of d (wal_path w) ++ log_of l /\
    forall p, p <> wal_path w -> d' !! p = d !! p.
Proof.
  induction l as [|lr l IH]; intros d w Hl Hc Hsz.
  - exists d. cbn. rewrite Z.add_0_r, i64_small, app_nil_r by done. destruct w. by cbn in Hc; subst.
  - inversion Hl; subst. cbn [append_all]. rewrite append_record_ok by done.
    destruct (IH (append_file d (wal_path w) (lr_bytes lr))
      (mkWAL (wal_path w) (i64 (wal_size w + Z.of_nat (length (lr_bytes lr)))) false))
      as (d' & -> & Hf & Ho); [done | done | apply i64_range |].
    exists d'. cbn [wal_path wal_size] in *. split; [|split].
    + rewrite i64_add_l. change (log_of (lr :: l)) with (lr_bytes lr ++ log_of l).
      rewrite length_app, Nat2Z.inj_add. by rewrite Z.add_assoc.
    + rewrite Hf, file_of_append, <-app_assoc. done.
    + intros p Hp. rewrite Ho by done. unfold append_file. by rewrite lookup_insert_ne.
Qed.

Lemma reopen_replay_unfold {St} (f : LogRecord -> St -> St * option error) d dataDir s :
  reopen_replay f replay_io_ok d dataDir s
  = replay ReadHeaderFailed ReadPayloadFailed f AtEOF (file_of d (Join dataDir "wal.log")) s.
Proof.
  unfold reopen_replay, NewWAL, WAL_Replay. cbn.
  assert (file_of (<[Join dataDir "wal.log" := file_of d (Join dataDir "wal.log")]> d)
    (Join dataDir "wal.log") = file_of d (Join dataDir "wal.log")) as ->
    by (unfold file_of at 1; by rewrite lookup_insert_eq).
  fold (replay ReadHeaderFailed ReadPayloadFailed f AtEOF (file_of d (Join dataDir "wal.log")) s).
  match goal with |- match ?r with _ => _ end = _ => by destruct r as [[s' [err|]]|] end.
Qed.

(** A complete log is applied record by record. *)
Lemma replay_log {St} eh ep (f : LogRecord -> St -> St * option error) l s :
  Forall storable l -> replay eh ep f AtEOF (log_of l) s = Some (apply_all f l s).
Proof.
  intros Hl. unfold log_of. rewrite <-(app_nil_r (concat _)), replay_records by done.
  destruct (apply_all f l s) as [s' [err|]]; [done|]. by rewrite replay_torn_header by (cbn; lia).
Qed.

Lemma collect_all l : forall acc, apply_all collect l acc = (acc ++ l, None).
Proof.
  induction l as [|lr l IH]; intros acc; cbn; [by rewrite app_nil_r|].
  rewrite IH, <-app_assoc. done.
Qed.

(** ** Properties *)

(** C12: records appended to a fresh log and synced are all read back by
    [Replay] after a restart, once each and in order, with every field
    intact; the callback's error, if any, ends the replay. *)
Theorem wal_append_replay_roundtrip {St} (f : LogRecord -> St -> St * option error)
    (s : St) d dataDir l :
  d !! Join dataDir "wal.log" = None -> Forall storable l ->
  exists d1 w0 d2 w,
    NewWAL true true d dataDir "wal.log" = (d1, inl w0) /\
    append_all d1 w0 l = Some (d2, w) /\
    reopen_replay f replay_io_ok d2 dataDir s = Some (apply_all f l s) /\
    WAL_Size w = i64 (Z.of_nat (length (file_of d2 (WAL_Path w)))).
Proof.
  intros Hnew Hl. set (p := Join dataDir "wal.log").
  assert (file_of d p = []) as Hd by (unfold file_of; subst p; by rewrite Hnew).
  exists (<[p := []]> d), (mkWAL p 0 false).
  destruct (append_all_ok l (<[p := []]> d) (mkWAL p 0 false)) as (d2 & E & Hf & _);
    [done | done | unfold is_i64; cbn; lia |].
  exists d2, (mkWAL p (i64 (Z.of_nat (length (log_of l)))) false).
  cbn [wal_path wal_size] in *.
  assert (file_of d2 p = log_of l) as Hlog
    by (rewrite Hf; unfold file_of; by rewrite lookup_insert_eq).
  split; [unfold NewWAL; fold p; cbn; by rewrite Hd|]. split; [exact E|]. split.
  - rewrite reopen_replay_unfold. fold p. rewrite Hlog. by apply replay_log.
  - unfold WAL_Path. cbn. by rewrite Hlog.
Qed.

Definition sample_set : LogRecord := mkLogRecord RecordTypeSet "k" [x76] 7 time_zero.
Definition sample_del : LogRecord := mkLogRecord RecordTypeDelete "k" [] 8 time_zero.

Lemma sample_set_storable : storable sample_set.
Proof. split; cbn; [lia | unfold is_u64; lia | by left | lia]. Qed.
Lemma sample_del_storable : storable sample_del.
Proof. split; cbn; [lia | unfold is_u64; lia | by left | lia]. Qed.

Lemma wal_append_replay_roundtrip_witness :
  exists d1 w0 d2 w,
    NewWAL true true ∅ "data" "wal.log" = (d1, inl w0) /\
    append_all d1 w0 [sample_set; sample_del] = Some (d2, w) /\
    reopen_replay collect replay_io_ok d2 "data" [] = Some ([sample_set; sample_del], None) /\
    WAL_Size w = i64 (Z.of_nat (length (file_of d2 (WAL_Path w)))).
Proof.
  apply (wal_append_replay_roundtrip collect [] ∅ "data" [sample_set; sample_del]).
  - reflexivity.
  - repeat constructor; [apply sample_set_storable..].
Defined.

(** The replay of a log whose last record was cut after [n] bytes. *)
Lemma torn_record_replay {St} (f : LogRecord -> St -> St * option error)
    (s : St) d dataDir w l lr n :
  wal_path w = Join dataDir "wal.log" -> wal_closed w = false ->
  file_of d (wal_path w) = log_of l -> Forall storable l -> storable lr ->
  (n < length (lr_bytes lr))%nat ->
  exists d', append_record (mkAppendIO (WriteFails n) true) d w lr = (d', w, Some WriteWALFailed) /\
    reopen_replay f replay_io_ok d' dataDir s =
    match apply_all f l s with
    | (s', None) =>
        if (n <? 8)%nat then Some (s', None)
        else if (n =? 8)%nat then Some (s', Some (ReadPayloadFailed EOF))
        else Some (s', Some (ReadPayloadFailed ErrUnexpectedEOF))
    | (s', Some err) => Some (s', Some err)
    end.
Proof.
  intros Hp Hc Hf Hl Hlr Hn. pose proof (lr_payload_size lr Hlr) as Hsz.
  exists (append_file d (wal_path w) (take n (lr_bytes lr))). split.
  - destruct Hlr as [Hk _ _ _]. unfold append_record, WAL_Append. rewrite Hc.
    destruct (Z.ltb_spec 65535 (Z.of_nat (length (bytes_of (lr_key lr))))); [lia|done].
  - rewrite reopen_replay_unfold, <-Hp, file_of_append, Hf. unfold log_of.
    rewrite replay_records by done. destruct (apply_all f l s) as [s' [err|]]; [done|].
    destruct (Nat.ltb_spec n 8) as [H8|H8].
    { rewrite replay_torn_header; [done|]. rewrite length_take. lia. }
    rewrite lr_bytes_framed in *. unfold framed in *. rewrite !length_app, !put_be_length in Hn.
    rewrite u32_small by done.
    set (hdr := put_be 4 (Z.of_nat (length (lr_payload lr))) ++ put_be 4 (ChecksumIEEE (lr_payload lr))).
    assert (length hdr = 8%nat) as Hh by (subst hdr; lengths).
    rewrite (app_assoc (put_be 4 (Z.of_nat _))). fold hdr. rewrite take_app, Hh, take_ge by lia.
    rewrite replay_unfold. unfold next_record. rewrite ReadFull_app by (rewrite Hh; done).
    assert (get_be (slice 0 4 hdr) = Z.of_nat (length (lr_payload lr))) as ->
      by (subst hdr; rewrite slice_front, get_put_be32, u32_small by (done || lengths); done).
    unfold ReadFull. rewrite length_take.
    destruct (Z.leb_spec (Z.of_nat (length (lr_payload lr)))
      (Z.of_nat (Nat.min (n - 8) (length (lr_payload lr))))); [lia|].
    destruct (Nat.eqb_spec n 8) as [->|Hne]; [done|].
    destruct (take (n - 8) (lr_payload lr)) eqn:E; [|done].
    apply (f_equal length) in E. rewrite length_take in E. cbn in E. lia.
Qed.

(** C30: a record that a crash or a failed write cut short is never applied.
    Whatever the length of the fragment, [Append] reports the failed write
    and the next [Replay] returns, with exactly the state the complete
    records before the fragment give; an error of the callback on one of
    them is the replay's error, and a fragment that holds the whole header
    but not the whole payload is reported as a failed read of the payload. *)
Theorem torn_record_is_not_applied {St} (f : LogRecord -> St -> St * option error)
    (s : St) d dataDir w l lr n :
  wal_path w = Join dataDir "wal.log" -> wal_closed w = false ->
  file_of d (wal_path w) = log_of l -> Forall storable l -> storable lr ->
  (n < length (lr_bytes lr))%nat ->
  exists d' res,
    append_record (mkAppendIO (WriteFails n) true) d w lr = (d', w, Some WriteWALFailed) /\
    reopen_replay f replay_io_ok d' dataDir s = Some ((apply_all f l s).1, res) /\
    (forall err, (apply_all f l s).2 = Some err -> res = Some err) /\
    ((apply_all f l s).2 = None -> (8 <= n)%nat ->
     res = Some (ReadPayloadFailed (if (n =? 8)%nat then EOF else ErrUnexpectedEOF))).
Proof.
  intros Hp Hc Hf Hl Hlr Hn.
  destruct (torn_record_replay f s d dataDir w l lr n Hp Hc Hf Hl Hlr Hn) as (d' & Ha & Hr).
  destruct (apply_all f l s) as [s' [e|]]; cbn [fst snd].
  - exists d', (Some e). split_and!; [done|done|congruence|done].
  - destruct (Nat.ltb_spec n 8); [|destruct (n =? 8)%nat];
      eexists d', _; (split_and!; [done|exact Hr|done|try done; lia]).
Qed.

Lemma torn_record_is_not_applied_witness :
  exists d' res, append_record (mkAppendIO (WriteFails 20) true)
      {[ "data/wal.log" := log_of [sample_set] ]} (mkWAL "data/wal.log" 29 false) sample_del
      = (d', mkWAL "data/wal.log" 29 false, Some WriteWALFailed) /\
    reopen_replay collect replay_io_ok d' "data" [] = Some ([sample_set], res) /\
    res = Some (ReadPayloadFailed ErrUnexpectedEOF).
Proof.
  destruct (torn_record_is_not_applied collect [] {[ "data/wal.log" := log_of [sample_set] ]}
    "data" (mkWAL "data/wal.log" 29 false) [sample_set] sample_del 20) as (d' & res & Ha & Hr & _ & He).
  - reflexivity.
  - reflexivity.
  - reflexivity.
  - repeat constructor; apply sample_set_storable.
  - apply sample_del_storable.
  - vm_compute. lia.
  - exists d', res. split; [exact Ha|]. split; [exact Hr|]. apply He; [reflexivity|lia].
Defined.

(** C31: a record one byte of whose payload was changed on disk is rejected
    with [ErrChecksumMismatch]; the records before it are applied and nothing
    after it is. *)
Theorem corrupted_byte_is_detected {St} (f : LogRecord -> St -> St * option error)
    (s : St) d dataDir l lr p1 a b p2 tail :
  Forall storable l -> storable lr ->
  lr_payload lr = p1 ++ a :: p2 -> a <> b ->
  file_of d (Join dataDir "wal.log")
    = log_of l ++ take 8 (lr_bytes lr) ++ p1 ++ b :: p2 ++ tail ->
  reopen_replay f replay_io_ok d dataDir s =
  match apply_all f l s with
  | (s', None) => Some (s', Some ErrChecksumMismatch)
  | (s', Some err) => Some (s', Some err)
  end.
Proof.
  intros Hl Hlr Hp Hab Hf. pose proof (lr_payload_size lr Hlr) as Hsz.
  rewrite reopen_replay_unfold, Hf. unfold log_of. rewrite replay_records by done.
  destruct (apply_all f l s) as [s' [err|]]; [done|].
  rewrite lr_bytes_framed. unfold framed. rewrite u32_small by done.
  rewrite (app_assoc (put_be 4 _)), take_app_length' by lengths.
  replace (((put_be 4 (Z.of_nat (length (lr_payload lr))) ++ put_be 4 (ChecksumIEEE (lr_payload lr)))
    ++ p1 ++ b :: p2 ++ tail))
    with (put_be 4 (Z.of_nat (length (lr_payload lr))) ++ put_be 4 (ChecksumIEEE (lr_payload lr))
    ++ (p1 ++ b :: p2) ++ tail) by (by rewrite <-!app_assoc).
  rewrite replay_unfold, next_record_frame;
    [|done | apply ChecksumIEEE_range | rewrite Hp, !length_app; done].
  destruct (Z.eqb_spec (ChecksumIEEE (p1 ++ b :: p2)) (ChecksumIEEE (lr_payload lr))) as [E|];
    [|done].
  rewrite Hp in E. apply ChecksumIEEE_one_byte in E. congruence.
Qed.

Lemma corrupted_byte_is_detected_witness :
  reopen_replay collect replay_io_ok
    {[ "data/wal.log" := log_of [sample_del] ++ take 8 (lr_bytes sample_set)
         ++ take 20 (lr_payload sample_set) ++ x77 :: [] ++ log_of [sample_del] ]} "data" []
  = Some ([sample_del], Some ErrChecksumMismatch).
Proof.
  refine (corrupted_byte_is_detected collect []
    {[ "data/wal.log" := log_of [sample_del] ++ take 8 (lr_bytes sample_set)
         ++ take 20 (lr_payload sample_set) ++ x77 :: [] ++ log_of [sample_del] ]} "data"
    [sample_del] sample_set (take 20 (lr_payload sample_set)) x76 x77 [] (log_of [sample_del])
    _ _ _ _ _).
  - repeat constructor; apply sample_del_storable.
  - apply sample_set_storable.
  - reflexivity.
  - discriminate.
  - reflexivity.
Defined.

(** A tail of one to seven stray bytes at the end of the log, whatever
    they are, is silently taken for the end of the log. *)
Theorem short_garbage_tail_is_accepted {St} (f : LogRecord -> St -> St * option error)
    (s : St) d dataDir l garbage :
  Forall storable l -> (length garbage < 8)%nat ->
  file_of d (Join dataDir "wal.log") = log_of l ++ garbage ->
  reopen_replay f replay_io_ok d dataDir s = Some (apply_all f l s).
Proof.
  intros Hl Hg Hf. rewrite reopen_replay_unfold, Hf. unfold log_of.
  rewrite replay_records by done. destruct (apply_all f l s) as [s' [err|]]; [done|].
  by apply replay_torn_header.
Qed.

Lemma short_garbage_tail_is_accepted_witness :
  reopen_replay collect replay_io_ok
    {[ "data/wal.log" := log_of [sample_set] ++ [xff; xff; xff; xff] ]} "data" []
  = Some ([sample_set], None).
Proof.
  refine (short_garbage_tail_is_accepted collect []
    {[ "data/wal.log" := log_of [sample_set] ++ [xff; xff; xff; xff] ]} "data" [sample_set]
    [xff; xff; xff; xff] _ _ _).
  - repeat constructor; apply sample_set_storable.
  - cbn. lia.
  - reflexivity.
Defined.

(** Because that tail is accepted but not truncated, a write that is
    acknowledged after it makes the log unreadable: the record is written and
    synced without error, and the next replay fails without delivering it. *)
Theorem append_after_torn_header_is_lost :
  let w := mkWAL "data/wal.log" 35 false in
  let d1 := (append_record (mkAppendIO (WriteFails 4) true)
               {[ "data/wal.log" := log_of [sample_del] ]} w sample_set).1.1 in
  let r2 := append_record append_io_ok d1 w sample_set in
  reopen_replay collect replay_io_ok d1 "data" [] = Some ([sample_del], None) /\
  r2.2 = None /\
  reopen_replay collect replay_io_ok r2.1.1 "data" [] = Some ([sample_del], Some ErrChecksumMismatch).
Proof. vm_compute. auto. Qed.
