(* ===== verification/Store.v ===== *)
(** * The sharded in-memory store: [internal/store/store.go]

    The store's state and its operations.  Each operation is composed of the
    critical sections the code has (the parts between a lock and its unlock),
    so the sequential theorems here and the interleavings of [Concurrency.v]
    are about the same definitions.  Every reading of the clock and every
    outcome of a disk operation is an argument. *)

From S2P Require Import Prelude.
From S2P Require Import GoBase.
From S2P Require Import Hashes.
From S2P Require Import QuickSort.
From S2P Require Import Lww.
From S2P Require Import Wal.

Definition ShardCount : Z := 32.

Record Store := mkStore {
  shards : list KV;
  wal : option WAL;
  lastVersion : Z;
  keyCount : Z;
  reaperStopped : bool
}.

Definition with_shards (s : Store) (l : list KV) : Store :=
  mkStore l (wal s) (lastVersion s) (keyCount s) (reaperStopped s).
Definition with_wal (s : Store) (w : option WAL) : Store :=
  mkStore (shards s) w (lastVersion s) (keyCount s) (reaperStopped s).
Definition with_lastVersion (s : Store) (v : Z) : Store :=
  mkStore (shards s) (wal s) v (keyCount s) (reaperStopped s).
Definition with_keyCount (s : Store) (n : Z) : Store :=
  mkStore (shards s) (wal s) (lastVersion s) n (reaperStopped s).

(** [atomic.AddInt64(&s.keyCount, n)]. *)
Definition add_keyCount (n : Z) (s : Store) : Store := with_keyCount s (i64 (keyCount s + n)).

Definition NewStore (w : option WAL) : Store :=
  mkStore (replicate (Z.to_nat ShardCount) ∅) w 0 0 false.

(** [close] of a closed channel panics ([None]). *)
Definition Store_Close (close_ok : bool) (s : Store) : option (Store * option error) :=
  if reaperStopped s then None
  else
    let s' := mkStore (shards s) (wal s) (lastVersion s) (keyCount s) true in
    match wal s' with
    | Some w => let '(w', err) := WAL_Close close_ok w in Some (with_wal s' (Some w'), err)
    | None => Some (s', None)
    end.

Definition NextVersion (now : Z) (s : Store) : Z * Store :=
  let v := u64 (UnixNano now) in
  let v := if v <=? lastVersion s then u64 (lastVersion s + 1) else v in
  (v, with_lastVersion s v).

(** The index [getShard] computes. *)
Definition shard_index (key : string) : nat :=
  Z.to_nat (fnv32a (bytes_of key) mod ShardCount).

Definition getShard (s : Store) (key : string) : KV :=
  default ∅ (shards s !! shard_index key).

(** Replace the map of the key's shard. *)
Definition set_shard (s : Store) (key : string) (db : KV) : Store :=
  with_shards s (<[shard_index key := db]> (shards s)).

(** ** Get *)

(** The read under [RLock]. *)
Definition Get_read (s : Store) (key : string) : option Entry := getShard s key !! key.

(** The lazy reap under [Lock], which checks the expiry again. *)
Definition Get_reap (now : Z) (s : Store) (key : string) : Store :=
  match getShard s key !! key with
  | Some e =>
      if IsExpired now e
      then add_keyCount (-1) (set_shard s key (delete key (getShard s key)))
      else s
  | None => s
  end.

(** The result [(value, version, found)] and the store after the call. *)
Definition Store_Get (now now_locked : Z) (s : Store) (key : string)
  : (list byte * Z * bool) * Store :=
  match Get_read s key with
  | None => (([], 0, false), s)
  | Some entry =>
      if IsExpired now entry then (([], 0, false), Get_reap now_locked s key)
      else ((Value entry, Version entry, true), s)
  end.

(** ** Set *)

(** The expiry of a write: [time.Now().Add(ttl)] when the ttl is positive. *)
Definition expiry_of (now ttl : Z) : Z := if 0 <? ttl then time_Add now ttl else time_zero.

(** Version 0 asks for a new version. *)
Definition pick_version (now : Z) (s : Store) (version : Z) : Z * Store :=
  if version =? 0 then NextVersion now s else (version, s).

(** The logging step of [Set] and [Delete]; nothing without a log. *)
Definition log_mutation (io : append_io) (d : Disk) (s : Store) (recType : byte)
    (key : string) (value : list byte) (version expiresAt : Z) : Disk * Store * option error :=
  match wal s with
  | Some w =>
      let '(d', w', err) := WAL_Append io d w recType key value version expiresAt in
      (d', with_wal s (Some w'), WalAppendFailed <$> err)
  | None => (d, s, None)
  end.

(** The critical section of [Set]: the returned version and the new store. *)
Definition Set_apply (s : Store) (key : string) (value : list byte) (version expiresAt : Z)
  : Z * Store :=
  let db := getShard s key in
  let e := mkEntry value version expiresAt in
  match db !! key with
  | Some current =>
      if version <? Version current then (Version current, s)
      else (version, set_shard s key (<[key := e]> db))
  | None => (version, set_shard (add_keyCount 1 s) key (<[key := e]> db))
  end.

Definition Store_Set (now_exp now_ver : Z) (io : append_io) (d : Disk) (s : Store)
    (key : string) (value : list byte) (ttl version : Z) : Disk * Store * (Z * option error) :=
  let expiresAt := expiry_of now_exp ttl in
  let '(version, s) := pick_version now_ver s version in
  match log_mutation io d s RecordTypeSet key value version expiresAt with
  | (d, s, Some err) => (d, s, (0, Some err))
  | (d, s, None) =>
      let '(v, s) := Set_apply s key value version expiresAt in (d, s, (v, None))
  end.

(** ** Delete *)

Definition Delete_apply (s : Store) (key : string) (version : Z) : (Z * bool) * Store :=
  let db := getShard s key in
  match db !! key with
  | None => ((version, false), s)
  | Some current =>
      if version <? Version current then ((Version current, false), s)
      else ((version, true), add_keyCount (-1) (set_shard s key (delete key db)))
  end.

Definition Store_Delete (now_ver : Z) (io : append_io) (d : Disk) (s : Store)
    (key : string) (version : Z) : Disk * Store * (Z * bool * option error) :=
  let '(version, s) := pick_version now_ver s version in
  match log_mutation io d s RecordTypeDelete key [] version time_zero with
  | (d, s, Some err) => (d, s, (0, false, Some err))
  | (d, s, None) =>
      let '(v, deleted, s) := Delete_apply s key version in (d, s, (v, deleted, None))
  end.

(** ** Scan *)

Section Scan.
Context {R : MapRange}.

(** The loop body: the key an entry contributes to the listing, if any. *)
Definition scan_entry (now : Z) (prefix : string) (kv : string * Entry) : option string :=
  let '(k, entry) := kv in
  if negb (IsZero (ExpiresAt entry)) && time_After now (ExpiresAt entry) then None
  else if HasPrefix k prefix then Some k else None.

(** The keys one shard contributes, in the order of its iteration. *)
Definition scan_shard (now : Z) (prefix : string) (db : KV) : list string :=
  omap (scan_entry now prefix) (range db).

(** The loop that finds the first key after the cursor: [i] is the index of
    the head of the remaining keys, [n] the number of keys. *)
Fixpoint scan_start (cursor : string) (n : Z) (startIndex i : Z) (keys : list string) : Z :=
  match keys with
  | [] => startIndex
  | k :: keys' =>
      if str_lt cursor k then i
      else scan_start cursor n (if i =? n - 1 then n else startIndex) (i + 1) keys'
  end.

(** The page of a sorted listing: the keys and the next cursor; [None] is a
    slice or an index out of range. *)
Definition scan_page (limit : Z) (cursor : string) (allKeys : list string)
  : option (list string * string) :=
  let n := Z.of_nat (length allKeys) in
  let startIndex := if decide (cursor = "") then 0 else scan_start cursor n 0 0 allKeys in
  let endIndex := i64 (startIndex + limit) in
  let endIndex := if n <? endIndex then n else endIndex in
  if n <=? startIndex then Some ([], "")
  else if endIndex <? startIndex then None
  else
    let matched := take (Z.to_nat (endIndex - startIndex)) (drop (Z.to_nat startIndex) allKeys) in
    if endIndex <? n then
      match last matched with
      | Some k => Some (matched, k)
      | None => None
      end
    else Some (matched, "").

Definition Store_Scan (now : Z) (s : Store) (prefix : string) (limit : Z) (cursor : string)
  : option (list string * string) :=
  allKeys ← sortStrings (concat (map (scan_shard now prefix) (shards s)));
  scan_page limit cursor allKeys.

(** ** The reaper *)

(** The loop body over the entries of one shard. *)
Definition reap_entries (now : Z) (l : list (string * Entry)) (acc : KV * Z) : KV * Z :=
  fold_left (fun '(db, n) '(k, entry) =>
    if negb (IsZero (ExpiresAt entry)) && time_After now (ExpiresAt entry)
    then (delete k db, i64 (n + -1)) else (db, n)) l acc.

(** The critical section of [reap] for shard [i]. *)
Definition reap_shard (now : Z) (i : nat) (s : Store) : Store :=
  match shards s !! i with
  | Some db =>
      let '(db', n) := reap_entries now (range db) (db, keyCount s) in
      with_keyCount (with_shards s (<[i := db']> (shards s))) n
  | None => s
  end.

Definition reap (now : Z) (s : Store) : Store :=
  fold_left (fun s i => reap_shard now i s) (seq 0 (Z.to_nat ShardCount)) s.
End Scan.

Definition Store_Size (s : Store) : Z := keyCount s.

Definition SetWAL (s : Store) (w : WAL) : Store := with_wal s (Some w).
