(* ===== verification/StoreInv.v ===== *)
(** * The representation invariant of the sharded store

    The finite map the shards represent, the invariant that ties the shards
    and the key gauge to it, and what every operation of [Store.v] does to the
    map: one refinement lemma and one preservation lemma per operation. *)

From S2P Require Import Prelude.
From S2P Require Import GoBase.
From S2P Require Import Hashes.
From S2P Require Import QuickSort.
From S2P Require Import Lww.
From S2P Require Import Wal.
From S2P Require Import Store.

(** ** The map a store represents *)

Definition view_of (l : list KV) : KV := foldr (∪) ∅ l.
Definition view (s : Store) : KV := view_of (shards s).

(** Every key is in the shard its hash selects. *)
Record well_sharded (l : list KV) : Prop := {
  ws_length : length l = Z.to_nat ShardCount;
  ws_home : forall i db k e, l !! i = Some db -> db !! k = Some e -> i = shard_index k
}.

(** The representation invariant: keys are in their shards, the gauge is the
    number of keys (as an [int64]), versions are [uint64]. *)
Record store_ok (s : Store) : Prop := {
  so_sharded : well_sharded (shards s);
  so_count : keyCount s = i64 (Z.of_nat (size (view s)));
  so_last : is_u64 (lastVersion s);
  so_versions : map_Forall (fun _ e => is_u64 (Version e)) (view s)
}.

Lemma shard_index_lt k : (shard_index k < Z.to_nat ShardCount)%nat.
Proof.
  unfold shard_index, ShardCount.
  pose proof (Z.mod_pos_bound (fnv32a (bytes_of k)) 32). lia.
Qed.

Lemma lookup_view_of l i db k :
  l !! i = Some db ->
  (forall j db', l !! j = Some db' -> j <> i -> db' !! k = None) ->
  view_of l !! k = db !! k.
Proof.
  revert i. induction l as [|db0 l IH]; intros i Hi Hother; [done|].
  cbn [view_of foldr]. destruct i as [|i]; simpl in Hi.
  - inversion Hi; subst. destruct (db !! k) as [e|] eqn:E.
    + by apply lookup_union_Some_l.
    + rewrite lookup_union_r by done.
      assert (forall j db', l !! j = Some db' -> db' !! k = None) as Hn
        by (intros j db' Hj; by apply (Hother (S j))).
      clear -Hn. induction l as [|d l IHl]; [done|]. cbn [foldr].
      rewrite lookup_union_r by (by apply (Hn 0%nat)). apply IHl.
      intros j db' Hj. by apply (Hn (S j)).
  - rewrite lookup_union_r by (by apply (Hother 0%nat)).
    apply (IH i); [done|]. intros j db' Hj Hne. apply (Hother (S j)); [done|congruence].
Qed.

Section WellSharded.
Context (s : Store) (Hs : well_sharded (shards s)).

Lemma shard_lookup k : shards s !! shard_index k = Some (getShard s k).
Proof.
  unfold getShard. destruct (lookup_lt_is_Some_2 (shards s) (shard_index k)) as [db ->];
    [|done]. rewrite (ws_length _ Hs). apply shard_index_lt.
Qed.

Lemma lookup_view k : view s !! k = getShard s k !! k.
Proof using Hs.
  apply (lookup_view_of _ (shard_index k)); [apply shard_lookup|].
  intros j db Hj Hne. destruct (db !! k) as [e|] eqn:E; [|done].
  by destruct Hne; eapply ws_home.
Qed.

Lemma getShard_home k k' e : getShard s k !! k' = Some e -> shard_index k' = shard_index k.
Proof using Hs. intros H. symmetry. eapply ws_home; [done | apply shard_lookup | done]. Qed.

Lemma set_shard_sharded key db :
  (forall k e, db !! k = Some e -> shard_index k = shard_index key) ->
  well_sharded (shards (set_shard s key db)).
Proof using Hs.
  intros Hdb. split; [cbn; rewrite length_insert; apply Hs|].
  intros i db' k e Hi He. cbn in Hi.
  apply list_lookup_insert_Some in Hi as [(<- & <- & _)|(_ & Hi)].
  - symmetry. by eapply Hdb.
  - by eapply ws_home.
Qed.

Lemma getShard_set_shard key db k :
  getShard (set_shard s key db) k
  = if decide (shard_index k = shard_index key) then db else getShard s k.
Proof using Hs.
  unfold getShard, set_shard; cbn. case_decide as H.
  - rewrite H, list_lookup_insert_eq; [done|]. rewrite (ws_length _ Hs).
    apply shard_index_lt.
  - by rewrite list_lookup_insert_ne.
Qed.
End WellSharded.

Section UpdateKey.
Context (s : Store) (Hs : well_sharded (shards s)) (key : string).

Lemma insert_sharded e :
  well_sharded (shards (set_shard s key (<[key := e]> (getShard s key)))).
Proof using Hs.
  apply set_shard_sharded; [done|]. intros k e' H.
  apply lookup_insert_Some in H as [[<- _]|[_ H]]; [done | by eapply getShard_home].
Qed.

Lemma delete_sharded : well_sharded (shards (set_shard s key (delete key (getShard s key)))).
Proof using Hs.
  apply set_shard_sharded; [done|]. intros k e' H.
  apply lookup_delete_Some in H as [_ H]. by eapply getShard_home.
Qed.

Lemma view_insert e :
  view (set_shard s key (<[key := e]> (getShard s key))) = <[key := e]> (view s).
Proof using Hs.
  apply map_eq. intros k. rewrite lookup_view by apply insert_sharded.
  rewrite getShard_set_shard by done.
  destruct (decide (key = k)) as [->|Hne].
  - by rewrite decide_True, !lookup_insert_eq.
  - rewrite lookup_insert_ne, lookup_view by done. case_decide as Hi; [|done].
    rewrite lookup_insert_ne by done. unfold getShard. by rewrite Hi.
Qed.

Lemma view_delete :
  view (set_shard s key (delete key (getShard s key))) = delete key (view s).
Proof using Hs.
  apply map_eq. intros k. rewrite lookup_view by apply delete_sharded.
  rewrite getShard_set_shard by done.
  destruct (decide (key = k)) as [->|Hne].
  - by rewrite decide_True, !lookup_delete_eq.
  - rewrite lookup_delete_ne, lookup_view by done. case_decide as Hi; [|done].
    rewrite lookup_delete_ne by done. unfold getShard. by rewrite Hi.
Qed.
End UpdateKey.

#[export] Hint Resolve so_sharded so_last insert_sharded delete_sharded : kv.

(** ** The operations on the represented map *)

Lemma NewStore_view w : view (NewStore w) = ∅.
Proof.
  unfold view, NewStore; cbn [shards]. generalize (Z.to_nat ShardCount) as n.
  induction n as [|n IH]; [done|]. cbn [view_of replicate foldr]. unfold view_of in IH.
  rewrite IH. apply map_empty_union.
Qed.

Lemma NewStore_ok w : store_ok (NewStore w).
Proof.
  split; rewrite ?NewStore_view.
  - split; [by rewrite <-(length_replicate (Z.to_nat ShardCount) (∅ : KV))|].
    intros i db k e Hi He. apply lookup_replicate in Hi as [-> _]. done.
  - done.
  - unfold is_u64. simpl. lia.
  - apply map_Forall_empty.
Qed.

Lemma getShard_view s k : store_ok s -> getShard s k !! k = view s !! k.
Proof. intros H. symmetry. apply lookup_view. by apply so_sharded. Qed.

(** The returned version and the resolution of a write. *)
Lemma Set_apply_view s key value version expiresAt :
  store_ok s ->
  view (Set_apply s key value version expiresAt).2
    = lww_set key (mkEntry value version expiresAt) (view s) /\
  (Set_apply s key value version expiresAt).1
    = match view s !! key with
      | Some c => Z.max version (Version c)
      | None => version
      end.
Proof.
  intros Hs. unfold Set_apply, lww_set. rewrite getShard_view by done.
  destruct (view s !! key) as [c|]; cbn [Version].
  - destruct (Z.ltb_spec version (Version c)); cbn; [split; [done|lia]|].
    split; [apply view_insert; auto with kv | lia].
  - split; [|done]. apply (view_insert (add_keyCount 1 s)), (so_sharded s Hs).
Qed.

Lemma Set_apply_ok s key value version expiresAt :
  store_ok s -> is_u64 version -> store_ok (Set_apply s key value version expiresAt).2.
Proof.
  intros Hs Hv. unfold Set_apply. rewrite getShard_view by done.
  set (e := mkEntry value version expiresAt).
  assert (map_Forall (fun _ e => is_u64 (Version e)) (<[key := e]> (view s))) as Hver
    by (apply map_Forall_insert_2; [done | apply Hs]).
  destruct (view s !! key) as [c|] eqn:E.
  - destruct (version <? Version c); [done|]. cbn.
    assert (view (set_shard s key (<[key := e]> (getShard s key))) = <[key := e]> (view s))
      as Hview by (apply view_insert; auto with kv).
    split; rewrite ?Hview; [auto with kv | | apply (so_last s Hs) | done].
    rewrite map_size_insert_Some by eauto. apply Hs.
  - assert (view (set_shard (add_keyCount 1 s) key (<[key := e]> (getShard s key)))
            = <[key := e]> (view s)) as Hview
      by (apply (view_insert (add_keyCount 1 s)); apply (so_sharded s Hs)).
    cbn. split; rewrite ?Hview; [| | apply (so_last s Hs) | done].
    + apply (insert_sharded (add_keyCount 1 s)), (so_sharded s Hs).
    + cbn. rewrite (so_count s), i64_add_l, map_size_insert_None by done. f_equal. lia.
Qed.

Lemma Delete_apply_view s key version :
  store_ok s ->
  view (Delete_apply s key version).2 = lww_delete key version (view s) /\
  (Delete_apply s key version).1
    = match view s !! key with
      | Some c => (Z.max version (Version c), Version c <=? version)
      | None => (version, false)
      end.
Proof.
  intros Hs. unfold Delete_apply, lww_delete. rewrite getShard_view by done.
  destruct (view s !! key) as [c|]; [|done].
  destruct (Z.ltb_spec version (Version c)); cbn.
  - split; [done|]. rewrite Z.max_r by lia. by destruct (Z.leb_spec (Version c) version); [lia|].
  - split; [apply view_delete; auto with kv|]. rewrite Z.max_l by lia.
    by destruct (Z.leb_spec (Version c) version); [|lia].
Qed.

(** Removing a present key from its shard and the gauge. *)
Lemma remove_ok s key e :
  store_ok s -> view s !! key = Some e ->
  store_ok (add_keyCount (-1) (set_shard s key (delete key (getShard s key)))).
Proof.
  intros Hs He.
  assert (view (set_shard s key (delete key (getShard s key))) = delete key (view s))
    as Hview by (apply view_delete; auto with kv).
  split; unfold view in *; cbn in *; rewrite ?Hview.
  - by apply delete_sharded, so_sharded.
  - rewrite (so_count s), i64_add_l, map_size_delete_Some by eauto. f_equal.
    assert (size (view s) <> 0)%nat; [|unfold view in *; lia].
    intros Hz%map_size_empty_iff. unfold view in *. by rewrite Hz in He.
  - apply (so_last s Hs).
  - apply map_Forall_delete. apply Hs.
Qed.

Lemma Delete_apply_ok s key version : store_ok s -> store_ok (Delete_apply s key version).2.
Proof.
  intros Hs. unfold Delete_apply. destruct (getShard s key !! key) as [c|] eqn:E; [|done].
  destruct (version <? Version c); [done|]. cbn.
  rewrite getShard_view in E by done. by apply remove_ok with c.
Qed.

Lemma Get_reap_view now s key :
  store_ok s ->
  view (Get_reap now s key)
  = match view s !! key with
    | Some e => if IsExpired now e then delete key (view s) else view s
    | None => view s
    end.
Proof.
  intros Hs. unfold Get_reap. rewrite getShard_view by done.
  destruct (view s !! key) as [e|]; [|done]. destruct (IsExpired now e); [|done].
  apply view_delete; auto with kv.
Qed.

Lemma Get_reap_ok now s key : store_ok s -> store_ok (Get_reap now s key).
Proof.
  intros Hs. unfold Get_reap. destruct (getShard s key !! key) as [c|] eqn:E; [|done].
  destruct (IsExpired now c); [|done].
  rewrite getShard_view in E by done. by apply remove_ok with c.
Qed.

(** ** Versions *)

Lemma NextVersion_view now s : view (NextVersion now s).2 = view s.
Proof. done. Qed.

Lemma NextVersion_u64 now s : is_u64 (NextVersion now s).1.
Proof. unfold NextVersion. cbn. destruct (_ <=? _); apply u64_range. Qed.

Lemma NextVersion_ok now s : store_ok s -> store_ok (NextVersion now s).2.
Proof.
  intros Hs. pose proof (NextVersion_u64 now s) as Hv.
  split; [apply Hs | apply Hs | exact Hv | apply Hs].
Qed.

Lemma NextVersion_fresh now s :
  is_u64 (lastVersion s) -> lastVersion s < 2 ^ 64 - 1 ->
  lastVersion s < (NextVersion now s).1 /\ lastVersion (NextVersion now s).2 = (NextVersion now s).1.
Proof.
  unfold is_u64. intros Hl Hmax. split; [|done]. unfold NextVersion. cbn.
  destruct (Z.leb_spec (u64 (UnixNano now)) (lastVersion s)); [|lia].
  rewrite u64_small by (unfold is_u64; lia). lia.
Qed.

Lemma pick_version_facts now s version :
  store_ok s -> is_u64 version ->
  store_ok (pick_version now s version).2 /\ is_u64 (pick_version now s version).1 /\
  view (pick_version now s version).2 = view s.
Proof.
  intros Hs Hv. unfold pick_version. destruct (version =? 0); [|done].
  split; [by apply NextVersion_ok|]. split; [apply NextVersion_u64|done].
Qed.

(** The log is not part of what the invariant talks about. *)
Lemma with_wal_ok s w : store_ok s -> store_ok (with_wal s w).
Proof. intros Hs. split; apply Hs. Qed.

Lemma log_mutation_facts io d s t k v ver e :
  store_ok s ->
  store_ok (log_mutation io d s t k v ver e).1.2 /\
  view (log_mutation io d s t k v ver e).1.2 = view s.
Proof.
  intros Hs. unfold log_mutation. destruct (wal s) as [w|]; [|done].
  destruct (WAL_Append io d w t k v ver e) as [[d' w'] err]. cbn.
  split; [by apply with_wal_ok | done].
Qed.

(** ** Set and Delete on the represented map *)

Section SetDelete.
Context (io : append_io) (d : Disk) (s : Store) (Hs : store_ok s).

Lemma Store_Set_ok now_exp now_ver key value ttl version :
  is_u64 version -> store_ok (Store_Set now_exp now_ver io d s key value ttl version).1.2.
Proof using Hs.
  intros Hv. unfold Store_Set.
  destruct (pick_version_facts now_ver s version Hs Hv) as (H1 & H2 & _).
  destruct (pick_version now_ver s version) as [ver s1]. cbn in H1, H2.
  destruct (log_mutation_facts io d s1 RecordTypeSet key value ver (expiry_of now_exp ttl) H1)
    as [H3 _].
  destruct (log_mutation io d s1 _ _ _ _ _) as [[d2 s2] [err|]]; [done|]. cbn in H3.
  pose proof (Set_apply_ok s2 key value ver (expiry_of now_exp ttl) H3 H2) as H4.
  by destruct (Set_apply s2 _ _ _ _).
Qed.

Lemma Store_Set_view now_exp now_ver key value ttl version :
  is_u64 version ->
  let r := Store_Set now_exp now_ver io d s key value ttl version in
  let ver := (pick_version now_ver s version).1 in
  match r.2 with
  | (v, Some _) => v = 0 /\ view r.1.2 = view s
  | (v, None) =>
      view r.1.2 = lww_set key (mkEntry value ver (expiry_of now_exp ttl)) (view s) /\
      v = match view s !! key with Some c => Z.max ver (Version c) | None => ver end
  end.
Proof using Hs.
  intros Hv. cbv zeta. unfold Store_Set.
  destruct (pick_version_facts now_ver s version Hs Hv) as (H1 & H2 & H3).
  destruct (pick_version now_ver s version) as [ver s1]. cbn in H1, H2, H3 |- *.
  destruct (log_mutation_facts io d s1 RecordTypeSet key value ver (expiry_of now_exp ttl) H1)
    as [H4 H5].
  destruct (log_mutation io d s1 _ _ _ _ _) as [[d2 s2] [err|]]; cbn in H4, H5 |- *.
  - split; [done|congruence].
  - destruct (Set_apply_view s2 key value ver (expiry_of now_exp ttl) H4) as [H6 H7].
    destruct (Set_apply s2 _ _ _ _) as [v s3]. cbn in *. rewrite H6, H7, H5, H3. done.
Qed.

Lemma Store_Delete_ok now_ver key version :
  is_u64 version -> store_ok (Store_Delete now_ver io d s key version).1.2.
Proof using Hs.
  intros Hv. unfold Store_Delete.
  destruct (pick_version_facts now_ver s version Hs Hv) as (H1 & H2 & _).
  destruct (pick_version now_ver s version) as [ver s1]. cbn in H1, H2.
  destruct (log_mutation_facts io d s1 RecordTypeDelete key [] ver time_zero H1) as [H3 _].
  destruct (log_mutation io d s1 _ _ _ _ _) as [[d2 s2] [err|]]; [done|]. cbn in H3.
  pose proof (Delete_apply_ok s2 key ver H3) as H4.
  by destruct (Delete_apply s2 _ _) as [[v del] s3].
Qed.

Lemma Store_Delete_view now_ver key version :
  is_u64 version ->
  let r := Store_Delete now_ver io d s key version in
  let ver := (pick_version now_ver s version).1 in
  match r.2 with
  | (v, deleted, Some _) => v = 0 /\ deleted = false /\ view r.1.2 = view s
  | (v, deleted, None) =>
      view r.1.2 = lww_delete key ver (view s) /\
      (v, deleted) = match view s !! key with
                     | Some c => (Z.max ver (Version c), Version c <=? ver)
                     | None => (ver, false)
                     end
  end.
Proof using Hs.
  intros Hv. cbv zeta. unfold Store_Delete.
  destruct (pick_version_facts now_ver s version Hs Hv) as (H1 & H2 & H3).
  destruct (pick_version now_ver s version) as [ver s1]. cbn in H1, H2, H3 |- *.
  destruct (log_mutation_facts io d s1 RecordTypeDelete key [] ver time_zero H1) as [H4 H5].
  destruct (log_mutation io d s1 _ _ _ _ _) as [[d2 s2] [err|]]; cbn in H4, H5 |- *.
  - repeat split; congruence.
  - destruct (Delete_apply_view s2 key ver H4) as [H6 H7].
    destruct (Delete_apply s2 _ _) as [[v del] s3]. cbn in *. by rewrite H6, H7, H5, H3.
Qed.
End SetDelete.

(** ** Get *)

Lemma Store_Get_result now now2 s key :
  store_ok s ->
  (Store_Get now now2 s key).1
  = match live now (view s) !! key with
    | Some e => (Value e, Version e, true)
    | None => ([], 0, false)
    end.
Proof.
  intros Hs. unfold Store_Get, Get_read. rewrite lookup_live, getShard_view by done.
  destruct (view s !! key) as [e|]; [|done]. by destruct (IsExpired now e).
Qed.

Lemma Store_Get_ok now now2 s key : store_ok s -> store_ok (Store_Get now now2 s key).2.
Proof.
  intros Hs. unfold Store_Get. destruct (Get_read s key); [|done].
  destruct (IsExpired now e); [by apply Get_reap_ok | done].
Qed.

(** A read changes neither the log nor the version counter. *)
Lemma Store_Get_rest now now2 s key :
  wal (Store_Get now now2 s key).2 = wal s /\ lastVersion (Store_Get now now2 s key).2 = lastVersion s.
Proof. unfold Store_Get, Get_reap. repeat case_match; done. Qed.

(** A read removes nothing but its own key, and that only when expired. *)
Lemma Store_Get_view now now2 s key :
  store_ok s ->
  view (Store_Get now now2 s key).2 = view s \/
  (exists e, view s !! key = Some e /\ IsExpired now e = true /\ IsExpired now2 e = true /\
     view (Store_Get now now2 s key).2 = delete key (view s)).
Proof.
  intros Hs. unfold Store_Get, Get_read. rewrite getShard_view by done.
  destruct (view s !! key) as [e|] eqn:E; [|by left].
  destruct (IsExpired now e) eqn:E1; [|by left]. cbn.
  rewrite Get_reap_view, E by done.
  destruct (IsExpired now2 e) eqn:E2; [|by left]. right. by exists e.
Qed.

(** ** The reaper on the represented map *)

Lemma expired_guard now e :
  negb (IsZero (ExpiresAt e)) && time_After now (ExpiresAt e) = IsExpired now e.
Proof. unfold IsExpired. by destruct (IsZero (ExpiresAt e)). Qed.

(** The loop body as an operation on the whole store. *)
Definition reap_one (now : Z) (s : Store) (kv : string * Entry) : Store :=
  if IsExpired now (snd kv)
  then add_keyCount (-1) (set_shard s (fst kv) (delete (fst kv) (getShard s (fst kv)))) else s.

Lemma reap_entries_as_store now i l : forall s db,
  shards s !! i = Some db -> Forall (fun kv => shard_index (fst kv) = i) l ->
  with_keyCount (with_shards s (<[i := (reap_entries now l (db, keyCount s)).1]> (shards s)))
    (reap_entries now l (db, keyCount s)).2
  = fold_left (reap_one now) l s.
Proof.
  induction l as [|[k e] l IH]; intros s db Hi Hl.
  - cbn. rewrite list_insert_id by done. by destruct s.
  - inversion Hl as [|? ? Hk Hl']; subst. cbn [fst] in *.
    unfold reap_entries in *. cbn [fold_left]. rewrite expired_guard.
    unfold reap_one at 2. cbn [fst snd]. destruct (IsExpired now e).
    + set (s1 := add_keyCount (-1) (set_shard s k (delete k (getShard s k)))).
      assert (getShard s k = db) as Hdb by (unfold getShard; by rewrite Hi).
      rewrite <-(IH s1 (delete k db)); [|..|done].
      * subst s1. rewrite Hdb. unfold with_keyCount, with_shards, add_keyCount, set_shard. cbn.
        by rewrite list_insert_insert_eq.
      * subst s1. cbn. rewrite Hdb. apply list_lookup_insert_eq.
        by apply lookup_lt_Some in Hi.
    + by apply IH.
Qed.

Lemma reap_fold now l : forall s,
  store_ok s -> NoDup l.*1 -> Forall (fun kv => view s !! fst kv = Some (snd kv)) l ->
  store_ok (fold_left (reap_one now) l s) /\
  forall k, view (fold_left (reap_one now) l s) !! k
    = match view s !! k with
      | Some e => if bool_decide (k ∈ l.*1) && IsExpired now e then None else Some e
      | None => None
      end.
Proof.
  induction l as [|[k0 e0] l IH]; intros s Hs Hnd Hl.
  { split; [done|]. intros k. cbn. by destruct (view s !! k). }
  inversion Hl as [|? ? H0 Hl']; inversion Hnd as [|? ? Hni Hnd']; subst. cbn [fst snd] in *.
  cbn [fold_left]. unfold reap_one at 2 4. cbn [fst snd]. destruct (IsExpired now e0) eqn:Ex.
  - set (s1 := add_keyCount (-1) (set_shard s k0 (delete k0 (getShard s k0)))).
    assert (view s1 = delete k0 (view s)) as Hv1 by (apply view_delete; auto with kv).
    assert (store_ok s1) as Hs1 by (by apply remove_ok with e0).
    assert (Forall (fun kv => view s1 !! fst kv = Some (snd kv)) l) as Hl1.
    { rewrite Hv1. rewrite Forall_forall in Hl' |- *. intros [k e] Hin. cbn.
      rewrite lookup_delete_ne; [by apply (Hl' (k, e))|]. intros <-. apply Hni.
      apply list_elem_of_fmap. by exists (k0, e). }
    destruct (IH s1 Hs1 Hnd' Hl1) as [H1 H2]. split; [done|]. intros k. rewrite H2, Hv1.
    destruct (decide (k0 = k)) as [<-|Hne].
    + rewrite lookup_delete_eq, H0. rewrite bool_decide_eq_true_2 by constructor. by rewrite Ex.
    + rewrite lookup_delete_ne by done. destruct (view s !! k); [|done].
      cbn. by rewrite bool_decide_elem_cons_ne.
  - destruct (IH s Hs Hnd' Hl') as [H1 H2]. split; [done|]. intros k. rewrite H2.
    destruct (decide (k0 = k)) as [<-|Hne].
    + rewrite H0, Ex. by rewrite !andb_false_r.
    + destruct (view s !! k); [|done]. cbn. by rewrite bool_decide_elem_cons_ne.
Qed.

Section Reap.
Context {R : MapRange}.

Lemma reap_shard_facts now i s :
  store_ok s -> (i < Z.to_nat ShardCount)%nat ->
  store_ok (reap_shard now i s) /\
  forall k, view (reap_shard now i s) !! k
    = match view s !! k with
      | Some e => if bool_decide (shard_index k = i) && IsExpired now e then None else Some e
      | None => None
      end.
Proof.
  intros Hs Hi. pose proof (so_sharded s Hs) as Hw.
  destruct (lookup_lt_is_Some_2 (shards s) i) as [db Hdb]; [by rewrite (ws_length _ Hw)|].
  assert (forall k e, (k, e) ∈ range db -> shard_index k = i /\ view s !! k = Some e) as Hr.
  { intros k e H%elem_of_range. assert (i = shard_index k) as -> by (by eapply ws_home).
    split; [done|]. rewrite lookup_view by done. unfold getShard. by rewrite Hdb. }
  assert (reap_shard now i s = fold_left (reap_one now) (range db) s) as ->.
  { unfold reap_shard. rewrite Hdb. rewrite <-(reap_entries_as_store now i _ s db); [|done|].
    - by destruct (reap_entries now (range db) (db, keyCount s)).
    - apply Forall_forall. intros [k e] H. by apply (Hr k e). }
  destruct (reap_fold now (range db) s) as [H1 H2]; [done | apply range_NoDup | |].
  { apply Forall_forall. intros [k e] H. by apply (Hr k e). }
  split; [done|]. intros k. rewrite H2. destruct (view s !! k) as [e|] eqn:E; [|done].
  enough (bool_decide (k ∈ (range db).*1) = bool_decide (shard_index k = i)) as -> by done.
  apply bool_decide_ext. rewrite list_elem_of_fmap. split.
  - intros ([k' e'] & -> & H). by apply (Hr _ _ H).
  - intros <-. exists (k, e). split; [done|]. apply elem_of_range.
    rewrite lookup_view in E by done. unfold getShard in E. by rewrite Hdb in E.
Qed.

Lemma reap_seq now l : forall s,
  store_ok s -> Forall (fun i => (i < Z.to_nat ShardCount)%nat) l ->
  let s' := fold_left (fun s i => reap_shard now i s) l s in
  store_ok s' /\
  forall k, view s' !! k
    = match view s !! k with
      | Some e => if bool_decide (shard_index k ∈ l) && IsExpired now e then None else Some e
      | None => None
      end.
Proof.
  induction l as [|i l IH]; intros s Hs Hl; cbn [fold_left].
  { split; [done|]. intros k. cbn. by destruct (view s !! k). }
  inversion Hl; subst. destruct (reap_shard_facts now i s) as [H1' H2']; [done..|].
  destruct (IH (reap_shard now i s)) as [H3' H4']; [done..|]. split; [done|].
  intros k. rewrite H4', H2'. destruct (view s !! k) as [e|]; [|done].
  destruct (IsExpired now e) eqn:Ex; [|by rewrite !andb_false_r, Ex, andb_false_r].
  rewrite !andb_true_r. destruct (decide (shard_index k = i)) as [->|Hne].
  - by rewrite !bool_decide_eq_true_2 by (try done; constructor).
  - rewrite (bool_decide_eq_false_2 (shard_index k = i)) by done.
    by rewrite Ex, andb_true_r, bool_decide_elem_cons_ne by done.
Qed.

(** [reap] leaves exactly the entries that have not expired. *)
Lemma reap_facts now s : store_ok s -> store_ok (reap now s) /\ view (reap now s) = live now (view s).
Proof.
  intros Hs. destruct (reap_seq now (seq 0 (Z.to_nat ShardCount)) s) as [H1 H2]; [done| |].
  { apply Forall_seq. lia. }
  split; [done|]. apply map_eq. intros k. unfold reap. rewrite H2, lookup_live.
  destruct (view s !! k) as [e|]; [|done]. rewrite bool_decide_eq_true_2; [done|].
  apply elem_of_seq. pose proof (shard_index_lt k). lia.
Qed.
End Reap.

Lemma reap_wal {R : MapRange} now s : wal (reap now s) = wal s.
Proof.
  unfold reap. generalize (seq 0 (Z.to_nat ShardCount)) as l. intros l. revert s.
  induction l as [|i l IH]; intros s; [done|]. cbn. rewrite IH.
  unfold reap_shard. destruct (shards s !! i) as [db|]; [|done].
  by destruct (reap_entries now (range db) (db, keyCount s)).
Qed.

(** ** Iterating over all shards *)

(** Iterating over the shards one after the other visits the entries of the
    represented map, each once. *)
Lemma range_shards_perm {R : MapRange} s :
  well_sharded (shards s) -> concat (map range (shards s)) ≡ₚ map_to_list (view s).
Proof.
  intros Hw.
  assert (forall i j db db' k e e', shards s !! i = Some db -> shards s !! j = Some db' ->
    db !! k = Some e -> db' !! k = Some e' -> i = j) as Hdisj.
  { intros i j db db' k e e' H1 H2 H3 H4.
    rewrite (ws_home _ Hw _ _ _ _ H1 H3). symmetry. by eapply ws_home. }
  clear Hw. unfold view. revert Hdisj. generalize (shards s) as l.
  induction l as [|db l IH]; intros Hdisj; cbn [map concat view_of foldr].
  { by rewrite map_to_list_empty. }
  assert (db ##ₘ foldr (∪) ∅ l) as Hd.
  { apply map_disjoint_spec. intros k e e' He He'.
    assert (exists j db', l !! j = Some db' /\ db' !! k = Some e') as (j & db' & Hj & Hk).
    { clear -He'. induction l as [|db1 l IHl]; [done|]. cbn [foldr] in He'.
      apply lookup_union_Some_raw in He' as [H|[_ H]]; [by exists 0%nat, db1|].
      destruct (IHl H) as (j & db' & ? & ?). by exists (S j), db'. }
    discriminate (Hdisj 0%nat (S j) db db' k e e'); done. }
  rewrite map_to_list_disj_union by done. rewrite range_perm. f_equiv. apply IH.
  intros i j db1 db2 k e e' H1 H2 H3 H4. assert (S i = S j) by (by eapply Hdisj). congruence.
Qed.

(** ** The store as a replica *)

(** The critical sections of [Set] and [Delete] discharge the replica
    interface. *)
Definition section_of (op : mutation) (s : Store) : Store :=
  match op with
  | MSet k e => (Set_apply s k (Value e) (Version e) (ExpiresAt e)).2
  | MDelete k v => (Delete_apply s k v).2
  end.

#[export, refine] Instance Store_replica : LwwReplica Store mutation := {
  rep_ok := store_ok;
  rep_view := view;
  rep_accepts := fun op => match op with MSet _ e => is_u64 (Version e) | MDelete _ _ => True end;
  rep_mutation := fun op => op;
  rep_apply := section_of
}.
Proof.
  - intros [k e|k v] s Hs Hop; cbn; [by apply Set_apply_ok | by apply Delete_apply_ok].
  - intros [k e|k v] s Hs Hop; cbn.
    + destruct (Set_apply_view s k (Value e) (Version e) (ExpiresAt e) Hs) as [-> _]. by destruct e.
    + by destruct (Delete_apply_view s k v Hs) as [-> _].
Defined.
