(* ===== verification/Scan.v ===== *)
(** * [Scan] and its pagination

    [Scan] against a reference that does not mention shards, map iteration
    order or the sorting algorithm, and a client that follows the cursor. *)

From S2P Require Import Prelude.
From S2P Require Import GoBase.
From S2P Require Import Hashes.
From S2P Require Import QuickSort.
From S2P Require Import Lww.
From S2P Require Import Wal.
From S2P Require Import Store.
From S2P Require Import StoreInv.

(** ** Scan against its reference *)

(** The sorted list of the live keys with the given prefix. *)
Definition live_keys (now : Z) (prefix : string) (m : KV) : list string :=
  merge_sort String.le
    (filter (fun k => HasPrefix k prefix = true) (map_to_list (live now m)).*1).

(** The page of that list after the cursor. *)
Definition page_spec (limit : nat) (cursor : string) (keys : list string)
  : list string * string :=
  let rest := filter (fun k => cursor = "" \/ str_lt cursor k = true) keys in
  (take limit rest,
   if (limit <? length rest)%nat then default "" (last (take limit rest)) else "").

Lemma elem_of_live_keys now prefix m k :
  k ∈ live_keys now prefix m <-> HasPrefix k prefix = true /\ is_Some (live now m !! k).
Proof.
  unfold live_keys. rewrite merge_sort_Permutation, list_elem_of_filter, list_elem_of_fmap.
  split.
  - intros [H1 ([k' e] & -> & H2%elem_of_map_to_list)]. by eauto.
  - intros [H1 [e H2]]. split; [done|]. exists (k, e). by rewrite elem_of_map_to_list.
Qed.

Lemma live_keys_sorted now prefix m : StronglySorted String.le (live_keys now prefix m).
Proof. apply StronglySorted_merge_sort; apply _. Qed.

Lemma live_keys_NoDup now prefix m : NoDup (live_keys now prefix m).
Proof.
  unfold live_keys. rewrite merge_sort_Permutation.
  apply NoDup_filter, NoDup_fst_map_to_list.
Qed.

Section ScanFacts.
Context {R : MapRange}.

Lemma scan_entry_Some now prefix kv k :
  scan_entry now prefix kv = Some k <->
  k = kv.1 /\ HasPrefix k prefix = true /\ IsExpired now kv.2 = false.
Proof.
  destruct kv as [k' e]. unfold scan_entry. rewrite expired_guard. cbn [fst snd]. split.
  - destruct (IsExpired now e) eqn:Ex; [done|].
    destruct (HasPrefix k' prefix) eqn:Ep; [|done]. intros [= <-]. auto.
  - intros (-> & Hp & Hx). by rewrite Hx, Hp.
Qed.

Lemma NoDup_scan now prefix (l : list (string * Entry)) :
  NoDup l.*1 -> NoDup (omap (scan_entry now prefix) l).
Proof.
  induction l as [|[k e] l IH]; intros H; [constructor|].
  inversion H as [|? ? Hni Hnd]; subst. cbn -[scan_entry]. specialize (IH Hnd).
  destruct (scan_entry now prefix (k, e)) as [k'|] eqn:E; [|done].
  apply scan_entry_Some in E as (-> & _ & _). constructor; [|done].
  rewrite list_elem_of_omap. intros (kv & H1 & (Hk & _)%scan_entry_Some).
  apply Hni, list_elem_of_fmap. by exists kv.
Qed.

Lemma scan_concat_perm now prefix s :
  store_ok s ->
  concat (map (scan_shard now prefix) (shards s)) ≡ₚ live_keys now prefix (view s).
Proof.
  intros Hs.
  unfold scan_shard. rewrite concat_map_omap.
  rewrite range_shards_perm by auto with kv. apply NoDup_Permutation.
  - apply NoDup_scan, NoDup_fst_map_to_list.
  - apply live_keys_NoDup.
  - intros k. rewrite elem_of_live_keys, lookup_live, list_elem_of_omap. split.
    + intros ([k' e] & H1%elem_of_map_to_list & (-> & Hp & Hx)%scan_entry_Some). cbn in *.
      rewrite H1, Hx. split; [done|by eexists].
    + intros [Hp [e He]]. destruct (view s !! k) as [e0|] eqn:E; [|done].
      exists (k, e0). rewrite elem_of_map_to_list, scan_entry_Some. cbn.
      by destruct (IsExpired now e0).
Qed.

(** The iteration order of the maps and the sorting algorithm do not show. *)
Lemma Store_Scan_sorted now s prefix limit cursor :
  store_ok s ->
  Store_Scan now s prefix limit cursor = scan_page limit cursor (live_keys now prefix (view s)).
Proof.
  intros Hs. unfold Store_Scan.
  destruct (sortStrings_spec (concat (map (scan_shard now prefix) (shards s))))
    as (arr & -> & HP & HS). cbn.
  assert (arr = live_keys now prefix (view s)) as ->; [|done].
  apply (StronglySorted_unique String.le); [done | apply live_keys_sorted |].
  by rewrite HP, scan_concat_perm.
Qed.
End ScanFacts.

(** The cursor loop splits a sorted list at the cursor. *)
Lemma scan_start_split cursor A : forall B n st i,
  n = i + Z.of_nat (length (A ++ B)) ->
  Forall (fun k => str_lt cursor k = false) A -> Forall (fun k => str_lt cursor k = true) B ->
  A <> [] \/ B <> [] \/ st = n ->
  scan_start cursor n st i (A ++ B) = i + Z.of_nat (length A).
Proof.
  induction A as [|a A IH]; intros B n st i Hn HA HB Hst.
  - destruct HB as [|b B Hb _]; cbn in *.
    + destruct Hst as [|[|]]; [done|done|lia].
    + rewrite Hb. lia.
  - inversion HA; subst. cbn. rewrite H1.
    rewrite IH; [cbn; lia | cbn; lia | done | done |].
    destruct A, B; auto. right; right. cbn [app length].
    destruct (Z.eqb_spec i (i + Z.of_nat 1 - 1)); lia.
Qed.

Lemma sorted_cursor_split cursor l :
  StronglySorted String.le l ->
  exists A B, l = A ++ B /\ Forall (fun k => str_lt cursor k = false) A /\
    Forall (fun k => str_lt cursor k = true) B.
Proof.
  induction 1 as [|k l Hs (A & B & -> & HA & HB) Hk]; [by exists [], []|].
  destruct (str_lt cursor k) eqn:E.
  - exists [], (k :: A ++ B). split; [done|]. split; [done|]. constructor; [done|].
    eapply Forall_impl; [exact Hk|]. intros x Hx. by eapply str_lt_le_trans.
  - exists (k :: A), B. by repeat split; [constructor|].
Qed.

Lemma filter_all {A} (P : A -> Prop) `{!forall x, Decision (P x)} l : Forall P l -> filter P l = l.
Proof. induction 1; [done|]. by rewrite filter_cons_True, IHForall. Qed.

Lemma filter_none {A} (P : A -> Prop) `{!forall x, Decision (P x)} l :
  Forall (fun x => ~ P x) l -> filter P l = [].
Proof. induction 1; [done|]. by rewrite filter_cons_False. Qed.

(** A positive limit (that does not overflow) never panics, and the page is
    the first [limit] keys after the cursor. *)
Lemma scan_page_spec limit cursor keys :
  StronglySorted String.le keys ->
  1 <= limit -> Z.of_nat (length keys) + limit < 2 ^ 63 ->
  scan_page limit cursor keys = Some (page_spec (Z.to_nat limit) cursor keys).
Proof.
  intros HS Hl Hov. unfold scan_page, page_spec.
  assert (exists A B, keys = A ++ B /\
    filter (fun k => cursor = "" \/ str_lt cursor k = true) keys = B /\
    (if decide (cursor = "") then 0
     else scan_start cursor (Z.of_nat (length keys)) 0 0 keys) = Z.of_nat (length A))
    as (A & B & -> & -> & ->).
  { case_decide as Hc.
    - exists [], keys. split; [done|]. split; [|done].
      apply filter_all, Forall_forall. auto.
    - destruct (sorted_cursor_split cursor keys HS) as (A & B & -> & HA & HB).
      exists A, B. split; [done|]. split.
      + rewrite filter_app, filter_none, filter_all; [done|..].
        * eapply Forall_impl; [exact HB|]. auto.
        * eapply Forall_impl; [exact HA|]. intros k Hk [?|?]; congruence.
      + rewrite scan_start_split; [lia | lia | done | done |].
        destruct A, B; auto. }
  rewrite length_app in *. rewrite i64_small by (unfold is_i64; lia).
  rewrite Nat2Z.id, drop_app_length.
  destruct (Z.leb_spec (Z.of_nat (length A + length B)) (Z.of_nat (length A))).
  { destruct B; [|cbn in *; lia]. by rewrite take_nil. }
  destruct (Z.ltb_spec (Z.of_nat (length A + length B)) (Z.of_nat (length A) + limit)).
  - destruct (Z.ltb_spec (Z.of_nat (length A + length B)) (Z.of_nat (length A))); [lia|].
    rewrite Z.ltb_irrefl. destruct (Nat.ltb_spec (Z.to_nat limit) (length B)); [lia|].
    rewrite !take_ge by lia. done.
  - destruct (Z.ltb_spec (Z.of_nat (length A) + limit) (Z.of_nat (length A))); [lia|].
    replace (Z.of_nat (length A) + limit - Z.of_nat (length A)) with limit by lia.
    destruct (Z.ltb_spec (Z.of_nat (length A) + limit) (Z.of_nat (length A + length B))),
      (Nat.ltb_spec (Z.to_nat limit) (length B)); try lia; [|done].
    destruct (last (take (Z.to_nat limit) B)) as [k|] eqn:E; [done|].
    apply last_None in E. apply (f_equal length) in E. rewrite length_take in E. cbn in E. lia.
Qed.

(** ** Following the cursor *)

Definition strictly_sorted (l : list string) : Prop :=
  StronglySorted (fun a b => str_lt a b = true) l.

Lemma live_keys_strict now prefix m : strictly_sorted (live_keys now prefix m).
Proof.
  pose proof (live_keys_sorted now prefix m) as Hs.
  pose proof (live_keys_NoDup now prefix m) as Hn.
  revert Hs Hn. generalize (live_keys now prefix m) as l.
  induction 1 as [|k l Hs IH Hk]; intros Hn; [constructor|].
  inversion Hn as [|? ? Hni Hnd]; subst. constructor; [by apply IH|].
  apply Forall_forall. intros x Hx. apply str_lt_true. rewrite Forall_forall in Hk.
  split; [by apply Hk|]. by intros <-.
Qed.

(** The keys after the last key of a page are the keys behind the page. *)
Lemma cursor_rest X c Y :
  strictly_sorted (X ++ c :: Y) -> c <> "" ->
  filter (fun k => c = "" \/ str_lt c k = true) (X ++ c :: Y) = Y.
Proof.
  intros Hs Hc. rewrite filter_app.
  rewrite filter_none, filter_cons_False, filter_all; [done|..].
  - induction X as [|x X IH]; inversion Hs; subst; [|by apply IH].
    eapply Forall_impl; [done|]. auto.
  - intros [?|H]; [done|]. by rewrite str_lt_irrefl in H.
  - clear Hc. induction X as [|x X IH]; [constructor|]. inversion Hs as [|? ? Hs' Hx]; subst.
    constructor; [|by apply IH]. apply Forall_app in Hx as [_ Hx].
    inversion Hx as [|? ? Hxc _]; subst. intros [->|H]; [by destruct x|].
    pose proof (str_lt_le_trans _ _ _ H (str_lt_le _ _ Hxc)) as E.
    by rewrite str_lt_irrefl in E.
Qed.

Section Pagination.
Context {R : MapRange}.

(** A client that asks for page after page until the cursor comes back empty. *)
Fixpoint scan_all (fuel : nat) (now : Z) (s : Store) (prefix : string) (limit : Z)
    (cursor : string) : option (list string) :=
  match fuel with
  | O => None
  | S fuel' =>
      match Store_Scan now s prefix limit cursor with
      | None => None
      | Some (keys, next) =>
          if decide (next = "") then Some keys
          else rest ← scan_all fuel' now s prefix limit next; Some (keys ++ rest)
      end
  end.

Lemma scan_all_rest now s prefix limit :
  store_ok s -> 1 <= limit ->
  let keys := live_keys now prefix (view s) in
  Z.of_nat (length keys) + limit < 2 ^ 63 -> "" ∉ keys ->
  forall n rest X cursor, (length rest < n)%nat -> keys = X ++ rest ->
  X = [] /\ cursor = "" \/ cursor <> "" /\ last X = Some cursor ->
  scan_all n now s prefix limit cursor = Some rest.
Proof.
  intros Hs Hl keys Hov Hne. induction n as [|n IH]; intros rest X cursor Hn Hk Hc; [lia|].
  cbn [scan_all]. rewrite Store_Scan_sorted by done. fold keys.
  rewrite scan_page_spec by (try apply live_keys_sorted; done). unfold page_spec.
  pose proof (live_keys_strict now prefix (view s)) as Hst. fold keys in Hst.
  assert (filter (fun k => cursor = "" \/ str_lt cursor k = true) keys = rest) as ->.
  { destruct Hc as [[-> ->]|[Hc Hx]].
    - rewrite filter_all; [done|]. apply Forall_forall. auto.
    - apply last_Some in Hx as [X' ->]. rewrite Hk, <-app_assoc in Hst |- *.
      by apply cursor_rest. }
  destruct (Nat.ltb_spec (Z.to_nat limit) (length rest)) as [Hlt|Hge].
  - destruct (last (take (Z.to_nat limit) rest)) as [c|] eqn:E; cbn.
    2: { apply last_None, (f_equal length) in E. rewrite length_take in E. cbn in E. lia. }
    assert (c ∈ keys) as Hin.
    { apply last_Some in E as [l' E]. rewrite Hk, <-(take_drop (Z.to_nat limit) rest), E.
      rewrite !elem_of_app, list_elem_of_singleton. auto. }
    rewrite decide_False by (intros ->; done).
    rewrite (IH (drop (Z.to_nat limit) rest) (X ++ take (Z.to_nat limit) rest) c); cbn.
    + by rewrite take_drop.
    + rewrite length_drop. lia.
    + by rewrite <-app_assoc, take_drop.
    + right. split; [intros ->; done|]. rewrite last_app, E. done.
  - rewrite decide_True by done. by rewrite take_ge by lia.
Qed.
End Pagination.
