(* ===== verification/Snapshot.v ===== *)
(** * Snapshots: [internal/store/snapshot.go]

    [CreateSnapshot] as the sequence of disk operations it performs, any one
    of which may fail, and [LoadSnapshot] as the loop over the records of the
    file.  The sequence is explicit so that a crash between two operations is
    also an execution of the model.  [OpSync] changes nothing a process can
    read; what it is for is modelled in [PowerLoss]. *)

From S2P Require Import Prelude.
From S2P Require Import GoBase.
From S2P Require Import Hashes.
From S2P Require Import FilePath.
From S2P Require Import Lww.
From S2P Require Import Wal.
From S2P Require Import Store.

Definition SnapshotMagic : string := "KVSN".
Definition SnapshotVersion : Z := 1.

(** ** Writing *)

(** Magic (4B) + Version (2B). *)
Definition snapshot_header : list byte := bytes_of SnapshotMagic ++ put_be 2 SnapshotVersion.

(** An entry is written as a SET record of the log format. *)
Definition snapshot_record (kv : string * Entry) : list byte :=
  record_bytes RecordTypeSet (fst kv) (Value (snd kv)) (Version (snd kv)) (ExpiresAt (snd kv)).

(** The entries one shard contributes, in the order of its iteration. *)
Definition snapshot_entry (now : Z) (kv : string * Entry) : option (string * Entry) :=
  let '(k, entry) := kv in
  if negb (IsZero (ExpiresAt entry)) && time_After now (ExpiresAt entry) then None
  else Some (k, entry).

Definition snapshot_shard `{MapRange} (now : Z) (db : KV) : list (string * Entry) :=
  omap (snapshot_entry now) (range db).

Definition snapshot_entries `{MapRange} (now : Z) (s : Store) : list (string * Entry) :=
  concat (map (snapshot_shard now) (shards s)).

(** The system calls of [CreateSnapshot] that act on the disk. *)
Inductive disk_op :=
  | OpCreate (p : string)                    (* OpenFile with O_CREATE and O_TRUNC *)
  | OpWrite (p : string) (b : list byte)
  | OpSync (p : string)
  | OpClose (p : string)
  | OpRename (p q : string)
  | OpTruncate (p : string) (closed : bool)  (* on a handle that may be closed *)
  | OpSeek (p : string).

(** The effect of one operation, [None] when it cannot succeed. *)
Definition run_op (op : disk_op) (d : Disk) : option Disk :=
  match op with
  | OpCreate p => Some (<[p := []]> d)
  | OpWrite p b => Some (append_file d p b)
  | OpSync _ | OpClose _ | OpSeek _ => Some d
  | OpRename p q => Some (<[q := file_of d p]> (delete p d))
  | OpTruncate p closed => if closed then None else Some (<[p := []]> d)
  end.

(** What an operation that fails leaves behind: a write may store [n] bytes. *)
Definition fail_op (n : nat) (op : disk_op) (d : Disk) : Disk :=
  match op with
  | OpWrite p b => append_file d p (take n b)
  | _ => d
  end.

(** Run the operations in order; [fault = Some (i, n)] makes operation [i] fail
    after [n] bytes.  The result carries the error of the operation that
    failed. *)
Fixpoint run_plan (fault : option (nat * nat)) (plan : list (disk_op * error)) (d : Disk)
  : Disk * option error :=
  match plan with
  | [] => (d, None)
  | (op, err) :: plan' =>
      match fault with
      | Some (O, n) => (fail_op n op d, Some err)
      | _ =>
          match run_op op d with
          | None => (d, Some err)
          | Some d' =>
              run_plan (match fault with Some (S i, n) => Some (i, n) | f => f end) plan' d'
          end
      end
  end.

Definition tmp_path (w : WAL) : string := Join (Dir (WAL_Path w)) "snapshot.bin.tmp".
Definition snap_path (w : WAL) : string := Join (Dir (WAL_Path w)) "snapshot.bin".

(** Steps 3 to 7 of [CreateSnapshot], each with the error it reports. *)
Definition snapshot_plan `{MapRange} (now : Z) (s : Store) (w : WAL) : list (disk_op * error) :=
  let tmpPath := tmp_path w in
  [(OpWrite tmpPath snapshot_header, WriteSnapshotHeaderFailed)]
  ++ map (fun kv => (OpWrite tmpPath (snapshot_record kv), WriteSnapshotRecordFailed))
       (snapshot_entries now s)
  ++ [(OpSync tmpPath, SyncSnapshotFailed);
      (OpClose tmpPath, CloseSnapshotFailed);
      (OpRename tmpPath (snap_path w), CommitSnapshotFailed);
      (OpTruncate (WAL_Path w) (wal_closed w), TruncateWALFailed);
      (OpSeek (WAL_Path w), SeekWALFailed)].

(** [open_ok = false] is a failed open of the temporary file, before the
    deferred clean-up is installed; the clean-up removes the temporary file on
    every later exit.  Its error is ignored: a removal that fails leaves the
    files as a crash at that point does. *)
Definition CreateSnapshot `{MapRange} (now : Z) (open_ok : bool) (fault : option (nat * nat))
    (d : Disk) (s : Store) : Disk * Store * option error :=
  match wal s with
  | None => (d, s, Some SnapshotWithoutWAL)
  | Some w =>
      if negb open_ok then (d, s, Some OpenTempSnapshotFailed)
      else
        match run_plan fault (snapshot_plan now s w) (<[tmp_path w := []]> d) with
        | (d', Some err) => (delete (tmp_path w) d', s, Some err)
        | (d', None) =>
            (delete (tmp_path w) d',
             with_wal s (Some (mkWAL (wal_path w) 0 (wal_closed w))), None)
        end
  end.

(** ** Reading *)

(** The application of one record: a SET that is newer than what the store has
    is stored without logging; [loadedCount] counts the new keys. *)
Definition load_apply (lr : LogRecord) (st : Store * Z) : (Store * Z) * option error :=
  let '(s, loadedCount) := st in
  if decide (lr_type lr = RecordTypeSet) then
    let key := lr_key lr in
    let db := getShard s key in
    let e := mkEntry (lr_value lr) (lr_version lr) (lr_expiresAt lr) in
    let store_it (loadedCount : Z) :=
      let s' := set_shard s key (<[key := e]> db) in
      (if lastVersion s <? lr_version lr then with_lastVersion s' (lr_version lr) else s',
       loadedCount) in
    match db !! key with
    | None => (store_it (i64 (loadedCount + 1)), None)
    | Some current =>
        if Version current <? lr_version lr then (store_it loadedCount, None)
        else ((s, loadedCount), None)
    end
  else ((s, loadedCount), None).

(** [None] is running out of fuel in the record loop. *)
Definition LoadSnapshot (open_ok : bool) (e : stream_end) (d : Disk) (s : Store)
    (snapPath : string) : option (Store * (bool * option error)) :=
  match d !! snapPath with
  | None => Some (s, (false, None))
  | Some contents =>
      if negb open_ok then Some (s, (false, Some OpenSnapshotFailed))
      else
        match ReadFull 6 e contents with
        | inr err => Some (s, (false, Some (ReadSnapshotHeaderFailed err)))
        | inl (header, r) =>
            if negb (bool_decide (string_of (slice 0 4 header) = SnapshotMagic))
            then Some (s, (false, Some BadSnapshotMagic))
            else
              let version := get_be (slice 4 6 header) in
              if negb (version =? SnapshotVersion)
              then Some (s, (false, Some (BadSnapshotVersion version)))
              else
                match replay_loop ReadSnapshotRecordHeaderFailed ReadSnapshotPayloadFailed
                        load_apply (S (length r)) e r (s, 0) with
                | None => None
                | Some ((s', _), Some err) => Some (s', (false, Some err))
                | Some ((s', loadedCount), None) =>
                    Some (with_keyCount s' loadedCount, (true, None))
                end
        end
  end.
