(* ===== verification/StoreSpec.v ===== *)
(** * Executions of the store and their properties

    The public operations as a step relation, the abstract steps they refine,
    and the properties of the store a client relies on. *)

From S2P Require Import Prelude.
From S2P Require Import GoBase.
From S2P Require Import Hashes.
From S2P Require Import QuickSort.
From S2P Require Import Lww.
From S2P Require Import Wal.
From S2P Require Import Store.
From S2P Require Import StoreInv.
From S2P Require Import Scan.
From S2P Require Import Snapshot.

(** ** Executions *)

(** The mutation a call performed, if it did not report an error. *)
Definition set_label (now_exp now_ver : Z) (io : append_io) (d : Disk) (s : Store) (key : string)
    (value : list byte) (ttl version : Z) : list mutation :=
  match (Store_Set now_exp now_ver io d s key value ttl version).2 with
  | (_, None) =>
      [MSet key (mkEntry value (pick_version now_ver s version).1 (expiry_of now_exp ttl))]
  | _ => []
  end.

Definition delete_label (now_ver : Z) (io : append_io) (d : Disk) (s : Store) (key : string)
    (version : Z) : list mutation :=
  match (Store_Delete now_ver io d s key version).2 with
  | (_, None) => [MDelete key (pick_version now_ver s version).1]
  | _ => []
  end.

(** One call of a public operation, with any outcome of the disk operations;
    the acknowledged mutations are visible.  [T] holds of the clock readings
    at which the calls judge whether an entry has expired.  [LoadSnapshot] is
    not among the calls: it sets the gauge to the number of keys it loaded,
    which is right only on the empty store on which start-up calls it. *)
Inductive store_step `{MapRange} (T : Z -> Prop)
    : Disk * Store -> list mutation -> Disk * Store -> Prop :=
  | step_get d s now now2 key :
      T now -> T now2 -> store_step T (d, s) [] (d, (Store_Get now now2 s key).2)
  | step_set d s now_exp now_ver io key value ttl version :
      is_u64 version ->
      store_step T (d, s) (set_label now_exp now_ver io d s key value ttl version)
        (Store_Set now_exp now_ver io d s key value ttl version).1
  | step_delete d s now_ver io key version :
      is_u64 version ->
      store_step T (d, s) (delete_label now_ver io d s key version)
        (Store_Delete now_ver io d s key version).1
  | step_scan d s now prefix limit cursor page :
      Store_Scan now s prefix limit cursor = Some page -> store_step T (d, s) [] (d, s)
  | step_next_version d s now : store_step T (d, s) [] (d, (NextVersion now s).2)
  | step_reap d s now : T now -> store_step T (d, s) [] (d, reap now s)
  | step_set_wal d s w : store_step T (d, s) [] (d, SetWAL s w)
  | step_snapshot d s now open_ok fault :
      store_step T (d, s) [] (CreateSnapshot now open_ok fault d s).1
  | step_close d s close_ok s' err :
      Store_Close close_ok s = Some (s', err) -> store_step T (d, s) [] (d, s').

(** A snapshot leaves the store but for the size of its log, and so does
    closing it. *)
Lemma CreateSnapshot_store {R : MapRange} now open_ok fault d s :
  exists w, (CreateSnapshot now open_ok fault d s).1.2 = with_wal s w.
Proof.
  unfold CreateSnapshot. assert (s = with_wal s (wal s)) as Hid by (by destruct s).
  destruct (wal s) as [w|]; [|by eexists]. destruct open_ok; [|by eexists]. cbn [negb].
  destruct (run_plan _ _ _) as [d' [err|]]; by eexists.
Qed.

Lemma Store_Close_facts close_ok s s' err :
  store_ok s -> Store_Close close_ok s = Some (s', err) -> store_ok s' /\ view s' = view s.
Proof.
  intros Hs. unfold Store_Close. destruct (reaperStopped s); [done|]. cbn [wal].
  destruct (wal s) as [w|]; [destruct (WAL_Close close_ok w) as [w' e]|];
    intros [= <- _]; (split; [split; apply Hs|done]).
Qed.

Section Refinement.
Context {R : MapRange} (T : Z -> Prop).

Lemma store_step_ok ds l ds' : store_ok ds.2 -> store_step T ds l ds' -> store_ok ds'.2.
Proof.
  intros Hs Hst. destruct Hst; cbn in *.
  - by apply Store_Get_ok.
  - by apply Store_Set_ok.
  - by apply Store_Delete_ok.
  - done.
  - by apply NextVersion_ok.
  - by apply reap_facts.
  - by apply with_wal_ok.
  - destruct (CreateSnapshot_store now open_ok fault d s) as [w ->]. by apply with_wal_ok.
  - by eapply Store_Close_facts.
Qed.

Lemma store_step_simulates ds l ds' :
  store_ok ds.2 -> store_step T ds l ds' -> trace (lww_step T) (view ds.2) l (view ds'.2).
Proof.
  intros Hs Hst. destruct Hst as [d s now now2 key HT HT2|d s n1 n2 io key value ttl version Hv
    |d s n io key version Hv|d s now prefix limit cursor page _|d s now|d s now HT|d s w
    |d s now open_ok fault|d s close_ok s' err Hc]; cbn in *.
  - destruct (Store_Get_view now now2 s key Hs) as [->|(e & He & Hx & _ & ->)]; [constructor|].
    apply trace_once. by eapply (spec_expire T _ _ now).
  - pose proof (Store_Set_view io d s Hs n1 n2 key value ttl version Hv) as H. unfold set_label.
    cbv zeta in H. destruct (Store_Set _ _ _ _ _ _ _ _ _) as [ds' [v [err|]]]; cbn in *.
    + destruct H as [_ ->]. constructor.
    + destruct H as [-> _]. apply trace_once. constructor.
  - pose proof (Store_Delete_view io d s Hs n key version Hv) as H. unfold delete_label.
    cbv zeta in H. destruct (Store_Delete _ _ _ _ _ _) as [ds' [[v del] [err|]]]; cbn in *.
    + destruct H as (_ & _ & ->). constructor.
    + destruct H as [-> _]. apply trace_once. constructor.
  - constructor.
  - constructor.
  - destruct (reap_facts now s Hs) as [_ ->]. by apply expire_reap.
  - constructor.
  - destruct (CreateSnapshot_store now open_ok fault d s) as [w ->]. constructor.
  - destruct (Store_Close_facts _ _ _ _ Hs Hc) as [_ ->]. constructor.
Qed.

Lemma store_steps_refine ds l ds' :
  store_ok ds.2 -> trace (store_step T) ds l ds' ->
  store_ok ds'.2 /\ trace (lww_step T) (view ds.2) l (view ds'.2).
Proof.
  intros Hs Hst. revert Hs.
  induction Hst as [ds|ds1 l1 ds2 l2 ds3 H12 _ IH]; intros Hs; [split; [done|constructor]|].
  destruct IH as [H3 H4]; [by eapply store_step_ok|]. split; [done|].
  eapply trace_app; [by apply store_step_simulates|done].
Qed.
End Refinement.

(** ** Properties *)

(** C1: whatever calls a store receives from its creation on, with any
    readings of the clock and any disk failures, its shards stay consistent
    (every key in the shard its hash selects, the key gauge equal to the
    number of keys, versions in range), and the map it represents is the one
    the specification reaches by the same sequence of acknowledged writes and
    deletions, each resolved by last write wins, with nothing in between but
    removals of entries that have expired at a reading [T] the clock gave. *)
Theorem store_refines_lww `{MapRange} (T : Z -> Prop) w d l d' s' :
  trace (store_step T) (d, NewStore w) l (d', s') ->
  store_ok s' /\ trace (lww_step T) ∅ l (view s').
Proof.
  intros Hst. destruct (store_steps_refine T (d, NewStore w) l (d', s')) as [H1 H2];
    [apply NewStore_ok | done |].
  cbn [snd] in H2. by rewrite NewStore_view in H2.
Qed.

Lemma store_refines_lww_witness :
  let s1 := (Store_Set 10 5 append_io_ok ∅ (NewStore None) "k" [x61] 20 7).1.2 in
  let s2 := (Store_Get 31 31 s1 "k").2 in
  view s2 = ∅ /\ store_ok s2 /\
  trace (lww_step (fun now => now = 31)) ∅ [MSet "k" (mkEntry [x61] 7 30)] (view s2).
Proof.
  split; [by vm_compute|].
  apply (store_refines_lww (fun now => now = 31) None ∅ _ ∅).
  eapply (trace_cons _ _ [MSet "k" (mkEntry [x61] 7 30)] _ []).
  - apply (step_set _ ∅ (NewStore None) 10 5 append_io_ok "k" [x61] 20 7). unfold is_u64; lia.
  - apply trace_once.
    by apply (step_get _ ∅ (Store_Set 10 5 append_io_ok ∅ (NewStore None) "k" [x61] 20 7).1.2 31 31 "k").
Defined.

(** C15: a successful [Set] resolves against the entry it meets: the later
    version wins (a tie goes to the incoming write), the returned version is
    the winner's, a read returns the winner unless it has expired, and no
    other key changes. *)
Theorem set_then_get now_exp now_ver io d s key value ttl version d' s' v now now2 :
  store_ok s -> is_u64 version ->
  Store_Set now_exp now_ver io d s key value ttl version = (d', s', (v, None)) ->
  let e := mkEntry value (pick_version now_ver s version).1 (expiry_of now_exp ttl) in
  let winner := match view s !! key with
                | Some c => if Version e <? Version c then c else e
                | None => e
                end in
  (Store_Get now now2 s' key).1
    = (if IsExpired now winner then ([], 0, false) else (Value winner, Version winner, true)) /\
  v = Version winner /\
  forall k, k <> key -> view s' !! k = view s !! k.
Proof.
  intros Hs Hv E e winner.
  pose proof (Store_Set_ok io d s Hs now_exp now_ver key value ttl version Hv) as Hok.
  pose proof (Store_Set_view io d s Hs now_exp now_ver key value ttl version Hv) as Hview.
  rewrite E in Hok, Hview. cbn in Hok, Hview. destruct Hview as [Hview Hret].
  rewrite Store_Get_result, lookup_live, Hview by done. fold e.
  rewrite lookup_lww_set. fold winner. split; [by destruct (IsExpired now winner)|]. split.
  - rewrite Hret. subst winner. destruct (view s !! key) as [c|]; [|done].
    destruct (Z.ltb_spec (Version e) (Version c)); subst e; cbn [Version] in *; lia.
  - intros k Hk. by apply lookup_lww_set_ne.
Qed.

Lemma set_then_get_witness :
  let s0 := (Store_Set 0 5 append_io_ok ∅ (NewStore None) "k" [x61] 0 7).1.2 in
  (Store_Get 100 100 (Store_Set 0 5 append_io_ok ∅ s0 "k" [x62] 0 9).1.2 "k").1
  = ([x62], 9, true).
Proof.
  refine (proj1 (set_then_get 0 5 append_io_ok ∅
    (Store_Set 0 5 append_io_ok ∅ (NewStore None) "k" [x61] 0 7).1.2 "k" [x62] 0 9 ∅ _ 9
    100 100 _ _ _)).
  - apply Store_Set_ok; [apply NewStore_ok | unfold is_u64; lia].
  - unfold is_u64; lia.
  - reflexivity.
Defined.

(** C16: a successful [Delete] removes the entry unless the entry is newer; the
    boolean says whether it did, the returned version is the later of the
    two, and no other key changes. *)
Theorem delete_then_get now_ver io d s key version d' s' v deleted now now2 :
  store_ok s -> is_u64 version ->
  Store_Delete now_ver io d s key version = (d', s', (v, deleted, None)) ->
  let ver := (pick_version now_ver s version).1 in
  (deleted = true <-> exists c, view s !! key = Some c /\ Version c <= ver) /\
  (deleted = true -> (Store_Get now now2 s' key).1 = ([], 0, false) /\ v = ver) /\
  (deleted = false -> view s' = view s) /\
  forall k, k <> key -> view s' !! k = view s !! k.
Proof.
  intros Hs Hv E ver.
  pose proof (Store_Delete_ok io d s Hs now_ver key version Hv) as Hok.
  pose proof (Store_Delete_view io d s Hs now_ver key version Hv) as Hview.
  rewrite E in Hok, Hview. cbn [fst snd] in Hok, Hview. fold ver in Hview.
  destruct Hview as [Hview Hret]. rewrite Store_Get_result, lookup_live, Hview by done.
  rewrite lookup_lww_delete.
  assert (forall k, k <> key -> lww_delete key ver (view s) !! k = view s !! k) as Hother
    by (intros; by apply lookup_lww_delete_ne).
  unfold lww_delete in *. destruct (view s !! key) as [c|]; inversion Hret; subst v deleted.
  - destruct (Z.leb_spec (Version c) ver), (Z.ltb_spec ver (Version c)); try lia.
    + split; [by split; [exists c|]|]. split; [intros _; split; [done|lia]|]. by split.
    + split; [split; [done|intros (c' & [= ->] & ?); lia]|]. by split.
  - split; [split; [done|by intros (c' & ? & _)]|]. by split.
Qed.

Lemma delete_then_get_witness :
  let s0 := (Store_Set 0 5 append_io_ok ∅ (NewStore None) "k" [x61] 0 7).1.2 in
  let r := Store_Delete 5 append_io_ok ∅ s0 "k" 9 in
  r.2 = (9, true, None) /\ (Store_Get 100 100 r.1.2 "k").1 = ([], 0, false).
Proof.
  split; [reflexivity|].
  refine (proj1 (proj1 (proj2 (delete_then_get 5 append_io_ok ∅
    (Store_Set 0 5 append_io_ok ∅ (NewStore None) "k" [x61] 0 7).1.2 "k" 9 ∅ _ 9 true
    100 100 _ _ _)) eq_refl)).
  - apply Store_Set_ok; [apply NewStore_ok | unfold is_u64; lia].
  - unfold is_u64; lia.
  - reflexivity.
Defined.

(** C17: [Get] returns exactly the live entry of the key.  The read changes
    the represented map in one case only: the entry is expired at both clock
    readings of the call, under the read lock and again under the write lock;
    the key is then removed and every other entry stays. *)
Theorem get_reads_live_entry now now2 s key :
  store_ok s ->
  (Store_Get now now2 s key).1
    = match view s !! key with
      | Some e => if IsExpired now e then ([], 0, false) else (Value e, Version e, true)
      | None => ([], 0, false)
      end /\
  view (Store_Get now now2 s key).2
    = match view s !! key with
      | Some e => if IsExpired now e && IsExpired now2 e then delete key (view s) else view s
      | None => view s
      end.
Proof.
  intros Hs. split.
  - rewrite Store_Get_result, lookup_live by done. destruct (view s !! key) as [e|]; [|done].
    by destruct (IsExpired now e).
  - unfold Store_Get. unfold Get_read. rewrite getShard_view by done.
    destruct (view s !! key) as [e|] eqn:E; [|done]. destruct (IsExpired now e); [|done].
    cbn [snd andb]. by rewrite Get_reap_view, E.
Qed.

Lemma get_reads_live_entry_witness :
  let s := (Store_Set 10 5 append_io_ok ∅ (NewStore None) "k" [x61] 20 7).1.2 in
  (Store_Get 30 30 s "k").1 = ([x61], 7, true) /\ (Store_Get 31 31 s "k").1 = ([], 0, false) /\
  view (Store_Get 31 31 s "k").2 = ∅.
Proof.
  assert (store_ok (Store_Set 10 5 append_io_ok ∅ (NewStore None) "k" [x61] 20 7).1.2) as Hs
    by (apply Store_Set_ok; [apply NewStore_ok | unfold is_u64; lia]).
  split; [|split].
  - exact (proj1 (get_reads_live_entry 30 30 _ "k" Hs)).
  - exact (proj1 (get_reads_live_entry 31 31 _ "k" Hs)).
  - etransitivity; [exact (proj2 (get_reads_live_entry 31 31 _ "k" Hs))|]. vm_compute. reflexivity.
Defined.

(** C25: when the log refuses a mutation ([Append] fails for any reason) the
    call reports the wrapped error and version 0, and the represented map is
    untouched. *)
Theorem failed_append_leaves_map now_exp now_ver io d s w key value ttl version :
  store_ok s -> is_u64 version -> wal s = Some w ->
  let ver := (pick_version now_ver s version).1 in
  (forall err, (WAL_Append io d w RecordTypeSet key value ver (expiry_of now_exp ttl)).2 = Some err ->
     let r := Store_Set now_exp now_ver io d s key value ttl version in
     r.2 = (0, Some (WalAppendFailed err)) /\ view r.1.2 = view s) /\
  (forall err, (WAL_Append io d w RecordTypeDelete key [] ver time_zero).2 = Some err ->
     let r := Store_Delete now_ver io d s key version in
     r.2 = (0, false, Some (WalAppendFailed err)) /\ view r.1.2 = view s).
Proof.
  intros Hs Hv Hw ver.
  assert (wal (pick_version now_ver s version).2 = Some w) as Hw'
    by (unfold pick_version; by destruct (version =? 0)).
  pose proof (pick_version_facts now_ver s version Hs Hv) as (_ & _ & Hpv).
  subst ver. unfold Store_Set, Store_Delete.
  destruct (pick_version now_ver s version) as [ver s1]. cbn [fst snd] in *.
  unfold log_mutation. rewrite Hw'. split; intros err Herr.
  - destruct (WAL_Append io d w RecordTypeSet key value ver _) as [[d2 w2] e2].
    cbn in Herr. by subst e2.
  - destruct (WAL_Append io d w RecordTypeDelete key [] ver _) as [[d2 w2] e2].
    cbn in Herr. by subst e2.
Qed.

Lemma failed_append_leaves_map_witness :
  let s := NewStore (Some (mkWAL "d/wal.log" 0 false)) in
  let io := mkAppendIO (WriteFails 3) true in
  (Store_Set 0 5 io ∅ s "k" [x61] 0 7).2 = (0, Some (WalAppendFailed WriteWALFailed)).
Proof.
  refine (proj1 (proj1 (failed_append_leaves_map 0 5 (mkAppendIO (WriteFails 3) true) ∅
    (NewStore (Some (mkWAL "d/wal.log" 0 false))) (mkWAL "d/wal.log" 0 false) "k" [x61] 0 7
    (NewStore_ok _) _ eq_refl) WriteWALFailed eq_refl)).
  unfold is_u64; lia.
Defined.

(** The versions a sequence of [NextVersion] calls returns. *)
Fixpoint next_versions (readings : list Z) (s : Store) : list Z :=
  match readings with
  | [] => []
  | now :: readings' => let '(v, s') := NextVersion now s in v :: next_versions readings' s'
  end.

(** C28: the versions a store issues are strictly increasing whatever the clock
    reads, even when it stands still or goes backwards, as long as the
    counter stays below the last [uint64]. *)
Theorem versions_strictly_increase readings : forall s,
  is_u64 (lastVersion s) ->
  Forall (fun now => u64 (UnixNano now) + Z.of_nat (length readings) < 2 ^ 64) readings ->
  lastVersion s + Z.of_nat (length readings) < 2 ^ 64 ->
  StronglySorted Z.lt (lastVersion s :: next_versions readings s).
Proof.
  enough (forall bound s, is_u64 (lastVersion s) -> 
    Forall (fun now => u64 (UnixNano now) + Z.of_nat (length readings) <= bound) readings ->
    lastVersion s + Z.of_nat (length readings) <= bound -> bound < 2 ^ 64 ->
    StronglySorted Z.lt (lastVersion s :: next_versions readings s)) as H.
  { intros s Hl Hr Hs. apply (H (2 ^ 64 - 1)); [done| |lia|lia].
    eapply Forall_impl; [exact Hr|]. intros x. cbn. lia. }
  induction readings as [|now readings IH]; intros bound s Hl Hr Hs Hb.
  { by repeat constructor. }
  inversion Hr as [|? ? Hnow Hr']; subst. cbn [length] in *.
  destruct (NextVersion_fresh now s Hl) as [Hlt Hlast]; [lia|].
  cbn [next_versions]. destruct (NextVersion now s) as [v s'] eqn:E. cbn in Hlt, Hlast.
  assert (v + Z.of_nat (length readings) <= bound) as Hv.
  { unfold NextVersion in E. cbn in E. inversion E; subst; clear E.
    destruct (Z.leb_spec (u64 (UnixNano now)) (lastVersion s)); [|lia].
    pose proof (u64_small (lastVersion s + 1)) as Hsm. unfold is_u64 in *. lia. }
  assert (StronglySorted Z.lt (v :: next_versions readings s')) as HS.
  { rewrite <-Hlast. apply (IH bound); [rewrite Hlast; unfold is_u64 in *; lia| |rewrite Hlast; lia|done].
    eapply Forall_impl; [exact Hr'|]. intros x. cbn. lia. }
  constructor; [done|]. inversion HS as [|? ? ? Hall]; subst. constructor; [done|].
  eapply Forall_impl; [exact Hall|]. intros x Hx. lia.
Qed.

Lemma versions_strictly_increase_witness :
  let t := time_Unix 1000 in
  StronglySorted Z.lt [0; 1000; 1001; 1002; 2000] /\
  next_versions [t; t; time_Unix 7; time_Unix 2000] (NewStore None) = [1000; 1001; 1002; 2000].
Proof.
  split; [|reflexivity].
  refine (versions_strictly_increase
    [time_Unix 1000; time_Unix 1000; time_Unix 7; time_Unix 2000] (NewStore None) _ _ _).
  - unfold is_u64. cbn. lia.
  - repeat (apply Forall_cons; split; [reflexivity|]). apply Forall_nil. exact I.
  - reflexivity.
Defined.

(** The key gauge reported by [Size] is the number of keys in the shards
    after any sequence of calls. *)
Theorem size_counts_keys `{MapRange} (T : Z -> Prop) w d l d' s' :
  trace (store_step T) (d, NewStore w) l (d', s') -> Z.of_nat (size (view s')) < 2 ^ 63 ->
  Store_Size s' = Z.of_nat (size (view s')).
Proof.
  intros Hst Hsz. destruct (store_steps_refine T (d, NewStore w) l (d', s')) as [H1 _];
    [apply NewStore_ok | done |].
  unfold Store_Size. rewrite (so_count s') by done. apply i64_small. unfold is_i64. lia.
Qed.

Lemma size_counts_keys_witness :
  Store_Size (Store_Set 0 5 append_io_ok ∅ (NewStore None) "k" [x61] 0 7).1.2 = 1.
Proof.
  refine (size_counts_keys (fun _ => True) None ∅ _ ∅ (Store_Set 0 5 append_io_ok ∅ (NewStore None) "k" [x61] 0 7).1.2 _ _).
  - eapply trace_once. apply (step_set _ ∅ (NewStore None) 0 5 append_io_ok "k" [x61] 0 7).
    unfold is_u64; lia.
  - reflexivity.
Defined.

(** [reap] removes exactly the entries whose expiry has passed, and the
    gauge follows. *)
Theorem reap_removes_expired `{MapRange} now s :
  store_ok s ->
  (forall k, view (reap now s) !! k
     = match view s !! k with
       | Some e => if IsExpired now e then None else Some e
       | None => None
       end) /\
  Store_Size (reap now s) = i64 (Z.of_nat (size (live now (view s)))).
Proof.
  intros Hs. destruct (reap_facts now s Hs) as [H1 H2]. split.
  - intros k. rewrite H2. apply lookup_live.
  - unfold Store_Size. rewrite so_count by done. by rewrite H2.
Qed.

Lemma reap_removes_expired_witness :
  let s := (Store_Set 10 5 append_io_ok ∅ (NewStore None) "k" [x61] 20 7).1.2 in
  view (reap 31 s) !! "k" = None.
Proof.
  exact (proj1 (reap_removes_expired 31 _
    (Store_Set_ok append_io_ok ∅ (NewStore None) (NewStore_ok None) 10 5 "k" [x61] 20 7
       (u64_range 7))) "k").
Defined.

(** With a positive limit [Scan] never panics and returns the first
    [limit] live keys with the prefix after the cursor, in ascending byte
    order, together with the last of them as the next cursor when there are
    more; the result does not depend on the iteration order of the maps. *)
Theorem scan_returns_page `{MapRange} now s prefix limit cursor :
  store_ok s -> 1 <= limit ->
  Z.of_nat (length (live_keys now prefix (view s))) + limit < 2 ^ 63 ->
  Store_Scan now s prefix limit cursor
  = Some (page_spec (Z.to_nat limit) cursor (live_keys now prefix (view s))).
Proof.
  intros Hs Hl Hov. rewrite Store_Scan_sorted by done.
  apply scan_page_spec; [apply live_keys_sorted | done | done].
Qed.

(** Three keys, two of them with the prefix ["a"]. *)
Definition three_keys : Store :=
  let s1 := (Store_Set 0 1 append_io_ok ∅ (NewStore None) "ab" [x61] 0 1).1.2 in
  let s2 := (Store_Set 0 2 append_io_ok ∅ s1 "b" [x62] 0 2).1.2 in
  (Store_Set 0 3 append_io_ok ∅ s2 "aa" [x63] 0 3).1.2.

Lemma three_keys_ok : store_ok three_keys.
Proof.
  repeat (apply Store_Set_ok; [|unfold is_u64; lia]). apply NewStore_ok.
Qed.

Lemma scan_returns_page_witness :
  @Store_Scan range_reversed 9 three_keys "a" 1 "" = Some (["aa"], "aa").
Proof.
  refine (@scan_returns_page range_reversed 9 three_keys "a" 1 "" three_keys_ok _ _).
  - lia.
  - vm_compute. reflexivity.
Defined.

(** C26: following the cursor from the empty one to the empty one lists every
    live key with the prefix exactly once, in order, provided no key is the
    empty string. *)
Theorem scan_pagination_complete `{MapRange} now s prefix limit :
  store_ok s -> 1 <= limit ->
  let keys := live_keys now prefix (view s) in
  Z.of_nat (length keys) + limit < 2 ^ 63 -> "" ∉ keys ->
  scan_all (S (length keys)) now s prefix limit "" = Some keys.
Proof.
  intros Hs Hl keys Hov Hne.
  apply (scan_all_rest now s prefix limit Hs Hl Hov Hne _ keys []); [lia | done | by left].
Qed.

Lemma scan_pagination_complete_witness :
  @scan_all range_reversed 4 9 three_keys "" 2 "" = Some ["aa"; "ab"; "b"].
Proof.
  refine (@scan_pagination_complete range_reversed 9 three_keys "" 2 three_keys_ok _ _ _).
  - lia.
  - vm_compute. reflexivity.
  - vm_compute. intros H. repeat (apply elem_of_cons in H as [H|H]; [discriminate|]).
    by apply not_elem_of_nil in H.
Defined.
