(* ===== verification/SnapshotSpec.v ===== *)
(** * Properties of snapshots

    Writing and loading a snapshot are inverse to each other; a fault or a
    crash at any point of writing leaves the old snapshot and the full log, or
    the new snapshot. *)

From S2P Require Import Prelude.
From S2P Require Import GoBase.
From S2P Require Import Hashes.
From S2P Require Import FilePath.
From S2P Require Import Lww.
From S2P Require Import Wal.
From S2P Require Import Store.
From S2P Require Import StoreInv.
From S2P Require Import Snapshot.

(** ** The disk operations *)

Lemma append_append d p a b :
  append_file (append_file d p a) p b = append_file d p (a ++ b).
Proof.
  unfold append_file at 1. rewrite file_of_append. unfold append_file.
  by rewrite insert_insert_eq, app_assoc.
Qed.

Definition shift_fault (n : nat) (fault : option (nat * nat)) : option (nat * nat) :=
  match fault with Some (i, k) => Some (i - n, k)%nat | None => None end.

Lemma run_plan_app A : forall fault B d,
  run_plan fault (A ++ B) d =
  match run_plan fault A d with
  | (d', None) => run_plan (shift_fault (length A) fault) B d'
  | (d', Some err) => (d', Some err)
  end.
Proof.
  induction A as [|[op err] A IH]; intros fault B d.
  - cbn. destruct fault as [[i n]|]; cbn; by rewrite ?Nat.sub_0_r.
  - cbn [app run_plan length]. destruct fault as [[[|i] n]|]; [done|..];
      (destruct (run_op op d); [apply IH | done]).
Qed.

(** A run that reports no error is the run without a fault. *)
Lemma run_plan_no_error plan : forall fault d d',
  run_plan fault plan d = (d', None) ->
  run_plan None plan d = (d', None) /\
  match fault with Some (i, _) => (length plan <= i)%nat | None => True end.
Proof.
  induction plan as [|[op err] plan IH]; intros fault d d' H.
  - split; [done|]. destruct fault as [[i n]|]; [cbn; lia | done].
  - cbn [run_plan] in *. destruct fault as [[[|i] n]|]; [done|..];
      (destruct (run_op op d) as [d1|]; [|done]).
    + apply IH in H as [? ?]. split; [done|]. cbn. lia.
    + by apply IH in H as [? ?].
Qed.

(** Operations on one file only. *)
Definition touches_only (p : string) (op : disk_op) : Prop :=
  match op with
  | OpCreate q | OpWrite q _ => q = p
  | OpSync _ | OpClose _ | OpSeek _ => True
  | OpRename _ _ | OpTruncate _ _ => False
  end.

Lemma run_plan_touches p plan : forall fault d q,
  Forall (fun oe => touches_only p oe.1) plan -> q <> p ->
  (run_plan fault plan d).1 !! q = d !! q.
Proof.
  induction plan as [|[op err] plan IH]; intros fault d q Hp Hq; [done|].
  inversion Hp as [|? ? Hop Hp']; subst. cbn [fst] in Hop.
  assert (forall n, fail_op n op d !! q = d !! q) as Hfail.
  { intros n. destruct op; cbn in *; try done. subst. unfold append_file.
    by rewrite lookup_insert_ne. }
  assert (forall d', run_op op d = Some d' -> d' !! q = d !! q) as Hrun.
  { intros d' E. destruct op; cbn in *; inversion E; subst; try done;
      unfold append_file; by rewrite lookup_insert_ne. }
  cbn [run_plan]. destruct fault as [[[|i] n]|]; [apply Hfail|..];
    (destruct (run_op op d) as [d1|]; [|done]; rewrite IH by done; by apply Hrun).
Qed.

Lemma run_plan_writes p {A} (g : A -> list byte) err l : forall d,
  run_plan None (map (fun x => (OpWrite p (g x), err)) l) (append_file d p [])
  = (append_file d p (concat (map g l)), None).
Proof.
  enough (forall b d, run_plan None (map (fun x => (OpWrite p (g x), err)) l) (append_file d p b)
    = (append_file d p (b ++ concat (map g l)), None)) as H by (intros d; apply (H [] d)).
  induction l as [|x l IH]; intros b d; cbn; [by rewrite app_nil_r|].
  by rewrite append_append, IH, <-app_assoc.
Qed.

Section Create.
Context {R : MapRange} (now : Z) (s : Store) (w : WAL).

(** The complete file. *)
Definition snapshot_bytes : list byte :=
  snapshot_header ++ concat (map snapshot_record (snapshot_entries now s)).

(** The part of the plan before the rename. *)
Definition write_phase : list (disk_op * error) :=
  [(OpWrite (tmp_path w) snapshot_header, WriteSnapshotHeaderFailed)]
  ++ map (fun kv => (OpWrite (tmp_path w) (snapshot_record kv), WriteSnapshotRecordFailed))
       (snapshot_entries now s)
  ++ [(OpSync (tmp_path w), SyncSnapshotFailed); (OpClose (tmp_path w), CloseSnapshotFailed)].

Definition commit_phase : list (disk_op * error) :=
  [(OpRename (tmp_path w) (snap_path w), CommitSnapshotFailed);
   (OpTruncate (WAL_Path w) (wal_closed w), TruncateWALFailed);
   (OpSeek (WAL_Path w), SeekWALFailed)].

Lemma snapshot_plan_phases : snapshot_plan now s w = write_phase ++ commit_phase.
Proof. unfold snapshot_plan, write_phase, commit_phase. by rewrite <-!app_assoc. Qed.

Lemma write_phase_touches : Forall (fun oe => touches_only (tmp_path w) oe.1) write_phase.
Proof.
  unfold write_phase. repeat (apply Forall_app; split).
  - by repeat constructor.
  - apply Forall_forall. intros oe Hin. apply list_elem_of_In, in_map_iff in Hin as (kv & <- & _).
    done.
  - by repeat constructor.
Qed.

Lemma write_phase_run d :
  run_plan None write_phase (<[tmp_path w := []]> d) = (<[tmp_path w := snapshot_bytes]> d, None).
Proof.
  unfold write_phase. rewrite run_plan_app.
  assert (forall b, append_file (<[tmp_path w := []]> d) (tmp_path w) b = <[tmp_path w := b]> d) as Ha.
  { intros b. unfold append_file, file_of. by rewrite lookup_insert_eq, insert_insert_eq. }
  cbn [run_plan run_op]. rewrite Ha. cbn [shift_fault]. rewrite run_plan_app.
  assert (<[tmp_path w := snapshot_header]> d
    = append_file (<[tmp_path w := snapshot_header]> d) (tmp_path w) []) as ->.
  { unfold append_file, file_of. by rewrite lookup_insert_eq, insert_insert_eq, app_nil_r. }
  rewrite run_plan_writes. cbn. f_equal.
  unfold append_file, file_of. by rewrite lookup_insert_eq, insert_insert_eq.
Qed.
End Create.

(** The three files of a data directory have different paths. *)
Record in_data_dir (w : WAL) : Prop := {
  dd_tmp_snap : tmp_path w <> snap_path w;
  dd_tmp_wal : tmp_path w <> WAL_Path w;
  dd_snap_wal : snap_path w <> WAL_Path w
}.

Lemma file_names :
  file_name "wal.log" /\ file_name "snapshot.bin" /\ file_name "snapshot.bin.tmp".
Proof. done. Qed.

Lemma data_dir_paths dataDir w :
  wal_path w = Join dataDir "wal.log" ->
  snap_path w = Join dataDir "snapshot.bin" /\ tmp_path w = Join dataDir "snapshot.bin.tmp".
Proof.
  intros Hw. unfold snap_path, tmp_path, WAL_Path. rewrite Hw.
  destruct file_names as (? & ? & ?). by rewrite !Join_Dir_Join.
Qed.

Lemma data_dir_distinct dataDir w : wal_path w = Join dataDir "wal.log" -> in_data_dir w.
Proof.
  intros Hw. destruct (data_dir_paths dataDir w Hw) as [Hs Ht].
  destruct file_names as (? & ? & ?).
  split; unfold WAL_Path; rewrite ?Hs, ?Ht, ?Hw; intros E; by apply Join_inj in E.
Qed.

Section CreateResult.
Context {R : MapRange} (now : Z) (s : Store) (w : WAL) (Hd : in_data_dir w).

(** Any interrupted or complete run leaves one of three states of the
    snapshot and the log, and touches no other file. *)
Lemma run_plan_states fault d :
  let d' := (run_plan fault (snapshot_plan now s w) (<[tmp_path w := []]> d)).1 in
  (d' !! snap_path w = d !! snap_path w /\ d' !! WAL_Path w = d !! WAL_Path w \/
   d' !! snap_path w = Some (snapshot_bytes now s) /\ d' !! WAL_Path w = d !! WAL_Path w \/
   d' !! snap_path w = Some (snapshot_bytes now s) /\ d' !! WAL_Path w = Some []) /\
  forall p, p <> tmp_path w -> p <> snap_path w -> p <> WAL_Path w -> d' !! p = d !! p.
Proof using Hd.
  destruct Hd as [H1 H2 H3]. cbv zeta. rewrite snapshot_plan_phases, run_plan_app.
  pose proof (fun q => run_plan_touches (tmp_path w) (write_phase now s w) fault
    (<[tmp_path w := []]> d) q (write_phase_touches now s w)) as Ht.
  destruct (run_plan fault (write_phase now s w) _) as [d1 [err|]] eqn:E; cbn [fst] in *.
  { rewrite !Ht, !lookup_insert_ne by done. split; [auto|].
    intros p Hp _ _. by rewrite Ht, lookup_insert_ne. }
  apply run_plan_no_error in E as [E Hi]. rewrite write_phase_run in E.
  inversion E; subst d1; clear E.
  set (dr := <[snap_path w := snapshot_bytes now s]> (delete (tmp_path w) d)).
  assert (<[snap_path w := file_of (<[tmp_path w := snapshot_bytes now s]> d) (tmp_path w)]>
    (delete (tmp_path w) (<[tmp_path w := snapshot_bytes now s]> d)) = dr) as Hren.
  { subst dr. unfold file_of. rewrite lookup_insert_eq, delete_insert_eq. done. }
  assert (forall b, (<[WAL_Path w := b]> dr) !! snap_path w = Some (snapshot_bytes now s)) as Hs
    by (intros; subst dr; by rewrite lookup_insert_ne, lookup_insert_eq).
  assert (dr !! snap_path w = Some (snapshot_bytes now s)) as Hs0
    by (subst dr; by rewrite lookup_insert_eq).
  assert (dr !! WAL_Path w = d !! WAL_Path w) as Hw
    by (subst dr; by rewrite lookup_insert_ne, lookup_delete_ne).
  assert (forall p, p <> tmp_path w -> p <> snap_path w -> dr !! p = d !! p) as Hother
    by (intros; subst dr; by rewrite lookup_insert_ne, lookup_delete_ne).
  unfold commit_phase. cbn [run_plan run_op].
  destruct (shift_fault _ fault) as [[[|[|[|i]]] n]|]; cbn [fst fail_op];
    rewrite ?Hren; try (destruct (wal_closed w); cbn [fst]);
    rewrite ?lookup_insert_eq, ?lookup_insert_ne by done;
    (split; [auto|intros p ? ? ?; rewrite ?lookup_insert_ne by done; auto]).
Qed.

(** A complete run. *)
Lemma CreateSnapshot_ok d :
  wal s = Some w -> wal_closed w = false ->
  exists d', CreateSnapshot now true None d s
      = (d', with_wal s (Some (mkWAL (wal_path w) 0 false)), None) /\
    d' !! snap_path w = Some (snapshot_bytes now s) /\ d' !! WAL_Path w = Some [] /\
    d' !! tmp_path w = None /\
    forall p, p <> tmp_path w -> p <> snap_path w -> p <> WAL_Path w -> d' !! p = d !! p.
Proof using Hd.
  intros Hw Hc. destruct Hd as [H1 H2 H3]. unfold CreateSnapshot. rewrite Hw. cbn [negb].
  rewrite snapshot_plan_phases, run_plan_app, write_phase_run.
  unfold commit_phase. cbn [run_plan run_op shift_fault]. rewrite Hc. eexists. split; [done|].
  unfold file_of. rewrite lookup_insert_eq, delete_insert_eq. cbn.
  rewrite !(lookup_delete_ne _ (tmp_path w)), lookup_delete_eq, !lookup_insert_eq by done.
  rewrite (lookup_insert_ne _ (WAL_Path w) (snap_path w)), lookup_insert_eq by done.
  repeat split. intros p ? ? ?.
  by rewrite lookup_delete_ne, !lookup_insert_ne, lookup_delete_ne.
Qed.
End CreateResult.

(** ** Loading *)

Definition entry_record (kv : string * Entry) : LogRecord :=
  mkLogRecord RecordTypeSet (fst kv) (Value (snd kv)) (Version (snd kv)) (ExpiresAt (snd kv)).

Lemma snapshot_record_bytes kv : snapshot_record kv = lr_bytes (entry_record kv).
Proof. done. Qed.

(** Every entry of the map can be written: the keys, versions, expiries and
    sizes are in the range of the record format. *)
Definition storable_map (m : KV) : Prop := map_Forall (fun k e => storable (entry_record (k, e))) m.

(** The invariant of the loading loop: like [store_ok], with the loop's count
    in place of the gauge, which is set at the end. *)
Record loading (st : Store * Z) : Prop := {
  ld_sharded : well_sharded (shards st.1);
  ld_count : st.2 = i64 (Z.of_nat (size (view st.1)));
  ld_last : is_u64 (lastVersion st.1);
  ld_versions : map_Forall (fun _ e => is_u64 (Version e) /\ Version e <= lastVersion st.1) (view st.1)
}.

Lemma loading_store s c : loading (s, c) -> store_ok (with_keyCount s c).
Proof.
  intros [H1 H2 H3 H4]. split; [done | done | done |].
  eapply map_Forall_impl; [exact H4|]. by intros ? ? [? _].
Qed.

(** Storing a newer entry. *)
Lemma loading_insert s c k e c' :
  loading (s, c) -> is_u64 (Version e) ->
  c' = i64 (Z.of_nat (size (<[k := e]> (view s)))) ->
  let s1 := set_shard s k (<[k := e]> (getShard s k)) in
  let s2 := if lastVersion s <? Version e then with_lastVersion s1 (Version e) else s1 in
  loading (s2, c') /\ view s2 = <[k := e]> (view s).
Proof.
  intros [H1 H2 H3 H4] Hv Hc. cbn in *.
  assert (view (set_shard s k (<[k := e]> (getShard s k))) = <[k := e]> (view s)) as Hview
    by (by apply view_insert).
  assert (well_sharded (shards (set_shard s k (<[k := e]> (getShard s k))))) as Hsh
    by (by apply insert_sharded).
  destruct (Z.ltb_spec (lastVersion s) (Version e)) as [Hlt|Hge]; (split; [|exact Hview]).
  - split; [exact Hsh | cbn; by rewrite <-Hview in Hc | exact Hv|].
    change (map_Forall (fun _ e0 => is_u64 (Version e0) /\ Version e0 <= Version e)
      (view (set_shard s k (<[k := e]> (getShard s k))))).
    rewrite Hview. apply map_Forall_insert_2; [split; [done|lia]|].
    eapply map_Forall_impl; [exact H4|]. cbn. intros ? ? [? ?]. split; [done|lia].
  - split; [exact Hsh | cbn; by rewrite <-Hview in Hc | exact H3|].
    cbn [fst]. rewrite Hview. apply map_Forall_insert_2; [split; done|]. exact H4.
Qed.

Lemma load_apply_loading lr st :
  is_u64 (lr_version lr) -> loading st -> loading (load_apply lr st).1.
Proof.
  destruct st as [s c]. intros Hv Hl. unfold load_apply. case_decide; [|done].
  pose proof (ld_count _ Hl) as Hc. cbn in Hc.
  set (e := mkEntry (lr_value lr) (lr_version lr) (lr_expiresAt lr)).
  change (lr_version lr) with (Version e) in Hv |- *.
  rewrite <-lookup_view by apply (ld_sharded _ Hl).
  destruct (view s !! lr_key lr) as [cur|] eqn:E.
  - destruct (Version cur <? Version e); [|done].
    apply (loading_insert s c); [done|done|]. rewrite map_size_insert_Some by eauto. done.
  - apply (loading_insert s c); [done|done|].
    rewrite map_size_insert_None, Hc, i64_add_l by done. f_equal. lia.
Qed.

(** Loading entries with new keys stores them all. *)
Lemma load_entries l : forall s c,
  loading (s, c) -> NoDup l.*1 -> Forall (fun kv => view s !! kv.1 = None) l ->
  Forall (fun kv => is_u64 (Version kv.2)) l ->
  exists s' c', apply_all load_apply (map entry_record l) (s, c) = ((s', c'), None) /\
    loading (s', c') /\ view s' = list_to_map l ∪ view s.
Proof.
  induction l as [|[k e] l IH]; intros s c Hl Hnd Hnew Hver.
  { exists s, c. cbn. by rewrite map_empty_union. }
  inversion Hnd as [|? ? Hni Hnd']; inversion Hnew as [|? ? Hk Hnew'];
    inversion Hver as [|? ? Hv Hver']; subst. cbn [fst snd] in *.
  cbn [map apply_all]. unfold load_apply. cbn -[set_shard].
  rewrite <-lookup_view, Hk by apply (ld_sharded _ Hl).
  destruct e as [ev ver ex]. set (e := mkEntry ev ver ex) in *. cbn in Hv.
  destruct (loading_insert s c k e (i64 (c + 1)) Hl Hv) as [Hl2 Hv2].
  { pose proof (ld_count _ Hl) as Hc. cbn in Hc.
    rewrite Hc, i64_add_l, map_size_insert_None by done. f_equal. lia. }
  cbn zeta in Hl2, Hv2. change (Version e) with ver in *.
  destruct (IH _ _ Hl2) as (s' & c' & E & Hl' & Hv'); [done | | done |].
  { rewrite Hv2. rewrite Forall_forall in Hnew' |- *. intros [k' e'] Hin. cbn.
    rewrite lookup_insert_ne; [by apply (Hnew' (k', e'))|]. intros <-.
    apply Hni, list_elem_of_fmap. by exists (k, e'). }
  exists s', c'. split; [exact E|]. split; [done|].
  rewrite Hv', Hv2. cbn. rewrite <-insert_union_l. symmetry. apply insert_union_r.
  by apply not_elem_of_list_to_map_1.
Qed.

Lemma NewStore_loading w : loading (NewStore w, 0).
Proof.
  destruct (NewStore_ok w) as [H1 H2 H3 H4]. split; [done | exact H2 | done |].
  cbn [fst]. rewrite NewStore_view. apply map_Forall_empty.
Qed.

Section Roundtrip.
Context {R : MapRange}.

Lemma snapshot_entries_perm now s :
  well_sharded (shards s) -> snapshot_entries now s ≡ₚ map_to_list (live now (view s)).
Proof.
  intros Hw. unfold snapshot_entries, snapshot_shard.
  rewrite concat_map_omap, range_shards_perm by done.
  assert (forall l, omap (snapshot_entry now) l = filter (fun kv => IsExpired now kv.2 = false) l) as ->.
  { induction l as [|[k e] l IH]; [done|].
    change (omap (snapshot_entry now) ((k, e) :: l))
      with (match snapshot_entry now (k, e) with
            | Some y => y :: omap (snapshot_entry now) l
            | None => omap (snapshot_entry now) l
            end).
    unfold snapshot_entry at 1. rewrite expired_guard. destruct (IsExpired now e) eqn:Ex.
    - rewrite filter_cons_False by (cbn; congruence). done.
    - rewrite filter_cons_True by done. by rewrite <-IH. }
  apply NoDup_Permutation; [apply NoDup_filter, NoDup_map_to_list | apply NoDup_map_to_list |].
  intros [k e]. rewrite list_elem_of_filter, !elem_of_map_to_list, lookup_live. cbn. split.
  - intros [Hx ->]. by rewrite Hx.
  - destruct (view s !! k) as [e0|]; [|done]. destruct (IsExpired now e0) eqn:Ex; [done|].
    by intros [= <-].
Qed.

Lemma live_subseteq now m k e : live now m !! k = Some e -> m !! k = Some e.
Proof. rewrite lookup_live. destruct (m !! k) as [e0|]; [|done]. by destruct (IsExpired now e0). Qed.

(** Loading the bytes a snapshot wrote. *)
Lemma LoadSnapshot_bytes now s d p :
  store_ok s -> storable_map (view s) -> d !! p = Some (snapshot_bytes now s) ->
  exists s2, LoadSnapshot true AtEOF d (NewStore None) p = Some (s2, (true, None)) /\
    store_ok s2 /\ view s2 = live now (view s) /\
    map_Forall (fun _ e => Version e <= lastVersion s2) (view s2).
Proof.
  intros Hs Hst Hp. unfold LoadSnapshot. rewrite Hp. cbn [negb].
  unfold snapshot_bytes. rewrite ReadFull_app by done. cbn -[replay_loop].
  pose proof (snapshot_entries_perm now s (so_sharded s Hs)) as HP.
  set (l := snapshot_entries now s) in *.
  assert (map snapshot_record l = map lr_bytes (map entry_record l)) as ->
    by (rewrite map_map; by apply map_ext).
  assert (Forall storable (map entry_record l)) as Hstl.
  { apply Forall_forall. intros lr Hin. apply list_elem_of_In, in_map_iff in Hin as ([k e] & <- & Hin).
    apply list_elem_of_In in Hin. rewrite HP in Hin. apply elem_of_map_to_list, live_subseteq in Hin.
    by apply Hst. }
  assert (NoDup l.*1) as Hnd by (rewrite HP; apply NoDup_fst_map_to_list).
  assert (Forall (fun kv => is_u64 (Version kv.2)) l) as Hu.
  { rewrite HP. apply Forall_forall. intros [k e] Hin%elem_of_map_to_list%live_subseteq.
    by apply (so_versions s Hs k e). }
  destruct (load_entries l (NewStore None) 0 (NewStore_loading None) Hnd) as (s' & c' & E & Hl & Hv);
    [|done|].
  { rewrite NewStore_view. by apply Forall_forall. }
  rewrite NewStore_view, map_union_empty in Hv.
  set (r := concat (map lr_bytes (map entry_record l))).
  fold (replay ReadSnapshotRecordHeaderFailed ReadSnapshotPayloadFailed load_apply AtEOF r (NewStore None, 0)).
  subst r. rewrite <-(app_nil_r (concat _)), replay_records, E by done.
  rewrite replay_torn_header by (cbn; lia).
  eexists. split; [done|]. split; [by apply loading_store|]. split.
  - change (view s' = live now (view s)). rewrite Hv.
    rewrite <-(list_to_map_to_list (live now (view s))). by apply list_to_map_proper.
  - intros k e He. by apply (ld_versions _ Hl k e).
Qed.
End Roundtrip.

(** ** Properties *)

(** C13: a snapshot that completes truncates the log to nothing and holds
    exactly the unexpired entries: loading it into a new store from the path
    the server uses at start-up gives back those entries, a consistent
    store, and a version counter that is not behind any of them.  The
    iteration order of the maps does not matter. *)
Theorem snapshot_roundtrip `{MapRange} now d s w dataDir :
  store_ok s -> storable_map (view s) ->
  wal s = Some w -> wal_closed w = false -> wal_path w = Join dataDir "wal.log" ->
  exists d' w', CreateSnapshot now true None d s = (d', with_wal s (Some w'), None) /\
    WAL_Size w' = 0 /\ file_of d' (WAL_Path w') = [] /\
    exists s2, LoadSnapshot true AtEOF d' (NewStore None) (Join dataDir "snapshot.bin")
        = Some (s2, (true, None)) /\
      store_ok s2 /\ view s2 = live now (view s) /\
      map_Forall (fun _ e => Version e <= lastVersion s2) (view s2).
Proof.
  intros Hs Hst Hw Hc Hp.
  destruct (CreateSnapshot_ok now s w (data_dir_distinct dataDir w Hp) d Hw Hc)
    as (d' & E & Hsnap & Hwal & _ & _).
  exists d', (mkWAL (wal_path w) 0 false). split; [done|]. split; [done|]. split.
  { unfold file_of, WAL_Path in *. cbn. by rewrite Hwal. }
  destruct (data_dir_paths dataDir w Hp) as [<- _]. by apply LoadSnapshot_bytes.
Qed.

(** One key in a store with a log in directory ["data"]. *)
Definition logged_store : Store :=
  (Store_Set 0 5 append_io_ok ∅ (NewStore (Some (mkWAL "data/wal.log" 0 false))) "k" [x61] 0 7).1.2.

Lemma logged_store_ok : store_ok logged_store.
Proof. apply Store_Set_ok; [apply NewStore_ok | unfold is_u64; lia]. Qed.

Lemma logged_store_storable : storable_map (view logged_store).
Proof.
  assert (view logged_store = {[ "k" := mkEntry [x61] 7 time_zero ]}) as -> by reflexivity.
  apply map_Forall_singleton. split; cbn; [lia | unfold is_u64; lia | by left | lia].
Qed.

Lemma snapshot_roundtrip_witness :
  exists d' w', CreateSnapshot 9 true None ∅ logged_store
      = (d', with_wal logged_store (Some w'), None) /\
    WAL_Size w' = 0 /\ file_of d' (WAL_Path w') = [] /\
    exists s2, LoadSnapshot true AtEOF d' (NewStore None) "data/snapshot.bin"
        = Some (s2, (true, None)) /\
      store_ok s2 /\ view s2 = live 9 (view logged_store) /\
      map_Forall (fun _ e => Version e <= lastVersion s2) (view s2).
Proof.
  eapply (snapshot_roundtrip 9 ∅ logged_store _ "data" logged_store_ok logged_store_storable);
    reflexivity.
Defined.

(** C14: a disk failure ([fault]) or a crash at any point of [CreateSnapshot]
    leaves the pair of snapshot and log in one of three states: both old; the
    complete new snapshot with the old log; the complete new snapshot with an
    empty log.  No other file changes, and an error return removes the
    temporary file and keeps the represented map. *)
Theorem snapshot_write_is_atomic `{MapRange} now d s w dataDir fault :
  wal s = Some w -> wal_path w = Join dataDir "wal.log" ->
  let crash := (run_plan fault (snapshot_plan now s w) (<[tmp_path w := []]> d)).1 in
  let r := CreateSnapshot now true fault d s in
  let snap := Join dataDir "snapshot.bin" in
  let log := Join dataDir "wal.log" in
  let tmp := Join dataDir "snapshot.bin.tmp" in
  (forall d', d' = crash \/ d' = r.1.1 ->
     (d' !! snap = d !! snap /\ d' !! log = d !! log \/
      d' !! snap = Some (snapshot_bytes now s) /\ d' !! log = d !! log \/
      d' !! snap = Some (snapshot_bytes now s) /\ d' !! log = Some []) /\
     forall p, p <> tmp -> p <> snap -> p <> log -> d' !! p = d !! p) /\
  r.1.1 !! tmp = None /\ view r.1.2 = view s.
Proof.
  intros Hw Hp crash r snap log tmp.
  pose proof (data_dir_distinct dataDir w Hp) as Hdd.
  destruct (data_dir_paths dataDir w Hp) as [Hsn Htm].
  subst snap log tmp. rewrite <-Hsn, <-Htm, <-Hp.
  pose proof (run_plan_states now s w Hdd fault d) as Hst. cbv zeta in Hst. fold crash in Hst.
  destruct Hdd as [H1 H2 H3]. change (wal_path w) with (WAL_Path w).
  assert (r.1.1 = delete (tmp_path w) crash /\ view r.1.2 = view s) as [Hr Hview].
  { subst r crash. unfold CreateSnapshot. rewrite Hw. cbn [negb].
    destruct (run_plan fault (snapshot_plan now s w) (<[tmp_path w := []]> d)) as [d1 [err|]]; done. }
  split; [|split; [rewrite Hr; apply lookup_delete_eq | done]].
  intros d' [->| ->]; [exact Hst|]. rewrite Hr, !lookup_delete_ne by done.
  split; [apply Hst|]. intros p ? ? ?. rewrite lookup_delete_ne by done. by apply Hst.
Qed.

Lemma snapshot_write_is_atomic_witness :
  let d := {[ "data/wal.log" := [x01] ]} in
  let r := CreateSnapshot 9 true (Some (1%nat, 5%nat)) d logged_store in
  r.2 = Some WriteSnapshotRecordFailed /\ r.1.1 !! "data/snapshot.bin.tmp" = None.
Proof.
  split; [reflexivity|].
  exact (proj1 (proj2 (snapshot_write_is_atomic 9 {[ "data/wal.log" := [x01] ]} logged_store
    (mkWAL "data/wal.log" 29 false) "data" (Some (1%nat, 5%nat)) eq_refl eq_refl))).
Defined.

(** Closes a case in which [LoadSnapshot] does not report success. *)
Ltac not_loaded := eexists _, _; split; [reflexivity | discriminate].

(** Loading terminates on every file, and whenever it reports success the
    new store is consistent: keys in their shards, the gauge equal to the
    number of keys, the version counter not behind any loaded entry. *)
Theorem load_any_file_consistent open_ok e d snapPath :
  exists s' res, LoadSnapshot open_ok e d (NewStore None) snapPath = Some (s', res) /\
    (res = (true, None) ->
       store_ok s' /\ map_Forall (fun _ en => Version en <= lastVersion s') (view s')).
Proof.
  unfold LoadSnapshot. destruct (d !! snapPath) as [b|]; [|not_loaded].
  destruct open_ok; cbn [negb]; [|not_loaded].
  destruct (ReadFull 6 e b) as [[h r]|err]; [|not_loaded].
  destruct (negb (bool_decide _)); [not_loaded|]. destruct (negb (_ =? _)); [not_loaded|].
  destruct (replay_loop_total ReadSnapshotRecordHeaderFailed ReadSnapshotPayloadFailed load_apply e
    (S (length r)) r (NewStore None, 0)) as [res Hres]; [lia|].
  specialize (Hres (S (length r))). rewrite Hres by lia.
  destruct res as [[s' c] [err|]]; [not_loaded|].
  eexists _, _. split; [done|]. intros _.
  pose proof (replay_invariant _ _ load_apply loading e load_apply_loading _ _ _ _
    (NewStore_loading None) (Hres ltac:(lia))) as Hl. cbn [fst] in Hl.
  split; [by apply loading_store|]. intros k en Hk. by apply (ld_versions _ Hl k en).
Qed.
