(* ===== verification/Recovery.v ===== *)
(** * Start-up: steps 2 to 5 of [cmd/server/main.go]

    A server starts with an empty store, loads the snapshot, replays the log
    through a callback and attaches the log.  The theorems relate the store a
    restart produces to the store that was serving before it. *)

From S2P Require Import Prelude.
From S2P Require Import GoBase.
From S2P Require Import FilePath.
From S2P Require Import Lww.
From S2P Require Import Wal.
From S2P Require Import WalSpec.
From S2P Require Import Store.
From S2P Require Import StoreInv.
From S2P Require Import Snapshot.
From S2P Require Import SnapshotSpec.

(** ** The code *)

Section Callback.
(** The clock during start-up: call number [n] of [time.Now] reads [clock n]. *)
Context (clock : nat -> Z).

(** The callback of [wal.Replay] in [main]; its state is the store and the
    number of clock readings made.  The store has no log yet, so the disk
    argument of its operations plays no part. *)
Definition replay_callback (lr : LogRecord) (st : Store * nat) : (Store * nat) * option error :=
  let '(s, t) := st in
  if decide (lr_type lr = RecordTypeSet) then
    let ttl := if IsZero (lr_expiresAt lr) then 0 else time_Sub (lr_expiresAt lr) (clock t) in
    if negb (IsZero (lr_expiresAt lr)) && (ttl <=? 0) then ((s, S t), None)
    else
      let '(_, s', (_, err)) :=
        Store_Set (clock (t + 1)%nat) (clock (t + 2)%nat) append_io_ok ∅ s
          (lr_key lr) (lr_value lr) ttl (lr_version lr) in
      ((s', t + 3)%nat, err)
  else if decide (lr_type lr = RecordTypeDelete) then
    let '(_, s', (_, _, err)) :=
      Store_Delete (clock t) append_io_ok ∅ s (lr_key lr) (lr_version lr) in
    ((s', S t), err)
  else ((s, t), None).
End Callback.

(** The outcome of start-up: a running store, or [log.Fatalf]. *)
Inductive startup := Started (d : Disk) (s : Store) | Fatal (e : error).

Record startup_io := mkStartupIO {
  su_snap_open_ok : bool;
  su_snap_end : stream_end;
  su_wal_open_ok : bool;
  su_wal_stat_ok : bool;
  su_replay : replay_io
}.
Definition startup_io_ok : startup_io := mkStartupIO true AtEOF true true replay_io_ok.

(** [None] is running out of fuel in one of the two record loops. *)
Definition start (io : startup_io) (clock : nat -> Z) (d : Disk) (dataDir : string)
  : option startup :=
  match LoadSnapshot (su_snap_open_ok io) (su_snap_end io) d (NewStore None)
          (Join dataDir "snapshot.bin") with
  | None => None
  | Some (_, (_, Some err)) => Some (Fatal err)
  | Some (s, (_, None)) =>
      match NewWAL (su_wal_open_ok io) (su_wal_stat_ok io) d dataDir "wal.log" with
      | (_, inr err) => Some (Fatal err)
      | (d', inl w) =>
          match WAL_Replay (replay_callback clock) (su_replay io) d' w (s, 0%nat) with
          | None => None
          | Some (_, Some err) => Some (Fatal err)
          | Some ((s', _), None) => Some (Started d' (SetWAL s' w))
          end
      end
  end.

(** ** The callback on the represented map *)

Definition record_mutation (lr : LogRecord) : mutation :=
  if decide (lr_type lr = RecordTypeSet)
  then MSet (lr_key lr) (mkEntry (lr_value lr) (lr_version lr) (lr_expiresAt lr))
  else MDelete (lr_key lr) (lr_version lr).

(** A record of a write without expiry or of a deletion, as [Set] and [Delete]
    produce them: their versions are never 0. *)
Record permanent (lr : LogRecord) : Prop := {
  pm_type : lr_type lr = RecordTypeSet \/ lr_type lr = RecordTypeDelete;
  pm_version : 0 < lr_version lr < 2 ^ 64;
  pm_expiry : lr_expiresAt lr = time_zero
}.

Lemma pick_version_nonzero now s v : 0 < v -> pick_version now s v = (v, s).
Proof. intros H. unfold pick_version. by destruct (Z.eqb_spec v 0); [lia|]. Qed.

(** Without a log [Set] and [Delete] cannot fail. *)
Lemma Store_Set_nolog n1 n2 io d s k v ttl ver :
  wal s = None -> 0 < ver ->
  let '(r, s') := Set_apply s k v ver (expiry_of n1 ttl) in
  Store_Set n1 n2 io d s k v ttl ver = (d, s', (r, None)).
Proof.
  intros Hw Hv. unfold Store_Set. rewrite pick_version_nonzero by done.
  unfold log_mutation. rewrite Hw. by destruct (Set_apply _ _ _ _ _).
Qed.

Lemma Store_Delete_nolog n io d s k ver :
  wal s = None -> 0 < ver ->
  let '((r, b), s') := Delete_apply s k ver in
  Store_Delete n io d s k ver = (d, s', (r, b, None)).
Proof.
  intros Hw Hv. unfold Store_Delete. rewrite pick_version_nonzero by done.
  unfold log_mutation. rewrite Hw. by destruct (Delete_apply _ _ _) as [[? ?] ?].
Qed.

Lemma Set_apply_wal s k v ver e : wal (Set_apply s k v ver e).2 = wal s.
Proof. unfold Set_apply. repeat case_match; done. Qed.
Lemma Delete_apply_wal s k ver : wal (Delete_apply s k ver).2 = wal s.
Proof. unfold Delete_apply. repeat case_match; done. Qed.

Section CallbackFacts.
Context (clock : nat -> Z).

Lemma replay_callback_permanent lr s t :
  permanent lr -> store_ok s -> wal s = None ->
  exists s' t', replay_callback clock lr (s, t) = ((s', t'), None) /\
    store_ok s' /\ wal s' = None /\ view s' = mutate (record_mutation lr) (view s).
Proof.
  intros [Ht Hv He] Hs Hw. unfold replay_callback, record_mutation. rewrite He.
  assert (is_u64 (lr_version lr)) as Hu by (unfold is_u64; lia).
  destruct Ht as [Ht|Ht]; rewrite Ht; cbn [negb IsZero].
  - rewrite decide_True by done. cbn [andb negb].
    pose proof (Store_Set_nolog (clock (t + 1)%nat) (clock (t + 2)%nat) append_io_ok ∅ s
      (lr_key lr) (lr_value lr) 0 (lr_version lr) Hw (proj1 Hv)) as E.
    change (expiry_of _ 0) with time_zero in E.
    destruct (Set_apply_view s (lr_key lr) (lr_value lr) (lr_version lr) time_zero Hs) as [Hview _].
    pose proof (Set_apply_ok s (lr_key lr) (lr_value lr) (lr_version lr) time_zero Hs Hu) as Hok.
    pose proof (Set_apply_wal s (lr_key lr) (lr_value lr) (lr_version lr) time_zero) as Hw'.
    destruct (Set_apply s _ _ _ _) as [r s']. cbn in *. rewrite E.
    eexists _, _. split; [done|]. split; [done|]. split; [congruence|done].
  - rewrite !(decide_False (P := RecordTypeDelete = RecordTypeSet)) by done.
    rewrite decide_True by done.
    pose proof (Store_Delete_nolog (clock t) append_io_ok ∅ s (lr_key lr) (lr_version lr)
      Hw (proj1 Hv)) as E.
    destruct (Delete_apply_view s (lr_key lr) (lr_version lr) Hs) as [Hview _].
    pose proof (Delete_apply_ok s (lr_key lr) (lr_version lr) Hs) as Hok.
    pose proof (Delete_apply_wal s (lr_key lr) (lr_version lr)) as Hw'.
    destruct (Delete_apply s _ _) as [[r b] s']. cbn in *. rewrite E.
    eexists _, _. split; [done|]. split; [done|]. split; [congruence|done].
Qed.

Lemma replay_permanent l : forall s t,
  Forall permanent l -> store_ok s -> wal s = None ->
  exists s' t', apply_all (replay_callback clock) l (s, t) = ((s', t'), None) /\
    store_ok s' /\ wal s' = None /\ view s' = run_mutations (map record_mutation l) (view s).
Proof.
  induction l as [|lr l IH]; intros s t Hl Hs Hw; [by exists s, t|].
  inversion Hl; subst. cbn [apply_all map].
  destruct (replay_callback_permanent lr s t) as (s1 & t1 & -> & Hs1 & Hw1 & Hv1); [done..|].
  destruct (IH s1 t1) as (s2 & t2 & E & Hs2 & Hw2 & Hv2); [done..|].
  exists s2, t2. split; [exact E|]. split; [done|]. split; [done|].
  rewrite Hv2, Hv1. done.
Qed.
End CallbackFacts.

(** ** What the data directory holds *)

(** The snapshot loads to [base], the log is the complete records [l]. *)
Record data_dir (d : Disk) (dataDir : string) (base : KV) (l : list LogRecord) : Prop := {
  dd_snapshot : exists s0 b, LoadSnapshot true AtEOF d (NewStore None) (Join dataDir "snapshot.bin")
      = Some (s0, (b, None)) /\ store_ok s0 /\ wal s0 = None /\ view s0 = base;
  dd_log : file_of d (Join dataDir "wal.log") = log_of l;
  dd_storable : Forall storable l;
  dd_permanent : Forall permanent l
}.

(** Start-up on such a directory. *)
Lemma start_data_dir clock d dataDir base l :
  data_dir d dataDir base l ->
  exists s w, start startup_io_ok clock d dataDir
      = Some (Started (<[Join dataDir "wal.log" := log_of l]> d) (SetWAL s w)) /\
    store_ok s /\ view s = run_mutations (map record_mutation l) base /\
    wal_path w = Join dataDir "wal.log" /\ wal_closed w = false.
Proof.
  intros [(s0 & b & E & Hs0 & Hw0 & Hv0) Hlog Hst Hpm].
  unfold start. cbn [su_snap_open_ok su_snap_end startup_io_ok]. rewrite E.
  unfold NewWAL. cbn [negb su_wal_open_ok su_wal_stat_ok startup_io_ok]. rewrite Hlog.
  destruct (replay_permanent clock l s0 0 Hpm Hs0 Hw0) as (s' & t' & Eall & Hs' & Hw' & Hv').
  unfold WAL_Replay. cbn [su_replay startup_io_ok rio_seek_start_ok wal_closed negb orb replay_io_ok
    wal_path rio_end rio_seek_end_ok].
  assert (file_of (<[Join dataDir "wal.log" := log_of l]> d) (Join dataDir "wal.log") = log_of l)
    as -> by (unfold file_of; by rewrite lookup_insert_eq).
  fold (replay ReadHeaderFailed ReadPayloadFailed (replay_callback clock) AtEOF (log_of l) (s0, 0%nat)).
  rewrite replay_log, Eall by done.
  eexists _, _. split; [done|]. split; [done|]. split; [by rewrite Hv', Hv0|done].
Qed.

(** Loading reads one file and never attaches a log. *)
Lemma LoadSnapshot_ext b e d1 d2 s p :
  d1 !! p = d2 !! p -> LoadSnapshot b e d1 s p = LoadSnapshot b e d2 s p.
Proof. intros H. unfold LoadSnapshot. by rewrite H. Qed.

Lemma LoadSnapshot_wal b e d s p s' r :
  LoadSnapshot b e d s p = Some (s', r) -> wal s' = wal s.
Proof.
  unfold LoadSnapshot. destruct (d !! p) as [c|]; [|by intros [= <- _]].
  destruct (negb b); [by intros [= <- _]|].
  destruct (ReadFull 6 e c) as [[h rest]|]; [|by intros [= <- _]].
  destruct (negb (bool_decide _)); [by intros [= <- _]|].
  destruct (negb (_ =? _)); [by intros [= <- _]|].
  destruct (replay_loop _ _ _ _ _ _ _) as [[[s1 n] err]|] eqn:E; [|done].
  apply (replay_invariant _ _ _ (fun st : Store * Z => wal st.1 = wal s)) in E; [|clear..|done].
  - cbn in E. by destruct err; intros [= <- _].
  - intros lr [s1 n] _ H. cbn in H. unfold load_apply. repeat case_match; done.
Qed.

(** ** Serving and restarting *)

Definition permanent_entry (k : string) (e : Entry) : Prop :=
  storable (entry_record (k, e)) /\ ExpiresAt e = time_zero /\ 0 < Version e.

(** The state of a server all of whose writes were without expiry. *)
Record serving (dataDir : string) (ds : Disk * Store) : Prop := {
  sv_ok : store_ok ds.2;
  sv_wal : exists w, wal ds.2 = Some w /\ wal_path w = Join dataDir "wal.log" /\ wal_closed w = false;
  sv_dir : exists base l, data_dir ds.1 dataDir base l /\
      view ds.2 = run_mutations (map record_mutation l) base;
  sv_entries : map_Forall permanent_entry (view ds.2)
}.

Lemma map_Forall_mutate (P : string -> Entry -> Prop) op m :
  (forall k e, op = MSet k e -> P k e) -> map_Forall P m -> map_Forall P (mutate op m).
Proof.
  intros Hop Hm. destruct op as [k e|k v]; cbn.
  - unfold lww_set. assert (map_Forall P (<[k := e]> m)) by (apply map_Forall_insert_2; auto).
    repeat case_match; done.
  - unfold lww_delete. repeat case_match; try done. by apply map_Forall_delete.
Qed.

Lemma live_permanent now m : map_Forall permanent_entry m -> live now m = m.
Proof. intros Hm. apply live_forever. intros k e E. by destruct (Hm k e E) as (_ & ? & _). Qed.

Lemma storable_permanent m : map_Forall permanent_entry m -> storable_map m.
Proof. intros H k e E. by apply (H k e E). Qed.

(** A record appended to the log. *)
Lemma data_dir_append dataDir d base l lr path :
  data_dir d dataDir base l -> path = Join dataDir "wal.log" -> storable lr -> permanent lr ->
  data_dir (append_file d path (lr_bytes lr)) dataDir base (l ++ [lr]).
Proof.
  intros [(s0 & b & E & H0) Hlog Hsl Hpl] -> Hst Hpm.
  split; rewrite ?Forall_app, ?log_of_app; [|..|by rewrite Forall_singleton|by rewrite Forall_singleton].
  - exists s0, b. split; [|done]. rewrite <-E. apply LoadSnapshot_ext.
    unfold append_file. rewrite lookup_insert_ne; [done|].
    intros Hj. destruct file_names as (H1 & H2 & _). by apply Join_inj in Hj.
  - rewrite file_of_append, Hlog. cbn. by rewrite app_nil_r.
Qed.

(** A logged mutation keeps log and memory together. *)
Lemma serving_mutation dataDir d s w lr s' n :
  serving dataDir (d, s) -> wal s = Some w -> storable lr -> permanent lr ->
  store_ok s' -> wal s' = Some (mkWAL (wal_path w) n false) ->
  view s' = mutate (record_mutation lr) (view s) ->
  serving dataDir (append_file d (wal_path w) (lr_bytes lr), s').
Proof.
  intros [_ (w0 & Hw0 & Hp & Hc) (base & l & Hdir & Hv) Hent] Hw Hst Hpm Hs' Hw' Hv'. cbn in *.
  assert (w0 = w) as -> by congruence. split; cbn; [done | by eauto | |].
  - exists base, (l ++ [lr]). split.
    + by apply data_dir_append.
    + rewrite map_app, run_mutations_app, <-Hv. exact Hv'.
  - rewrite Hv'. apply map_Forall_mutate; [|done]. intros k e. unfold record_mutation.
    destruct Hpm as [_ Hver Hexp]. case_decide as Ht; [|done]. intros [= <- <-].
    split; [|split; [done|cbn; lia]]. destruct lr. cbn in *. by subst.
Qed.

(** A version [Set] or [Delete] picks is never 0. *)
Lemma pick_version_positive now s v :
  store_ok s -> is_u64 v -> lastVersion s < 2 ^ 64 - 1 -> 0 < (pick_version now s v).1 < 2 ^ 64.
Proof.
  intros Hs Hv Hl. destruct (pick_version_facts now s v Hs Hv) as (_ & [_ H] & _).
  split; [|done]. unfold pick_version in *. destruct (Z.eqb_spec v 0); [|unfold is_u64 in *; cbn; lia].
  destruct (NextVersion_fresh now s (so_last s Hs) Hl) as [? _].
  pose proof (so_last s Hs). unfold is_u64 in *. lia.
Qed.

(** With an open log and a working disk the mutation is appended. *)
Lemma log_mutation_ok d s w t k v ver e :
  wal s = Some w -> wal_closed w = false -> storable (mkLogRecord t k v ver e) ->
  exists n, log_mutation append_io_ok d s t k v ver e
    = (append_file d (wal_path w) (lr_bytes (mkLogRecord t k v ver e)),
       with_wal s (Some (mkWAL (wal_path w) n false)), None).
Proof.
  intros Hw Hc Hst. unfold log_mutation. rewrite Hw.
  pose proof (append_record_ok d w _ Hst Hc) as E. unfold append_record in E. cbn -[lr_bytes] in E.
  rewrite E. by eexists.
Qed.

(** Limits the record format sets on a write. *)
Definition writable (key : string) (value : list byte) : Prop :=
  Z.of_nat (length (bytes_of key)) <= 65535 /\
  19 + Z.of_nat (length (bytes_of key)) + Z.of_nat (length value) < 2 ^ 32.

(** One step of a server: a write without ttl, a deletion, a read, a run of the
    reaper, a snapshot, a restart, or a restart after a crash inside a
    snapshot. *)
Inductive serve_step `{MapRange} (dataDir : string) : Disk * Store -> Disk * Store -> Prop :=
  | serve_set d s n1 n2 key value ttl version :
      ttl <= 0 -> is_u64 version -> writable key value -> lastVersion s < 2 ^ 64 - 1 ->
      serve_step dataDir (d, s) (Store_Set n1 n2 append_io_ok d s key value ttl version).1
  | serve_delete d s n key version :
      is_u64 version -> writable key [] -> lastVersion s < 2 ^ 64 - 1 ->
      serve_step dataDir (d, s) (Store_Delete n append_io_ok d s key version).1
  | serve_get d s now now2 key : serve_step dataDir (d, s) (d, (Store_Get now now2 s key).2)
  | serve_reap d s now : serve_step dataDir (d, s) (d, reap now s)
  | serve_snapshot d s now : serve_step dataDir (d, s) (CreateSnapshot now true None d s).1
  | serve_restart d s clock d' s' :
      start startup_io_ok clock d dataDir = Some (Started d' s') -> serve_step dataDir (d, s) (d', s')
  | serve_crash d s w now fault clock d' s' :
      wal s = Some w ->
      start startup_io_ok clock
        (run_plan fault (snapshot_plan now s w) (<[tmp_path w := []]> d)).1 dataDir
      = Some (Started d' s') ->
      serve_step dataDir (d, s) (d', s').

Lemma serving_set dataDir d s n1 n2 key value ttl version :
  serving dataDir (d, s) -> ttl <= 0 -> is_u64 version -> writable key value ->
  lastVersion s < 2 ^ 64 - 1 ->
  serving dataDir (Store_Set n1 n2 append_io_ok d s key value ttl version).1.
Proof.
  intros Hsv Httl Hv [Hk Hsz] Hl. pose proof (sv_ok _ _ Hsv) as Hs. cbn in Hs.
  destruct (sv_wal _ _ Hsv) as (w & Hw & Hp & Hc). cbn in Hw.
  pose proof (pick_version_positive n2 s version Hs Hv Hl) as Hpos.
  destruct (pick_version_facts n2 s version Hs Hv) as (H1 & H2 & H3).
  assert (wal (pick_version n2 s version).2 = Some w) as Hw'
    by (unfold pick_version; by destruct (version =? 0)).
  unfold Store_Set. destruct (pick_version n2 s version) as [ver s1]. cbn [fst snd] in *.
  assert (expiry_of n1 ttl = time_zero) as ->
    by (unfold expiry_of; by destruct (Z.ltb_spec 0 ttl); [lia|]).
  set (lr := mkLogRecord RecordTypeSet key value ver time_zero).
  assert (storable lr) as Hst by (split; cbn; [done | done | by left | done]).
  destruct (log_mutation_ok d s1 w _ _ _ _ _ Hw' Hc Hst) as [n ->].
  set (s2 := with_wal s1 (Some (mkWAL (wal_path w) n false))).
  assert (store_ok s2) as Hs2 by (by apply with_wal_ok).
  destruct (Set_apply_view s2 key value ver time_zero Hs2) as [Hview _].
  pose proof (Set_apply_ok s2 key value ver time_zero Hs2 H2) as Hok.
  pose proof (Set_apply_wal s2 key value ver time_zero) as Hwal.
  destruct (Set_apply s2 key value ver time_zero) as [r s3]. cbn [fst snd] in *.
  apply (serving_mutation dataDir d s w lr s3 n); try done.
  - split; [by left | cbn; lia | done].
  - rewrite Hview. change (view s2) with (view s1). by rewrite H3.
Qed.

Lemma serving_delete dataDir d s n1 key version :
  serving dataDir (d, s) -> is_u64 version -> writable key [] -> lastVersion s < 2 ^ 64 - 1 ->
  serving dataDir (Store_Delete n1 append_io_ok d s key version).1.
Proof.
  intros Hsv Hv [Hk Hsz] Hl. pose proof (sv_ok _ _ Hsv) as Hs. cbn in Hs.
  destruct (sv_wal _ _ Hsv) as (w & Hw & Hp & Hc). cbn in Hw.
  pose proof (pick_version_positive n1 s version Hs Hv Hl) as Hpos.
  destruct (pick_version_facts n1 s version Hs Hv) as (H1 & H2 & H3).
  assert (wal (pick_version n1 s version).2 = Some w) as Hw'
    by (unfold pick_version; by destruct (version =? 0)).
  unfold Store_Delete. destruct (pick_version n1 s version) as [ver s1]. cbn [fst snd] in *.
  set (lr := mkLogRecord RecordTypeDelete key [] ver time_zero).
  assert (storable lr) as Hst by (split; cbn; [done | done | by left | done]).
  destruct (log_mutation_ok d s1 w _ _ _ _ _ Hw' Hc Hst) as [n ->].
  set (s2 := with_wal s1 (Some (mkWAL (wal_path w) n false))).
  assert (store_ok s2) as Hs2 by (by apply with_wal_ok).
  destruct (Delete_apply_view s2 key ver Hs2) as [Hview _].
  pose proof (Delete_apply_ok s2 key ver Hs2) as Hok.
  pose proof (Delete_apply_wal s2 key ver) as Hwal.
  destruct (Delete_apply s2 key ver) as [[r b] s3]. cbn [fst snd] in *.
  apply (serving_mutation dataDir d s w lr s3 n); try done.
  - split; [by right | cbn; lia | done].
  - rewrite Hview. change (view s2) with (view s1). by rewrite H3.
Qed.

(** A change that touches neither the map nor the log handle. *)
Lemma serving_same dataDir d s s' :
  serving dataDir (d, s) -> store_ok s' -> wal s' = wal s -> view s' = view s ->
  serving dataDir (d, s').
Proof.
  intros [_ Hw Hdir Hent] Hs' Hw' Hv'. split; cbn in *; rewrite ?Hw', ?Hv'; done.
Qed.

Section Restart.
Context {R : MapRange}.

(** Each of the three states an unfinished snapshot can leave restores the
    map: the old snapshot with the log, the new one with the log, and the new
    one with an empty log. *)
Lemma snapshot_states_data_dir dataDir d s w now d' :
  serving dataDir (d, s) -> wal s = Some w ->
  d' !! snap_path w = d !! snap_path w /\ d' !! WAL_Path w = d !! WAL_Path w \/
  d' !! snap_path w = Some (snapshot_bytes now s) /\ d' !! WAL_Path w = d !! WAL_Path w \/
  d' !! snap_path w = Some (snapshot_bytes now s) /\ d' !! WAL_Path w = Some [] ->
  exists base l, data_dir d' dataDir base l /\
    run_mutations (map record_mutation l) base = view s.
Proof.
  intros Hsv Hw Hst. destruct (sv_wal _ _ Hsv) as (w0 & Hw0 & Hp & _). cbn in Hw0.
  assert (w0 = w) as -> by congruence.
  destruct (data_dir_paths dataDir w Hp) as [Hsn _].
  unfold WAL_Path in Hst. rewrite Hsn, Hp in Hst.
  destruct (sv_dir _ _ Hsv) as (base & l & [(s0 & b & E & H0) Hlog Hsl Hpl] & Hv). cbn in *.
  pose proof (sv_ok _ _ Hsv) as Hs. cbn in Hs.
  assert (d' !! Join dataDir "snapshot.bin" = Some (snapshot_bytes now s) ->
    exists s0 b, LoadSnapshot true AtEOF d' (NewStore None) (Join dataDir "snapshot.bin")
      = Some (s0, (b, None)) /\ store_ok s0 /\ wal s0 = None /\ view s0 = view s) as Hnew.
  { intros Hb. destruct (LoadSnapshot_bytes now s d' _ Hs
      (storable_permanent _ (sv_entries _ _ Hsv)) Hb) as (s2 & E2 & Hs2 & Hv2 & _).
    exists s2, true. split; [done|]. split; [done|]. split.
    - apply LoadSnapshot_wal in E2. done.
    - rewrite Hv2. by apply live_permanent, (sv_entries _ _ Hsv). }
  destruct Hst as [[H1 H2]|[[H1 H2]|[H1 H2]]].
  - exists base, l. split; [|done]. split; [|..|done|done].
    + exists s0, b. split; [|done]. rewrite <-E. by apply LoadSnapshot_ext.
    + unfold file_of in *. by rewrite H2.
  - exists (view s), l. split.
    + split; [by apply Hnew | unfold file_of in *; by rewrite H2 | done | done].
    + rewrite Hv. apply run_mutations_idemp.
  - exists (view s), []. split; [|done].
    split; [by apply Hnew | unfold file_of; by rewrite H2 | constructor | constructor].
Qed.

(** The directory after a snapshot that was cut off anywhere. *)
Lemma crash_data_dir dataDir d s w now fault :
  serving dataDir (d, s) -> wal s = Some w ->
  let d' := (run_plan fault (snapshot_plan now s w) (<[tmp_path w := []]> d)).1 in
  exists base l, data_dir d' dataDir base l /\
    run_mutations (map record_mutation l) base = view s.
Proof.
  intros Hsv Hw d'. apply (snapshot_states_data_dir dataDir d s w now d' Hsv Hw).
  destruct (sv_wal _ _ Hsv) as (w0 & Hw0 & Hp & _). cbn in Hw0.
  assert (w0 = w) as -> by congruence.
  apply (run_plan_states now s w (data_dir_distinct dataDir w Hp) fault d).
Qed.

Lemma start_serving clock d dataDir base l :
  data_dir d dataDir base l ->
  map_Forall permanent_entry (run_mutations (map record_mutation l) base) ->
  exists d' s', start startup_io_ok clock d dataDir = Some (Started d' s') /\
    serving dataDir (d', s') /\ view s' = run_mutations (map record_mutation l) base.
Proof.
  intros Hdir Hent. destruct (start_data_dir clock d dataDir base l Hdir)
    as (s & w & E & Hs & Hv & Hp & Hc).
  eexists _, _. split; [exact E|]. split; [|exact Hv]. split; cbn.
  - by apply with_wal_ok.
  - by exists w.
  - exists base, l. split; [|exact Hv]. destruct Hdir as [(s0 & b & E0 & H0) Hlog Hsl Hpl].
    split; [|..|done|done].
    + exists s0, b. split; [|done]. rewrite <-E0. apply LoadSnapshot_ext.
      rewrite lookup_insert_ne; [done|]. destruct file_names as (? & ? & _).
      intros Hj. by apply Join_inj in Hj.
    + unfold file_of. by rewrite lookup_insert_eq.
  - change (map_Forall permanent_entry (view s)). by rewrite Hv.
Qed.

Lemma serving_restart dataDir d s clock d' :
  serving dataDir (d, s) ->
  (exists base l, data_dir d' dataDir base l /\ run_mutations (map record_mutation l) base = view s) ->
  exists d'' s'', start startup_io_ok clock d' dataDir = Some (Started d'' s'') /\
    serving dataDir (d'', s'') /\ view s'' = view s.
Proof.
  intros Hsv (base & l & Hdir & Hv).
  destruct (start_serving clock d' dataDir base l Hdir) as (d'' & s'' & E & Hsv' & Hv').
  { rewrite Hv. apply (sv_entries _ _ Hsv). }
  exists d'', s''. split; [done|]. split; [done|]. congruence.
Qed.

Lemma serve_step_serving dataDir ds ds' :
  serving dataDir ds -> serve_step dataDir ds ds' -> serving dataDir ds'.
Proof.
  intros Hsv Hst. destruct Hst as [d s n1 n2 k v ttl ver|d s n k ver|d s now now2 k|d s now|d s now
    |d s clock d' s' E|d s w now fault clock d' s' Hw E].
  - by apply serving_set.
  - by apply serving_delete.
  - pose proof (sv_ok _ _ Hsv) as Hs. apply (serving_same _ _ s); [done | by apply Store_Get_ok | |].
    + unfold Store_Get, Get_reap. repeat case_match; done.
    + destruct (Store_Get_view now now2 s k Hs) as [?|(e & He & Hx & _)]; [done|].
      destruct (sv_entries _ _ Hsv k e He) as (_ & Hz & _). unfold IsExpired in Hx. by rewrite Hz in Hx.
  - pose proof (sv_ok _ _ Hsv) as Hs. destruct (reap_facts now s Hs) as [H1 H2].
    apply (serving_same _ _ s); [done | done | apply reap_wal |].
    rewrite H2. by apply live_permanent, (sv_entries _ _ Hsv).
  - destruct (sv_wal _ _ Hsv) as (w & Hw & Hp & Hc). cbn in Hw.
    pose proof (sv_ok _ _ Hsv) as Hs. cbn in Hs.
    destruct (CreateSnapshot_ok now s w (data_dir_distinct dataDir w Hp) d Hw Hc)
      as (d' & -> & Hsn & Hlog & _ & _). cbn [fst].
    destruct (data_dir_paths dataDir w Hp) as [Hsp _]. rewrite Hsp in Hsn.
    unfold WAL_Path in Hlog. rewrite Hp in Hlog.
    destruct (LoadSnapshot_bytes now s d' _ Hs (storable_permanent _ (sv_entries _ _ Hsv)) Hsn)
      as (s2 & E2 & Hs2 & Hv2 & _).
    split; cbn.
    + by apply with_wal_ok.
    + by eexists.
    + exists (view s), []. split; [|done]. split; [|unfold file_of; by rewrite Hlog|constructor|constructor].
      exists s2, true. split; [done|]. split; [done|]. split.
      * apply LoadSnapshot_wal in E2. done.
      * rewrite Hv2. by apply live_permanent, (sv_entries _ _ Hsv).
    + apply (sv_entries _ _ Hsv).
  - destruct (sv_dir _ _ Hsv) as (base & l & Hdir & Hv).
    destruct (serving_restart dataDir d s clock d Hsv) as (d1 & s1 & E1 & Hsv1 & _); [by eauto|].
    rewrite E in E1. by inversion E1.
  - destruct (serving_restart dataDir d s clock _ Hsv (crash_data_dir dataDir d s w now fault Hsv Hw))
      as (d1 & s1 & E1 & Hsv1 & _).
    rewrite E in E1. by inversion E1.
Qed.
End Restart.

Lemma serve_steps_serving {R : MapRange} dataDir ds ds' :
  serving dataDir ds -> rtc (serve_step dataDir) ds ds' -> serving dataDir ds'.
Proof. intros Hsv Hst. induction Hst; [done|]. eauto using serve_step_serving. Qed.

(** The empty data directory. *)
Lemma empty_data_dir dataDir : data_dir ∅ dataDir ∅ [].
Proof.
  split; [|done|constructor|constructor]. exists (NewStore None), false.
  split; [done|]. split; [apply NewStore_ok|]. split; [done|apply NewStore_view].
Qed.

Lemma fresh_start_serving {R : MapRange} clock dataDir d0 s0 :
  start startup_io_ok clock ∅ dataDir = Some (Started d0 s0) -> serving dataDir (d0, s0).
Proof.
  intros E. destruct (start_serving clock ∅ dataDir ∅ [] (empty_data_dir dataDir))
    as (d1 & s1 & E1 & Hsv & _); [apply map_Forall_empty|].
  rewrite E in E1. by inversion E1.
Qed.

(** ** Properties *)

(** C3: durability.  Take a server started on an empty directory and any
    sequence of acknowledged writes without ttl, deletions, reads, reaper
    runs, snapshots, restarts, and crashes inside a snapshot followed by a
    restart.  Restarting it, or crashing it at any point of a snapshot and
    restarting it, succeeds and restores exactly the map it was serving. *)
Theorem restart_preserves_data `{MapRange} dataDir clock0 d0 s0 d s :
  start startup_io_ok clock0 ∅ dataDir = Some (Started d0 s0) ->
  rtc (serve_step dataDir) (d0, s0) (d, s) ->
  (forall clock, exists d' s', start startup_io_ok clock d dataDir = Some (Started d' s') /\
     store_ok s' /\ view s' = view s) /\
  (forall w now fault clock, wal s = Some w -> exists d' s',
     start startup_io_ok clock
       (run_plan fault (snapshot_plan now s w) (<[tmp_path w := []]> d)).1 dataDir
     = Some (Started d' s') /\ store_ok s' /\ view s' = view s).
Proof.
  intros E0 Hst.
  pose proof (serve_steps_serving _ _ _ (fresh_start_serving _ _ _ _ E0) Hst) as Hsv. split.
  - intros clock. destruct (sv_dir _ _ Hsv) as (base & l & Hdir & Hv).
    destruct (serving_restart dataDir d s clock d Hsv) as (d' & s' & E & Hsv' & Hv'); [by eauto|].
    exists d', s'. split; [done|]. split; [apply (sv_ok _ _ Hsv')|done].
  - intros w now fault clock Hw.
    destruct (serving_restart dataDir d s clock _ Hsv (crash_data_dir dataDir d s w now fault Hsv Hw))
      as (d' & s' & E & Hsv' & Hv').
    exists d', s'. split; [done|]. split; [apply (sv_ok _ _ Hsv')|done].
Qed.

(** A server freshly started in directory ["data"]. *)
Definition fresh_disk : Disk := {[ "data/wal.log" := [] ]}.
Definition fresh_store : Store := SetWAL (NewStore None) (mkWAL "data/wal.log" 0 false).

Lemma fresh_started clock : start startup_io_ok clock ∅ "data" = Some (Started fresh_disk fresh_store).
Proof. vm_compute. reflexivity. Qed.

Lemma restart_preserves_data_witness :
  let ds := (Store_Set 0 0 append_io_ok fresh_disk fresh_store "k" [x61] 0 7).1 in
  exists d' s', start startup_io_ok (fun _ => 9) ds.1 "data" = Some (Started d' s') /\
    store_ok s' /\ view s' = view ds.2.
Proof.
  refine (proj1 (restart_preserves_data "data" (fun _ => 9) fresh_disk fresh_store
    (Store_Set 0 0 append_io_ok fresh_disk fresh_store "k" [x61] 0 7).1.1
    (Store_Set 0 0 append_io_ok fresh_disk fresh_store "k" [x61] 0 7).1.2 _ _) (fun _ => 9)).
  - apply fresh_started.
  - apply rtc_once.
    apply (serve_set "data" fresh_disk fresh_store 0 0 "k" [x61] 0 7).
    + lia.
    + unfold is_u64; lia.
    + unfold writable; cbn; lia.
    + cbn; lia.
Defined.

(** A restart can bring back a value that had been overwritten and
    expired.  A key is written without ttl, overwritten with a ttl of one
    second, and read after that second as absent; the restart skips the
    expired record and serves the older value. *)
Theorem restart_resurrects_overwritten_value :
  let t0 := time_Unix (10 ^ 18) in
  let ds1 := (Store_Set t0 t0 append_io_ok fresh_disk fresh_store "k" (bytes_of "old") 0 0).1 in
  let ds2 := (Store_Set t0 (t0 + 1) append_io_ok ds1.1 ds1.2 "k" (bytes_of "new") Second 0).1 in
  let later := t0 + 2 * Second in
  (Store_Get later later ds2.2 "k").1 = ([], 0, false) /\
  match start startup_io_ok (fun _ => later) ds2.1 "data" with
  | Some (Started _ s') => (Store_Get later later s' "k").1.1.1 = bytes_of "old" /\
                           (Store_Get later later s' "k").1.2 = true
  | _ => False
  end.
Proof. vm_compute. auto. Qed.

(** Replaying the log does not restore the version counter: after a
    restart, a local write made while the clock reads less than the stored
    version is reported as successful, under the stored entry's version, and
    has no effect. *)
Theorem write_after_restart_can_be_lost :
  let t0 := time_Unix (10 ^ 18) in
  let ds1 := (Store_Set t0 t0 append_io_ok fresh_disk fresh_store "k" (bytes_of "first") 0 0).1 in
  match start startup_io_ok (fun _ => t0) ds1.1 "data" with
  | Some (Started d' s') =>
      let r := Store_Set (t0 - 5) (t0 - 5) append_io_ok d' s' "k" (bytes_of "second") 0 0 in
      lastVersion ds1.2 = 10 ^ 18 /\ lastVersion s' = 0 /\
      r.2 = (10 ^ 18, None) /\
      (Store_Get t0 t0 r.1.2 "k").1 = (bytes_of "first", 10 ^ 18, true)
  | _ => False
  end.
Proof. vm_compute. auto. Qed.
