(* ===== verification/PowerLoss.v ===== *)
(** * Power loss: what [Sync] is for

    The other files let a crash stop the process, which keeps what was written
    to the files.  Here the machine loses power: the contents of a file that
    were written and not yet synced may be anything afterwards, or the file
    may be gone.  The directory operations (create, rename, truncate) reach
    the medium in the order in which they were made, as on a journalling file
    system; an operation that had not reached it is a loss of power before
    that operation.  The plan of [CreateSnapshot] and the two file operations
    of [Append] are run on such a disk. *)

From S2P Require Import Prelude.
From S2P Require Import GoBase.
From S2P Require Import Hashes.
From S2P Require Import FilePath.
From S2P Require Import Lww.
From S2P Require Import Wal.
From S2P Require Import WalSpec.
From S2P Require Import Store.
From S2P Require Import StoreInv.
From S2P Require Import Snapshot.
From S2P Require Import SnapshotSpec.
From S2P Require Import Recovery.

(** ** A disk with a write cache *)

(** The files as the running process sees them, and those with contents that
    are only in the cache. *)
Record Cached := mkCached { cd_files : Disk; cd_unsynced : gset string }.

Definition cached_op (op : disk_op) (c : Cached) : option Cached :=
  let '(mkCached d u) := c in
  match op with
  | OpCreate p => Some (mkCached (<[p := []]> d) (u ∖ {[p]}))
  | OpWrite p b => Some (mkCached (append_file d p b) ({[p]} ∪ u))
  | OpSync p => Some (mkCached d (u ∖ {[p]}))
  | OpClose _ | OpSeek _ => Some c
  | OpRename p q =>
      Some (mkCached (<[q := file_of d p]> (delete p d))
        ((if decide (p ∈ u) then {[q]} else ∅) ∪ (u ∖ {[p; q]})))
  | OpTruncate p closed => if closed then None else Some (mkCached (<[p := []]> d) (u ∖ {[p]}))
  end.

(** An operation that fails: a write leaves some bytes in the cache. *)
Definition cached_fail (n : nat) (op : disk_op) (c : Cached) : Cached :=
  match op with
  | OpWrite p _ => mkCached (fail_op n op (cd_files c)) ({[p]} ∪ cd_unsynced c)
  | _ => c
  end.

Fixpoint cached_plan (fault : option (nat * nat)) (plan : list (disk_op * error)) (c : Cached)
  : Cached * option error :=
  match plan with
  | [] => (c, None)
  | (op, err) :: plan' =>
      match fault with
      | Some (O, n) => (cached_fail n op c, Some err)
      | _ =>
          match cached_op op c with
          | None => (c, Some err)
          | Some c' =>
              cached_plan (match fault with Some (S i, n) => Some (i, n) | f => f end) plan' c'
          end
      end
  end.

(** What a loss of power can leave: every file is as it was, except those with
    contents in the cache, of which nothing is known. *)
Definition after_power_loss (c : Cached) (d : Disk) : Prop :=
  forall p, p ∉ cd_unsynced c -> d !! p = cd_files c !! p.

(** The file operations of [Append]. *)
Definition append_plan (w : WAL) (lr : LogRecord) : list (disk_op * error) :=
  [(OpWrite (wal_path w) (lr_bytes lr), WriteWALFailed); (OpSync (wal_path w), SyncWALFailed)].

(** The operation of [append_plan] that fails when the log is written with the
    outcomes [io]. *)
Definition append_fault (io : append_io) : option (nat * nat) :=
  match aio_write io with
  | WriteFails n => Some (0, n)%nat
  | WriteOk => if aio_sync_ok io then None else Some (1, 0)%nat
  end.

(** ** The cache and the files *)

Lemma cached_op_files op c : cd_files <$> cached_op op c = run_op op (cd_files c).
Proof. by destruct c, op as [| | | | |? []|]. Qed.

Lemma cached_plan_files plan : forall fault c,
  cd_files (cached_plan fault plan c).1 = (run_plan fault plan (cd_files c)).1 /\
  (cached_plan fault plan c).2 = (run_plan fault plan (cd_files c)).2.
Proof.
  induction plan as [|[op err] plan IH]; intros fault c; [done|]. cbn [cached_plan run_plan].
  pose proof (cached_op_files op c) as Hop.
  destruct fault as [[[|i] n]|]; [by destruct c, op|..];
    (destruct (cached_op op c) as [c'|]; cbn in Hop; rewrite <-Hop; [apply IH | done]).
Qed.

Lemma cached_plan_app A : forall fault B c,
  cached_plan fault (A ++ B) c =
  match cached_plan fault A c with
  | (c', None) => cached_plan (shift_fault (length A) fault) B c'
  | (c', Some err) => (c', Some err)
  end.
Proof.
  induction A as [|[op err] A IH]; intros fault B c.
  - cbn. destruct fault as [[i n]|]; cbn; by rewrite ?Nat.sub_0_r.
  - cbn [app cached_plan length]. destruct fault as [[[|i] n]|]; [done|..];
      (destruct (cached_op op c); [apply IH | done]).
Qed.

(** Operations on one file leave at most that file unsynced. *)
Lemma cached_plan_touches p plan : forall fault c,
  Forall (fun oe => touches_only p oe.1) plan -> cd_unsynced c ⊆ {[p]} ->
  cd_unsynced (cached_plan fault plan c).1 ⊆ {[p]}.
Proof.
  induction plan as [|[op err] plan IH]; intros fault c Hp Hc; [done|].
  inversion Hp as [|? ? Hop Hp']; subst. cbn [fst] in Hop. destruct c as [d u]. cbn in Hc.
  assert (forall n, cd_unsynced (cached_fail n op (mkCached d u)) ⊆ {[p]}) as Hfail
    by (intros n; destruct op; cbn in *; subst; set_solver).
  assert (forall c', cached_op op (mkCached d u) = Some c' -> cd_unsynced c' ⊆ {[p]}) as Hrun
    by (intros c' E; destruct op; cbn in *; try done; simplify_eq; cbn; set_solver).
  cbn [cached_plan]. destruct fault as [[[|i] n]|]; [apply Hfail|..];
    (destruct (cached_op op (mkCached d u)) as [c'|]; [|done]; apply IH; [done|by apply Hrun]).
Qed.

(** A run that syncs the one file it touched leaves nothing in the cache. *)
Lemma cached_plan_synced p plan e1 e2 fault c c' :
  Forall (fun oe => touches_only p oe.1) plan -> cd_unsynced c ⊆ {[p]} ->
  cached_plan fault (plan ++ [(OpSync p, e1); (OpClose p, e2)]) c = (c', None) ->
  cd_unsynced c' = ∅.
Proof.
  intros Hp Hc E. rewrite cached_plan_app in E.
  pose proof (cached_plan_touches p plan fault c Hp Hc) as Hu.
  destruct (cached_plan fault plan c) as [[d u] [err|]]; [done|]. cbn in Hu, E.
  destruct (shift_fault _ fault) as [[[|[|i]] n]|]; simplify_eq; cbn; set_solver.
Qed.

Section Snapshot.
Context {R : MapRange} (now : Z) (s : Store) (w : WAL).

(** At every point of [CreateSnapshot] only the temporary file can have
    unsynced contents. *)
Lemma snapshot_plan_unsynced fault d :
  let r := cached_plan fault (snapshot_plan now s w) (mkCached (<[tmp_path w := []]> d) ∅) in
  cd_unsynced r.1 ⊆ {[tmp_path w]} /\ (r.2 = None -> cd_unsynced r.1 = ∅).
Proof.
  cbv zeta. rewrite snapshot_plan_phases, cached_plan_app.
  set (c0 := mkCached (<[tmp_path w := []]> d) ∅).
  pose proof (cached_plan_touches (tmp_path w) (write_phase now s w) fault c0
    (write_phase_touches now s w) ltac:(set_solver)) as Hu.
  destruct (cached_plan fault (write_phase now s w) c0) as [c1 [err|]] eqn:E; [done|].
  assert (cd_unsynced c1 = ∅) as H1.
  { unfold write_phase in E. rewrite app_assoc in E. revert E.
    apply cached_plan_synced; [|set_solver].
    pose proof (write_phase_touches now s w) as Ht. unfold write_phase in Ht.
    rewrite app_assoc in Ht. by apply Forall_app in Ht as [? _]. }
  destruct c1 as [d1 u1]. cbn in H1. subst u1. unfold commit_phase. cbn [cached_plan cached_op].
  rewrite decide_False by set_solver.
  destruct (shift_fault _ fault) as [[[|[|[|i]]] n]|]; cbn [cached_fail fst snd cd_unsynced];
    try destruct (wal_closed w); cbn; set_solver.
Qed.
End Snapshot.

(** ** Property *)

(** C32: power loss.  Take a server as in the durability theorem, all of whose
    files are on the medium.  (1) The file operations of [Append] are the
    write and the sync of the log, with every outcome of the two; when
    [Append] reports success nothing is left in the cache, so the
    acknowledged record is on the medium.  (2) Cut the power after any
    operation of [CreateSnapshot], also inside a write: whatever became of the
    data that was not synced, the restart succeeds and restores exactly the
    map the server was serving.  (3) A completed snapshot leaves nothing in
    the cache. *)
Theorem power_loss_preserves_data `{MapRange} dataDir clock0 d0 s0 d s w :
  start startup_io_ok clock0 ∅ dataDir = Some (Started d0 s0) ->
  rtc (serve_step dataDir) (d0, s0) (d, s) -> wal s = Some w ->
  (forall io lr, Z.of_nat (length (bytes_of (lr_key lr))) <= 65535 ->
     let c := cached_plan (append_fault io) (append_plan w lr) (mkCached d ∅) in
     let r := append_record io d w lr in
     cd_files c.1 = r.1.1 /\ c.2 = r.2 /\ (r.2 = None -> cd_unsynced c.1 = ∅)) /\
  (forall now fault d' clock,
     after_power_loss
       (cached_plan fault (snapshot_plan now s w) (mkCached (<[tmp_path w := []]> d) ∅)).1 d' ->
     exists d'' s'', start startup_io_ok clock d' dataDir = Some (Started d'' s'') /\
       store_ok s'' /\ view s'' = view s) /\
  (forall now,
     let r := cached_plan None (snapshot_plan now s w) (mkCached (<[tmp_path w := []]> d) ∅) in
     r.2 = None /\ cd_unsynced r.1 = ∅).
Proof.
  intros E0 Hst Hw.
  pose proof (serve_steps_serving _ _ _ (fresh_start_serving _ _ _ _ E0) Hst) as Hsv.
  destruct (sv_wal _ _ Hsv) as (w0 & Hw0 & Hp & Hc). cbn in Hw0.
  assert (w0 = w) as -> by congruence. split; [|split].
  - intros io lr Hk. cbv zeta. unfold append_record, WAL_Append.
    destruct (Z.ltb_spec 65535 (Z.of_nat (length (bytes_of (lr_key lr))))); [lia|]. rewrite Hc.
    unfold append_fault. destruct (aio_write io); [destruct (aio_sync_ok io)|]; cbn;
      split_and!; try done. intros _. set_solver.
  - intros now fault d' clock Hd'.
    destruct (snapshot_plan_unsynced now s w fault d) as [Hu _].
    pose proof (data_dir_distinct dataDir w Hp) as Hdd. pose proof Hdd as [H1 H2 _].
    destruct (run_plan_states now s w Hdd fault d) as [Hstates _].
    pose proof (cached_plan_files (snapshot_plan now s w) fault
      (mkCached (<[tmp_path w := []]> d) ∅)) as [Hf _]. cbn [cd_files] in Hf.
    rewrite <-Hf in Hstates. unfold after_power_loss in Hd'.
    rewrite <-!Hd' in Hstates by set_solver.
    destruct (serving_restart dataDir d s clock d' Hsv
      (snapshot_states_data_dir dataDir d s w now d' Hsv Hw Hstates)) as (d'' & s'' & E & Hsv' & Hv).
    exists d'', s''. split; [done|]. split; [apply (sv_ok _ _ Hsv')|done].
  - intros now. cbv zeta.
    destruct (snapshot_plan_unsynced now s w None d) as [_ Hu].
    enough ((cached_plan None (snapshot_plan now s w) (mkCached (<[tmp_path w := []]> d) ∅)).2 = None)
      as Hn by auto.
    rewrite (proj2 (cached_plan_files _ _ _)). cbn [cd_files].
    destruct (CreateSnapshot_ok now s w (data_dir_distinct dataDir w Hp) d Hw Hc) as (d' & E & _).
    unfold CreateSnapshot in E. rewrite Hw in E. cbn [negb] in E.
    by destruct (run_plan None (snapshot_plan now s w) _) as [d1 [err|]].
Qed.

(** The power goes out after the rename, before the log is truncated. *)
Lemma power_loss_preserves_data_witness :
  let ds := (Store_Set 0 0 append_io_ok fresh_disk fresh_store "k" [x61] 0 7).1 in
  let w := mkWAL "data/wal.log" 29 false in
  let c := (cached_plan (Some (5%nat, 0%nat)) (@snapshot_plan range_in_order 9 ds.2 w)
              (mkCached (<[tmp_path w := []]> ds.1) ∅)).1 in
  cd_files c !! "data/snapshot.bin" <> None /\ file_of (cd_files c) "data/wal.log" <> [] /\
  exists d' s', start startup_io_ok (fun _ => 9) (cd_files c) "data" = Some (Started d' s') /\
    store_ok s' /\ view s' = view ds.2.
Proof.
  split; [by vm_compute|]. split; [by vm_compute|].
  refine (proj1 (proj2 (@power_loss_preserves_data range_in_order "data" (fun _ => 9) fresh_disk
    fresh_store (Store_Set 0 0 append_io_ok fresh_disk fresh_store "k" [x61] 0 7).1.1
    (Store_Set 0 0 append_io_ok fresh_disk fresh_store "k" [x61] 0 7).1.2
    (mkWAL "data/wal.log" 29 false) _ _ _)) 9 (Some (5%nat, 0%nat)) _ (fun _ => 9) _).
  - apply fresh_started.
  - apply rtc_once.
    apply (@serve_set range_in_order "data" fresh_disk fresh_store 0 0 "k" [x61] 0 7).
    + lia.
    + unfold is_u64; lia.
    + unfold writable; cbn; lia.
    + cbn; lia.
  - by vm_compute.
  - by intros p _.
Defined.
