(* ===== verification/Locks.v ===== *)
(** * The locks of the store

    The locks each operation of the store takes and releases, in program
    order, run by any number of goroutines: the calls of clients and of the
    background loops, and those of start-up and shutdown.  [CreateSnapshot]
    holds all locks but one at a time; its comment says that the order (the
    log first, then the shards by index) prevents deadlocks, which is what is
    shown here for the whole store. *)

From S2P Require Import Prelude.
From S2P Require Import GoBase.
From S2P Require Import Hashes.
From S2P Require Import Store.
From S2P Require Import StoreInv.

(** ** Programs *)

(** [versionMu], [wal.mu] and the [mu] of each shard. *)
Inductive lock := VersionMu | WalMu | ShardMu (i : nat).

#[global] Instance lock_eq_dec : EqDecision lock.
Proof. solve_decision. Defined.

(** [Lock], [RLock], and [Unlock] or [RUnlock]. *)
Inductive lock_action := Acquire (l : lock) | RAcquire (l : lock) | Release (l : lock).

(** The operations, with the outcome of the branches that decide which locks
    are taken. *)
Inductive lock_call :=
  | LGet (key : string) (expired : bool)
  | LSet (key : string) (new_version has_wal append_ok : bool)
  | LDelete (key : string) (new_version has_wal append_ok : bool)
  | LScan
  | LReap
  | LSnapshot
  | LWalSize
  | LClose (has_wal : bool)
  | LLoadSnapshot (keys : list string)                (* the keys of its SET records *)
  | LReplay (records : list (string * bool)).         (* key, and whether the version is 0 *)

Definition shard_of (key : string) : lock := ShardMu (shard_index key).
Definition all_shards : list lock := map ShardMu (seq 0 (Z.to_nat ShardCount)).
Definition critical (l : lock) : list lock_action := [Acquire l; Release l].
Definition read_critical (l : lock) : list lock_action := [RAcquire l; Release l].
Definition when (b : bool) (p : list lock_action) : list lock_action := if b then p else [].

(** The lock operations of a call in program order; the deferred unlocks of
    [CreateSnapshot] run in reverse order.  [Replay] holds the log's lock while
    its callback calls [Set] or [Delete] of a store the log is not yet attached
    to ([main] calls [SetWAL] afterwards), so the calls inside do not take the
    log's lock again. *)
Definition lock_program (c : lock_call) : list lock_action :=
  match c with
  | LGet key expired => read_critical (shard_of key) ++ when expired (critical (shard_of key))
  | LSet key new_version has_wal append_ok | LDelete key new_version has_wal append_ok =>
      when new_version (critical VersionMu) ++ when has_wal (critical WalMu)
      ++ when append_ok (critical (shard_of key))
  | LScan => concat (map read_critical all_shards)
  | LReap => concat (map critical all_shards)
  | LSnapshot =>
      [Acquire WalMu] ++ map Acquire all_shards ++ map Release (rev all_shards) ++ [Release WalMu]
  | LWalSize => critical WalMu
  | LClose has_wal => when has_wal (critical WalMu)
  | LLoadSnapshot keys => concat (map (fun key => critical (shard_of key)) keys)
  | LReplay records =>
      [Acquire WalMu]
      ++ concat (map (fun '(key, new_version) =>
           when new_version (critical VersionMu) ++ critical (shard_of key)) records)
      ++ [Release WalMu]
  end.

(** ** Goroutines *)

(** A goroutine: the locks it holds (with [true] for write mode) and the rest
    of its program. *)
Record goroutine := mkGoroutine { held : list (lock * bool); rest : list lock_action }.

Definition holds (g : goroutine) (l : lock) : Prop := l ∈ (held g).*1.
Definition holds_write (g : goroutine) (l : lock) : Prop := (l, true) ∈ held g.
Definition wants_write (g : goroutine) (l : lock) : Prop :=
  match rest g with Acquire l' :: _ => l' = l | _ => False end.

#[global] Instance holds_dec g l : Decision (holds g l).
Proof. unfold holds. apply _. Defined.
#[global] Instance wants_write_dec g l : Decision (wants_write g l).
Proof. unfold wants_write. destruct (rest g) as [|[] ?]; apply _. Defined.

Fixpoint drop_lock (l : lock) (h : list (lock * bool)) : list (lock * bool) :=
  match h with
  | [] => []
  | (l', m) :: h' => if decide (l' = l) then h' else (l', m) :: drop_lock l h'
  end.

(** The next action of goroutine [i].  A write lock needs that nobody holds the
    lock, a read lock that nobody holds it in write mode; [sync.RWMutex] also
    delays readers behind a waiting writer, which [strict] demands. *)
Inductive lock_step (strict : bool) : list goroutine -> list goroutine -> Prop :=
  | step_acquire gs i h r l :
      gs !! i = Some (mkGoroutine h (Acquire l :: r)) ->
      Forall (fun g => ~ holds g l) gs ->
      lock_step strict gs (<[i := mkGoroutine ((l, true) :: h) r]> gs)
  | step_racquire gs i h r l :
      gs !! i = Some (mkGoroutine h (RAcquire l :: r)) ->
      Forall (fun g => ~ holds_write g l) gs ->
      (strict = true -> Forall (fun g => ~ wants_write g l) gs) ->
      lock_step strict gs (<[i := mkGoroutine ((l, false) :: h) r]> gs)
  | step_release gs i h r l :
      gs !! i = Some (mkGoroutine h (Release l :: r)) ->
      lock_step strict gs (<[i := mkGoroutine (drop_lock l h) r]> gs).

Definition launch (calls : list lock_call) : list goroutine :=
  map (fun c => mkGoroutine [] (lock_program c)) calls.

Definition finished (g : goroutine) : Prop := rest g = [] /\ held g = [].

(** Lock operations still to be done. *)
Definition remaining (gs : list goroutine) : nat :=
  foldr (fun g n => length (rest g) + n)%nat 0%nat gs.

(** ** The lock order *)

Definition rank (l : lock) : nat :=
  match l with WalMu => 0 | VersionMu => 1 | ShardMu i => S (S i) end.

Definition max_rank : nat := S (Z.to_nat ShardCount).

(** Locks are taken in the order of their ranks, released by their holder, and
    all released at the end. *)
Fixpoint ordered (h : list lock) (p : list lock_action) : bool :=
  match p with
  | [] => match h with [] => true | _ => false end
  | Acquire l :: p' | RAcquire l :: p' =>
      (rank l <=? max_rank)%nat && forallb (fun l' => rank l' <? rank l)%nat h && ordered (l :: h) p'
  | Release l :: p' =>
      bool_decide (l ∈ h) && ordered (fst <$> drop_lock l ((fun l' => (l', true)) <$> h)) p'
  end.

Definition well_ordered (g : goroutine) : Prop := ordered (held g).*1 (rest g) = true.

Lemma drop_lock_fst l h : (drop_lock l h).*1 = (drop_lock l ((fun l' => (l', true)) <$> h.*1)).*1.
Proof. induction h as [|[l' m] h IH]; [done|]. cbn. case_decide; cbn; [|by f_equal].
  clear. induction h as [|[? ?] h IH]; [done|]. cbn. by f_equal. Qed.

(** A critical section of a lock above those held. *)
Lemma ordered_critical h l p :
  (rank l <= max_rank)%nat -> forallb (fun l' => rank l' <? rank l)%nat h = true ->
  ordered h (critical l ++ p) = ordered h p /\ ordered h (read_critical l ++ p) = ordered h p.
Proof.
  intros Hr%Nat.leb_le Hh. unfold critical, read_critical. cbn [app ordered].
  rewrite Hr, Hh, (bool_decide_eq_true_2 (l ∈ l :: h)) by constructor.
  cbn [fmap list_fmap drop_lock]. rewrite decide_True by done. cbn [andb].
  rewrite <-list_fmap_compose. by rewrite list_fmap_id.
Qed.

Lemma ordered_when b h l p :
  (rank l <= max_rank)%nat -> forallb (fun l' => rank l' <? rank l)%nat h = true ->
  ordered h (when b (critical l) ++ p) = ordered h p.
Proof. intros Hr Hh. destruct b; [by apply ordered_critical | done]. Qed.

Lemma ordered_loop {A} (f : A -> list lock_action) h xs p :
  (forall x q, ordered h (f x ++ q) = ordered h q) ->
  ordered h (concat (map f xs) ++ p) = ordered h p.
Proof. intros Hf. induction xs as [|x xs IH]; [done|]. cbn [map concat]. by rewrite <-app_assoc, Hf. Qed.

Lemma shard_of_rank k : (rank (shard_of k) <= max_rank)%nat.
Proof. pose proof (shard_index_lt k). cbn [rank shard_of]. unfold max_rank. lia. Qed.

Lemma lock_program_ordered c : ordered [] (lock_program c) = true.
Proof.
  pose proof shard_of_rank as Hk.
  assert (rank VersionMu <= max_rank /\ rank WalMu <= max_rank)%nat as [Hv Hw]
    by (cbn; unfold max_rank; lia).
  destruct c as [k b|k b1 b2 b3|k b1 b2 b3| | | | |b|ks|rs]; cbn [lock_program];
    [| | | by vm_compute .. | | |].
  - rewrite (proj2 (ordered_critical [] _ _ (Hk k) eq_refl)), <-(app_nil_r (when _ _)).
    by rewrite ordered_when.
  - rewrite !ordered_when, <-(app_nil_r (when _ _)) by done. by rewrite ordered_when.
  - rewrite !ordered_when, <-(app_nil_r (when _ _)) by done. by rewrite ordered_when.
  - rewrite <-(app_nil_r (when _ _)). by rewrite ordered_when.
  - rewrite <-(app_nil_r (concat _)), ordered_loop; [done|]. intros k q.
    by apply (ordered_critical [] _ q (Hk k)).
  - cbn -[rank max_rank]. rewrite ordered_loop; [by vm_compute|]. intros [k b] q.
    rewrite <-app_assoc, ordered_when by done. by apply (ordered_critical [WalMu] _ q (Hk k)).
Qed.

(** ** Progress *)

Lemma launch_ordered calls : Forall well_ordered (launch calls).
Proof. apply Forall_map, Forall_true. intros c. apply lock_program_ordered. Qed.

Lemma lock_step_ordered strict gs gs' :
  lock_step strict gs gs' -> Forall well_ordered gs -> Forall well_ordered gs'.
Proof.
  intros Hst Hgs. destruct Hst as [gs i h r l Hi _|gs i h r l Hi _ _|gs i h r l Hi];
    pose proof (Forall_lookup_1 _ _ _ _ Hgs Hi) as Hg; unfold well_ordered in Hg; cbn in Hg;
    apply andb_prop in Hg as [_ Hg]; apply Forall_insert; try done.
  unfold well_ordered. cbn. by rewrite drop_lock_fst.
Qed.

(** What a goroutine that holds a lock does next. *)
Lemma holder_next g l :
  well_ordered g -> holds g l ->
  match rest g with
  | [] => False
  | Release l' :: _ => holds g l'
  | Acquire l' :: _ | RAcquire l' :: _ => (rank l < rank l' <= max_rank)%nat
  end.
Proof.
  unfold well_ordered, holds. destruct g as [h r]. cbn. intros Ho Hl.
  destruct r as [|[l'|l'|l'] r]; cbn in Ho.
  - destruct h; [by apply not_elem_of_nil in Hl | done].
  - apply andb_prop in Ho as [[H1 H2]%andb_prop _]. apply Nat.leb_le in H1. split; [|done].
    apply Nat.ltb_lt. rewrite forallb_forall in H2. by apply H2, list_elem_of_In.
  - apply andb_prop in Ho as [[H1 H2]%andb_prop _]. apply Nat.leb_le in H1. split; [|done].
    apply Nat.ltb_lt. rewrite forallb_forall in H2. by apply H2, list_elem_of_In.
  - apply andb_prop in Ho as [H1 _]. by apply bool_decide_eq_true_1 in H1.
Qed.

(** How far a waiting goroutine is from the end of the waiting chain: along a
    chain the rank of the awaited lock grows, and at one lock readers wait for
    writers. *)
Definition urgency (g : goroutine) : nat :=
  match rest g with
  | Acquire l :: _ => S (2 * rank l)
  | RAcquire l :: _ => 2 * rank l
  | _ => 2 * max_rank + 2
  end.

Lemma not_Forall_lookup {A} (P : A -> Prop) `{!forall x, Decision (P x)} l :
  ~ Forall (fun x => ~ P x) l -> exists i x, l !! i = Some x /\ P x.
Proof.
  intros Hn. apply not_Forall_Exists in Hn as Hex; [|apply _]. apply Exists_exists in Hex as (x & Hin & HP).
  apply list_elem_of_lookup in Hin as [i Hi]. exists i, x. split; [done|]. by apply dec_stable.
Qed.

Section Progress.
Context (gs : list goroutine) (Hgs : Forall well_ordered gs).

(** A goroutine that holds a lock can move, or waits for a lock of higher rank. *)
Lemma holder_moves j g l :
  gs !! j = Some g -> holds g l ->
  (exists gs', lock_step true gs gs') \/
  rest g <> [] /\ (2 * rank l + 1 < urgency g <= 2 * max_rank + 2)%nat.
Proof using Hgs.
  intros Hj Hl. pose proof (holder_next g l (Forall_lookup_1 _ _ _ _ Hgs Hj) Hl) as Hn.
  destruct g as [h r]. unfold urgency. cbn [rest] in *.
  destruct r as [|[l'|l'|l'] r]; [done | right; split; [done|lia].. |].
  left. eexists. by eapply step_release.
Qed.

(** A waiting goroutine can move, or another one can, or it waits for a more
    urgent one. *)
Lemma wait_chain i g :
  gs !! i = Some g -> rest g <> [] ->
  (exists gs', lock_step true gs gs') \/
  exists j g', gs !! j = Some g' /\ rest g' <> [] /\ (urgency g < urgency g' <= 2 * max_rank + 2)%nat.
Proof using Hgs.
  intros Hi Hr. destruct g as [h r]. cbn in Hr. destruct r as [|[l|l|l] r]; [done|..].
  - destruct (decide (Forall (fun g => ~ holds g l) gs)) as [Hfree|Hheld].
    { left. eexists. by eapply step_acquire. }
    apply not_Forall_lookup in Hheld as (j & g & Hj & Hl); [|apply _].
    destruct (holder_moves j g l Hj Hl) as [?|[? ?]]; [by left|].
    right. exists j, g. split; [done|]. split; [done|]. unfold urgency at 1. cbn [rest]. lia.
  - destruct (decide (Forall (fun g => ~ holds g l) gs)) as [Hfree|Hheld].
    2: { apply not_Forall_lookup in Hheld as (j & g & Hj & Hl); [|apply _].
      destruct (holder_moves j g l Hj Hl) as [?|[? ?]]; [by left|].
      right. exists j, g. split; [done|]. split; [done|]. unfold urgency at 1. cbn [rest]. lia. }
    destruct (decide (Forall (fun g => ~ wants_write g l) gs)) as [Hnw|Hw].
    + left. eexists. eapply step_racquire; [done| |done].
      eapply Forall_impl; [exact Hfree|]. intros g Hg Hwr. apply Hg. unfold holds.
      apply list_elem_of_fmap. by exists (l, true).
    + apply not_Forall_lookup in Hw as (j & g & Hj & Hl); [|apply _].
      right. exists j, g. split; [done|]. pose proof (Forall_lookup_1 _ _ _ _ Hgs Hj) as Ho.
      unfold wants_write in Hl. unfold urgency. unfold well_ordered in Ho. cbn [rest].
      destruct (rest g) as [|[l'|l'|l'] r']; try done. subst l'. split; [done|].
      cbn [ordered] in Ho. apply andb_prop in Ho as [[H1%Nat.leb_le _]%andb_prop _]. lia.
  - left. eexists. by eapply step_release.
Qed.

Lemma some_goroutine_moves n : forall i g,
  (2 * max_rank + 2 - urgency g <= n)%nat -> gs !! i = Some g -> rest g <> [] ->
  exists gs', lock_step true gs gs'.
Proof using Hgs.
  induction n as [|n IH]; intros i g Hn Hi Hr;
    destruct (wait_chain i g Hi Hr) as [?|(j & g' & Hj & Hr' & Hu)]; [done | lia | done |].
  apply (IH j g'); [lia | done | done].
Qed.
End Progress.

Lemma remaining_insert gs i g g' :
  gs !! i = Some g -> length (rest g) = S (length (rest g')) ->
  remaining gs = S (remaining (<[i := g']> gs)).
Proof.
  revert i. induction gs as [|g0 gs IH]; intros [|i] Hi Hl; [done | done | |].
  - injection Hi as ->. cbn. lia.
  - specialize (IH i Hi Hl). change (<[S i := g']> (g0 :: gs)) with (g0 :: <[i := g']> gs).
    change (remaining (g0 :: gs)) with (length (rest g0) + remaining gs)%nat.
    change (remaining (g0 :: ?l)) with (length (rest g0) + remaining l)%nat. lia.
Qed.

Lemma lock_step_remaining strict gs gs' : lock_step strict gs gs' -> remaining gs = S (remaining gs').
Proof. intros Hst. destruct Hst; by eapply remaining_insert. Qed.

Lemma nsteps_remaining strict n gs gs' :
  nsteps (lock_step strict) n gs gs' -> remaining gs = (n + remaining gs')%nat.
Proof.
  induction 1 as [|n x y z Hxy _ IH]; [done|]. apply lock_step_remaining in Hxy. lia.
Qed.

Lemma nsteps_ordered strict n gs gs' :
  nsteps (lock_step strict) n gs gs' -> Forall well_ordered gs -> Forall well_ordered gs'.
Proof. induction 1; [done|]. eauto using lock_step_ordered. Qed.

(** ** Properties *)

(** C19: the store's locking cannot deadlock or unlock a lock it does not
    hold, and every call gets through.  Run the lock operations of any number
    of concurrent calls, snapshots included, in any order the mutexes allow.
    After [n] operations exactly [n] fewer remain, so every run is finite; as
    long as some call is unfinished, some goroutine can move even with readers
    delayed behind waiting writers; and an unlock is always by a holder. *)
Theorem locks_deadlock_free calls n gs :
  nsteps (lock_step false) n (launch calls) gs ->
  remaining (launch calls) = (n + remaining gs)%nat /\
  (Forall finished gs \/ exists gs', lock_step true gs gs') /\
  (forall i h l r, gs !! i = Some (mkGoroutine h (Release l :: r)) -> l ∈ h.*1).
Proof.
  intros Hst. pose proof (nsteps_ordered _ _ _ _ Hst (launch_ordered calls)) as Ho.
  split; [by eapply nsteps_remaining|]. split.
  - destruct (decide (Forall (fun g => rest g = []) gs)) as [Hdone|Hn].
    + left. rewrite Forall_forall in Ho, Hdone |- *. intros g Hg. split; [by apply Hdone|].
      specialize (Ho g Hg). unfold well_ordered in Ho. rewrite (Hdone g Hg) in Ho. cbn in Ho.
      by destruct (held g).
    + right. apply not_Forall_Exists in Hn; [|apply _].
      apply Exists_exists in Hn as (g & Hin & Hr). apply list_elem_of_lookup in Hin as [i Hi].
      by eapply (some_goroutine_moves gs Ho _ i g).
  - intros i h l r Hi. pose proof (Forall_lookup_1 _ _ _ _ Ho Hi) as Hg.
    unfold well_ordered in Hg. cbn in Hg. apply andb_prop in Hg as [Hg _].
    by apply bool_decide_eq_true_1 in Hg.
Qed.

(** A write and a snapshot; the write holds the log's lock. *)
Lemma locks_deadlock_free_witness :
  let gs := [mkGoroutine [(WalMu, true)] (Release WalMu :: critical (shard_of "k"));
             mkGoroutine [] (lock_program LSnapshot)] in
  Forall finished gs \/ exists gs', lock_step true gs gs'.
Proof.
  refine (proj1 (proj2 (locks_deadlock_free [LSet "k" false true true; LSnapshot] 1 _ _))).
  eapply nsteps_l; [|apply nsteps_O].
  apply (step_acquire false (launch [LSet "k" false true true; LSnapshot]) 0 []
    (Release WalMu :: critical (shard_of "k")) WalMu); [done|].
  repeat constructor; apply not_elem_of_nil.
Defined.
