(* ===== verification/Concurrency.v ===== *)
(** * Interleavings of the store's critical sections

    Every public operation of the store as a task that performs one critical
    section (or one local computation) per step, and the steps of a pool of
    such tasks in any order.  The sections are the definitions of [Store.v]
    and [Snapshot.v]: what happens between a lock and its unlock is one step,
    what happens between an unlock and the next lock is where other tasks may
    run. *)

From S2P Require Import Prelude.
From S2P Require Import GoBase.
From S2P Require Import Hashes.
From S2P Require Import QuickSort.
From S2P Require Import FilePath.
From S2P Require Import Lww.
From S2P Require Import Wal.
From S2P Require Import WalSpec.
From S2P Require Import Store.
From S2P Require Import StoreInv.
From S2P Require Import StoreSpec.
From S2P Require Import Snapshot.
From S2P Require Import SnapshotSpec.
From S2P Require Import Recovery.

(** ** Tasks *)

(** The result a finished call returned. *)
Inductive outcome :=
  | RGet (value : list byte) (version : Z) (found : bool)
  | RSet (version : Z) (err : option error)
  | RDelete (version : Z) (deleted : bool) (err : option error)
  | RScan (page : option (list string * string))
  | RReap
  | RSnapshot (err : option error).

(** A call by the section it performs next. *)
Inductive task :=
  | TGet (key : string)                                            (* RLock, read, RUnlock *)
  | TGetReap (key : string)                                        (* lazy reap under Lock *)
  | TSet (key : string) (value : list byte) (ttl version : Z)      (* compute the expiry *)
  | TSetVersion (key : string) (value : list byte) (expiresAt version : Z)
  | TSetAppend (key : string) (value : list byte) (expiresAt version : Z)
  | TSetApply (key : string) (value : list byte) (expiresAt version : Z)
  | TDelete (key : string) (version : Z)
  | TDeleteAppend (key : string) (version : Z)
  | TDeleteApply (key : string) (version : Z)
  | TScan (prefix : string) (limit : Z) (cursor : string)          (* read the clock *)
  | TScanShard (now : Z) (prefix : string) (limit : Z) (cursor : string)
      (i : nat) (acc : list string)
  | TReap                                                          (* read the clock *)
  | TReapShard (now : Z) (i : nat)
  | TSnapshot
  | TDone (r : outcome).

(** What the environment decides in one step. *)
Record choice := mkChoice {
  ch_now : Z;
  ch_io : append_io;
  ch_open_ok : bool;
  ch_fault : option (nat * nat);
  ch_range : MapRange
}.

(** One section of a call. *)
Definition task_step (c : choice) (t : task) (d : Disk) (s : Store) : Disk * Store * task :=
  match t with
  | TGet key =>
      match Get_read s key with
      | None => (d, s, TDone (RGet [] 0 false))
      | Some entry =>
          if IsExpired (ch_now c) entry then (d, s, TGetReap key)
          else (d, s, TDone (RGet (Value entry) (Version entry) true))
      end
  | TGetReap key => (d, Get_reap (ch_now c) s key, TDone (RGet [] 0 false))
  | TSet key value ttl version =>
      (d, s, TSetVersion key value (expiry_of (ch_now c) ttl) version)
  | TSetVersion key value expiresAt version =>
      let '(version, s) := pick_version (ch_now c) s version in
      (d, s, TSetAppend key value expiresAt version)
  | TSetAppend key value expiresAt version =>
      match log_mutation (ch_io c) d s RecordTypeSet key value version expiresAt with
      | (d, s, Some err) => (d, s, TDone (RSet 0 (Some err)))
      | (d, s, None) => (d, s, TSetApply key value expiresAt version)
      end
  | TSetApply key value expiresAt version =>
      let '(v, s) := Set_apply s key value version expiresAt in (d, s, TDone (RSet v None))
  | TDelete key version =>
      let '(version, s) := pick_version (ch_now c) s version in
      (d, s, TDeleteAppend key version)
  | TDeleteAppend key version =>
      match log_mutation (ch_io c) d s RecordTypeDelete key [] version time_zero with
      | (d, s, Some err) => (d, s, TDone (RDelete 0 false (Some err)))
      | (d, s, None) => (d, s, TDeleteApply key version)
      end
  | TDeleteApply key version =>
      let '(v, deleted, s) := Delete_apply s key version in (d, s, TDone (RDelete v deleted None))
  | TScan prefix limit cursor => (d, s, TScanShard (ch_now c) prefix limit cursor 0 [])
  | TScanShard now prefix limit cursor i acc =>
      match shards s !! i with
      | Some db =>
          (d, s, TScanShard now prefix limit cursor (S i)
                   (acc ++ @scan_shard (ch_range c) now prefix db))
      | None => (d, s, TDone (RScan (allKeys ← sortStrings acc; scan_page limit cursor allKeys)))
      end
  | TReap => (d, s, TReapShard (ch_now c) 0)
  | TReapShard now i =>
      if (i <? Z.to_nat ShardCount)%nat
      then (d, @reap_shard (ch_range c) now i s, TReapShard now (S i))
      else (d, s, TDone RReap)
  | TSnapshot =>
      let '(d, s, err) := @CreateSnapshot (ch_range c) (ch_now c) (ch_open_ok c) (ch_fault c) d s in
      (d, s, TDone (RSnapshot err))
  | TDone r => (d, s, TDone r)
  end.

(** The calls a client can start. *)
Definition starts (t : task) : Prop :=
  match t with
  | TGet _ | TScan _ _ _ | TReap | TSnapshot => True
  | TSet _ _ _ version | TDelete _ version => is_u64 version
  | _ => False
  end.

(** The mutation the section of a call performs on the map. *)
Definition task_label (t : task) : list mutation :=
  match t with
  | TSetApply key value expiresAt version => [MSet key (mkEntry value version expiresAt)]
  | TDeleteApply key version => [MDelete key version]
  | _ => []
  end.

(** The pool: a new call arrives, or some call performs its next section.  [T]
    holds of the readings of the clock. *)
Inductive pool_step (T : Z -> Prop) : Disk * Store * list task -> list mutation -> Disk * Store * list task -> Prop :=
  | pool_spawn d s ts t : starts t -> pool_step T (d, s, ts) [] (d, s, ts ++ [t])
  | pool_run d s ts i t c :
      ts !! i = Some t -> T (ch_now c) ->
      pool_step T (d, s, ts) (task_label t)
        ((task_step c t d s).1, <[i := (task_step c t d s).2]> ts).

(** A pool run by an explicit schedule: which call performs its next section,
    and what the environment chooses. *)
Fixpoint run_schedule (l : list (nat * choice)) (x : Disk * Store * list task)
  : Disk * Store * list task :=
  match l with
  | [] => x
  | (i, c) :: l' =>
      let '(d, s, ts) := x in
      match ts !! i with
      | Some t => run_schedule l' ((task_step c t d s).1, <[i := (task_step c t d s).2]> ts)
      | None => run_schedule l' x
      end
  end.

(** The mutations such a run performs, in order. *)
Fixpoint schedule_labels (l : list (nat * choice)) (x : Disk * Store * list task) : list mutation :=
  match l with
  | [] => []
  | (i, c) :: l' =>
      let '(d, s, ts) := x in
      match ts !! i with
      | Some t => task_label t
          ++ schedule_labels l' ((task_step c t d s).1, <[i := (task_step c t d s).2]> ts)
      | None => schedule_labels l' x
      end
  end.

Lemma run_schedule_steps (T : Z -> Prop) l : Forall (fun ic => T (ch_now ic.2)) l ->
  forall x, trace (pool_step T) x (schedule_labels l x) (run_schedule l x).
Proof.
  induction 1 as [|[i c] l HT _ IH]; intros [[d s] ts]; [constructor|]. cbn [run_schedule schedule_labels].
  destruct (ts !! i) as [t|] eqn:Hi; [|apply IH].
  eapply trace_cons; [by apply (pool_run T d s ts i t c) | apply IH].
Qed.

Lemma spawn_all T l : forall d s ts, Forall starts l -> trace (pool_step T) (d, s, ts) [] (d, s, ts ++ l).
Proof.
  induction l as [|t l IH]; intros d s ts Hl; [rewrite app_nil_r; constructor|].
  inversion Hl; subst. eapply (trace_cons (pool_step T) _ [] _ []); [by apply (pool_spawn T d s ts t)|].
  replace (ts ++ t :: l) with ((ts ++ [t]) ++ l) by (by rewrite <-app_assoc). by apply IH.
Qed.

(** ** Safety of every interleaving *)

(** The versions a task carries are in range, and a reaper carries a reading of
    the clock. *)
Definition task_ok (T : Z -> Prop) (t : task) : Prop :=
  match t with
  | TSet _ _ _ v | TSetVersion _ _ _ v | TSetAppend _ _ _ v | TSetApply _ _ _ v
  | TDelete _ v | TDeleteAppend _ v | TDeleteApply _ v => is_u64 v
  | TReapShard now _ => T now
  | _ => True
  end.

Lemma reap_shard_steps {R : MapRange} (T : Z -> Prop) now i s :
  T now -> store_ok s -> (i < Z.to_nat ShardCount)%nat ->
  store_ok (reap_shard now i s) /\ trace (lww_step T) (view s) [] (view (reap_shard now i s)).
Proof.
  intros HT Hs Hi. destruct (reap_shard_facts now i s Hs Hi) as [Hok Hv]. split; [done|].
  apply (expire_some T now); [done|..].
  - apply map_subseteq_spec. intros k e. rewrite Hv. repeat case_match; congruence.
  - intros k e Hk. rewrite Hv, Hk. destruct (IsExpired now e); [done|].
    by rewrite andb_false_r.
Qed.

(** One section keeps the store consistent and changes the represented map by
    the mutation it performs and removals of expired entries. *)
Lemma task_step_safe T c t d s :
  store_ok s -> T (ch_now c) -> task_ok T t ->
  let r := task_step c t d s in
  store_ok r.1.2 /\ task_ok T r.2 /\ trace (lww_step T) (view s) (task_label t) (view r.1.2).
Proof.
  intros Hs HT Ht r. subst r. destruct t as [key|key|key value ttl version|key value ex version
    |key value ex version|key value ex version|key version|key version|key version
    |prefix limit cursor|now prefix limit cursor i acc| |now i| |r]; cbn [task_step task_ok task_label] in *.
  - destruct (Get_read s key) as [e|]; [destruct (IsExpired (ch_now c) e)|]; auto using trace_nil.
  - split; [by apply Get_reap_ok|]. split; [done|]. cbn. rewrite Get_reap_view by done.
    destruct (view s !! key) as [e|] eqn:E; [|constructor].
    destruct (IsExpired (ch_now c) e) eqn:Ex; [|constructor].
    apply trace_once. by eapply (spec_expire T _ _ (ch_now c)).
  - auto using trace_nil.
  - destruct (pick_version_facts (ch_now c) s version Hs Ht) as (H1 & H2 & H3).
    destruct (pick_version _ _ _) as [v s']. cbn in *. rewrite H3. auto using trace_nil.
  - destruct (log_mutation_facts (ch_io c) d s RecordTypeSet key value version ex Hs) as [H1 H2].
    destruct (log_mutation _ _ _ _ _ _ _ _) as [[d' s'] [err|]]; cbn in *; rewrite H2; auto using trace_nil.
  - pose proof (Set_apply_ok s key value version ex Hs Ht) as H1.
    destruct (Set_apply_view s key value version ex Hs) as [H2 _].
    destruct (Set_apply s key value version ex) as [v s']. cbn in *. rewrite H2.
    split; [done|]. split; [done|]. apply trace_once. apply spec_mutate.
  - destruct (pick_version_facts (ch_now c) s version Hs Ht) as (H1 & H2 & H3).
    destruct (pick_version _ _ _) as [v s']. cbn in *. rewrite H3. auto using trace_nil.
  - destruct (log_mutation_facts (ch_io c) d s RecordTypeDelete key [] version time_zero Hs) as [H1 H2].
    destruct (log_mutation _ _ _ _ _ _ _ _) as [[d' s'] [err|]]; cbn in *; rewrite H2; auto using trace_nil.
  - pose proof (Delete_apply_ok s key version Hs) as H1.
    destruct (Delete_apply_view s key version Hs) as [H2 _].
    destruct (Delete_apply s key version) as [[v b] s']. cbn in *. rewrite H2.
    split; [done|]. split; [done|]. apply trace_once. apply spec_mutate.
  - auto using trace_nil.
  - destruct (shards s !! i); auto using trace_nil.
  - cbn. auto using trace_nil.
  - destruct (Nat.ltb_spec i (Z.to_nat ShardCount)); [|cbn; auto using trace_nil]. cbn.
    destruct (@reap_shard_steps (ch_range c) T now i s) as [H1 H2]; [done..|].
    by split_and!.
  - destruct (@CreateSnapshot_store (ch_range c) (ch_now c) (ch_open_ok c) (ch_fault c) d s) as [w E].
    destruct (CreateSnapshot _ _ _ _ _) as [[d' s'] err]. cbn in E |- *. subst.
    split; [by apply with_wal_ok|]. auto using trace_nil.
  - auto using trace_nil.
Qed.

Lemma pool_step_safe T x l y :
  pool_step T x l y -> store_ok x.1.2 -> Forall (task_ok T) x.2 ->
  store_ok y.1.2 /\ Forall (task_ok T) y.2 /\ trace (lww_step T) (view x.1.2) l (view y.1.2).
Proof.
  intros Hst Hs Ht. destruct Hst as [d s ts t Hstart|d s ts i t c Hi HT]; cbn in *.
  - split; [done|]. split; [|constructor]. apply Forall_app_2; [done|].
    apply Forall_singleton. by destruct t.
  - destruct (task_step_safe T c t d s Hs HT) as (H1 & H2 & H3).
    { eapply Forall_lookup_1; [exact Ht | exact Hi]. }
    destruct (task_step c t d s) as [[d' s'] t']. cbn in *.
    split; [done|]. split; [|done]. by apply Forall_insert.
Qed.

Lemma pool_steps_safe T x l y :
  trace (pool_step T) x l y -> store_ok x.1.2 -> Forall (task_ok T) x.2 ->
  store_ok y.1.2 /\ trace (lww_step T) (view x.1.2) l (view y.1.2).
Proof.
  induction 1 as [x|x l y l' z Hxy _ IH]; intros Hs Ht; [split; [done|constructor]|].
  destruct (pool_step_safe T x l y Hxy Hs Ht) as (H1 & H2 & H3).
  destruct (IH H1 H2) as [H4 H5]. split; [done|]. by eapply trace_app.
Qed.

(** The choices of an environment in which nothing fails. *)
Definition choice_ok (now : Z) : choice := mkChoice now append_io_ok true None range_in_order.

(** ** Concurrent writers and the log *)

(** The log record of a write or deletion whose [Append] has returned and
    whose map update is still to come. *)
Definition pending_record (t : task) : option LogRecord :=
  match t with
  | TSetApply key value expiresAt version =>
      Some (mkLogRecord RecordTypeSet key value version expiresAt)
  | _ => None
  end.

(** The writes without ttl, as a client starts them, at every stage. *)
Definition writer (t : task) : Prop :=
  match t with
  | TSet key value ttl version => writable key value /\ ttl <= 0 /\ version = 0
  | TSetVersion key value expiresAt version => writable key value /\ expiresAt = time_zero /\ version = 0
  | TSetAppend key value expiresAt version | TSetApply key value expiresAt version =>
      writable key value /\ expiresAt = time_zero /\ 0 < version < 2 ^ 64
  | TDone _ => True
  | _ => False
  end.

(** Steps of a pool of writers on a working disk. *)
Inductive write_step : Disk * Store * list task -> Disk * Store * list task -> Prop :=
  | write_spawn d s ts key value ttl :
      writable key value -> ttl <= 0 ->
      write_step (d, s, ts) (d, s, ts ++ [TSet key value ttl 0])
  | write_run d s ts i t c :
      ts !! i = Some t -> ch_io c = append_io_ok -> lastVersion s < 2 ^ 64 - 1 ->
      write_step (d, s, ts) ((task_step c t d s).1, <[i := (task_step c t d s).2]> ts).

(** The versions given out to writes that are not yet in the log. *)
Definition drawn (t : task) : option Z :=
  match t with TSetAppend _ _ _ version => Some version | _ => None end.

(** [omap] over a list one element of which is replaced. *)
Lemma omap_insert_perm {A B} (f : A -> option B) (l : list A) i x y :
  l !! i = Some x ->
  option_list (f y) ++ omap f l ≡ₚ option_list (f x) ++ omap f (<[i := y]> l).
Proof.
  intros Hi. assert (i < length l)%nat as Hlt by (by eapply lookup_lt_Some).
  rewrite insert_take_drop by done. rewrite <-(take_drop_middle l i x Hi) at 1.
  rewrite !omap_app. cbn.
  destruct (f x) as [bx|], (f y) as [by_|]; cbn; rewrite ?Permutation_middle; try done.
  - rewrite <-!Permutation_middle. apply perm_swap.
Qed.

Lemma omap_snoc {A B} (f : A -> option B) (l : list A) x :
  omap f (l ++ [x]) = omap f l ++ option_list (f x).
Proof. rewrite omap_app. cbn. by destruct (f x). Qed.

(** Writes with pairwise different versions may be applied in any order. *)
Lemma run_mutations_perm l1 l2 : l1 ≡ₚ l2 ->
  Forall (fun lr => lr_type lr = RecordTypeSet) l1 -> NoDup (map lr_version l1) ->
  forall m, run_mutations (map record_mutation l1) m = run_mutations (map record_mutation l2) m.
Proof.
  assert (forall lr, lr_type lr = RecordTypeSet -> record_mutation lr
    = MSet (lr_key lr) (mkEntry (lr_value lr) (lr_version lr) (lr_expiresAt lr))) as Hset
    by (intros lr H; unfold record_mutation; by rewrite H).
  induction 1 as [|x l1 l2 HP IH|x y l|l1 l2 l3 H12 IH12 H23 IH23]; intros Ht Hnd m.
  - done.
  - inversion Ht; inversion Hnd; subst. cbn. by apply IH.
  - inversion Ht as [|? ? Hx Ht']; inversion Ht' as [|? ? Hy _]; subst. cbn in Hnd.
    apply NoDup_cons in Hnd as [Hni _]. cbn. rewrite (Hset x Hy), (Hset y Hx). cbn.
    f_equal. apply lww_set_comm. right. cbn. intros E. apply Hni. rewrite E. constructor.
  - rewrite IH12 by done. apply IH23; [by rewrite <-H12 | ].
    change (NoDup (lr_version <$> l2)). by rewrite <-H12.
Qed.

(** The state of a pool of writers started on a data directory whose snapshot
    is [base] and whose log was [l0]: [new] is what was logged since and
    [applied] what reached the map, in the order it did. *)
Record durable (dataDir : string) (base : KV) (l0 : list LogRecord)
    (x : Disk * Store * list task) : Prop := {
  du_ok : store_ok x.1.2;
  du_wal : exists w, wal x.1.2 = Some w /\ wal_path w = Join dataDir "wal.log" /\ wal_closed w = false;
  du_tasks : Forall writer x.2;
  du_log : exists new applied,
      data_dir x.1.1 dataDir base (l0 ++ new) /\
      new ≡ₚ applied ++ omap pending_record x.2 /\
      Forall (fun lr => lr_type lr = RecordTypeSet) new /\
      view x.1.2 = run_mutations (map record_mutation (l0 ++ applied)) base /\
      NoDup (map lr_version new ++ omap drawn x.2) /\
      Forall (fun v => v <= lastVersion x.1.2) (map lr_version new ++ omap drawn x.2)
}.

Section Durable.
Context (dataDir : string) (base : KV) (l0 : list LogRecord).
Context (d : Disk) (s : Store) (ts : list task) (Hinv : durable dataDir base l0 (d, s, ts)).

(** A step that changes nothing but the task, which is neither logged nor
    waiting for its log record before and after. *)
Lemma durable_local i t t' :
  ts !! i = Some t -> pending_record t = None -> drawn t = None ->
  pending_record t' = None -> drawn t' = None -> writer t' ->
  durable dataDir base l0 (d, s, <[i := t']> ts).
Proof using Hinv.
  intros Hi Hp Hd Hp' Hd' Hw. destruct Hinv as [Hs Hwal Ht (new & applied & Hdir & HP & Hset & Hv & Hnd & Hle)].
  pose proof (omap_insert_perm pending_record ts i t t' Hi) as P1.
  pose proof (omap_insert_perm drawn ts i t t' Hi) as P2.
  rewrite Hp, Hp' in P1. rewrite Hd, Hd' in P2. cbn in *.
  split; cbn; [done | done | by apply Forall_insert |].
  exists new, applied. rewrite <-P1, <-P2. done.
Qed.

Lemma durable_version i key value c :
  ts !! i = Some (TSetVersion key value time_zero 0) -> writable key value ->
  lastVersion s < 2 ^ 64 - 1 ->
  durable dataDir base l0
    (d, (NextVersion (ch_now c) s).2,
     <[i := TSetAppend key value time_zero (NextVersion (ch_now c) s).1]> ts).
Proof using Hinv.
  intros Hi Hw Hl. destruct Hinv as [Hs Hwal Ht (new & applied & Hdir & HP & Hset & Hv & Hnd & Hle)].
  cbn [fst snd] in *. destruct (NextVersion_fresh (ch_now c) s (so_last s Hs) Hl) as [Hf1 Hf2].
  pose proof (NextVersion_u64 (ch_now c) s) as Hu. pose proof (so_last s Hs) as Hu0.
  pose proof (NextVersion_ok (ch_now c) s Hs) as Hok.
  assert (wal (NextVersion (ch_now c) s).2 = wal s) as Hw' by done.
  pose proof (NextVersion_view (ch_now c) s) as Hv'.
  destruct (NextVersion (ch_now c) s) as [v s']. cbn [fst snd] in *.
  pose proof (omap_insert_perm pending_record ts i _ (TSetAppend key value time_zero v) Hi) as P1.
  pose proof (omap_insert_perm drawn ts i _ (TSetAppend key value time_zero v) Hi) as P2.
  cbn in P1, P2. unfold is_u64 in *. split; cbn [fst snd].
  - done.
  - by rewrite Hw'.
  - apply Forall_insert; [done|]. cbn. split; [done|]. split; [done|lia].
  - exists new, applied. rewrite <-P1, <-P2, Hf2, Hv'.
    split; [done|]. split; [done|]. split; [done|]. split; [done|].
    rewrite <-Permutation_middle. split.
    + apply NoDup_cons. split; [|done]. intros Hin.
      rewrite Forall_forall in Hle. specialize (Hle v Hin). cbn in Hle. lia.
    + constructor; [lia|]. eapply Forall_impl; [exact Hle|]. cbn. intros. lia.
Qed.

Lemma durable_append i key value version n w :
  ts !! i = Some (TSetAppend key value time_zero version) ->
  writable key value -> 0 < version < 2 ^ 64 -> wal s = Some w -> wal_closed w = false ->
  let lr := mkLogRecord RecordTypeSet key value version time_zero in
  durable dataDir base l0
    (append_file d (wal_path w) (lr_bytes lr), with_wal s (Some (mkWAL (wal_path w) n false)),
     <[i := TSetApply key value time_zero version]> ts).
Proof using Hinv.
  intros Hi [Hk Hsz] Hver Hw Hc lr.
  destruct Hinv as [Hs (w0 & Hw0 & Hp & _) Ht (new & applied & Hdir & HP & Hset & Hv & Hnd & Hle)].
  cbn [fst snd] in *. assert (w0 = w) as -> by congruence.
  pose proof (omap_insert_perm pending_record ts i _ (TSetApply key value time_zero version) Hi) as P1.
  pose proof (omap_insert_perm drawn ts i _ (TSetApply key value time_zero version) Hi) as P2.
  cbn in P1, P2. fold lr in P1.
  assert (map lr_version (new ++ [lr]) ++ omap drawn (<[i:=TSetApply key value time_zero version]> ts)
    ≡ₚ map lr_version new ++ omap drawn ts) as P3.
  { rewrite map_app, <-app_assoc. cbn. by rewrite <-P2. }
  split; cbn [fst snd].
  - by apply with_wal_ok.
  - by eexists.
  - apply Forall_insert; [done|]. cbn. done.
  - exists (new ++ [lr]), applied. rewrite P3.
    split; [|split; [|split; [|done]]].
    + rewrite app_assoc. apply data_dir_append; [done | done | |].
      * split; cbn; [done | unfold is_u64; lia | by left | done].
      * split; [by left | cbn; lia | done].
    + rewrite <-P1, HP. by rewrite <-!Permutation_middle, app_nil_r.
    + apply Forall_app_2; [done|]. by apply Forall_singleton.
Qed.

Lemma durable_apply i key value version :
  ts !! i = Some (TSetApply key value time_zero version) -> is_u64 version ->
  durable dataDir base l0
    (d, (Set_apply s key value version time_zero).2,
     <[i := TDone (RSet (Set_apply s key value version time_zero).1 None)]> ts).
Proof using Hinv.
  intros Hi Hver. destruct Hinv as [Hs Hwal Ht (new & applied & Hdir & HP & Hset & Hv & Hnd & Hle)].
  cbn [fst snd] in *. destruct (Set_apply_view s key value version time_zero Hs) as [Hview _].
  pose proof (Set_apply_ok s key value version time_zero Hs Hver) as Hok.
  pose proof (Set_apply_wal s key value version time_zero) as Hw'.
  assert (lastVersion (Set_apply s key value version time_zero).2 = lastVersion s) as Hlast
    by (unfold Set_apply; repeat case_match; done).
  set (lr := mkLogRecord RecordTypeSet key value version time_zero) in *.
  destruct (Set_apply s key value version time_zero) as [v s']. cbn [fst snd] in *.
  pose proof (omap_insert_perm pending_record ts i _ (TDone (RSet v None)) Hi) as P1.
  pose proof (omap_insert_perm drawn ts i _ (TDone (RSet v None)) Hi) as P2.
  cbn in P1, P2. fold lr in P1. split; cbn [fst snd].
  - done.
  - by rewrite Hw'.
  - by apply Forall_insert.
  - exists new, (applied ++ [lr]). rewrite <-P2, Hlast.
    split; [done|]. split; [|split; [done|split; [|done]]].
    + rewrite HP, P1. by rewrite <-app_assoc.
    + rewrite Hview, Hv. rewrite app_assoc, (map_app _ (l0 ++ applied)), run_mutations_app.
      reflexivity.
Qed.
End Durable.

Lemma write_step_durable dataDir base l0 x y :
  durable dataDir base l0 x -> write_step x y -> durable dataDir base l0 y.
Proof.
  intros Hinv Hst. destruct Hst as [d s ts key value ttl Hw Httl|d s ts i t c Hi Hio Hl].
  - destruct Hinv as [Hs Hwal Ht Hlog]. split; cbn [fst snd] in *; [done | done | |].
    + apply Forall_app_2; [done|]. by apply Forall_singleton.
    + rewrite !omap_snoc. cbn [pending_record drawn option_list]. by rewrite !app_nil_r.
  - pose proof (Forall_lookup_1 _ _ _ _ (du_tasks _ _ _ _ Hinv) Hi) as Hw.
    pose proof (du_wal _ _ _ _ Hinv) as (w & Hwal & Hp & Hc). cbn [fst snd] in *.
    destruct t; cbn [writer] in Hw; try done; cbn [task_step].
    + destruct Hw as (Hw & Httl & ->).
      assert (expiry_of (ch_now c) ttl = time_zero) as ->
        by (unfold expiry_of; by destruct (Z.ltb_spec 0 ttl); [lia|]).
      by eapply durable_local.
    + destruct Hw as (Hw & -> & ->). unfold pick_version. cbn [Z.eqb].
      pose proof (durable_version _ _ _ _ _ _ Hinv i key value c Hi Hw Hl) as H.
      by destruct (NextVersion (ch_now c) s).
    + destruct Hw as (Hw & -> & Hver). rewrite Hio.
      destruct (log_mutation_ok d s w RecordTypeSet key value version time_zero Hwal Hc) as [n ->].
      { destruct Hw. split; cbn; [done | unfold is_u64; lia | by left | done]. }
      by eapply durable_append.
    + destruct Hw as (Hw & -> & Hver).
      pose proof (durable_apply _ _ _ _ _ _ Hinv i key value version Hi) as H.
      destruct (Set_apply s key value version time_zero). apply H. unfold is_u64; lia.
    + by eapply durable_local.
Qed.

(** What a restart finds after a crash between two steps: the map and, on top,
    the writes that were logged but had not reached the map. *)
Lemma durable_restart dataDir base l0 d s ts clock :
  durable dataDir base l0 (d, s, ts) ->
  exists d' s', start startup_io_ok clock d dataDir = Some (Started d' s') /\ store_ok s' /\
    view s' = run_mutations (map record_mutation (omap pending_record ts)) (view s).
Proof.
  intros [Hs Hwal Ht (new & applied & Hdir & HP & Hset & Hv & Hnd & Hle)]. cbn [fst snd] in *.
  destruct (start_data_dir clock d dataDir base (l0 ++ new) Hdir) as (s' & w & E & Hs' & Hv' & _).
  eexists _, _. split; [exact E|]. split; [by apply with_wal_ok|].
  change (view (SetWAL s' w)) with (view s'). rewrite Hv', Hv.
  rewrite !map_app, !run_mutations_app. apply NoDup_app in Hnd as [Hnd _].
  rewrite (run_mutations_perm new _ HP Hset) by done.
  by rewrite map_app, run_mutations_app.
Qed.

(** ** Properties *)

(** C2: however the calls of any number of clients interleave (the sections
    between two locks in any order, with any clock readings, map iteration
    orders and disk failures), the shards stay consistent, and the represented
    map is the one the specification reaches by the writes and deletions in
    the order in which they took their shard's lock, each resolved by last
    write wins, with nothing in between but removals of entries that have
    expired at a reading [T] the clock gave. *)
Theorem concurrent_refines_lww (T : Z -> Prop) w d l d' s' ts' :
  trace (pool_step T) (d, NewStore w, []) l (d', s', ts') ->
  store_ok s' /\ trace (lww_step T) ∅ l (view s').
Proof.
  intros Hst. destruct (pool_steps_safe T _ _ _ Hst) as [H1 H2]; [apply NewStore_ok | constructor |].
  cbn [fst snd] in *. by rewrite NewStore_view in H2.
Qed.

(** Two writers of one key; the first to draw its version is the last to
    reach the map. *)
Definition overtaken : list (nat * choice) :=
  map (fun i => (i, choice_ok (time_Unix 5))) [0; 1; 0; 1; 0; 1; 1; 0]%nat.

Lemma concurrent_refines_lww_witness :
  let x := run_schedule overtaken
    (∅, NewStore None, [TSet "k" [x61] 0 0; TSet "k" [x62] 0 0]) in
  x.2 = [TDone (RSet 6 None); TDone (RSet 6 None)] /\
  store_ok x.1.2 /\
  trace (lww_step (fun now => now = time_Unix 5)) ∅ [MSet "k" (mkEntry [x62] 6 time_zero); MSet "k" (mkEntry [x61] 5 time_zero)]
    (view x.1.2).
Proof.
  intros x. split; [by vm_compute|].
  pose proof (run_schedule_steps (fun now => now = time_Unix 5) overtaken ltac:(by repeat constructor)
    (∅, NewStore None, [TSet "k" [x61] 0 0; TSet "k" [x62] 0 0])) as Ht.
  assert (schedule_labels overtaken (∅, NewStore None, [TSet "k" [x61] 0 0; TSet "k" [x62] 0 0])
    = [MSet "k" (mkEntry [x62] 6 time_zero); MSet "k" (mkEntry [x61] 5 time_zero)]) as El
    by (vm_compute; reflexivity).
  rewrite El in Ht. fold x in Ht.
  destruct x as [[d s] ts] eqn:E. apply (concurrent_refines_lww (fun now => now = time_Unix 5) None ∅ _ d s ts).
  refine (trace_app _ _ [] _ _ _ (spawn_all _ [TSet "k" [x61] 0 0; TSet "k" [x62] 0 0] _ _ [] _) _).
  - repeat constructor; unfold starts, is_u64; lia.
  - exact Ht.
Defined.

(** C5: concurrent writers lose nothing in a crash.  Start any number of
    [Set]s without ttl that draw their own versions, on a working disk, on a
    store that a start-up without faults and writes without ttl led to; no
    deletion and no snapshot runs with them.  Let their sections interleave
    in any order; stop the server between any two sections.  The restart
    succeeds and serves the map as it was, plus the writes that were already
    logged and had not yet reached the map.  In particular every write that
    had been acknowledged is there, although the log and the map saw the
    writes in different orders. *)
Theorem concurrent_writes_survive_crash dataDir d s d' s' ts' clock :
  serving dataDir (d, s) -> rtc write_step (d, s, []) (d', s', ts') ->
  exists d'' s'', start startup_io_ok clock d' dataDir = Some (Started d'' s'') /\ store_ok s'' /\
    view s'' = run_mutations (map record_mutation (omap pending_record ts')) (view s').
Proof.
  intros [Hok Hwal (base & l0 & Hdir & Hv) _] Hst. cbn [fst snd] in *.
  apply (durable_restart dataDir base l0).
  assert (durable dataDir base l0 (d, s, [])) as Hinv.
  { split; cbn [fst snd]; [done | done | constructor |].
    exists [], []. rewrite !app_nil_r. repeat split; try done; try constructor; apply Hdir. }
  revert Hinv. generalize dependent (d, s, @nil task). intros x Hst.
  induction Hst as [|x y z Hxy _ IH]; [done|]. intros Hinv. by eapply IH, write_step_durable.
Qed.

(** A write that was logged when the server stopped, and not yet in the map. *)
Lemma concurrent_writes_survive_crash_witness :
  let c := choice_ok (time_Unix 5) in
  let x := run_schedule [(0%nat, c); (0%nat, c); (0%nat, c)]
    (fresh_disk, fresh_store, [TSet "k" [x61] 0 0]) in
  x.2 = [TSetApply "k" [x61] time_zero 5] /\
  exists d'' s'', start startup_io_ok (fun _ => 9) x.1.1 "data" = Some (Started d'' s'') /\
    store_ok s'' /\ view s'' = lww_set "k" (mkEntry [x61] 5 time_zero) (view x.1.2).
Proof.
  intros c x. split; [by vm_compute|].
  apply (concurrent_writes_survive_crash "data" fresh_disk fresh_store x.1.1 x.1.2 x.2 (fun _ => 9)).
  - apply (fresh_start_serving (fun _ => 9)), fresh_started.
  - subst x. cbn [run_schedule list_lookup lookup].
    eapply rtc_l; [apply (write_spawn _ _ _ "k" [x61] 0); [unfold writable; cbn; lia | lia]|].
    eapply rtc_l; [apply (write_run _ _ _ 0 (TSet "k" [x61] 0 0) c); [done | done | cbn; lia]|].
    eapply rtc_l; [apply (write_run _ _ _ 0 (TSetVersion "k" [x61] time_zero 0) c);
      [done | done | cbn; lia]|].
    eapply rtc_l; [apply (write_run _ _ _ 0 (TSetAppend "k" [x61] time_zero 5) c);
      [by vm_compute | done | by vm_compute]|].
    apply rtc_refl.
Defined.

(** A snapshot can destroy a write that is then acknowledged.  [Set]
    releases the log's lock before it takes the shard's, so [CreateSnapshot]
    can run between the two: it dumps the map without the write and truncates
    the log that holds it.  The write then reaches the map and is reported as
    successful, no error occurs anywhere, and a crash loses it. *)
Theorem snapshot_can_lose_acknowledged_write :
  let c := choice_ok (time_Unix (10 ^ 18)) in
  let x := run_schedule (map (fun i => (i, c)) [0; 0; 0; 1; 0]%nat)
    (fresh_disk, fresh_store, [TSet "k" (bytes_of "v") 0 0; TSnapshot]) in
  x.2 = [TDone (RSet (10 ^ 18) None); TDone (RSnapshot None)] /\
  (Store_Get 0 0 x.1.2 "k").1 = (bytes_of "v", 10 ^ 18, true) /\
  match start startup_io_ok (fun _ => time_Unix (10 ^ 18)) x.1.1 "data" with
  | Some (Started _ s') => (Store_Get 0 0 s' "k").1 = ([], 0, false)
  | _ => False
  end.
Proof. vm_compute. auto. Qed.

(** The log and the map can see a write and a deletion of one key in
    different orders.  The deletion draws the later version, reaches the map
    first (where it finds nothing) and the log last: the running server
    serves the written value, and a restart deletes it. *)
Theorem restart_can_undo_concurrent_write :
  let c := choice_ok (time_Unix (10 ^ 18)) in
  let x := run_schedule (map (fun i => (i, c)) [0; 0; 1; 0; 1; 1; 0]%nat)
    (fresh_disk, fresh_store, [TSet "k" (bytes_of "v") 0 0; TDelete "k" 0]) in
  x.2 = [TDone (RSet (10 ^ 18) None); TDone (RDelete (10 ^ 18 + 1) false None)] /\
  (Store_Get 0 0 x.1.2 "k").1 = (bytes_of "v", 10 ^ 18, true) /\
  match start startup_io_ok (fun _ => time_Unix (10 ^ 18)) x.1.1 "data" with
  | Some (Started _ s') => (Store_Get 0 0 s' "k").1 = ([], 0, false)
  | _ => False
  end.
Proof. vm_compute. auto. Qed.
