(* ===== verification/Peer.v ===== *)
(** * The membership table: [internal/cluster/peer.go]

    [PeerManager] and its operations.  The table maps node ids to peers; the
    records it holds never leave it ([Get] and [GetAll] return copies), so a
    peer is a value here.  Every reading of the clock is an argument. *)

From S2P Require Import Prelude.
From S2P Require Import GoBase.

Definition StateAlive : string := "alive".
Definition StateSuspect : string := "suspect".
Definition StateDead : string := "dead".

Record Peer := mkPeer {
  NodeID : string;
  Address : string;
  State : string;
  LastSeen : Z;
  RTT : Z;
  ReplicationLag : Z;
  SuspiciousAt : Z
}.

#[global] Instance Peer_eq_dec : EqDecision Peer.
Proof. solve_decision. Defined.

(** The zero value [Peer{}]. *)
Definition Peer_zero : Peer := mkPeer "" "" "" time_zero 0 0 time_zero.

Record PeerManager := mkPeerManager { peers : gmap string Peer }.

Definition NewPeerManager : PeerManager := mkPeerManager ∅.

(** The update of an existing or new record; the address is set only when the
    record is created. *)
Definition set_state (now now' : Z) (state : string) (p : Peer) : Peer :=
  mkPeer (NodeID p) (Address p) state now (RTT p) (ReplicationLag p)
    (if decide (state = StateSuspect) then now' else SuspiciousAt p).

Definition AddOrUpdate (now now' : Z) (nodeID address state : string) (pm : PeerManager)
  : PeerManager :=
  let p := match peers pm !! nodeID with
           | Some p => p
           | None => mkPeer nodeID address "" time_zero 0 0 time_zero
           end in
  mkPeerManager (<[nodeID := set_state now now' state p]> (peers pm)).

(** [Get], with the zero [Peer] when the node is unknown. *)
Definition PM_Get (nodeID : string) (pm : PeerManager) : Peer * bool :=
  match peers pm !! nodeID with
  | None => (Peer_zero, false)
  | Some p => (p, true)
  end.

Definition GetAll `{MapRange} (pm : PeerManager) : list Peer := (range (peers pm)).*2.

Definition UpdateRTT (now : Z) (nodeID : string) (rtt : Z) (pm : PeerManager) : PeerManager :=
  match peers pm !! nodeID with
  | Some p =>
      mkPeerManager (<[nodeID := mkPeer (NodeID p) (Address p) (State p) now rtt
                                   (ReplicationLag p) (SuspiciousAt p)]> (peers pm))
  | None => pm
  end.

Definition UpdateLag (nodeID : string) (lag : Z) (pm : PeerManager) : PeerManager :=
  match peers pm !! nodeID with
  | Some p =>
      mkPeerManager (<[nodeID := mkPeer (NodeID p) (Address p) (State p) (LastSeen p) (RTT p)
                                   lag (SuspiciousAt p)]> (peers pm))
  | None => pm
  end.

(** [delete(pm.peers, nodeID)], which the gossip layer does under the table's
    lock. *)
Definition forget (nodeID : string) (pm : PeerManager) : PeerManager :=
  mkPeerManager (delete nodeID (peers pm)).

(** ** The invariant of the table *)

(** Every record is stored under its own id. *)
Definition pm_ok (pm : PeerManager) : Prop := map_Forall (fun k p => NodeID p = k) (peers pm).

Lemma NewPeerManager_ok : pm_ok NewPeerManager.
Proof. apply map_Forall_empty. Qed.

Lemma AddOrUpdate_ok now now' id a st pm : pm_ok pm -> pm_ok (AddOrUpdate now now' id a st pm).
Proof.
  intros H. unfold AddOrUpdate, pm_ok. cbn. apply map_Forall_insert_2; [|done].
  destruct (peers pm !! id) as [p|] eqn:E; [by apply (H id p) | done].
Qed.

Lemma UpdateRTT_ok now id rtt pm : pm_ok pm -> pm_ok (UpdateRTT now id rtt pm).
Proof.
  intros H. unfold UpdateRTT. destruct (peers pm !! id) as [p|] eqn:E; [|done].
  apply map_Forall_insert_2; [by apply (H id p)|done].
Qed.

Lemma UpdateLag_ok id lag pm : pm_ok pm -> pm_ok (UpdateLag id lag pm).
Proof.
  intros H. unfold UpdateLag. destruct (peers pm !! id) as [p|] eqn:E; [|done].
  apply map_Forall_insert_2; [by apply (H id p)|done].
Qed.

Lemma forget_ok id pm : pm_ok pm -> pm_ok (forget id pm).
Proof. intros H. by apply map_Forall_delete. Qed.

#[export] Hint Resolve NewPeerManager_ok AddOrUpdate_ok UpdateRTT_ok UpdateLag_ok forget_ok : kv.

(** [GetAll] lists every record once, in the order of the iteration. *)
Lemma elem_of_GetAll `{MapRange} p pm :
  pm_ok pm -> p ∈ GetAll pm <-> peers pm !! NodeID p = Some p.
Proof.
  intros Hok. unfold GetAll. rewrite list_elem_of_fmap. split.
  - intros ([k p'] & -> & Hin%elem_of_range). cbn in *. by rewrite (Hok k p' Hin).
  - intros Hp. exists (NodeID p, p). split; [done|]. by apply elem_of_range.
Qed.

Lemma GetAll_ids `{MapRange} pm : pm_ok pm -> NodeID <$> GetAll pm = (range (peers pm)).*1.
Proof.
  intros Hok. unfold GetAll. rewrite <-list_fmap_compose. apply list_fmap_ext.
  intros i [k p] Hi. cbn. apply Hok, elem_of_range. by eapply list_elem_of_lookup_2.
Qed.

Lemma GetAll_NoDup `{MapRange} pm : pm_ok pm -> NoDup (NodeID <$> GetAll pm).
Proof. intros Hok. rewrite GetAll_ids by done. apply range_NoDup. Qed.

Lemma lookup_AddOrUpdate_ne now now' id a st pm k :
  id <> k -> peers (AddOrUpdate now now' id a st pm) !! k = peers pm !! k.
Proof. intros H. cbn. by rewrite lookup_insert_ne. Qed.

Lemma lookup_AddOrUpdate now now' id a st pm :
  peers (AddOrUpdate now now' id a st pm) !! id
  = Some (set_state now now' st (default (mkPeer id a "" time_zero 0 0 time_zero) (peers pm !! id))).
Proof. cbn. rewrite lookup_insert_eq. by destruct (peers pm !! id). Qed.

Lemma lookup_UpdateRTT_ne now id rtt pm k :
  id <> k -> peers (UpdateRTT now id rtt pm) !! k = peers pm !! k.
Proof.
  intros H. unfold UpdateRTT. destruct (peers pm !! id); [|done]. cbn. by rewrite lookup_insert_ne.
Qed.
