(* ===== verification/Gossip.v ===== *)
(** * Membership by gossip: [internal/cluster/gossip.go]

    [tick], [pingPeer], [MergePeers], [bootstrap] and [checkSuspicious] on the
    membership table.  What the network does is an argument: the outcome of a
    ping, with the peer list a reply carried.  The clock is a function from
    the number of readings made so far to the reading. *)

From S2P Require Import Prelude.
From S2P Require Import GoBase.
From S2P Require Import Url.
From S2P Require Import Peer.

(** [stopChan] is represented by whether it was closed; the HTTP client is the
    environment of [pingPeer]. *)
Record GossipManager := mkGossipManager {
  gm_nodeID : string;
  gm_address : string;
  gm_seedAddr : string;
  gm_gossipInterval : Z;
  gm_pingTimeout : Z;
  gm_suspicionWindow : Z;
  gm_stopped : bool
}.

Definition NewGossipManager (nodeID address seedAddr : string)
    (gossipInterval pingTimeout suspicionWindow : Z) : GossipManager :=
  mkGossipManager nodeID address seedAddr gossipInterval pingTimeout suspicionWindow false.

(** The goroutines [Start] launches. *)
Inductive gossip_goroutine := GossipLoop | SuspicionCheckLoop | Bootstrap.
#[global] Instance gossip_goroutine_eq_dec : EqDecision gossip_goroutine.
Proof. solve_decision. Defined.

Definition GM_Start (gm : GossipManager) : list gossip_goroutine :=
  [GossipLoop; SuspicionCheckLoop]
  ++ (if decide (gm_seedAddr gm = "") then [] else [Bootstrap]).

(** [close] of a closed channel panics ([None]). *)
Definition GM_Stop (gm : GossipManager) : option GossipManager :=
  if gm_stopped gm then None
  else Some (mkGossipManager (gm_nodeID gm) (gm_address gm) (gm_seedAddr gm)
               (gm_gossipInterval gm) (gm_pingTimeout gm) (gm_suspicionWindow gm) true).

(** ** Pings *)

(** The query and the URL of a ping. *)
Definition ping_query (gm : GossipManager) : string :=
  "sender_id=" +:+ QueryEscape (gm_nodeID gm) +:+ "&sender_addr=" +:+ QueryEscape (gm_address gm).

Definition ping_url (gm : GossipManager) (p : Peer) : string :=
  "http://" +:+ Address p +:+ "/internal/ping?" +:+ ping_query gm.

(** What becomes of the request: the URL is rejected, no response arrives, or
    a response with its status and the peer list its body decodes to ([None]
    when reading or decoding fails). *)
Inductive ping_outcome :=
  | BadRequest
  | NoResponse
  | Response (status : Z) (body : option (list Peer)).

(** ** Candidates of a tick *)

Definition ping_candidate (gm : GossipManager) (p : Peer) : bool :=
  negb (bool_decide (NodeID p = gm_nodeID gm) || bool_decide (State p = StateDead)).

(** The peer a tick pings; [None] is an index out of range, [Some None] no
    candidate. [%] is Go's remainder, which takes the sign of the dividend. *)
Definition tick `{MapRange} (now : Z) (gm : GossipManager) (pm : PeerManager) : option (option Peer) :=
  let candidates := filter (fun p => ping_candidate gm p = true) (GetAll pm) in
  if Z.of_nat (length candidates) =? 0 then Some None
  else
    let idx := Z.rem (UnixNano now) (Z.of_nat (length candidates)) in
    if idx <? 0 then None else Some <$> candidates !! Z.to_nat idx.

Section Clock.
(** Reading number [t] of the clock is [clock t]; the second component of the
    state counts the readings. *)
Context (clock : nat -> Z) (gm : GossipManager).
Implicit Types st : PeerManager * nat.

Definition mark (id address state : string) st : PeerManager * nat :=
  let '(pm, t) := st in
  (AddOrUpdate (clock t) (clock (S t)) id address state pm,
   if decide (state = StateSuspect) then S (S t) else S t).

(** The loop body of [MergePeers]. *)
Definition merge_one st (rp : Peer) : PeerManager * nat :=
  let '(pm, t) := st in
  if decide (NodeID rp = gm_nodeID gm) then st
  else
    let '(localPeer, exists_) := PM_Get (NodeID rp) pm in
    if negb exists_ then
      if decide (State rp = StateDead) then st else mark (NodeID rp) (Address rp) (State rp) st
    else if decide (State localPeer = StateDead) then st
    else if decide (State rp = StateDead) then mark (NodeID rp) (Address rp) StateDead st
    else if decide (State rp = StateSuspect /\ State localPeer = StateAlive) then
      mark (NodeID rp) (Address rp) StateSuspect st
    else if decide (State rp = StateAlive /\ State localPeer = StateSuspect) then
      if time_After (LastSeen rp) (time_Add (LastSeen localPeer) (gm_suspicionWindow gm))
      then mark (NodeID rp) (Address rp) StateAlive st else st
    else st.

Definition MergePeers (remotePeers : list Peer) st : PeerManager * nat :=
  fold_left merge_one remotePeers st.

(** A failed ping marks a peer suspect that was alive when the ping started;
    the placeholder of the seed is marked in any case. *)
Definition ping_failed (p : Peer) st : PeerManager * nat :=
  if decide (State p = StateAlive \/ NodeID p = "seed")
  then mark (NodeID p) (Address p) StateSuspect st else st.

(** The id the pinged seed turns out to have, if the reply lists its
    address. *)
Definition seed_identity (p : Peer) (remotePeers : list Peer) : option Peer :=
  snd <$> list_find (fun rp => Address rp = Address p) remotePeers.

Definition pingPeer (p : Peer) (out : ping_outcome) st : PeerManager * nat :=
  let '(pm, t) := st in
  let start := clock t in
  match out with
  | BadRequest => (pm, S t)
  | NoResponse => ping_failed p (pm, S (S t))
  | Response status body =>
      let rtt := time_Sub (clock (S t)) start in
      if negb (status =? 200) then ping_failed p (pm, S (S t))
      else
        match body with
        | None => (pm, S (S t))
        | Some remotePeers =>
            let '(actualNodeID, pm) :=
              if decide (NodeID p = "seed") then
                match seed_identity p remotePeers with
                | Some rp => (NodeID rp, forget "seed" pm)
                | None => (NodeID p, pm)
                end
              else (NodeID p, pm) in
            let '(pm, t) := mark actualNodeID (Address p) StateAlive (pm, S (S t)) in
            MergePeers remotePeers (UpdateRTT (clock t) actualNodeID rtt pm, S t)
        end
  end.

Definition bootstrap (out : ping_outcome) st : PeerManager * nat :=
  pingPeer (mkPeer "seed" (gm_seedAddr gm) "" time_zero 0 0 time_zero) out
    (mark "seed" (gm_seedAddr gm) StateAlive st).

(** ** The suspicion check *)

(** The peers of a listing that are marked dead at [now]. *)
Definition overdue (now : Z) (l : list Peer) : list Peer :=
  filter (fun p => State p = StateSuspect /\
                   gm_suspicionWindow gm <= time_Sub now (SuspiciousAt p)) l.

Definition mark_dead (l : list Peer) st : PeerManager * nat :=
  fold_left (fun st p => mark (NodeID p) (Address p) StateDead st) l st.

Definition checkSuspicious `{MapRange} st : PeerManager * nat :=
  let '(pm, t) := st in
  mark_dead (overdue (clock t) (GetAll pm)) (pm, S t).
End Clock.
