(* ===== verification/GossipSpec.v ===== *)
(** * What gossip does to the membership

    The state a merge gives every node, the outcomes of pings, and the time
    line of failure detection. *)

From S2P Require Import Prelude.
From S2P Require Import GoBase.
From S2P Require Import Url.
From S2P Require Import Peer.
From S2P Require Import Gossip.

(** ** Marks *)

Section Marks.
Context (clock : nat -> Z).

Lemma mark_ok id a st (x : PeerManager * nat) : pm_ok x.1 -> pm_ok (mark clock id a st x).1.
Proof. destruct x as [pm t]. intros H. cbn. by apply AddOrUpdate_ok. Qed.

Lemma mark_lookup_ne id a st x k :
  id <> k -> peers (mark clock id a st x).1 !! k = peers x.1 !! k.
Proof. destruct x as [pm t]. intros H. cbn [mark fst]. by apply lookup_AddOrUpdate_ne. Qed.

Lemma mark_lookup id a st x :
  exists now now', peers (mark clock id a st x).1 !! id
    = Some (set_state now now' st (default (mkPeer id a "" time_zero 0 0 time_zero) (peers x.1 !! id))).
Proof. destruct x as [pm t]. eexists _, _. cbn [mark fst]. apply lookup_AddOrUpdate. Qed.

Lemma mark_state id a st x : State <$> peers (mark clock id a st x).1 !! id = Some st.
Proof. destruct (mark_lookup id a st x) as (n & n' & ->). done. Qed.
End Marks.

(** ** Merging *)

(** The state a known or unknown node gets from one entry of a remote list. *)
Definition merge_state (window : Z) (local : option Peer) (rp : Peer) : option string :=
  match local with
  | None => if decide (State rp = StateDead) then None else Some (State rp)
  | Some p =>
      Some (if decide (State p = StateDead) then StateDead
            else if decide (State rp = StateDead) then StateDead
            else if decide (State rp = StateSuspect /\ State p = StateAlive) then StateSuspect
            else if decide (State rp = StateAlive /\ State p = StateSuspect
                            /\ time_After (LastSeen rp) (time_Add (LastSeen p) window) = true)
                 then StateAlive
            else State p)
  end.

Section Merge.
Context (clock : nat -> Z) (gm : GossipManager).

Lemma merge_one_ne st rp k :
  NodeID rp <> k \/ NodeID rp = gm_nodeID gm ->
  peers (merge_one clock gm st rp).1 !! k = peers st.1 !! k.
Proof.
  intros H. destruct st as [pm t]. unfold merge_one, PM_Get.
  destruct (decide (NodeID rp = gm_nodeID gm)); [done|].
  destruct H as [H|]; [|done]. cbn [fst].
  repeat case_match; try done; by rewrite mark_lookup_ne.
Qed.

Lemma merge_one_state st rp :
  NodeID rp <> gm_nodeID gm ->
  State <$> peers (merge_one clock gm st rp).1 !! NodeID rp
  = merge_state (gm_suspicionWindow gm) (peers st.1 !! NodeID rp) rp.
Proof.
  intros H. destruct st as [pm t]. unfold merge_one, PM_Get, merge_state.
  rewrite decide_False by done. cbn [fst].
  destruct (peers pm !! NodeID rp) as [p|] eqn:E; cbn [negb].
  - destruct (decide (State p = StateDead)) as [Hd|]; [cbn [fst]; rewrite E; cbn; by rewrite Hd|].
    case_decide; [apply mark_state|]. case_decide; [apply mark_state|].
    destruct (decide (State rp = StateAlive /\ State p = StateSuspect)) as [[Hra Hps]|Hn].
    + destruct (time_After _ _); [rewrite decide_True by done; apply mark_state|].
      rewrite decide_False by (intros (_ & _ & ?); done). cbn [fst]. by rewrite E.
    + rewrite decide_False by (intros (? & ? & _); by apply Hn). cbn [fst]. by rewrite E.
  - case_decide; [cbn [fst]; by rewrite E|apply mark_state].
Qed.

Lemma merge_one_ok st rp : pm_ok st.1 -> pm_ok (merge_one clock gm st rp).1.
Proof.
  intros H. destruct st as [pm t]. unfold merge_one, PM_Get.
  repeat case_match; try done; by apply mark_ok.
Qed.

Lemma MergePeers_ok rps st : pm_ok st.1 -> pm_ok (MergePeers clock gm rps st).1.
Proof.
  revert st. induction rps as [|rp rps IH]; intros st Hok; [done|]. cbn. apply IH, merge_one_ok, Hok.
Qed.

Lemma MergePeers_notin rps : forall st k,
  k ∉ (NodeID <$> rps) \/ k = gm_nodeID gm ->
  peers (MergePeers clock gm rps st).1 !! k = peers st.1 !! k.
Proof.
  induction rps as [|rp rps IH]; intros st k Hk; [done|]. unfold MergePeers in *. cbn.
  destruct (decide (k = gm_nodeID gm)) as [->|Hne].
  - rewrite IH by auto. apply merge_one_ne. destruct (decide (NodeID rp = gm_nodeID gm)); auto.
  - destruct Hk as [Hk|]; [|done]. rewrite fmap_cons, not_elem_of_cons in Hk. destruct Hk.
    rewrite IH by auto. apply merge_one_ne. left. congruence.
Qed.

Lemma MergePeers_state rps : forall st rp,
  NoDup (NodeID <$> rps) -> rp ∈ rps -> NodeID rp <> gm_nodeID gm ->
  State <$> peers (MergePeers clock gm rps st).1 !! NodeID rp
  = merge_state (gm_suspicionWindow gm) (peers st.1 !! NodeID rp) rp.
Proof.
  induction rps as [|rp' rps IH]; intros st rp Hnd Hin Hne; [by apply not_elem_of_nil in Hin|].
  rewrite fmap_cons in Hnd. apply NoDup_cons in Hnd as [Hni Hnd]. unfold MergePeers in *. cbn.
  apply elem_of_cons in Hin as [->|Hin].
  - fold (MergePeers clock gm rps (merge_one clock gm st rp')).
    rewrite MergePeers_notin by auto. by apply merge_one_state.
  - rewrite IH by done. rewrite merge_one_ne; [done|]. left. intros E. apply Hni. rewrite E.
    apply list_elem_of_fmap. eauto.
Qed.
End Merge.

(** ** The suspicion check *)

Section Check.
Context (clock : nat -> Z) (gm : GossipManager).

Lemma mark_dead_notin l : forall st k,
  k ∉ (NodeID <$> l) -> peers (mark_dead clock l st).1 !! k = peers st.1 !! k.
Proof.
  induction l as [|p l IH]; intros st k Hk; [done|]. unfold mark_dead in *. cbn.
  rewrite fmap_cons, not_elem_of_cons in Hk. destruct Hk.
  rewrite IH by done. apply mark_lookup_ne. congruence.
Qed.

Lemma mark_dead_in l : forall st p,
  NoDup (NodeID <$> l) -> p ∈ l -> peers st.1 !! NodeID p = Some p ->
  exists now, peers (mark_dead clock l st).1 !! NodeID p = Some (set_state now now StateDead p).
Proof.
  induction l as [|p' l IH]; intros st p Hnd Hin Hp; [by apply not_elem_of_nil in Hin|].
  rewrite fmap_cons in Hnd. apply NoDup_cons in Hnd as [Hni Hnd]. unfold mark_dead in *. cbn.
  apply elem_of_cons in Hin as [->|Hin].
  - fold (mark_dead clock l (mark clock (NodeID p') (Address p') StateDead st)).
    rewrite mark_dead_notin by done. destruct (mark_lookup clock (NodeID p') (Address p') StateDead st)
      as (now & now' & ->). rewrite Hp. by exists now.
  - apply IH; [done | done |]. rewrite mark_lookup_ne; [done|]. intros E. apply Hni. rewrite E.
    apply list_elem_of_fmap. eauto.
Qed.

Lemma checkSuspicious_lookup `{MapRange} pm t k :
  pm_ok pm ->
  match peers pm !! k with
  | Some p =>
      exists now, peers (checkSuspicious clock gm (pm, t)).1 !! k
        = Some (if decide (State p = StateSuspect /\
                           gm_suspicionWindow gm <= time_Sub (clock t) (SuspiciousAt p))
                then set_state now now StateDead p else p)
  | None => peers (checkSuspicious clock gm (pm, t)).1 !! k = None
  end.
Proof.
  intros Hok. unfold checkSuspicious.
  assert (NoDup (NodeID <$> overdue gm (clock t) (GetAll pm))) as Hnd.
  { eapply sublist_NoDup; [by apply (GetAll_NoDup pm)|]. 
    apply fmap_sublist, sublist_filter. }
  assert (forall p, p ∈ overdue gm (clock t) (GetAll pm) <->
    (State p = StateSuspect /\ gm_suspicionWindow gm <= time_Sub (clock t) (SuspiciousAt p)) /\
    peers pm !! NodeID p = Some p) as Hel.
  { intros p. unfold overdue. rewrite list_elem_of_filter. by rewrite elem_of_GetAll. }
  assert (forall p, peers pm !! k = Some p -> NodeID p = k) as Hid by (intros p Hp; by apply (Hok k p)).
  destruct (peers pm !! k) as [p|] eqn:E.
  - specialize (Hid p eq_refl). subst k. case_decide as Hd.
    + apply mark_dead_in; [done | by apply Hel | done].
    + exists 0. rewrite mark_dead_notin; [done|]. rewrite list_elem_of_fmap.
      intros (p' & Hp' & Hin%Hel). rewrite <-Hp' in Hin. destruct Hin as [Hin Hl].
      assert (p' = p) as -> by congruence. done.
  - rewrite mark_dead_notin; [done|]. rewrite list_elem_of_fmap. intros (p' & -> & [_ Hl]%Hel).
    cbn in *. congruence.
Qed.
End Check.

(** ** Pings *)

Section Pings.
Context (clock : nat -> Z) (gm : GossipManager).

(** A ping of the record the table holds for [k] at that moment. *)
Definition ping_current (k : string) (out : ping_outcome) (st : PeerManager * nat)
  : PeerManager * nat :=
  match peers st.1 !! k with
  | Some p => pingPeer clock gm p out st
  | None => st
  end.

(** A failed ping of a live peer starts its suspicion. *)
Lemma failed_ping_alive p pm t :
  State p = StateAlive -> peers pm !! NodeID p = Some p ->
  pingPeer clock gm p NoResponse (pm, t)
  = (mkPeerManager (<[NodeID p := set_state (clock (2 + t)%nat) (clock (3 + t)%nat) StateSuspect p]>
       (peers pm)), (4 + t)%nat).
Proof.
  intros Ha Hp. unfold pingPeer, ping_failed. rewrite decide_True by auto.
  unfold mark, AddOrUpdate. by rewrite Hp.
Qed.

(** Further failed pings leave a suspect as it is, unless it is the seed. *)
Lemma failed_ping_suspect p pm t :
  State p = StateSuspect -> NodeID p <> "seed" ->
  pingPeer clock gm p NoResponse (pm, t) = (pm, (2 + t)%nat).
Proof.
  intros Hs Hne. unfold pingPeer, ping_failed. rewrite Hs.
  rewrite decide_False; [done|]. by intros [H|H].
Qed.

Lemma failed_pings_suspect k p n pm t :
  State p = StateSuspect -> NodeID p = k -> k <> "seed" -> peers pm !! k = Some p ->
  exists t', Nat.iter n (ping_current k NoResponse) (pm, t) = (pm, t').
Proof.
  intros Hs <- Hne Hp. induction n as [|n [t' IH]]; [by exists t|].
  rewrite Nat.iter_succ, IH. exists (2 + t')%nat. unfold ping_current. cbn [fst]. rewrite Hp.
  by apply failed_ping_suspect.
Qed.

(** Reports that a live node is alive change nothing. *)
Lemma MergePeers_alive k p rps : forall st,
  State p = StateAlive -> peers st.1 !! k = Some p ->
  Forall (fun rp => NodeID rp = k -> State rp = StateAlive) rps ->
  peers (MergePeers clock gm rps st).1 !! k = Some p.
Proof.
  induction rps as [|rp rps IH]; intros st Ha Hp Hrps; [done|]. inversion Hrps as [|? ? Hrp Hr]; subst.
  unfold MergePeers in *. cbn. apply IH; [done | | done].
  destruct (decide (NodeID rp = k)) as [Hk|]; [|by rewrite merge_one_ne by auto].
  destruct st as [pm t]. cbn [fst] in Hp. unfold merge_one, PM_Get.
  destruct (decide (NodeID rp = gm_nodeID gm)); [done|]. rewrite Hk, Hp. cbn [negb].
  rewrite (Hrp Hk), Ha. done.
Qed.

(** A reply with a peer list: the pinged node is alive and its round trip
    recorded, unless the list itself speaks against it. *)
Lemma ping_reply p id rps pm t :
  (id = NodeID p /\ NodeID p <> "seed" \/
   NodeID p = "seed" /\ exists rp, seed_identity p rps = Some rp /\ NodeID rp = id) ->
  Forall (fun rp => NodeID rp = id -> State rp = StateAlive) rps ->
  exists p', peers (pingPeer clock gm p (Response 200 (Some rps)) (pm, t)).1 !! id = Some p' /\
    State p' = StateAlive /\ RTT p' = time_Sub (clock (S t)) (clock t).
Proof.
  intros Hid Hrps. unfold pingPeer. cbn [negb Z.eqb Pos.eqb].
  assert (exists pm1, (if decide (NodeID p = "seed") then
      match seed_identity p rps with
      | Some rp => (NodeID rp, forget "seed" pm)
      | None => (NodeID p, pm)
      end else (NodeID p, pm)) = (id, pm1)) as [pm1 ->].
  { destruct Hid as [[-> Hne]|(-> & rp & -> & <-)].
    - rewrite decide_False by done. by eexists.
    - rewrite decide_True by done. by eexists. }
  cbn [mark]. rewrite decide_False by done.
  destruct (mark_lookup clock id (Address p) StateAlive (pm1, S (S t))) as (n & n' & E).
  cbn [mark fst] in E. eexists. split; [apply MergePeers_alive; [|cbn [fst]|done]|].
  - instantiate (1 := mkPeer _ _ StateAlive _ _ _ _). done.
  - unfold UpdateRTT. rewrite E. cbn. rewrite lookup_insert_eq. done.
  - done.
Qed.

Lemma MergePeers_absent k rps st :
  peers st.1 !! k = None -> k ∉ (NodeID <$> rps) -> peers (MergePeers clock gm rps st).1 !! k = None.
Proof. intros H Hk. by rewrite MergePeers_notin by auto. Qed.

(** The reply that reveals the seed's identity removes the placeholder. *)
Lemma ping_reply_seed p rp rps pm t :
  NodeID p = "seed" -> seed_identity p rps = Some rp -> "seed" ∉ (NodeID <$> rps) ->
  peers (pingPeer clock gm p (Response 200 (Some rps)) (pm, t)).1 !! "seed" = None.
Proof.
  intros Hs Hrp Hni. unfold pingPeer. cbn [negb Z.eqb Pos.eqb]. rewrite Hs, decide_True, Hrp by done.
  cbn [mark]. rewrite decide_False by done.
  assert (NodeID rp <> "seed") as Hne.
  { intros E. apply Hni. rewrite <-E. apply list_elem_of_fmap. exists rp. split; [done|].
    unfold seed_identity in Hrp. destruct (list_find _ rps) as [[i rp']|] eqn:Ef; [|done].
    injection Hrp as ->. apply list_find_Some in Ef as (Hi & _). by eapply list_elem_of_lookup_2. }
  apply MergePeers_absent; [|done]. cbn [fst].
  rewrite lookup_UpdateRTT_ne, lookup_AddOrUpdate_ne by done. cbn. by rewrite lookup_delete_eq.
Qed.
End Pings.

(** ** The seed's placeholder *)

Section Seed.
Context {R : MapRange} (clock : nat -> Z) (gm : GossipManager).

(** A node that knows only the unreachable seed: one ping and [m] checks. *)
Definition seed_round (m : nat) (st : PeerManager * nat) : PeerManager * nat :=
  Nat.iter m (checkSuspicious clock gm) (ping_current clock gm "seed" NoResponse st).

(** A check that finds nobody overdue changes nothing. *)
Lemma checks_fresh (p : Peer) pm i : forall m t,
  peers pm = {[ "seed" := p ]} -> NodeID p = "seed" -> SuspiciousAt p = clock i ->
  (forall j, (i <= j <= i + m)%nat -> time_Sub (clock j) (clock i) < gm_suspicionWindow gm) ->
  (i < t)%nat -> (t + m <= S (i + m))%nat ->
  Nat.iter m (checkSuspicious clock gm) (pm, t) = (pm, (m + t)%nat).
Proof.
  intros m t Hpm Hid Hsa Hw Ht Hm.
  assert (forall n, (n <= m)%nat -> Nat.iter n (checkSuspicious clock gm) (pm, t) = (pm, (n + t)%nat))
    as Hn; [|by apply Hn].
  induction n as [|n IH]; intros Hle; [done|]. rewrite Nat.iter_succ, IH by lia.
  assert (overdue gm (clock (n + t)%nat) (GetAll pm) = []) as E.
  { unfold overdue, GetAll. rewrite Hpm.
    assert (range {[ "seed" := p ]} = [("seed", p)]) as ->.
    { apply Permutation_singleton_r. by rewrite range_perm, map_to_list_singleton. }
    change ([("seed", p)].*2) with [p]. rewrite filter_cons_False; [done|]. intros [_ Hd]. rewrite Hsa in Hd.
    specialize (Hw (n + t)%nat). lia. }
  unfold checkSuspicious. by rewrite E.
Qed.

Lemma seed_round_suspect m p pm t :
  peers pm = {[ "seed" := p ]} -> NodeID p = "seed" ->
  (forall i j, (i <= j <= i + m)%nat -> time_Sub (clock j) (clock i) < gm_suspicionWindow gm) ->
  exists p', seed_round m (pm, t) = (mkPeerManager {[ "seed" := p' ]}, (m + (4 + t))%nat) /\
    NodeID p' = "seed" /\ State p' = StateSuspect.
Proof.
  intros Hpm Hid Hw. unfold seed_round, ping_current. cbn [fst]. rewrite Hpm, lookup_singleton_eq.
  unfold pingPeer, ping_failed. rewrite decide_True by auto.
  unfold mark, AddOrUpdate. rewrite Hpm, Hid, lookup_singleton_eq, insert_singleton_eq.
  exists (set_state (clock (S (S t))) (clock (S (S (S t)))) StateSuspect p).
  split; [|done].
  change (if decide (StateSuspect = StateSuspect) then S (S (S (S t))) else S (S (S t))) with (4 + t)%nat.
  rewrite (checks_fresh (set_state (clock (S (S t))) (clock (S (S (S t)))) StateSuspect p)
    _ (3 + t)%nat m); [done | done | exact Hid | done | | lia | lia].
  intros j Hj. apply Hw. lia.
Qed.
End Seed.

(** ** Properties *)

(** C34: merging a remote list (every node in it once) gives every node the
    state the priority rule says, independently of the order of the list and
    of the clock: nodes the list does not mention and the node itself keep
    their record; an unknown node is learned unless it is reported dead; a
    node that is dead here stays dead; otherwise dead wins, suspect beats
    alive, and a report of life clears a suspicion only when the remote saw
    the node more than the suspicion window after it was last seen here. *)
Theorem merge_follows_priority clock gm pm t remotePeers :
  NoDup (NodeID <$> remotePeers) ->
  let pm' := (MergePeers clock gm remotePeers (pm, t)).1 in
  (forall k, k ∉ (NodeID <$> remotePeers) \/ k = gm_nodeID gm -> peers pm' !! k = peers pm !! k) /\
  (forall rp, rp ∈ remotePeers -> NodeID rp <> gm_nodeID gm ->
     State <$> peers pm' !! NodeID rp
     = merge_state (gm_suspicionWindow gm) (peers pm !! NodeID rp) rp) /\
  (pm_ok pm -> pm_ok pm').
Proof.
  intros Hnd pm'. split; [|split].
  - intros k Hk. by apply MergePeers_notin.
  - intros rp Hin Hne. by apply MergePeers_state.
  - intros Hok. by apply MergePeers_ok.
Qed.

Definition gm_a : GossipManager :=
  NewGossipManager "a" "10.0.0.1:1" "" Second (200 * Millisecond) (5 * Second).
Definition peer_at (id state : string) (seen since : Z) : Peer :=
  mkPeer id (id +:+ ":1") state seen 0 0 since.

(** Node a knows b as suspect since 10 and hears that it was seen at 20s. *)
Lemma merge_follows_priority_witness :
  let pm := mkPeerManager {[ "b" := peer_at "b" StateSuspect 10 10 ]} in
  let rp := peer_at "b" StateAlive (20 * Second) 0 in
  State <$> peers (MergePeers (fun _ => 30 * Second) gm_a [rp] (pm, 0%nat)).1 !! "b"
  = Some StateAlive.
Proof.
  intros pm rp.
  refine (eq_trans (proj1 (proj2
    (merge_follows_priority (fun _ => 30 * Second) gm_a pm 0 [rp] _)) rp _ _) _).
  - apply NoDup_singleton.
  - constructor.
  - discriminate.
  - vm_compute. reflexivity.
Defined.

(** The suspicion check declares dead exactly the suspects whose
    suspicion is at least as old as the window, and leaves every other record,
    and the set of known nodes, as it was. *)
Theorem check_suspicious_exact `{MapRange} clock gm pm t :
  pm_ok pm ->
  let pm' := (checkSuspicious clock gm (pm, t)).1 in
  forall k,
  match peers pm !! k with
  | Some p => exists now, peers pm' !! k
      = Some (if decide (State p = StateSuspect /\
                         gm_suspicionWindow gm <= time_Sub (clock t) (SuspiciousAt p))
              then set_state now now StateDead p else p)
  | None => peers pm' !! k = None
  end.
Proof. intros Hok pm' k. by apply checkSuspicious_lookup. Qed.

Lemma check_suspicious_exact_witness :
  let pm := mkPeerManager {[ "b" := peer_at "b" StateSuspect 10 10 ]} in
  exists now, peers (checkSuspicious (fun _ => 6 * Second) gm_a (pm, 0%nat)).1 !! "b"
    = Some (set_state now now StateDead (peer_at "b" StateSuspect 10 10)).
Proof.
  intros pm.
  refine (check_suspicious_exact (fun _ => 6 * Second) gm_a pm 0 _ "b").
  apply map_Forall_singleton. reflexivity.
Defined.

(** C33: failure detection.  When a ping of a live node gets no response, the
    node becomes suspect, any number of further failed pings neither clear nor
    prolong the suspicion, and the next suspicion check declares it dead if
    and only if the window has passed since that first failed ping. *)
Theorem failed_node_is_declared_dead `{MapRange} clock gm pm t p n :
  pm_ok pm -> peers pm !! NodeID p = Some p -> State p = StateAlive -> NodeID p <> "seed" ->
  let st := Nat.iter n (ping_current clock gm (NodeID p) NoResponse)
              (pingPeer clock gm p NoResponse (pm, t)) in
  State <$> peers st.1 !! NodeID p = Some StateSuspect /\
  State <$> peers (checkSuspicious clock gm st).1 !! NodeID p
  = Some (if gm_suspicionWindow gm <=? time_Sub (clock st.2) (clock (3 + t)%nat)
          then StateDead else StateSuspect).
Proof.
  intros Hok Hp Ha Hne st. subst st. rewrite failed_ping_alive by done.
  set (p1 := set_state _ _ StateSuspect p).
  assert (pm_ok (mkPeerManager (<[NodeID p := p1]> (peers pm)))) as Hok1
    by (by apply map_Forall_insert_2).
  destruct (failed_pings_suspect clock gm (NodeID p) p1 n
    (mkPeerManager (<[NodeID p := p1]> (peers pm))) (4 + t)) as [t' ->];
    [done | done | done | cbn; by rewrite lookup_insert_eq |].
  pose proof (checkSuspicious_lookup clock gm _ t' (NodeID p) Hok1) as Hc.
  cbn [peers fst snd] in *. rewrite lookup_insert_eq in Hc |- *. destruct Hc as [now ->].
  split; [done|].
  assert (SuspiciousAt p1 = clock (3 + t)%nat) as -> by reflexivity.
  destruct (Z.leb_spec (gm_suspicionWindow gm) (time_Sub (clock t') (clock (3 + t)%nat))).
  - by rewrite decide_True.
  - rewrite decide_False; [done|]. intros [_ Hw]. lia.
Qed.

Lemma failed_node_is_declared_dead_witness :
  let clock := fun n => Z.of_nat n * Second in
  let p := peer_at "b" StateAlive 0 0 in
  let st := Nat.iter 3 (ping_current clock gm_a "b" NoResponse)
    (pingPeer clock gm_a p NoResponse (mkPeerManager {[ "b" := p ]}, 0%nat)) in
  State <$> peers (checkSuspicious clock gm_a st).1 !! "b" = Some StateDead.
Proof.
  intros clock p.
  refine (proj2 (failed_node_is_declared_dead clock gm_a (mkPeerManager {[ "b" := p ]}) 0 p 3 _ _ _ _)).
  - apply map_Forall_singleton. reflexivity.
  - reflexivity.
  - reflexivity.
  - discriminate.
Defined.

(** A ping that succeeds clears everything held against the node.  If the
    reply does not itself speak against the pinged node, the node is alive
    afterwards, whatever its state was, with the measured round trip; for the
    placeholder of the seed the record is that of the node the reply names at
    the seed's address, and the placeholder is gone. *)
Theorem ping_success_marks_alive clock gm pm t p rps id :
  (id = NodeID p /\ NodeID p <> "seed" \/
   NodeID p = "seed" /\ exists rp, seed_identity p rps = Some rp /\ NodeID rp = id) ->
  Forall (fun rp => NodeID rp = id -> State rp = StateAlive) rps -> "seed" ∉ (NodeID <$> rps) ->
  let pm' := (pingPeer clock gm p (Response 200 (Some rps)) (pm, t)).1 in
  (exists p', peers pm' !! id = Some p' /\ State p' = StateAlive /\
     RTT p' = time_Sub (clock (S t)) (clock t)) /\
  (NodeID p = "seed" -> peers pm' !! "seed" = None).
Proof.
  intros Hid Hrps Hni pm'. split; [by apply ping_reply|]. intros Hs.
  destruct Hid as [[_ ?]|(_ & rp & Hrp & _)]; [done|]. by eapply ping_reply_seed.
Qed.

Lemma ping_success_marks_alive_witness :
  let seed := mkPeer "seed" "b:1" StateAlive 0 0 0 0 in
  let pm := mkPeerManager {[ "seed" := seed ]} in
  peers (pingPeer (fun n => Z.of_nat n) gm_a seed
    (Response 200 (Some [peer_at "b" StateAlive 0 0])) (pm, 0%nat)).1 !! "seed" = None.
Proof.
  intros seed pm.
  refine (proj2 (ping_success_marks_alive (fun n => Z.of_nat n) gm_a pm 0 seed
    [peer_at "b" StateAlive 0 0] "b" _ _ _) _).
  - right. split; [done|]. eexists. split; reflexivity.
  - repeat constructor.
  - cbn. intros Hin. apply list_elem_of_singleton in Hin. discriminate.
  - reflexivity.
Defined.

(** With a clock past 1970 a tick never panics; it pings nobody only when
    there is nobody to ping, never pings the node itself or a dead node, and
    every other node is pinged at some reading of the clock. *)
Theorem tick_pings_live_peers `{MapRange} gm pm :
  pm_ok pm ->
  (forall now, 0 <= UnixNano now ->
     match tick now gm pm with
     | None => False
     | Some None => forall k p, peers pm !! k = Some p -> k = gm_nodeID gm \/ State p = StateDead
     | Some (Some p) =>
         peers pm !! NodeID p = Some p /\ NodeID p <> gm_nodeID gm /\ State p <> StateDead
     end) /\
  (forall k p, peers pm !! k = Some p -> k <> gm_nodeID gm -> State p <> StateDead ->
     Z.of_nat (size (peers pm)) < 2 ^ 63 ->
     exists now, 0 <= UnixNano now /\ tick now gm pm = Some (Some p)).
Proof.
  intros Hok.
  assert (forall p, p ∈ filter (fun p => ping_candidate gm p = true) (GetAll pm) <->
    peers pm !! NodeID p = Some p /\ NodeID p <> gm_nodeID gm /\ State p <> StateDead) as Hc.
  { intros p. rewrite list_elem_of_filter, elem_of_GetAll by done. unfold ping_candidate.
    rewrite negb_true_iff, orb_false_iff, !bool_decide_eq_false. tauto. }
  unfold tick. split.
  - intros now Hnow. set (l := filter _ _) in *. destruct (Z.eqb_spec (Z.of_nat (length l)) 0) as [Hl|Hl].
    + intros k p Hp. assert (NodeID p = k) as <- by (by apply (Hok k p)).
      destruct (decide (NodeID p = gm_nodeID gm)); [by left|].
      destruct (decide (State p = StateDead)); [by right|].
      assert (p ∈ l) as Hin by (by apply Hc). destruct l; [by apply not_elem_of_nil in Hin | cbn in Hl; lia].
    + pose proof (Z.rem_bound_pos (UnixNano now) (Z.of_nat (length l)) Hnow ltac:(lia)) as Hb.
      destruct (Z.ltb_spec (Z.rem (UnixNano now) (Z.of_nat (length l))) 0); [lia|].
      destruct (lookup_lt_is_Some_2 l (Z.to_nat (Z.rem (UnixNano now) (Z.of_nat (length l))))) as [p Hp];
        [lia|]. rewrite Hp. cbn. apply Hc. by eapply list_elem_of_lookup_2.
  - intros k p Hp Hk Hd Hsz. assert (NodeID p = k) as <- by (by apply (Hok k p)).
    assert (length (filter (fun p => ping_candidate gm p = true) (GetAll pm)) <= size (peers pm))%nat as Hlen.
    { etrans; [apply length_filter|]. unfold GetAll. by rewrite length_fmap, length_range. }
    set (l := filter _ _) in *.
    assert (p ∈ l) as [i Hi]%list_elem_of_lookup by (by apply Hc).
    pose proof (lookup_lt_Some _ _ _ Hi) as Hlt. exists (time_Unix (Z.of_nat i)).
    assert (UnixNano (time_Unix (Z.of_nat i)) = Z.of_nat i) as ->.
    { unfold UnixNano, time_Unix. rewrite i64_small; [lia|]. unfold is_i64. lia. }
    split; [lia|]. destruct (Z.eqb_spec (Z.of_nat (length l)) 0); [lia|].
    rewrite Z.rem_small by lia. destruct (Z.ltb_spec (Z.of_nat i) 0); [lia|].
    by rewrite Nat2Z.id, Hi.
Qed.

Lemma tick_pings_live_peers_witness :
  let pm := mkPeerManager {[ "b" := peer_at "b" StateSuspect 0 0 ]} in
  exists now, 0 <= UnixNano now /\ tick now gm_a pm = Some (Some (peer_at "b" StateSuspect 0 0)).
Proof.
  intros pm.
  refine (proj2 (tick_pings_live_peers gm_a pm _) "b" (peer_at "b" StateSuspect 0 0) _ _ _ _).
  - apply map_Forall_singleton. reflexivity.
  - reflexivity.
  - discriminate.
  - discriminate.
  - vm_compute. reflexivity.
Defined.

(** An unreachable seed is never declared dead.  A failed ping of the
    placeholder restarts its suspicion, so while the node pings it more often
    than once per window, it stays suspect for any number of rounds, however
    long they take together. *)
Theorem unreachable_seed_never_dies `{MapRange} clock gm m p pm t n :
  peers pm = {[ "seed" := p ]} -> NodeID p = "seed" ->
  (forall i j, (i <= j <= i + m)%nat -> time_Sub (clock j) (clock i) < gm_suspicionWindow gm) ->
  exists p', peers (Nat.iter (S n) (seed_round clock gm m) (pm, t)).1 = {[ "seed" := p' ]} /\
    State p' = StateSuspect.
Proof.
  intros Hpm Hid Hw.
  assert (exists p' t', Nat.iter (S n) (seed_round clock gm m) (pm, t)
      = (mkPeerManager {[ "seed" := p' ]}, t') /\ NodeID p' = "seed" /\ State p' = StateSuspect)
    as (p' & t' & -> & _ & Hs); [|by exists p'].
  induction n as [|n (p' & t' & IH & Hid' & _)].
  - destruct (seed_round_suspect clock gm m p pm t Hpm Hid Hw) as (p' & E & Hp').
    exists p'. eexists. split; [exact E | done].
  - rewrite Nat.iter_succ, IH.
    destruct (seed_round_suspect clock gm m p' (mkPeerManager {[ "seed" := p' ]}) t' eq_refl Hid' Hw)
      as (p2 & E & Hp2). eauto.
Qed.

(** A ping and two checks per second, for an hour. *)
Lemma unreachable_seed_never_dies_witness :
  let clock := fun i => Z.of_nat i * Second in
  let p := mkPeer "seed" "b:1" StateAlive 0 0 0 0 in
  exists p', peers (Nat.iter 3600 (seed_round clock gm_a 2)
    (mkPeerManager {[ "seed" := p ]}, 0%nat)).1 = {[ "seed" := p' ]} /\ State p' = StateSuspect.
Proof.
  intros clock p.
  apply (unreachable_seed_never_dies clock gm_a 2 p (mkPeerManager {[ "seed" := p ]}) 0 3599).
  - reflexivity.
  - reflexivity.
  - intros i j Hij. subst clock. unfold time_Sub, gm_a, Second. cbn [gm_suspicionWindow NewGossipManager].
    lia.
Defined.

(** The suspicion check works on a copy of the table and can kill a node
    that has answered in the meantime: the check lists node b as overdue, b
    pings and is marked alive, and the check's mark then declares b dead; b is
    not pinged any more. *)
Theorem check_can_kill_answering_node :
  let pm := mkPeerManager {[ "b" := peer_at "b" StateSuspect 10 10 ]} in
  let now := time_Unix (6 * Second) in
  let listed := overdue gm_a now (GetAll pm) in
  let pm1 := AddOrUpdate now now "b" "b:1" StateAlive pm in
  let pm2 := (mark_dead (fun _ => now) listed (pm1, 0%nat)).1 in
  State <$> peers pm1 !! "b" = Some StateAlive /\
  State <$> peers pm2 !! "b" = Some StateDead /\ tick now gm_a pm2 = Some None.
Proof. vm_compute. auto. Qed.

(** The receiver of a ping reads back exactly the sender's id and address
    from the query, whatever characters they contain. *)
Theorem ping_query_roundtrip gm :
  query_get (ping_query gm) "sender_id" = gm_nodeID gm /\
  query_get (ping_query gm) "sender_addr" = gm_address gm.
Proof.
  pose proof (parse_two_pairs "sender_id" "sender_addr" (gm_nodeID gm) (gm_address gm)
    eq_refl eq_refl) as E.
  cbv zeta in E. unfold query_get.
  match type of E with parse_query _ ?q = _ => change (ping_query gm) with q end.
  rewrite E. done.
Qed.
