(* ===== verification/Replication.v ===== *)
(** * The replicator: [internal/cluster/replication.go]

    [Replicate] computes the requests to send, one per goroutine it starts;
    [replicateToPeer] is what such a goroutine does once the outcome of its
    request is known. *)

From S2P Require Import Prelude.
From S2P Require Import GoBase.
From S2P Require Import Wal.
From S2P Require Import Peer.

Record ReplicateRequest := mkReplicateRequest {
  req_Key : string;
  req_Value : list byte;
  req_Version : Z;
  req_ExpiresAt : Z;      (* UnixNano, 0 for none *)
  req_Action : string     (* "SET" or "DELETE" *)
}.

Record Replicator := mkReplicator {
  rp_nodeID : string;
  rp_timeout : Z;
  rp_lastServed : Z
}.

Definition NewReplicator (nodeID : string) (timeout : Z) : Replicator :=
  mkReplicator nodeID timeout 0.

Definition UpdateLastServed (version : Z) (r : Replicator) : Replicator :=
  if rp_lastServed r <? version then mkReplicator (rp_nodeID r) (rp_timeout r) version else r.

(** Whom a write is sent to: everybody but the node itself and the dead. *)
Definition replication_target (r : Replicator) (p : Peer) : bool :=
  negb (bool_decide (NodeID p = rp_nodeID r) || bool_decide (State p = StateDead)).

(** The request body a goroutine sends. *)
Definition replicate_request (key : string) (value : list byte) (version expiresAt : Z)
    (action : string) : ReplicateRequest :=
  mkReplicateRequest key value version (expNano_of expiresAt) action.

(** The goroutines [Replicate] starts: the peer and the request of each. *)
Definition Replicate `{MapRange} (key : string) (value : list byte) (version expiresAt : Z)
    (action : string) (pm : PeerManager) (r : Replicator)
  : Replicator * list (Peer * ReplicateRequest) :=
  let r := UpdateLastServed version r in
  (r, (fun p => (p, replicate_request key value version expiresAt action))
      <$> filter (fun p => replication_target r p = true) (GetAll pm)).

(** The sender id is not escaped here. *)
Definition replicate_url (r : Replicator) (p : Peer) : string :=
  "http://" +:+ Address p +:+ "/internal/replicate?sender_id=" +:+ rp_nodeID r.

(** The URL is rejected, no response arrives, or a response with its status. *)
Inductive send_outcome := SendBadRequest | SendNoResponse | SendResponse (status : Z).

(** [int64(r.lastServed) - int64(version)]. *)
Definition lag_of (r : Replicator) (version : Z) : Z := i64 (i64 (rp_lastServed r) - i64 version).

(** What the goroutine records, with the replicator as it is when the outcome
    is known. *)
Definition replicateToPeer (r : Replicator) (p : Peer) (version : Z) (out : send_outcome)
    (pm : PeerManager) : PeerManager :=
  match out with
  | SendBadRequest => pm
  | SendNoResponse => UpdateLag (NodeID p) (lag_of r version) pm
  | SendResponse status =>
      if status =? 200 then
        let lag := lag_of r version in
        UpdateLag (NodeID p) (if lag <? 0 then 0 else lag) pm
      else UpdateLag (NodeID p) (lag_of r version) pm
  end.

(** ** Facts *)

Lemma UpdateLastServed_max version r :
  rp_lastServed (UpdateLastServed version r) = Z.max (rp_lastServed r) version /\
  rp_nodeID (UpdateLastServed version r) = rp_nodeID r.
Proof. unfold UpdateLastServed. destruct (Z.ltb_spec (rp_lastServed r) version); cbn; lia || (split; [lia|done]). Qed.

Lemma replication_target_true r p :
  replication_target r p = true <-> NodeID p <> rp_nodeID r /\ State p <> StateDead.
Proof.
  unfold replication_target. rewrite negb_true_iff, orb_false_iff, !bool_decide_eq_false. tauto.
Qed.

(** A write is sent exactly once to every known node other than the
    writer and the dead ones, each request carrying the write, and the
    highest version served is kept. *)
Theorem replicate_reaches_every_live_peer `{MapRange} key value version expiresAt action pm r :
  pm_ok pm ->
  let '(r', sends) := Replicate key value version expiresAt action pm r in
  rp_lastServed r' = Z.max (rp_lastServed r) version /\
  NoDup (NodeID ∘ fst <$> sends) /\
  forall p req, (p, req) ∈ sends <->
    req = replicate_request key value version expiresAt action /\
    peers pm !! NodeID p = Some p /\ NodeID p <> rp_nodeID r /\ State p <> StateDead.
Proof.
  intros Hok. unfold Replicate. destruct (UpdateLastServed_max version r) as [Hl Hid].
  split; [done|]. split.
  - rewrite <-list_fmap_compose. eapply sublist_NoDup; [by apply (GetAll_NoDup pm)|].
    apply fmap_sublist, sublist_filter.
  - intros p req. rewrite list_elem_of_fmap. split.
    + intros (p' & [= -> ->] & [Ht Hin]%list_elem_of_filter).
      apply replication_target_true in Ht. rewrite Hid in Ht. by apply elem_of_GetAll in Hin.
    + intros (-> & Hp & Ht). exists p. split; [done|]. apply list_elem_of_filter.
      rewrite elem_of_GetAll by done. split; [|done]. apply replication_target_true. by rewrite Hid.
Qed.

Lemma replicate_reaches_every_live_peer_witness :
  let b := mkPeer "b" "b:1" StateSuspect 0 0 0 0 in
  let c := mkPeer "c" "c:1" StateDead 0 0 0 0 in
  let pm := mkPeerManager (<["b" := b]> {[ "c" := c ]}) in
  let '(r', sends) := Replicate "k" [] 7 time_zero "SET" pm (NewReplicator "a" 0) in
  (b, replicate_request "k" [] 7 time_zero "SET") ∈ sends /\
  (c, replicate_request "k" [] 7 time_zero "SET") ∉ sends.
Proof.
  intros b c pm.
  assert (pm_ok pm) as Hok.
  { apply map_Forall_insert_2; [reflexivity|]. apply map_Forall_singleton. reflexivity. }
  destruct (Replicate "k" [] 7 time_zero "SET" pm (NewReplicator "a" 0)) as [r' sends] eqn:E.
  pose proof (replicate_reaches_every_live_peer "k" [] 7 time_zero "SET" pm (NewReplicator "a" 0) Hok)
    as H. rewrite E in H. destruct H as (_ & _ & H). split.
  - apply H. repeat split; discriminate.
  - intros (_ & _ & _ & Hd)%H. apply Hd. reflexivity.
Defined.

(** C29: the lag recorded for a peer.  With versions below 2^63 (nanosecond
    clock readings until the year 2262) the replicator that has served
    [lastServed] records, when a request of an own write completes, the
    distance of that write from the newest one: never negative, zero exactly
    for the newest, the same whether the peer answered or not, and for no
    other peer. *)
Theorem lag_is_distance_to_newest r p version out pm q :
  0 <= version <= rp_lastServed r -> rp_lastServed r < 2 ^ 63 ->
  peers pm !! NodeID p = Some q -> out <> SendBadRequest ->
  let pm' := replicateToPeer r p version out pm in
  ReplicationLag <$> peers pm' !! NodeID p = Some (rp_lastServed r - version) /\
  (forall k, k <> NodeID p -> peers pm' !! k = peers pm !! k).
Proof.
  intros Hv Hl Hq Hout.
  assert (lag_of r version = rp_lastServed r - version) as Hlag.
  { unfold lag_of. rewrite (i64_small (rp_lastServed r)), (i64_small version), i64_small;
      unfold is_i64; lia. }
  assert (replicateToPeer r p version out pm = UpdateLag (NodeID p) (rp_lastServed r - version) pm) as E.
  { destruct out as [| |status]; [done | cbn; by rewrite Hlag |]. cbn. rewrite Hlag.
    destruct (status =? 200); [|done]. by destruct (Z.ltb_spec (rp_lastServed r - version) 0); [lia|]. }
  cbv zeta. rewrite E. unfold UpdateLag. rewrite Hq. cbn. split.
  - by rewrite lookup_insert_eq.
  - intros k Hk. by rewrite lookup_insert_ne.
Qed.

Lemma lag_is_distance_to_newest_witness :
  let b := mkPeer "b" "b:1" StateAlive 0 0 0 0 in
  let pm := mkPeerManager {[ "b" := b ]} in
  ReplicationLag <$>
    peers (replicateToPeer (mkReplicator "a" 0 10) b 7 (SendResponse 500) pm) !! "b" = Some 3.
Proof.
  intros b pm.
  refine (proj1 (lag_is_distance_to_newest (mkReplicator "a" 0 10) b 7 (SendResponse 500) pm b _ _ _ _)).
  - cbn. lia.
  - cbn. lia.
  - reflexivity.
  - discriminate.
Defined.
