(* ===== verification/Config.v ===== *)
(** * Configuration: [internal/config/config.go]

    [getEnv], [getEnvInt] and [Load].  The process environment, the flags
    given on the command line, the host name and the outcome of creating the
    data directory are arguments. *)

From S2P Require Import Prelude.
From S2P Require Import GoBase.
From S2P Require Import Strconv.

Record Config := mkConfig {
  cfg_NodeID : string;
  cfg_Port : Z;
  cfg_DataDir : string;
  cfg_SeedAddress : string;
  cfg_GossipInterval : Z;
  cfg_PingTimeout : Z;
  cfg_SuspicionWindow : Z;
  cfg_ReplicationTimeout : Z;
  cfg_ReapInterval : Z;
  cfg_AdvertiseAddr : string
}.

(** The environment variables that are set. *)
Abbreviation Env := (gmap string string).

(** The flags given on the command line, with their parsed values. *)
Record Flags := mkFlags {
  fl_string : gmap string string;
  fl_int : gmap string Z
}.

Definition getEnv (env : Env) (key fallback : string) : string :=
  match env !! key with Some val => val | None => fallback end.

Definition getEnvInt (env : Env) (key : string) (fallback : Z) : Z :=
  match env !! key with
  | Some val => match Atoi val with Some i => i | None => fallback end
  | None => fallback
  end.

(** The value of a flag variable after [flag.Parse]. *)
Definition StringVar (fl : Flags) (name default_ : string) : string := default default_ (fl_string fl !! name).
Definition IntVar (fl : Flags) (name : string) (default_ : Z) : Z := default default_ (fl_int fl !! name).

(** [time.Duration(n) * unit], in [int64] arithmetic. *)
Definition Duration (n unit_ : Z) : Z := i64 (n * unit_).

(** [hostname = None] is a failed [os.Hostname]; [None] is the error of a data
    directory that cannot be created. *)
Definition Load (env : Env) (fl : Flags) (hostname : option string) (mkdir_ok : bool) : option Config :=
  let nodeID := StringVar fl "node-id" (getEnv env "KV_NODE_ID" "") in
  let port := IntVar fl "port" (getEnvInt env "KV_PORT" 8080) in
  let dataDir := StringVar fl "data-dir" (getEnv env "KV_DATA_DIR" "./data") in
  let seedAddress := StringVar fl "seed-addr" (getEnv env "KV_SEED_ADDR" "") in
  let advertiseAddr := StringVar fl "advertise-addr" (getEnv env "KV_ADVERTISE_ADDR" "") in
  let gossipSec := IntVar fl "gossip-interval-sec" (getEnvInt env "KV_GOSSIP_INTERVAL_SEC" 1) in
  let pingMs := IntVar fl "ping-timeout-ms" (getEnvInt env "KV_PING_TIMEOUT_MS" 200) in
  let suspSec := IntVar fl "suspicion-window-sec" (getEnvInt env "KV_SUSPICION_WINDOW_SEC" 5) in
  let replMs := IntVar fl "replication-timeout-ms" (getEnvInt env "KV_REPLICATION_TIMEOUT_MS" 500) in
  let reapSec := IntVar fl "reap-interval-sec" (getEnvInt env "KV_REAP_INTERVAL_SEC" 5) in
  let nodeID :=
    if decide (nodeID = "") then
      match hostname with Some h => h | None => "node-" +:+ Itoa port end
    else nodeID in
  let advertiseAddr :=
    if decide (advertiseAddr = "") then
      match hostname with
      | Some h => h +:+ ":" +:+ Itoa port
      | None => "localhost:" +:+ Itoa port
      end
    else advertiseAddr in
  if mkdir_ok then
    Some (mkConfig nodeID port dataDir seedAddress (Duration gossipSec Second)
            (Duration pingMs Millisecond) (Duration suspSec Second) (Duration replMs Millisecond)
            (Duration reapSec Second) advertiseAddr)
  else None.

(** [time.NewTicker] panics ([None]) on an interval that is not positive. *)
Definition NewTicker (d : Z) : option Z := if 0 <? d then Some d else None.

(** ** The settings *)

(** Where the value of a setting comes from: the flag if it is given, else the
    environment variable, else the default.  A variable that is set to
    something that is not an integer does not count for a number. *)
Inductive chosen {A} (flag : option A) (var : option string) (read : string -> option A) (dflt : A)
  : A -> Prop :=
  | from_flag v : flag = Some v -> chosen flag var read dflt v
  | from_env s v : flag = None -> var = Some s -> read s = Some v -> chosen flag var read dflt v
  | from_default : flag = None -> (forall s, var = Some s -> read s = None) ->
      chosen flag var read dflt dflt.

Record setting (A : Type) := mkSetting {
  st_field : Config -> A;      (* where [Load] puts it *)
  st_flag : string;
  st_var : string;
  st_default : A;
  st_unit : A -> A             (* from the number given to the value stored *)
}.
Arguments mkSetting {A}. Arguments st_field {A}. Arguments st_flag {A}. Arguments st_var {A}.
Arguments st_default {A}. Arguments st_unit {A}.

(** The settings with their names and defaults, as the flags' help texts give
    them. *)
Definition int_settings : list (setting Z) :=
  [mkSetting cfg_Port "port" "KV_PORT" 8080 (fun n => n);
   mkSetting cfg_GossipInterval "gossip-interval-sec" "KV_GOSSIP_INTERVAL_SEC" 1
     (fun n => i64 (n * 1000000000));
   mkSetting cfg_PingTimeout "ping-timeout-ms" "KV_PING_TIMEOUT_MS" 200 (fun n => i64 (n * 1000000));
   mkSetting cfg_SuspicionWindow "suspicion-window-sec" "KV_SUSPICION_WINDOW_SEC" 5
     (fun n => i64 (n * 1000000000));
   mkSetting cfg_ReplicationTimeout "replication-timeout-ms" "KV_REPLICATION_TIMEOUT_MS" 500
     (fun n => i64 (n * 1000000));
   mkSetting cfg_ReapInterval "reap-interval-sec" "KV_REAP_INTERVAL_SEC" 5
     (fun n => i64 (n * 1000000000))].

(** The id and the address are replaced when they come out empty: by the host
    name and, for the address, the port. *)
Definition or_else (fallback v : string) : string := if decide (v = "") then fallback else v.

Definition string_settings (hostname : option string) (port : Z) : list (setting string) :=
  [mkSetting cfg_DataDir "data-dir" "KV_DATA_DIR" "./data" (fun v => v);
   mkSetting cfg_SeedAddress "seed-addr" "KV_SEED_ADDR" "" (fun v => v);
   mkSetting cfg_NodeID "node-id" "KV_NODE_ID" ""
     (or_else (default ("node-" +:+ Itoa port) hostname));
   mkSetting cfg_AdvertiseAddr "advertise-addr" "KV_ADVERTISE_ADDR" ""
     (or_else (default "localhost" hostname +:+ ":" +:+ Itoa port))].

Lemma StringVar_chosen env fl flag var dflt :
  chosen (fl_string fl !! flag) (env !! var) Some dflt (StringVar fl flag (getEnv env var dflt)).
Proof.
  unfold StringVar, getEnv. destruct (fl_string fl !! flag) as [v|]; [by apply from_flag|].
  destruct (env !! var) as [s|]; [by eapply from_env | by apply from_default].
Qed.

Lemma IntVar_chosen env fl flag var dflt :
  chosen (fl_int fl !! flag) (env !! var) Atoi dflt (IntVar fl flag (getEnvInt env var dflt)).
Proof.
  unfold IntVar, getEnvInt. destruct (fl_int fl !! flag) as [v|]; [by apply from_flag|].
  destruct (env !! var) as [s|]; [|by apply from_default]. cbn.
  destruct (Atoi s) as [n|] eqn:E; [by eapply from_env|].
  apply from_default; [done|]. by intros ? [= <-].
Qed.

(** C37: all ten settings.  When the data directory can be created, [Load]
    succeeds, and each setting of the tables has the value of its flag if the
    flag is given, else that of its environment variable if that is set (and,
    for a number, an integer), else its default; durations are the number of
    seconds or milliseconds in nanoseconds, wrapped to 64 bits; an empty node
    id becomes the host name (or ["node-<port>"]), an empty address the host
    name (or ["localhost"]) with the port.  When the directory cannot be
    created [Load] fails. *)
Theorem config_precedence env fl hostname :
  (exists cfg, Load env fl hostname true = Some cfg /\
     (forall st, st ∈ int_settings -> exists n,
        chosen (fl_int fl !! st_flag st) (env !! st_var st) Atoi (st_default st) n /\
        st_field st cfg = st_unit st n) /\
     (forall st, st ∈ string_settings hostname (cfg_Port cfg) -> exists v,
        chosen (fl_string fl !! st_flag st) (env !! st_var st) Some (st_default st) v /\
        st_field st cfg = st_unit st v)) /\
  Load env fl hostname false = None.
Proof.
  split; [|done]. eexists. split; [reflexivity|]. split.
  - intros st Hst. unfold int_settings in Hst. rewrite !elem_of_cons, elem_of_nil in Hst.
    repeat destruct Hst as [->|Hst]; try done; eexists; (split; [apply IntVar_chosen | reflexivity]).
  - intros st Hst. unfold string_settings in Hst. rewrite !elem_of_cons, elem_of_nil in Hst.
    repeat destruct Hst as [->|Hst]; try done;
      (eexists; split; [apply StringVar_chosen | by destruct hostname]).
Qed.

(** A number that is not one is ignored, a flag beats its variable. *)
Example config_example :
  let r := Load {[ "KV_PORT" := "90x"; "KV_DATA_DIR" := "/var/kv"; "KV_SEED_ADDR" := "s:1" ]}
             (mkFlags {[ "seed-addr" := "t:2" ]} {[ "ping-timeout-ms" := 7 ]}) (Some "h") true in
  r = Some (mkConfig "h" 8080 "/var/kv" "t:2" Second (7 * Millisecond) (5 * Second) (500 * Millisecond)
              (5 * Second) "h:8080").
Proof. vm_compute. reflexivity. Qed.

(** No setting of the intervals is rejected, and not every accepted one
    works: an interval of 0 seconds, a negative one, or one whose nanoseconds
    overflow is loaded, and the ticker of the gossip loop panics on it. *)
Theorem bad_interval_is_accepted_and_panics env fl hostname n :
  fl_int fl !! "gossip-interval-sec" = Some n ->
  - 2 ^ 63 <= n * Second <= 0 \/ 2 ^ 63 <= n * Second < 2 ^ 64 ->
  exists cfg, Load env fl hostname true = Some cfg /\ NewTicker (cfg_GossipInterval cfg) = None.
Proof.
  intros Hn Hr. eexists. split; [reflexivity|]. cbn [cfg_GossipInterval].
  unfold NewTicker, IntVar, Duration. rewrite Hn. cbn [from_option id].
  enough (i64 (n * Second) <= 0) by (by destruct (Z.ltb_spec 0 (i64 (n * Second))); [lia|]).
  destruct Hr as [Hr|Hr].
  - rewrite i64_small; [lia|]. unfold is_i64. lia.
  - rewrite i64_wrap by done. lia.
Qed.

Lemma bad_interval_is_accepted_and_panics_witness :
  exists cfg, Load ∅ (mkFlags ∅ {[ "gossip-interval-sec" := 0 ]}) None true = Some cfg /\
    NewTicker (cfg_GossipInterval cfg) = None.
Proof.
  apply (bad_interval_is_accepted_and_panics ∅ (mkFlags ∅ {[ "gossip-interval-sec" := 0 ]}) None 0).
  - reflexivity.
  - left. unfold Second. lia.
Defined.
