(* ===== verification/Metrics.v ===== *)
(** * Metrics: [internal/metrics/metrics.go]

    Request counters and latency histograms, and the text exposition.
    [float64] arithmetic is that of the IEEE-754 specification in the standard
    library ([SpecFloat]) at 53 bits of precision. *)

From S2P Require Import Prelude.
From S2P Require Import GoBase.
From S2P Require Import Strconv.
From Stdlib Require Import Ascii SpecFloat.

(** ** [float64] *)

Definition float64 : Type := spec_float.
Definition float_of_int (z : Z) : float64 := binary_normalize 53 1024 z 0 false.
Definition float_add : float64 -> float64 -> float64 := SFadd 53 1024.
Definition float_div : float64 -> float64 -> float64 := SFdiv 53 1024.
Definition float_le : float64 -> float64 -> bool := SFleb.

(** The literal nearest to [n / d]. *)
Definition float_lit (n d : Z) : float64 := float_div (float_of_int n) (float_of_int d).

(** [d.Seconds()]: whole seconds and the fraction are converted separately. *)
Definition Seconds (d : Z) : float64 :=
  float_add (float_of_int (Z.quot d Second))
    (float_div (float_of_int (Z.rem d Second)) (float_of_int (10 ^ 9))).

(** ** [fmt] verbs *)

(** Round the non-negative [n / d] to the nearest integer, ties to even. *)
Definition round_half_even (n d : Z) : Z :=
  let q := n / d in
  let r := n mod d in
  if (2 * r <? d) || ((2 * r =? d) && Z.even q) then q else q + 1.

Definition pad_left (width : nat) (s : string) : string :=
  Nat.iter (width - String.length s) (String "0"%char) s.

(** [%.<prec>f] of a finite non-negative float; the values printed here are
    never negative, infinite or NaN. *)
Definition format_fixed (prec : nat) (f : float64) : string :=
  let n := match f with
           | S754_finite _ m e =>
               if 0 <=? e then Z.pos m * 2 ^ e * 10 ^ Z.of_nat prec
               else round_half_even (Z.pos m * 10 ^ Z.of_nat prec) (2 ^ (- e))
           | _ => 0
           end in
  Itoa (n / 10 ^ Z.of_nat prec) +:+ "." +:+ pad_left prec (Itoa (n mod 10 ^ Z.of_nat prec)).

(** ** The collector *)

(** Buckets in seconds for the latency histogram. *)
Definition LatencyBuckets : list float64 :=
  [float_lit 1 10000; float_lit 5 10000; float_lit 1 1000; float_lit 5 1000; float_lit 1 100;
   float_lit 5 100; float_lit 1 10; float_lit 5 10; float_lit 1 1; float_lit 5 1].

Record requestKey := mkRequestKey { rk_method : string; rk_path : string; rk_status : string }.
Record histogramKey := mkHistogramKey { hk_method : string; hk_path : string }.

#[global] Instance requestKey_eq_dec : EqDecision requestKey.
Proof. solve_decision. Defined.
#[global] Instance requestKey_countable : Countable requestKey.
Proof.
  refine (inj_countable' (fun k => (rk_method k, rk_path k, rk_status k))
    (fun '(m, p, st) => mkRequestKey m p st) _). by intros [].
Defined.

#[global] Instance histogramKey_eq_dec : EqDecision histogramKey.
Proof. solve_decision. Defined.
#[global] Instance histogramKey_countable : Countable histogramKey.
Proof.
  refine (inj_countable' (fun k => (hk_method k, hk_path k)) (fun '(m, p) => mkHistogramKey m p) _).
  by intros [].
Defined.

Record bucketCounters := mkBucketCounters {
  bc_counts : list Z;
  bc_inf : Z;
  bc_sum : Z;
  bc_count : Z
}.

Definition bucketCounters_zero : bucketCounters := mkBucketCounters (replicate 10 0) 0 0 0.

(** The gauges are functions the exposition calls; their values are arguments
    of [WritePrometheus]. *)
Record MetricsCollector := mkMetricsCollector {
  reqCounts : gmap requestKey Z;
  histograms : gmap histogramKey bucketCounters;
  startTime : Z
}.

Definition NewMetricsCollector (now : Z) : MetricsCollector := mkMetricsCollector ∅ ∅ now.

Definition Uptime (now : Z) (mc : MetricsCollector) : Z := time_Sub now (startTime mc).

Definition RecordRequest (method path status : string) (mc : MetricsCollector) : MetricsCollector :=
  let key := mkRequestKey method path status in
  let counter := default 0 (reqCounts mc !! key) in
  mkMetricsCollector (<[key := u64 (counter + 1)]> (reqCounts mc)) (histograms mc) (startTime mc).

(** The bucket loop: the index of the first bucket that holds the latency. *)
Fixpoint find_bucket (secs : float64) (i : nat) (limits : list float64) : option nat :=
  match limits with
  | [] => None
  | limit :: limits' => if float_le secs limit then Some i else find_bucket secs (S i) limits'
  end.

Definition observe (duration : Z) (hist : bucketCounters) : bucketCounters :=
  let count := u64 (bc_count hist + 1) in
  let sum := u64 (bc_sum hist + u64 duration) in
  match find_bucket (Seconds duration) 0 LatencyBuckets with
  | Some i => mkBucketCounters (alter (fun n => u64 (n + 1)) i (bc_counts hist)) (bc_inf hist) sum count
  | None => mkBucketCounters (bc_counts hist) (u64 (bc_inf hist + 1)) sum count
  end.

Definition RecordLatency (method path : string) (duration : Z) (mc : MetricsCollector)
  : MetricsCollector :=
  let key := mkHistogramKey method path in
  let hist := default bucketCounters_zero (histograms mc !! key) in
  mkMetricsCollector (reqCounts mc) (<[key := observe duration hist]> (histograms mc)) (startTime mc).

(** ** The exposition *)

Definition quote : string := String (Ascii.ascii_of_nat 34) EmptyString.
Definition label (name value : string) : string := name +:+ "=" +:+ quote +:+ value +:+ quote.
Definition series (name : string) (labels : list string) (value : string) : string :=
  name +:+ "{" +:+ String.concat "," labels +:+ "} " +:+ value.

(** The running totals the bucket lines show, and the final one. *)
Fixpoint cumulate (acc : Z) (counts : list Z) : list Z * Z :=
  match counts with
  | [] => ([], acc)
  | n :: counts' =>
      let acc := u64 (acc + n) in
      let '(l, total) := cumulate acc counts' in (acc :: l, total)
  end.

Definition bucket_values (hist : bucketCounters) : list Z :=
  let '(l, total) := cumulate 0 (bc_counts hist) in l ++ [u64 (total + bc_inf hist)].

Definition bucket_labels : list string := map (format_fixed 5) LatencyBuckets ++ ["+Inf"].

Definition histogram_lines (k : histogramKey) (hist : bucketCounters) : list string :=
  let labels := [label "method" (hk_method k); label "path" (hk_path k)] in
  zip_with (fun le v => series "http_request_duration_seconds_bucket" (labels ++ [label "le" le]) (Itoa v))
    bucket_labels (bucket_values hist)
  ++ [series "http_request_duration_seconds_sum" labels
        (format_fixed 6 (float_div (float_of_int (bc_sum hist)) (float_of_int (10 ^ 9))));
      series "http_request_duration_seconds_count" labels (Itoa (bc_count hist))].

Definition gauge (name help : string) (lines : list string) : list string :=
  ["# HELP " +:+ name +:+ " " +:+ help; "# TYPE " +:+ name +:+ " gauge"] ++ lines.

(** The lines of the exposition; a gauge whose function is nil is left out. *)
Definition WritePrometheus `{MapRange} (storeSize walSize : option Z)
    (peerCounts : option (gmap string Z)) (mc : MetricsCollector) : list string :=
  ["# HELP http_requests_total Total number of HTTP requests processed.";
   "# TYPE http_requests_total counter"]
  ++ map (fun '(k, n) =>
            series "http_requests_total"
              [label "method" (rk_method k); label "path" (rk_path k); label "status" (rk_status k)]
              (Itoa n))
       (range (reqCounts mc))
  ++ ["# HELP http_request_duration_seconds HTTP request latencies in seconds.";
      "# TYPE http_request_duration_seconds histogram"]
  ++ concat (map (fun '(k, hist) => histogram_lines k hist) (range (histograms mc)))
  ++ match storeSize with
     | Some n => gauge "kv_store_size_keys" "Current number of keys in the store."
                   ["kv_store_size_keys " +:+ Itoa n]
     | None => []
     end
  ++ match walSize with
     | Some n => gauge "kv_wal_size_bytes" "Size of the Write-Ahead Log on disk in bytes."
                   ["kv_wal_size_bytes " +:+ Itoa n]
     | None => []
     end
  ++ match peerCounts with
     | Some counts => gauge "kv_cluster_peers_total" "Current count of cluster members."
                        (map (fun '(state, n) => series "kv_cluster_peers_total" [label "state" state] (Itoa n))
                           (range counts))
     | None => []
     end.

(** The latencies at and just above every limit are told apart. *)
Example bucket_limits_exact :
  map (fun d => find_bucket (Seconds d) 0 LatencyBuckets)
    [0; 100000; 100001; 500000; 500001; 1000000; 1000001; 5000000; 5000001; 10000000; 10000001;
     50000000; 50000001; 100000000; 100000001; 500000000; 500000001; 1000000000; 1000000001;
     5000000000; 5000000001]
  = [Some 0; Some 0; Some 1; Some 1; Some 2; Some 2; Some 3; Some 3; Some 4; Some 4; Some 5; Some 5;
     Some 6; Some 6; Some 7; Some 7; Some 8; Some 8; Some 9; Some 9; None]%nat.
Proof. vm_compute. reflexivity. Qed.

Example bucket_labels_run :
  bucket_labels = ["0.00010"; "0.00050"; "0.00100"; "0.00500"; "0.01000"; "0.05000"; "0.10000";
                   "0.50000"; "1.00000"; "5.00000"; "+Inf"].
Proof. vm_compute. reflexivity. Qed.

(** ** What the numbers mean *)

(** How many elements satisfy a boolean test. *)
Definition count_if {A} (f : A -> bool) (l : list A) : Z := Z.of_nat (length (List.filter f l)).

Lemma count_if_app {A} (f : A -> bool) l1 l2 : count_if f (l1 ++ l2) = count_if f l1 + count_if f l2.
Proof. unfold count_if. rewrite List.filter_app, length_app. lia. Qed.

Lemma count_if_one {A} (f : A -> bool) x : count_if f [x] = if f x then 1 else 0.
Proof. unfold count_if. cbn. by destruct (f x). Qed.

Lemma count_if_bound {A} (f : A -> bool) l : 0 <= count_if f l <= Z.of_nat (length l).
Proof. unfold count_if. pose proof (List.filter_length_le f l). lia. Qed.

Lemma count_if_add {A} (f g h : A -> bool) l :
  (forall x, (if f x then 1 else 0) = (if g x then 1 else 0) + (if h x then 1 else 0)) ->
  count_if f l = count_if g l + count_if h l.
Proof.
  intros H. induction l as [|x l IH]; [done|]. specialize (H x). unfold count_if in *. cbn.
  destruct (f x), (g x), (h x); cbn [length]; lia.
Qed.

Definition bucket (d : Z) : option nat := find_bucket (Seconds d) 0 LatencyBuckets.

(** The latency belongs to bucket [i], to one below [n], to none. *)
Definition at_bucket (i : nat) (d : Z) : bool := bool_decide (bucket d = Some i).
Definition below_bucket (n : nat) (d : Z) : bool :=
  match bucket d with Some j => (j <? n)%nat | None => false end.
Definition beyond_buckets (d : Z) : bool := bool_decide (bucket d = None).

Lemma find_bucket_lt secs limits : forall i j,
  find_bucket secs i limits = Some j -> (i <= j < i + length limits)%nat.
Proof.
  induction limits as [|limit limits IH]; intros i j H; cbn in *; [done|].
  destruct (float_le secs limit); [injection H as <-; lia|]. apply IH in H. lia.
Qed.

Lemma bucket_lt d j : bucket d = Some j -> (j < 10)%nat.
Proof. intros H%find_bucket_lt. cbn in H. lia. Qed.

Definition observe_all (ds : list Z) : bucketCounters :=
  fold_left (fun h d => observe d h) ds bucketCounters_zero.

Lemma observe_all_snoc ds d : observe_all (ds ++ [d]) = observe d (observe_all ds).
Proof. unfold observe_all. by rewrite fold_left_app. Qed.

Lemma observe_all_counters ds :
  Z.of_nat (length ds) < 2 ^ 64 ->
  bc_counts (observe_all ds) = map (fun i => count_if (at_bucket i) ds) (seq 0 10) /\
  bc_inf (observe_all ds) = count_if beyond_buckets ds /\
  bc_count (observe_all ds) = Z.of_nat (length ds) /\
  bc_sum (observe_all ds) = u64 (foldr Z.add 0 ds).
Proof.
  induction ds as [|d ds IH] using rev_ind; intros Hlen; [done|].
  rewrite length_app in Hlen. cbn in Hlen. destruct IH as (H1 & H2 & H3 & H4); [lia|].
  assert (u64 (bc_sum (observe_all ds) + u64 d) = u64 (foldr Z.add 0 (ds ++ [d]))) as Hsum.
  { rewrite H4, foldr_snoc. unfold u64. rewrite <-Z.add_mod by lia. f_equal.
    clear. induction ds; cbn; lia. }
  assert (u64 (bc_count (observe_all ds) + 1) = Z.of_nat (length (ds ++ [d]))) as Hcount.
  { rewrite H3, length_app. cbn. rewrite u64_small by (unfold is_u64; lia). lia. }
  rewrite observe_all_snoc. unfold observe. fold (bucket d). rewrite Hsum, Hcount.
  destruct (bucket d) as [j|] eqn:Ej; cbn [bc_counts bc_inf bc_count bc_sum];
    repeat split; try done.
  - rewrite H1. apply list_eq. intros i. destruct (decide (i = j)) as [->|Hne].
    + rewrite list_lookup_alter_eq, !list_lookup_fmap.
      destruct (seq 0 10 !! j) as [j'|] eqn:Hs; [|done]. apply lookup_seq in Hs as [-> _].
      cbn [fmap option_map option_fmap]. f_equal. rewrite count_if_app, count_if_one.
      pose proof (count_if_bound (at_bucket (0 + j)) ds). unfold at_bucket at 3.
      rewrite Ej, bool_decide_eq_true_2 by done. apply u64_small. unfold is_u64. lia.
    + rewrite list_lookup_alter_ne by done. rewrite !list_lookup_fmap.
      destruct (seq 0 10 !! i) as [i'|] eqn:Hs; [|done]. apply lookup_seq in Hs as [-> _].
      cbn [fmap option_map option_fmap]. f_equal. rewrite count_if_app, count_if_one.
      unfold at_bucket at 3. rewrite Ej, bool_decide_eq_false_2 by (intros [= E']; lia). lia.
  - rewrite H2, count_if_app, count_if_one. unfold beyond_buckets at 3.
    rewrite Ej, bool_decide_eq_false_2 by done. lia.
  - rewrite H1. apply map_ext. intros i. rewrite count_if_app, count_if_one. unfold at_bucket at 3.
    rewrite Ej, bool_decide_eq_false_2 by done. lia.
  - pose proof (count_if_bound beyond_buckets ds).
    rewrite H2, count_if_app, count_if_one. unfold beyond_buckets at 3.
    rewrite Ej, bool_decide_eq_true_2 by done. apply u64_small. unfold is_u64. lia.
Qed.

Lemma cumulate_counts ds n : forall a,
  Z.of_nat (length ds) < 2 ^ 64 ->
  cumulate (count_if (below_bucket a) ds) (map (fun i => count_if (at_bucket i) ds) (seq a n))
  = (map (fun i => count_if (below_bucket (S i)) ds) (seq a n), count_if (below_bucket (a + n)) ds).
Proof.
  induction n as [|n IH]; intros a Hlen; cbn [seq map cumulate]; [by rewrite Nat.add_0_r|].
  assert (count_if (below_bucket a) ds + count_if (at_bucket a) ds = count_if (below_bucket (S a)) ds) as E.
  { symmetry. apply count_if_add. intros d. unfold below_bucket, at_bucket.
    destruct (bucket d) as [j|]; [|rewrite bool_decide_eq_false_2 by done; lia].
    destruct (decide (j = a)) as [->|].
    - rewrite bool_decide_eq_true_2 by done.
      by destruct (Nat.ltb_spec a (S a)), (Nat.ltb_spec a a); try lia.
    - rewrite bool_decide_eq_false_2 by congruence.
      destruct (Nat.ltb_spec j (S a)), (Nat.ltb_spec j a); lia. }
  pose proof (count_if_bound (below_bucket (S a)) ds).
  rewrite E, u64_small by (unfold is_u64; lia). rewrite IH by done.
  by rewrite Nat.add_succ_comm.
Qed.

(** ** The limits *)

(** The latency, as the float the collector compares, is at most limit [i]. *)
Definition within (i : nat) (d : Z) : bool :=
  match LatencyBuckets !! i with Some limit => float_le (Seconds d) limit | None => false end.

Definition positive (f : float64) : bool :=
  match f with S754_finite false _ _ => true | _ => false end.

Lemma float_le_trans x a b :
  positive a = true -> positive b = true -> float_le x a = true -> float_le a b = true -> float_le x b = true.
Proof.
  destruct a as [| | |[] m1 e1]; try done. destruct b as [| | |[] m2 e2]; try done. intros _ _.
  unfold float_le, SFleb. destruct x as [[]|[]| |[] m e]; cbn; try done.
  change (Pos.compare_cont Eq) with Pos.compare.
  destruct (Z.compare_spec e e1), (Z.compare_spec e1 e2), (Z.compare_spec e e2); try done; try lia;
    destruct (Pos.compare_spec m m1), (Pos.compare_spec m1 m2), (Pos.compare_spec m m2); done || lia.
Qed.

(** The limits are positive and ascending. *)
Lemma limits_ascending :
  forallb positive LatencyBuckets &&
  forallb (fun i => forallb (fun j => negb (j <=? i)%nat ||
    match LatencyBuckets !! j, LatencyBuckets !! i with Some a, Some b => float_le a b | _, _ => false end)
    (seq 0 10)) (seq 0 10) = true.
Proof. vm_compute. reflexivity. Qed.

Lemma limits_le i j a b :
  LatencyBuckets !! i = Some b -> LatencyBuckets !! j = Some a -> (j <= i)%nat ->
  positive a = true /\ positive b = true /\ float_le a b = true.
Proof.
  intros Hi Hj Hji. pose proof limits_ascending as [Hp Ha]%andb_prop.
  rewrite forallb_forall in Hp, Ha.
  assert (i < 10 /\ j < 10)%nat as [Hi10 Hj10]
    by (apply lookup_lt_Some in Hi, Hj; change (length LatencyBuckets) with 10%nat in *; lia).
  specialize (Ha i ltac:(apply in_seq; lia)). rewrite forallb_forall in Ha.
  specialize (Ha j ltac:(apply in_seq; lia)). rewrite Hi, Hj in Ha.
  destruct (Nat.leb_spec j i); [|lia]. cbn in Ha.
  split; [|split; [|done]]; apply Hp, list_elem_of_In; by eapply list_elem_of_lookup_2.
Qed.

Lemma find_bucket_spec secs limits : forall k,
  match find_bucket secs k limits with
  | Some j => exists limit, limits !! (j - k)%nat = Some limit /\ (k <= j)%nat /\ float_le secs limit = true /\
      (forall i l, (i < j - k)%nat -> limits !! i = Some l -> float_le secs l = false)
  | None => Forall (fun l => float_le secs l = false) limits
  end.
Proof.
  induction limits as [|l limits IH]; intros k; cbn [find_bucket]; [constructor|].
  destruct (float_le secs l) eqn:E.
  - exists l. rewrite Nat.sub_diag. split_and!; [done|lia|done|lia].
  - specialize (IH (S k)). destruct (find_bucket secs (S k) limits) as [j|]; [|by constructor].
    destruct IH as (limit & Hl & Hk & Hle & Hbefore). exists limit.
    replace (j - k)%nat with (S (j - S k)) by lia. split_and!; [done|lia|done|].
    intros [|i] l' Hi Hl'; [cbn in Hl'; congruence|]. apply (Hbefore i); [lia|done].
Qed.

(** The bucket of a latency is the first whose limit it is within, so it is
    within limit [i] exactly when its bucket is one of the first [i + 1]. *)
Lemma below_bucket_within i d : (i < 10)%nat -> below_bucket (S i) d = within i d.
Proof.
  intros Hi. unfold below_bucket, within, bucket.
  pose proof (find_bucket_spec (Seconds d) LatencyBuckets 0) as Hf.
  destruct (lookup_lt_is_Some_2 LatencyBuckets i) as [b Hb]; [exact Hi|]. rewrite Hb.
  destruct (find_bucket (Seconds d) 0 LatencyBuckets) as [j|].
  - destruct Hf as (limit & Hl & _ & Hle & Hbefore). rewrite Nat.sub_0_r in *.
    destruct (Nat.ltb_spec j (S i)).
    + destruct (limits_le i j limit b Hb Hl) as (? & ? & ?); [lia|].
      symmetry. by apply (float_le_trans _ limit).
    + symmetry. apply (Hbefore i); [lia|done].
  - rewrite Forall_forall in Hf. symmetry. apply Hf. by eapply list_elem_of_lookup_2.
Qed.



(** Requests recorded one after the other. *)
Definition record_all (l : list requestKey) (mc : MetricsCollector) : MetricsCollector :=
  fold_left (fun mc k => RecordRequest (rk_method k) (rk_path k) (rk_status k) mc) l mc.

(** A request counter shows how often its method, path and status were
    recorded. *)
Theorem request_counter_counts now l key :
  default 0 (reqCounts (record_all l (NewMetricsCollector now)) !! key)
  = u64 (count_if (fun k => bool_decide (k = key)) l).
Proof.
  induction l as [|[m p st] l IH] using rev_ind; [done|].
  unfold record_all in *. rewrite fold_left_app. cbn [fold_left RecordRequest reqCounts rk_method rk_path rk_status].
  rewrite count_if_app, count_if_one. destruct (decide (mkRequestKey m p st = key)) as [<-|Hne].
  - rewrite lookup_insert_eq, bool_decide_eq_true_2 by done. cbn [from_option id]. rewrite IH.
    unfold u64. by rewrite Z.add_mod_idemp_l by lia.
  - rewrite lookup_insert_ne, IH, bool_decide_eq_false_2 by done. f_equal. lia.
Qed.
