(* ===== verification/Utf8.v ===== *)
(** * UTF-8 in Go strings

    A Go string is a sequence of bytes; [encoding/json] reads it as UTF-8 and
    replaces every byte that is not part of a well-formed sequence by the
    replacement character U+FFFD. *)

From S2P Require Import Prelude.
From S2P Require Import GoBase.
From S2P Require Import Url.
From Stdlib Require Import Ascii.

Definition code (c : ascii) : Z := Z.of_N (N_of_ascii c).
Definition chr (z : Z) : ascii := ascii_of_N (Z.to_N z).

Lemma code_range c : 0 <= code c < 256.
Proof. unfold code. pose proof (N_ascii_bounded c). lia. Qed.

(** ** Well-formed sequences *)

(** The number of continuation bytes after a leading byte and the range of the
    first of them; [None] for a byte that cannot lead a sequence of more than
    one byte. *)
Definition lead (x : Z) : option (nat * Z * Z) :=
  if x <? 0xC2 then None
  else if x <=? 0xDF then Some (1%nat, 0x80, 0xBF)
  else if x =? 0xE0 then Some (2%nat, 0xA0, 0xBF)
  else if x =? 0xED then Some (2%nat, 0x80, 0x9F)
  else if x <=? 0xEF then Some (2%nat, 0x80, 0xBF)
  else if x =? 0xF0 then Some (3%nat, 0x90, 0xBF)
  else if x <=? 0xF3 then Some (3%nat, 0x80, 0xBF)
  else if x =? 0xF4 then Some (3%nat, 0x80, 0x8F)
  else None.

(** [n] continuation bytes, the first between [lo] and [hi]. *)
Fixpoint take_cont (n : nat) (lo hi : Z) (s : string) : option (string * string) :=
  match n with
  | O => Some ("", s)
  | S n' =>
      match s with
      | EmptyString => None
      | String c s' =>
          if (lo <=? code c) && (code c <=? hi) then
            '(b, r) ← take_cont n' 0x80 0xBF s'; Some (String c b, r)
          else None
      end
  end.

(** The multi-byte sequence at the front of a string and what follows it. *)
Definition next_rune (s : string) : option (string * string) :=
  match s with
  | EmptyString => None
  | String a s' =>
      '(n, lo, hi) ← lead (code a); '(b, r) ← take_cont n lo hi s'; Some (String a b, r)
  end.

(** [utf8.EncodeRune]. *)
Definition encode_rune (z : Z) : string :=
  let cont k := chr (0x80 + (z / 2 ^ k) mod 64) in
  if z <? 0x80 then String (chr z) ""
  else if z <? 0x800 then String (chr (0xC0 + z / 2 ^ 6)) (String (cont 0) "")
  else if z <? 0x10000 then
    String (chr (0xE0 + z / 2 ^ 12)) (String (cont 6) (String (cont 0) ""))
  else String (chr (0xF0 + z / 2 ^ 18)) (String (cont 12) (String (cont 6) (String (cont 0) ""))).

Definition replacement : string := encode_rune 0xFFFD.

(** The walk of [encoding/json] over a string: [f] on every ASCII byte, [g] on
    every well-formed multi-byte sequence, [bad] for every other byte. *)
Section MapRunes.
Context (f : ascii -> string) (g : string -> string) (bad : string).

Fixpoint map_runes_fuel (fuel : nat) (s : string) : string :=
  match fuel with
  | O => ""
  | S fuel' =>
      match s with
      | EmptyString => ""
      | String c s' =>
          if code c <? 0x80 then f c +:+ map_runes_fuel fuel' s'
          else
            match next_rune s with
            | Some (b, r) => g b +:+ map_runes_fuel fuel' r
            | None => bad +:+ map_runes_fuel fuel' s'
            end
      end
  end.

Definition map_runes (s : string) : string := map_runes_fuel (S (String.length s)) s.
End MapRunes.

(** The string with every ill-formed byte replaced. *)
Definition sanitize : string -> string :=
  map_runes (fun c => String c "") (fun b => b) replacement.

(** [utf8.ValidString]. *)
Definition valid_utf8 (s : string) : bool := String.eqb (sanitize s) s.

Example sanitize_run :
  valid_utf8 (String (chr 0xE2) (String (chr 0x82) (String (chr 0xAC) "x"))) = true /\
  sanitize (String "a" (String (chr 0xFF) "b")) = "a" +:+ replacement +:+ "b".
Proof. vm_compute. auto. Qed.

(** ** Facts *)

Lemma string_app_nil_r (s : string) : s +:+ "" = s.
Proof. induction s as [|c s IH]; [done|]. rewrite string_cons_app. by rewrite IH. Qed.

Lemma string_app_nil_l (s : string) : "" +:+ s = s.
Proof. done. Qed.

Lemma take_cont_app n : forall lo hi s b r,
  take_cont n lo hi s = Some (b, r) ->
  s = b +:+ r /\ String.length b = n /\ forall r', take_cont n lo hi (b +:+ r') = Some (b, r').
Proof.
  induction n as [|n IH]; intros lo hi s b r H.
  - injection H as <- <-. done.
  - destruct s as [|c s]; [done|]. cbn in H. destruct (_ && _) eqn:Hc; [|done].
    destruct (take_cont n 0x80 0xBF s) as [[b' r']|] eqn:E; [|done]. injection H as <- <-.
    destruct (IH _ _ _ _ _ E) as (-> & Hl & Happ). split; [done|]. split; [cbn; by rewrite Hl|].
    intros r''. rewrite string_cons_app. cbn [take_cont]. rewrite Hc, Happ. done.
Qed.

Lemma lead_high x n lo hi : lead x = Some (n, lo, hi) -> 0x80 <= x /\ (0 < n)%nat.
Proof.
  unfold lead. intros H.
  repeat match type of H with context [if ?b then _ else _] => destruct b eqn:?; zbool end;
    try done; injection H as <- <- <-; lia.
Qed.

Lemma next_rune_app s b r :
  next_rune s = Some (b, r) ->
  s = b +:+ r /\ (exists c b', b = String c b' /\ 0x80 <= code c) /\
  forall r', next_rune (b +:+ r') = Some (b, r').
Proof.
  destruct s as [|a s]; [done|]. cbn [next_rune]. intros H.
  destruct (lead (code a)) as [[[n lo] hi]|] eqn:El; [|done]. cbn [mbind option_bind] in H.
  destruct (take_cont n lo hi s) as [[b' r']|] eqn:Et; [|done]. injection H as <- <-.
  destruct (take_cont_app _ _ _ _ _ _ Et) as (-> & _ & Happ).
  split; [done|]. split; [exists a, b'; by destruct (lead_high _ _ _ _ El)|].
  intros r''. rewrite string_cons_app. cbn [next_rune]. rewrite El. cbn [mbind option_bind].
  by rewrite Happ.
Qed.

Section MapRunesFacts.
Context (f : ascii -> string) (g : string -> string) (bad : string).

(** More fuel than bytes makes no difference. *)
Lemma map_runes_fuel_enough n : forall s m,
  (String.length s < n)%nat -> (String.length s < m)%nat ->
  map_runes_fuel f g bad n s = map_runes_fuel f g bad m s.
Proof.
  induction n as [|n IH]; intros s m Hn Hm; [lia|]. destruct m as [|m]; [lia|].
  destruct s as [|c s]; [done|]. cbn [map_runes_fuel]. cbn in Hn, Hm.
  destruct (code c <? 0x80); [f_equal; apply IH; lia|].
  destruct (next_rune (String c s)) as [[b r]|] eqn:E; [|f_equal; apply IH; lia].
  apply next_rune_app in E as (E & (c' & b' & -> & _) & _).
  apply (f_equal String.length) in E. rewrite string_length_app in E. cbn in E.
  f_equal. apply IH; lia.
Qed.

Lemma map_runes_ascii c s :
  code c < 0x80 -> map_runes f g bad (String c s) = f c +:+ map_runes f g bad s.
Proof.
  intros Hc. unfold map_runes. cbn [map_runes_fuel String.length].
  by destruct (Z.ltb_spec (code c) 0x80); [|lia].
Qed.

Lemma map_runes_fuel_rune n s b r :
  next_rune s = Some (b, r) ->
  map_runes_fuel f g bad (S n) s = g b +:+ map_runes_fuel f g bad n r.
Proof.
  intros E. destruct (next_rune_app _ _ _ E) as (-> & (c & b' & -> & Hc) & _).
  rewrite string_cons_app in E |- *. cbn [map_runes_fuel]. rewrite E.
  by destruct (Z.ltb_spec (code c) 0x80); [lia|].
Qed.

Lemma map_runes_rune s b r :
  next_rune s = Some (b, r) -> map_runes f g bad s = g b +:+ map_runes f g bad r.
Proof.
  intros E. unfold map_runes. rewrite (map_runes_fuel_rune _ _ _ _ E). f_equal.
  destruct (next_rune_app _ _ _ E) as (-> & (c & b' & -> & _) & _).
  apply map_runes_fuel_enough; rewrite ?string_length_app; cbn; lia.
Qed.

Lemma map_runes_bad c s :
  0x80 <= code c -> next_rune (String c s) = None ->
  map_runes f g bad (String c s) = bad +:+ map_runes f g bad s.
Proof.
  intros Hc E. unfold map_runes. cbn [map_runes_fuel String.length]. rewrite E.
  by destruct (Z.ltb_spec (code c) 0x80); [lia|].
Qed.
End MapRunesFacts.

(** Induction over the runes of a string. *)
Lemma rune_ind (P : string -> Prop) :
  P "" ->
  (forall c s, code c < 0x80 -> P s -> P (String c s)) ->
  (forall s b r, next_rune s = Some (b, r) -> P r -> P s) ->
  (forall c s, 0x80 <= code c -> next_rune (String c s) = None -> P s -> P (String c s)) ->
  forall s, P s.
Proof.
  intros H0 H1 H2 H3 s. remember (String.length s) as n eqn:Hn. revert s Hn.
  induction n as [n IH] using lt_wf_ind. intros s ->. destruct s as [|c s]; [done|].
  destruct (Z.ltb_spec (code c) 0x80); [apply H1; [done|]; eapply IH; [|done]; cbn; lia|].
  destruct (next_rune (String c s)) as [[b r]|] eqn:E.
  - apply (H2 _ _ _ E). eapply IH; [|done].
    apply next_rune_app in E as (-> & (c' & b' & -> & _) & _). rewrite string_length_app. cbn. lia.
  - apply H3; [done|done|]. eapply IH; [|done]. cbn. lia.
Qed.

(** ASCII text is well formed. *)
Fixpoint is_ascii (s : string) : bool :=
  match s with
  | EmptyString => true
  | String c s' => (code c <? 0x80) && is_ascii s'
  end.

Lemma sanitize_is_ascii s : is_ascii s = true -> sanitize s = s.
Proof.
  induction s as [|c s IH]; intros H; [done|]. cbn in H. apply andb_prop in H as [Hc H].
  zbool. unfold sanitize in *. rewrite map_runes_ascii, IH by done. done.
Qed.

(** The result is well formed. *)
Lemma replacement_rune r : next_rune (replacement +:+ r) = Some (replacement, r).
Proof. reflexivity. Qed.

Lemma sanitize_idem s : sanitize (sanitize s) = sanitize s.
Proof.
  unfold sanitize. induction s as [|c s Hc IH|s b r E IH|c s Hc E IH] using rune_ind; [done| | |].
  - rewrite map_runes_ascii by done. rewrite string_cons_app, map_runes_ascii by done.
    by rewrite string_cons_app, !string_app_nil_l, IH.
  - rewrite (map_runes_rune _ _ _ _ _ _ E).
    destruct (next_rune_app _ _ _ E) as (_ & _ & Happ).
    by rewrite (map_runes_rune _ _ _ _ _ _ (Happ _)), IH.
  - rewrite map_runes_bad by done. by rewrite (map_runes_rune _ _ _ _ _ _ (replacement_rune _)), IH.
Qed.

Lemma valid_sanitize s : valid_utf8 s = true <-> sanitize s = s.
Proof. unfold valid_utf8. apply String.eqb_eq. Qed.
