(* ===== verification/Json.v ===== *)
(** * JSON texts: what the code uses of [encoding/json]

    Values as a tree, the compact text [json.Marshal] and [Encoder.Encode]
    write for a tree, and the reading of the first value of a text, which is
    what [json.NewDecoder(r).Decode] does before it stores it.  Numbers are kept
    as their literals. *)

From S2P Require Import Prelude.
From S2P Require Import GoBase.
From S2P Require Import Strconv.
From S2P Require Import Url.
From S2P Require Import Utf8.
From Stdlib Require Import Ascii.

Unset Elimination Schemes.
Inductive json :=
  | JNull
  | JBool (b : bool)
  | JNum (lit : string)
  | JStr (s : string)
  | JArr (l : list json)
  | JObj (l : list (string * json)).
Set Elimination Schemes.

Section JsonInd.
Context (P : json -> Prop).
Context (Hnull : P JNull) (Hbool : forall b, P (JBool b)) (Hnum : forall lit, P (JNum lit))
  (Hstr : forall s, P (JStr s)) (Harr : forall l, Forall P l -> P (JArr l))
  (Hobj : forall l, Forall (fun kv => P kv.2) l -> P (JObj l)).

Fixpoint json_tree_ind (v : json) : P v :=
  match v with
  | JNull => Hnull
  | JBool b => Hbool b
  | JNum lit => Hnum lit
  | JStr s => Hstr s
  | JArr l =>
      Harr l ((fix go l : Forall P l :=
        match l with
        | [] => List.Forall_nil _
        | v :: l' => List.Forall_cons _ _ _ (json_tree_ind v) (go l')
        end) l)
  | JObj l =>
      Hobj l ((fix go l : Forall (fun kv => P kv.2) l :=
        match l with
        | [] => List.Forall_nil _
        | (k, v) :: l' => @List.Forall_cons _ (fun kv => P kv.2) (k, v) l' (json_tree_ind v) (go l')
        end) l)
  end.
End JsonInd.

(** ** Writing *)

Definition dquote : ascii := chr 34.
Definition backslash : ascii := chr 92.

Definition hex_lower (n : Z) : ascii :=
  default "0"%char (String.get (Z.to_nat n) "0123456789abcdef").

(** A byte below 0x80 inside a string; HTML characters are escaped too. *)
Definition quote_char (c : ascii) : string :=
  let n := code c in
  if (n =? 34) || (n =? 92) then String backslash (String c "")
  else if n =? 8 then String backslash "b"
  else if n =? 12 then String backslash "f"
  else if n =? 10 then String backslash "n"
  else if n =? 13 then String backslash "r"
  else if n =? 9 then String backslash "t"
  else if (n <? 32) || (n =? 60) || (n =? 62) || (n =? 38) then
    String backslash (String "u" (String "0" (String "0"
      (String (hex_lower (n / 16)) (String (hex_lower (n mod 16)) "")))))
  else String c "".

(** A multi-byte sequence: only the line separators U+2028 and U+2029 are
    escaped. *)
Definition quote_rune (b : string) : string :=
  if String.eqb b (encode_rune 0x2028) then String backslash "u2028"
  else if String.eqb b (encode_rune 0x2029) then String backslash "u2029"
  else b.

Definition quote_body : string -> string :=
  map_runes quote_char quote_rune (String backslash "ufffd").

Definition quote_string (s : string) : string :=
  String dquote (quote_body s +:+ String dquote "").

Definition sep_concat (l : list string) : string := String.concat "," l.

Fixpoint print (v : json) : string :=
  match v with
  | JNull => "null"
  | JBool true => "true"
  | JBool false => "false"
  | JNum lit => lit
  | JStr s => quote_string s
  | JArr l => String "[" (sep_concat (map print l) +:+ "]")
  | JObj l =>
      String "{" (sep_concat (map (fun kv => quote_string kv.1 +:+ String ":" (print kv.2)) l)
        +:+ "}")
  end.

(** ** Reading *)

Definition is_space (c : ascii) : bool :=
  let n := code c in (n =? 32) || (n =? 9) || (n =? 10) || (n =? 13).

Fixpoint skip_ws (s : string) : string :=
  match s with
  | String c s' => if is_space c then skip_ws s' else s
  | EmptyString => s
  end.

Definition is_digit (c : ascii) : bool := (48 <=? code c) && (code c <=? 57).

Fixpoint take_digits (s : string) : string * string :=
  match s with
  | String c s' =>
      if is_digit c then let '(d, r) := take_digits s' in (String c d, r) else ("", s)
  | EmptyString => ("", "")
  end.

(** One or more digits. *)
Definition some_digits (s : string) : option (string * string) :=
  match take_digits s with
  | (EmptyString, _) => None
  | (d, r) => Some (d, r)
  end.

(** The parts of a number: a sign, an integer without leading zeros, a
    fraction, an exponent. *)
Definition scan_sign (s : string) : string * string :=
  match s with String "-" r => ("-", r) | _ => ("", s) end.
Definition scan_int (s : string) : option (string * string) :=
  match s with String "0" r => Some ("0", r) | _ => some_digits s end.
Definition scan_frac (s : string) : option (string * string) :=
  match s with
  | String "." r => '(d, r') ← some_digits r; Some (String "." d, r')
  | _ => Some ("", s)
  end.
Definition scan_exp (s : string) : option (string * string) :=
  match s with
  | String c r =>
      if (code c =? 101) || (code c =? 69) then
        let '(sg, r1) := match r with
                         | String x r1 => if (code x =? 43) || (code x =? 45) then (String x "", r1) else ("", r)
                         | EmptyString => ("", r)
                         end in
        '(d, r2) ← some_digits r1; Some (String c (sg +:+ d), r2)
      else Some ("", s)
  | EmptyString => Some ("", s)
  end.

Definition scan_number (s : string) : option (string * string) :=
  let '(sg, s1) := scan_sign s in
  '(i, s2) ← scan_int s1; '(f, s3) ← scan_frac s2; '(e, s4) ← scan_exp s3;
  Some (sg +:+ i +:+ f +:+ e, s4).

(** Four hexadecimal digits. *)
Definition hex4 (s : string) : option (Z * string) :=
  match s with
  | String a (String b (String c (String d r))) =>
      x ← unhex a; y ← unhex b; z ← unhex c; w ← unhex d;
      Some (Z.of_N (((x * 16 + y) * 16 + z) * 16 + w), r)
  | _ => None
  end.

(** The second half of a surrogate pair, if it follows. *)
Definition low_surrogate (s : string) : option (Z * string) :=
  match s with
  | String a (String b r) =>
      if Ascii.eqb a backslash && Ascii.eqb b "u" then
        '(z, r') ← hex4 r; if (0xDC00 <=? z) && (z <=? 0xDFFF) then Some (z, r') else None
      else None
  | _ => None
  end.

(** What follows [\u]: the rune and the rest of the text; an unpaired
    surrogate is the replacement character. *)
Definition read_u (s : string) : option (string * string) :=
  '(z, r) ← hex4 s;
  if (0xD800 <=? z) && (z <=? 0xDFFF) then
    if z <? 0xDC00 then
      match low_surrogate r with
      | Some (z2, r2) => Some (encode_rune (0x10000 + (z - 0xD800) * 0x400 + (z2 - 0xDC00)), r2)
      | None => Some (replacement, r)
      end
    else Some (replacement, r)
  else Some (encode_rune z, r).

(** What follows a backslash. *)
Definition read_escape (s : string) : option (string * string) :=
  match s with
  | String e r =>
      let n := code e in
      if (n =? 34) || (n =? 92) || (n =? 47) then Some (String e "", r)
      else if n =? 98 then Some (String (chr 8) "", r)
      else if n =? 102 then Some (String (chr 12) "", r)
      else if n =? 110 then Some (String (chr 10) "", r)
      else if n =? 114 then Some (String (chr 13) "", r)
      else if n =? 116 then Some (String (chr 9) "", r)
      else if n =? 117 then read_u r
      else None
  | EmptyString => None
  end.

(** One character of a string, [inl] what follows the closing quote. *)
Definition read_char (s : string) : option (string + string * string) :=
  match s with
  | EmptyString => None
  | String c s' =>
      if Ascii.eqb c dquote then Some (inl s')
      else if Ascii.eqb c backslash then inr <$> read_escape s'
      else if code c <? 32 then None
      else if code c <? 0x80 then Some (inr (String c "", s'))
      else
        match next_rune s with
        | Some (b, r) => Some (inr (b, r))
        | None => Some (inr (replacement, s'))
        end
  end.

(** The characters up to the closing quote. *)
Fixpoint read_chars (fuel : nat) (s : string) : option (string * string) :=
  match fuel with
  | O => None
  | S fuel' =>
      match read_char s with
      | None => None
      | Some (inl r) => Some ("", r)
      | Some (inr (b, r)) => '(t, r') ← read_chars fuel' r; Some (b +:+ t, r')
      end
  end.

(** A string literal. *)
Definition read_string (s : string) : option (string * string) :=
  match s with
  | String c s' => if Ascii.eqb c dquote then read_chars (S (String.length s')) s' else None
  | EmptyString => None
  end.

Fixpoint strip (p s : string) : option string :=
  match p, s with
  | EmptyString, _ => Some s
  | String a p', String b s' => if Ascii.eqb a b then strip p' s' else None
  | _, EmptyString => None
  end.

(** A value, the elements of an array and the members of an object.  [depth]
    is the number of brackets that may still be opened. *)
Fixpoint read_value (fuel : nat) (depth : Z) (s : string) : option (json * string) :=
  match fuel with
  | O => None
  | S fuel' =>
      match skip_ws s with
      | EmptyString => None
      | String "[" r =>
          if depth <? 1 then None
          else
            match skip_ws r with
            | String "]" r' => Some (JArr [], r')
            | _ => '(l, r') ← read_elems fuel' (depth - 1) r; Some (JArr l, r')
            end
      | String "{" r =>
          if depth <? 1 then None
          else
            match skip_ws r with
            | String "}" r' => Some (JObj [], r')
            | _ => '(l, r') ← read_members fuel' (depth - 1) r; Some (JObj l, r')
            end
      | String c r as t =>
          if Ascii.eqb c dquote then '(x, r') ← read_string t; Some (JStr x, r')
          else if Ascii.eqb c "n" then r' ← strip "null" t; Some (JNull, r')
          else if Ascii.eqb c "t" then r' ← strip "true" t; Some (JBool true, r')
          else if Ascii.eqb c "f" then r' ← strip "false" t; Some (JBool false, r')
          else '(lit, r') ← scan_number t; Some (JNum lit, r')
      end
  end
with read_elems (fuel : nat) (depth : Z) (s : string) : option (list json * string) :=
  match fuel with
  | O => None
  | S fuel' =>
      '(v, r) ← read_value fuel' depth s;
      match skip_ws r with
      | String "," r' => '(l, r'') ← read_elems fuel' depth r'; Some (v :: l, r'')
      | String "]" r' => Some ([v], r')
      | _ => None
      end
  end
with read_members (fuel : nat) (depth : Z) (s : string) : option (list (string * json) * string) :=
  match fuel with
  | O => None
  | S fuel' =>
      '(k, r1) ← read_string (skip_ws s);
      match skip_ws r1 with
      | String ":" r2 =>
          '(v, r) ← read_value fuel' depth r2;
          match skip_ws r with
          | String "," r' => '(l, r'') ← read_members fuel' depth r'; Some ((k, v) :: l, r'')
          | String "}" r' => Some ([(k, v)], r')
          | _ => None
          end
      | _ => None
      end
  end.

Definition maxNestingDepth : Z := 10000.

(** The first value of a text; what follows it is not looked at. *)
Definition read_json (s : string) : option json :=
  fst <$> read_value (2 * String.length s + 2) maxNestingDepth s.

Definition text (l : list Z) : string := foldr (fun z s => String (chr z) s) "" l.

Example print_run :
  print (JObj [("a", JStr (text [60; 10; 34; 255])); ("n", JArr [JNum "1"; JNull; JBool true])])
  = String "{" (text [34; 97; 34; 58; 34] +:+ "\u003c\n" +:+ text [92; 34] +:+ "\ufffd" +:+ text [34; 44; 34]
     +:+ "n" +:+ text [34] +:+ ":[1,null,true]}").
Proof. vm_compute. reflexivity. Qed.

Example read_run :
  read_json (" { " +:+ text [34; 97; 34; 58] +:+ " [1.5e3 , -0, {}, [ ] ,true] , " +:+ text [34; 98; 34; 58; 34]
    +:+ "\ud83d\ude00\ud83d\/" +:+ text [34; 125] +:+ "junk")
  = Some (JObj [("a", JArr [JNum "1.5e3"; JNum "-0"; JObj []; JArr []; JBool true]);
                ("b", JStr (encode_rune 0x1F600 +:+ replacement +:+ "/"))]) /\
  read_json "[01]" = None /\ read_json "[1,]" = None /\ read_json "" = None /\
  read_json (text [34; 10; 34]) = None.
Proof. vm_compute. auto. Qed.

(** ** What is read of a written text *)

(** The value with its strings made well-formed UTF-8, the literals that are
    numbers, and the nesting of brackets. *)
Fixpoint norm (v : json) : json :=
  match v with
  | JStr s => JStr (sanitize s)
  | JArr l => JArr (map norm l)
  | JObj l => JObj (map (fun kv => (sanitize kv.1, norm kv.2)) l)
  | _ => v
  end.

Definition number_literal (lit : string) : bool :=
  bool_decide (scan_number lit = Some (lit, "")).

Fixpoint numbers_ok (v : json) : bool :=
  match v with
  | JNum lit => number_literal lit
  | JArr l => forallb numbers_ok l
  | JObj l => forallb (fun kv => numbers_ok kv.2) l
  | _ => true
  end.

Fixpoint nesting (v : json) : Z :=
  match v with
  | JArr l => 1 + foldr (fun x m => Z.max (nesting x) m) 0 l
  | JObj l => 1 + foldr (fun kv m => Z.max (nesting kv.2) m) 0 l
  | _ => 0
  end.

(** *** Strings *)

Lemma read_char_ascii c t :
  code c < 0x80 -> read_char (quote_char c +:+ t) = Some (inr (String c "", t)).
Proof.
  destruct c as [[] [] [] [] [] [] [] []]; intros H; try reflexivity; exfalso; revert H; vm_compute;
    discriminate.
Qed.

Lemma read_char_rune b t :
  (exists c b', b = String c b' /\ 0x80 <= code c) ->
  (forall r, next_rune (b +:+ r) = Some (b, r)) ->
  read_char (quote_rune b +:+ t) = Some (inr (b, t)).
Proof.
  intros (c & b' & -> & Hc) Hn. unfold quote_rune.
  destruct (String.eqb_spec (String c b') (encode_rune 0x2028)) as [->|_]; [reflexivity|].
  destruct (String.eqb_spec (String c b') (encode_rune 0x2029)) as [->|_]; [reflexivity|].
  specialize (Hn t). rewrite string_cons_app in Hn |- *. unfold read_char.
  destruct (Ascii.eqb_spec c dquote) as [->|_]; [by vm_compute in Hc|].
  destruct (Ascii.eqb_spec c backslash) as [->|_]; [by vm_compute in Hc|].
  destruct (Z.ltb_spec (code c) 32); [lia|]. destruct (Z.ltb_spec (code c) 0x80); [lia|].
  by rewrite Hn.
Qed.

Lemma quote_char_length c : (0 < String.length (quote_char c))%nat.
Proof. unfold quote_char. repeat case_match; cbn; lia. Qed.

Lemma quote_rune_length b : b <> "" -> (0 < String.length (quote_rune b))%nat.
Proof. intros H. unfold quote_rune. repeat case_match; try (cbn; lia). by destruct b; [|cbn; lia]. Qed.

Lemma read_chars_quoted s : forall fuel rest,
  (String.length (quote_body s) < fuel)%nat ->
  read_chars fuel (quote_body s +:+ String dquote rest) = Some (sanitize s, rest).
Proof.
  unfold quote_body, sanitize.
  induction s as [|c s Hc IH|s b r E IH|c s Hc E IH] using rune_ind; intros fuel rest Hf;
    (destruct fuel as [|fuel]; [lia|]).
  - reflexivity.
  - rewrite map_runes_ascii in Hf by done. rewrite !map_runes_ascii by done. rewrite string_length_app in Hf.
    pose proof (quote_char_length c). rewrite string_app_assoc. cbn [read_chars].
    rewrite read_char_ascii by done. rewrite IH by lia. reflexivity.
  - rewrite (map_runes_rune _ _ _ _ _ _ E) in Hf. rewrite !(map_runes_rune _ _ _ _ _ _ E).
    rewrite string_length_app in Hf.
    destruct (next_rune_app _ _ _ E) as (_ & Hb & Happ).
    assert (b <> "") as Hne by (by destruct Hb as (? & ? & -> & _)).
    pose proof (quote_rune_length b Hne). rewrite string_app_assoc. cbn [read_chars].
    rewrite read_char_rune by done. rewrite IH by lia. reflexivity.
  - rewrite map_runes_bad in Hf by done. rewrite !map_runes_bad by done. rewrite string_length_app in Hf.
    change (String.length (String backslash "ufffd")) with 6%nat in Hf. rewrite string_app_assoc. cbn [read_chars].
    change (read_char (String backslash "ufffd" +:+ ?t)) with (Some (@inr string _ (replacement, t))).
    cbn [mbind option_bind]. rewrite IH by lia. reflexivity.
Qed.

Lemma read_string_quoted s rest : read_string (quote_string s +:+ rest) = Some (sanitize s, rest).
Proof.
  unfold quote_string. rewrite string_cons_app, string_app_assoc. unfold read_string.
  rewrite Ascii.eqb_refl. apply read_chars_quoted. rewrite string_length_app. cbn. lia.
Qed.

(** *** Numbers *)

(** What may follow a number without becoming part of it. *)
Definition ends_number (s : string) : bool :=
  match s with
  | EmptyString => true
  | String c _ => negb (is_digit c || (code c =? 46) || (code c =? 101) || (code c =? 69))
  end.

Lemma take_digits_app s d r rest :
  take_digits s = (d, r) -> ends_number rest = true -> take_digits (s +:+ rest) = (d, r +:+ rest).
Proof.
  intros E Hr. revert d r E. induction s as [|c s IH]; intros d r E.
  - injection E as <- <-. rewrite !string_app_nil_l. destruct rest as [|c rest]; [done|].
    cbn in Hr |- *. destruct (is_digit c); [done|]. done.
  - cbn [take_digits] in E. rewrite string_cons_app. cbn [take_digits].
    destruct (is_digit c); [|injection E as <- <-; done].
    destruct (take_digits s) as [d' r'] eqn:Et. injection E as <- <-. by rewrite (IH _ _ eq_refl).
Qed.

Lemma some_digits_app s d r rest :
  some_digits s = Some (d, r) -> ends_number rest = true ->
  some_digits (s +:+ rest) = Some (d, r +:+ rest).
Proof.
  unfold some_digits. intros E Hr. destruct (take_digits s) as [d' r'] eqn:Et.
  rewrite (take_digits_app _ _ _ _ Et Hr). by destruct d'; [done|]; injection E as <- <-.
Qed.

Lemma scan_int_app s i r rest :
  scan_int s = Some (i, r) -> ends_number rest = true -> scan_int (s +:+ rest) = Some (i, r +:+ rest).
Proof.
  intros E Hr. destruct s as [|c s]; [discriminate E|]. rewrite string_cons_app.
  destruct (Ascii.eqb_spec c "0") as [->|Hc]; [injection E as <- <-; reflexivity|].
  assert (forall t, scan_int (String c t) = some_digits (String c t)) as Heq
    by (intros t; by destruct c as [[] [] [] [] [] [] [] []]).
  rewrite Heq in E |- *. rewrite <-string_cons_app. by apply some_digits_app.
Qed.

Lemma scan_frac_app s f r rest :
  scan_frac s = Some (f, r) -> ends_number rest = true -> scan_frac (s +:+ rest) = Some (f, r +:+ rest).
Proof.
  intros E Hr.
  assert (forall c t, c <> "."%char -> scan_frac (String c t) = Some ("", String c t)) as Heq
    by (intros c t Hc; by destruct c as [[] [] [] [] [] [] [] []]).
  destruct s as [|c s].
  - injection E as <- <-. rewrite string_app_nil_l. destruct rest as [|c rest]; [done|].
    apply Heq. by intros ->.
  - rewrite string_cons_app. destruct (Ascii.eqb_spec c ".") as [->|Hc].
    + cbn [scan_frac] in E |- *. destruct (some_digits s) as [[d r']|] eqn:Ed; [|done].
      injection E as <- <-. by rewrite (some_digits_app _ _ _ _ Ed Hr).
    + rewrite Heq in E |- * by done. by injection E as <- <-.
Qed.

Lemma scan_exp_app s e r rest :
  scan_exp s = Some (e, r) -> ends_number rest = true -> scan_exp (s +:+ rest) = Some (e, r +:+ rest).
Proof.
  intros E Hr. destruct s as [|c s].
  - injection E as <- <-. rewrite string_app_nil_l. destruct rest as [|c rest]; [done|].
    cbn in Hr |- *. apply negb_true_iff in Hr. rewrite !orb_false_iff in Hr.
    by destruct Hr as [[_ ->] ->].
  - rewrite string_cons_app. cbn [scan_exp] in E |- *.
    destruct ((code c =? 101) || (code c =? 69)); [|by injection E as <- <-].
    destruct s as [|x s]; [done|]. rewrite string_cons_app.
    destruct ((code x =? 43) || (code x =? 45)); [|rewrite <-string_cons_app];
      destruct (some_digits _) as [[d r']|] eqn:Ed in E; try done; injection E as <- <-;
      by rewrite (some_digits_app _ _ _ _ Ed Hr).
Qed.

Lemma scan_number_app s lit r rest :
  scan_number s = Some (lit, r) -> ends_number rest = true ->
  scan_number (s +:+ rest) = Some (lit, r +:+ rest).
Proof.
  intros E Hr. unfold scan_number in E |- *.
  assert (s <> "") as Hs by (by intros ->).
  assert (scan_sign (s +:+ rest) = ((scan_sign s).1, (scan_sign s).2 +:+ rest)) as ->.
  { destruct s as [|c s]; [done|]. by destruct c as [[] [] [] [] [] [] [] []]. }
  destruct (scan_sign s) as [sg s1]. cbn [fst snd].
  destruct (scan_int s1) as [[i s2]|] eqn:E1; [|done]. rewrite (scan_int_app _ _ _ _ E1 Hr).
  cbn [mbind option_bind] in E |- *.
  destruct (scan_frac s2) as [[f s3]|] eqn:E2; [|done]. rewrite (scan_frac_app _ _ _ _ E2 Hr).
  cbn [mbind option_bind] in E |- *.
  destruct (scan_exp s3) as [[e s4]|] eqn:E3; [|done]. rewrite (scan_exp_app _ _ _ _ E3 Hr).
  cbn [mbind option_bind] in E |- *. by injection E as <- <-.
Qed.

Lemma number_literal_scan lit rest :
  number_literal lit = true -> ends_number rest = true -> scan_number (lit +:+ rest) = Some (lit, rest).
Proof.
  intros H%bool_decide_eq_true Hr. rewrite (scan_number_app _ _ _ _ H Hr). done.
Qed.

(** A number starts with a sign or a digit. *)
Lemma number_literal_head lit :
  number_literal lit = true -> exists c t, lit = String c t /\ (c = "-"%char \/ is_digit c = true).
Proof.
  intros H%bool_decide_eq_true. destruct lit as [|c t]; [done|]. exists c, t. split; [done|].
  destruct (is_digit c) eqn:Hd; [by right|left].
  destruct (Ascii.eqb_spec c "-") as [->|Hc]; [done|]. exfalso.
  assert (scan_number (String c t) = None) as E; [|congruence].
  unfold scan_number. assert (scan_sign (String c t) = ("", String c t)) as ->
    by (by destruct c as [[] [] [] [] [] [] [] []]).
  assert (scan_int (String c t) = some_digits (String c t)) as ->
    by (by destruct c as [[] [] [] [] [] [] [] []]).
  unfold some_digits. cbn [take_digits]. by rewrite Hd.
Qed.

(** Integers are number literals. *)
Lemma take_digits_digits fuel : forall n tail,
  take_digits (digits fuel n tail) = (digits fuel n (take_digits tail).1, (take_digits tail).2).
Proof.
  induction fuel as [|fuel IH]; intros n tail; cbn [digits]; [by destruct (take_digits tail)|].
  assert (take_digits (String (digit_char (n mod 10)) tail)
          = (String (digit_char (n mod 10)) (take_digits tail).1, (take_digits tail).2)) as E.
  { cbn [take_digits]. pose proof (Z.mod_pos_bound n 10 ltac:(lia)) as Hm.
    assert (is_digit (digit_char (n mod 10)) = true) as ->; [|by destruct (take_digits tail)].
    apply (digit_ind (fun d => is_digit (digit_char d) = true)); [by repeat constructor | done]. }
  destruct (n <? 10); [done|]. rewrite IH, E. done.
Qed.

(** A printed natural number is its digits, without a leading zero. *)
Lemma digits_no_zero fuel : forall n tail,
  0 <= n < 2 ^ Z.of_nat fuel -> (0 < fuel)%nat -> n <> 0 ->
  exists d s, 0 < d < 10 /\ digits fuel n tail = String (digit_char d) s.
Proof.
  induction fuel as [|fuel IH]; intros n tail Hn Hf H0; [lia|]. cbn [digits].
  destruct (Z.ltb_spec n 10).
  - rewrite Z.mod_small by lia. exists n. eexists. split; [lia|done].
  - rewrite Nat2Z.inj_succ, Z.pow_succ_r in Hn by lia.
    assert (0 < n / 10) by (apply Z.div_str_pos; lia).
    apply IH; [|destruct fuel; [cbn in Hn; lia|lia]|lia].
    split; [lia|]. apply Z.div_lt_upper_bound; lia.
Qed.

Lemma nat_literal n : 0 <= n ->
  scan_int (digits (S (Z.to_nat (Z.log2 n))) n "") = Some (digits (S (Z.to_nat (Z.log2 n))) n "", "").
Proof.
  intros Hn. destruct (Z.eq_dec n 0) as [->|H0]; [reflexivity|].
  destruct (digits_no_zero (S (Z.to_nat (Z.log2 n))) n "") as (d & s & Hd & E); [| lia | done |].
  { pose proof (Z.log2_nonneg n). split; [done|]. rewrite Nat2Z.inj_succ, Z2Nat.id by done.
    apply Z.log2_spec. lia. }
  assert (forall t, scan_int (String (digit_char d) t) = some_digits (String (digit_char d) t)) as Hs.
  { intros t. assert (d <> 0) as Hd0 by lia. assert (0 <= d < 10) as Hd' by lia. revert Hd0.
    clear -Hd'. pattern d. revert Hd'. apply digit_ind. by repeat constructor. }
  pose proof (take_digits_digits (S (Z.to_nat (Z.log2 n))) n "") as Ht. cbn [take_digits fst snd] in Ht.
  rewrite E in Ht |- *. rewrite Hs. unfold some_digits. by rewrite Ht.
Qed.

Lemma Itoa_literal n : number_literal (Itoa n) = true.
Proof.
  apply bool_decide_eq_true. unfold Itoa, scan_number. destruct (Z.ltb_spec n 0).
  - cbn [scan_sign]. rewrite nat_literal by lia. cbn. by rewrite string_app_nil_r.
  - destruct (digits_head (S (Z.to_nat (Z.log2 n))) n "" ltac:(lia)) as (d & s & Hd & E).
    assert (scan_sign (digits (S (Z.to_nat (Z.log2 n))) n "")
            = ("", digits (S (Z.to_nat (Z.log2 n))) n "")) as ->.
    { rewrite E. revert s E. pattern d. revert Hd. apply digit_ind. by repeat constructor. }
    rewrite nat_literal by lia. cbn. by rewrite string_app_nil_r.
Qed.

(** *** Values *)

(** The first byte of a written value opens no bracket that closes at once. *)
Lemma print_head v :
  numbers_ok v = true ->
  exists c t, print v = String c t /\ is_space c = false /\ c <> "]"%char /\ c <> "}"%char.
Proof.
  destruct v as [|[]|lit|s|l|l]; intros H; try (eexists _, _; by split).
  destruct (number_literal_head lit H) as (c & t & -> & Hc). exists c, t. split; [done|].
  destruct Hc as [->|Hc]; [done|]. unfold is_digit in Hc. zbool. unfold is_space.
  split; [by repeat (zcase; [lia|])|]. split; intros ->; vm_compute in *; lia.
Qed.

Lemma skip_ws_id c t : is_space c = false -> skip_ws (String c t) = String c t.
Proof. cbn. by intros ->. Qed.

Lemma read_value_arr fuel d c t :
  1 <= d -> is_space c = false -> c <> "]"%char ->
  read_value (S fuel) d (String "[" (String c t))
  = ('(l, r') ← read_elems fuel (d - 1) (String c t); Some (JArr l, r')).
Proof.
  intros Hd Hs Hc. cbn [read_value skip_ws]. change (is_space "[") with false. cbn [skip_ws].
  destruct (Z.ltb_spec d 1); [lia|]. rewrite Hs. by destruct c as [[] [] [] [] [] [] [] []].
Qed.

Lemma read_value_obj fuel d c t :
  1 <= d -> is_space c = false -> c <> "}"%char ->
  read_value (S fuel) d (String "{" (String c t))
  = ('(l, r') ← read_members fuel (d - 1) (String c t); Some (JObj l, r')).
Proof.
  intros Hd Hs Hc. cbn [read_value skip_ws]. change (is_space "{") with false. cbn [skip_ws].
  destruct (Z.ltb_spec d 1); [lia|]. rewrite Hs. by destruct c as [[] [] [] [] [] [] [] []].
Qed.

Lemma read_value_num fuel d c t :
  c = "-"%char \/ is_digit c = true ->
  read_value (S fuel) d (String c t) = ('(lit, r') ← scan_number (String c t); Some (JNum lit, r')).
Proof.
  intros [->|Hc]; [reflexivity|].
  destruct c as [[] [] [] [] [] [] [] []]; try discriminate Hc; reflexivity.
Qed.

Lemma read_value_str fuel d t :
  read_value (S fuel) d (String dquote t)
  = ('(x, r') ← read_string (String dquote t); Some (JStr x, r')).
Proof. reflexivity. Qed.

(** The statement of the round trip for one value. *)
Definition reads_back (v : json) : Prop := forall fuel d rest,
  numbers_ok v = true -> nesting v <= d -> ends_number rest = true ->
  (2 * String.length (print v) < fuel)%nat ->
  read_value fuel d (print v +:+ rest) = Some (norm v, rest).

Lemma sep_concat_cons x l : l <> [] -> sep_concat (x :: l) = x +:+ String "," (sep_concat l).
Proof. by destruct l. Qed.

Lemma read_elems_back l : Forall reads_back l -> forall fuel d rest,
  l <> [] -> forallb numbers_ok l = true -> foldr (fun x m => Z.max (nesting x) m) 0 l <= d ->
  (2 * String.length (sep_concat (map print l)) + 1 < fuel)%nat ->
  read_elems fuel d (sep_concat (map print l) +:+ String "]" rest) = Some (map norm l, rest).
Proof.
  induction 1 as [|v l Hv _ IH]; intros fuel d rest Hne Hn Hd Hf; [done|].
  destruct fuel as [|fuel]; [lia|]. cbn [forallb foldr map] in *. apply andb_prop in Hn as [Hn1 Hn2].
  destruct (decide (l = [])) as [->|Hl].
  - cbn [map sep_concat String.concat] in *. cbn [read_elems]. rewrite Hv by (done || lia). reflexivity.
  - rewrite sep_concat_cons in Hf |- * by (by destruct l). rewrite string_length_app in Hf. cbn in Hf.
    rewrite string_app_assoc, string_cons_app. cbn [read_elems]. rewrite Hv by (done || lia).
    cbn [mbind option_bind skip_ws]. change (is_space ",") with false. cbv iota.
    rewrite IH by (done || lia). reflexivity.
Qed.

Definition print_member (kv : string * json) : string :=
  quote_string kv.1 +:+ String ":" (print kv.2).

Lemma read_members_one fuel d k v t :
  reads_back v -> numbers_ok v = true -> nesting v <= d -> ends_number t = true ->
  (2 * String.length (print v) < fuel)%nat ->
  read_members (S fuel) d (print_member (k, v) +:+ t)
  = match skip_ws t with
    | String "," r' => '(l, r'') ← read_members fuel d r'; Some ((sanitize k, norm v) :: l, r'')
    | String "}" r' => Some ([(sanitize k, norm v)], r')
    | _ => None
    end.
Proof.
  intros Hv Hn Hd Ht Hf. unfold print_member. cbn [fst snd]. rewrite string_app_assoc, string_cons_app.
  cbn [read_members].
  assert (forall x, skip_ws (quote_string k +:+ x) = quote_string k +:+ x) as -> by done.
  rewrite read_string_quoted. cbn [mbind option_bind skip_ws]. change (is_space ":") with false.
  cbv iota. by rewrite Hv.
Qed.

Lemma read_members_back l : Forall (fun kv => reads_back kv.2) l -> forall fuel d rest,
  l <> [] -> forallb (fun kv => numbers_ok kv.2) l = true ->
  foldr (fun kv m => Z.max (nesting kv.2) m) 0 l <= d ->
  (2 * String.length (sep_concat (map print_member l)) + 1 < fuel)%nat ->
  read_members fuel d (sep_concat (map print_member l) +:+ String "}" rest)
  = Some (map (fun kv => (sanitize kv.1, norm kv.2)) l, rest).
Proof.
  induction 1 as [|[k v] l Hv _ IH]; intros fuel d rest Hne Hn Hd Hf; [done|].
  destruct fuel as [|fuel]; [lia|]. cbn [forallb foldr map snd] in *. apply andb_prop in Hn as [Hn1 Hn2].
  assert (String.length (print v) < String.length (print_member (k, v)))%nat as Hlen
    by (unfold print_member; rewrite string_length_app; cbn; lia).
  destruct (decide (l = [])) as [->|Hl].
  - cbn [map sep_concat String.concat] in *. by rewrite read_members_one by (done || lia).
  - rewrite sep_concat_cons in Hf |- * by (by destruct l). rewrite string_length_app in Hf.
    cbn [String.length] in Hf. rewrite string_app_assoc, string_cons_app.
    rewrite read_members_one by (done || lia). cbn [skip_ws]. change (is_space ",") with false.
    cbv iota. by rewrite IH by (done || lia).
Qed.

Lemma sep_concat_head x l c t : x = String c t -> exists t', sep_concat (x :: l) = String c t'.
Proof. intros ->. destruct l; [by eexists|]. rewrite sep_concat_cons by done. rewrite string_cons_app. by eexists. Qed.

(** Reading a written value gives the value with its strings made well formed
    and leaves what follows it. *)
Lemma read_print v : reads_back v.
Proof.
  induction v as [|b|lit|s|l IH|l IH] using json_tree_ind; intros fuel d rest Hn Hd Hr Hf;
    (destruct fuel as [|fuel]; [lia|]); cbn [print norm numbers_ok nesting] in *.
  - reflexivity.
  - by destruct b.
  - destruct (number_literal_head lit Hn) as (c & t & E & Hc).
    rewrite E, string_cons_app, read_value_num, <-string_cons_app, <-E by done.
    by rewrite number_literal_scan.
  - assert (quote_string s +:+ rest = String dquote ((quote_body s +:+ String dquote "") +:+ rest)) as E
      by done.
    rewrite E, read_value_str, <-E. by rewrite read_string_quoted.
  - destruct l as [|v l]; [cbn; by destruct (Z.ltb_spec d 1); [cbn in Hd; lia|]|].
    destruct (print_head v) as (c & t & Ev & Hs & Hc & _); [by apply (andb_prop _ _ Hn)|].
    destruct (sep_concat_head (print v) (map print l) c t Ev) as [t' Et].
    cbn [String.length] in Hf. rewrite string_length_app in Hf. cbn [String.length foldr] in Hf, Hd.
    assert (0 <= foldr (fun x m => Z.max (nesting x) m) 0 l) by (clear; induction l; cbn; lia).
    rewrite string_cons_app, string_app_assoc. change ("]" +:+ rest) with (String "]" rest).
    change (map print (v :: l)) with (print v :: map print l) in *.
    rewrite Et, string_cons_app, read_value_arr, <-string_cons_app, <-Et by (done || lia).
    change (print v :: map print l) with (map print (v :: l)) in *.
    rewrite read_elems_back by (done || cbn [foldr]; lia). done.
  - fold print_member in *. destruct l as [|[k v] l]; [cbn; by destruct (Z.ltb_spec d 1); [cbn in Hd; lia|]|].
    destruct (sep_concat_head (print_member (k, v)) (map print_member l) dquote
      ((quote_body k +:+ String dquote "") +:+ String ":" (print v)) eq_refl) as [t' Et].
    cbn [String.length] in Hf. rewrite string_length_app in Hf. cbn [String.length foldr] in Hf, Hd.
    assert (0 <= foldr (fun kv m => Z.max (nesting kv.2) m) 0 l) by (clear; induction l; cbn; lia).
    rewrite string_cons_app, string_app_assoc. change ("}" +:+ rest) with (String "}" rest).
    change (map print_member ((k, v) :: l)) with (print_member (k, v) :: map print_member l) in *.
    rewrite Et, string_cons_app, read_value_obj, <-string_cons_app, <-Et by (done || lia).
    change (print_member (k, v) :: map print_member l) with (map print_member ((k, v) :: l)) in *.
    rewrite read_members_back by (done || cbn [foldr]; lia). done.
Qed.

(** The text of a value, and anything after it that is not part of a number,
    is read back as the value. *)
Lemma read_json_print v rest :
  numbers_ok v = true -> nesting v <= maxNestingDepth -> ends_number rest = true ->
  read_json (print v +:+ rest) = Some (norm v).
Proof.
  intros Hn Hd Hr. unfold read_json. rewrite read_print; [done | done | done | done |].
  rewrite string_length_app. lia.
Qed.
