(* ===== verification/Codec.v ===== *)
(** * Structures in JSON: how [encoding/json] stores a value in a Go variable

    Field lookup by name, the conversions of the field types the program uses
    ([string], [int], [uint64], [bool], [*int], [[]string], [[]byte]), and
    base64 for byte slices.  A conversion takes the previous value, which a
    [null] leaves in place; [None] is an error of [Decode]. *)

From S2P Require Import Prelude.
From S2P Require Import GoBase.
From S2P Require Import Strconv.
From S2P Require Import Url.
From S2P Require Import Utf8.
From S2P Require Import Json.
From Stdlib Require Import Ascii.

(** ** [base64.StdEncoding] *)

Definition b64_char (n : Z) : ascii :=
  if n <? 26 then chr (65 + n)
  else if n <? 52 then chr (97 + (n - 26))
  else if n <? 62 then chr (48 + (n - 52))
  else if n =? 62 then "+"%char else "/"%char.

Definition b64_value (c : ascii) : option Z :=
  let n := code c in
  if (65 <=? n) && (n <=? 90) then Some (n - 65)
  else if (97 <=? n) && (n <=? 122) then Some (n - 97 + 26)
  else if (48 <=? n) && (n <=? 57) then Some (n - 48 + 52)
  else if n =? 43 then Some 62
  else if n =? 47 then Some 63
  else None.

(** Digit number [i] (from the right) of a 24-bit group. *)
Definition b64_digit (n i : Z) : ascii := b64_char ((n / 64 ^ i) mod 64).

Definition group (a b c : byte) : Z := byte_to_Z a * 65536 + byte_to_Z b * 256 + byte_to_Z c.

Fixpoint b64_encode (l : list byte) : string :=
  match l with
  | [] => ""
  | [a] => let n := group a x00 x00 in String (b64_digit n 3) (String (b64_digit n 2) "==")
  | [a; b] =>
      let n := group a b x00 in
      String (b64_digit n 3) (String (b64_digit n 2) (String (b64_digit n 1) "="))
  | a :: b :: c :: l' =>
      let n := group a b c in
      String (b64_digit n 3) (String (b64_digit n 2) (String (b64_digit n 1)
        (String (b64_digit n 0) (b64_encode l'))))
  end.

(** Line breaks are skipped. *)
Fixpoint drop_breaks (s : string) : string :=
  match s with
  | EmptyString => ""
  | String c s' => if (code c =? 10) || (code c =? 13) then drop_breaks s' else String c (drop_breaks s')
  end.

Fixpoint b64_groups (s : string) : option (list byte) :=
  match s with
  | EmptyString => Some []
  | String a (String b (String c (String d s'))) =>
      x ← b64_value a; y ← b64_value b;
      if Ascii.eqb c "=" then
        if Ascii.eqb d "=" && String.eqb s' "" then Some [byte_of_Z ((x * 64 + y) / 16)] else None
      else
        z ← b64_value c;
        let n := (x * 64 + y) * 64 + z in
        if Ascii.eqb d "=" then
          if String.eqb s' "" then Some [byte_of_Z (n / 1024); byte_of_Z (n / 4)] else None
        else
          w ← b64_value d; l ← b64_groups s';
          let n := n * 64 + w in
          Some (byte_of_Z (n / 65536) :: byte_of_Z (n / 256) :: byte_of_Z n :: l)
  | _ => None
  end.

Definition b64_decode (s : string) : option (list byte) := b64_groups (drop_breaks s).

Example b64_run :
  map b64_encode [bytes_of ""; bytes_of "f"; bytes_of "fo"; bytes_of "foo"; bytes_of "foob"]
    = [""; "Zg=="; "Zm8="; "Zm9v"; "Zm9vYg=="] /\
  map b64_decode ["Zh=="; "Zg="; "Zg==Zg=="; "Z!=="] = [Some (bytes_of "f"); None; None; None].
Proof. vm_compute. auto. Qed.

Lemma b64_value_char n : 0 <= n < 64 -> b64_value (b64_char n) = Some n /\ code (b64_char n) < 0x80 /\
  Ascii.eqb (b64_char n) "=" = false /\ (code (b64_char n) =? 10) || (code (b64_char n) =? 13) = false.
Proof.
  intros Hn.
  assert (forall z, z ∈ seqZ 0 64 -> b64_value (b64_char z) = Some z /\ code (b64_char z) < 0x80 /\
    Ascii.eqb (b64_char z) "=" = false /\ (code (b64_char z) =? 10) || (code (b64_char z) =? 13) = false)
    as H; [|apply H, elem_of_seqZ; lia].
  rewrite <-Forall_forall. by repeat constructor.
Qed.

Lemma b64_digit_facts n i :
  b64_value (b64_digit n i) = Some ((n / 64 ^ i) mod 64) /\ code (b64_digit n i) < 0x80 /\
  Ascii.eqb (b64_digit n i) "=" = false /\
  (code (b64_digit n i) =? 10) || (code (b64_digit n i) =? 13) = false.
Proof. apply b64_value_char, Z.mod_pos_bound. lia. Qed.

(** Induction three bytes at a time. *)
Lemma bytes3_ind (P : list byte -> Prop) :
  P [] -> (forall a, P [a]) -> (forall a b, P [a; b]) ->
  (forall a b c l, P l -> P (a :: b :: c :: l)) -> forall l, P l.
Proof.
  intros H0 H1 H2 H3. fix IH 1. intros [|a [|b [|c l]]]; [done|done|done|]. apply H3, IH.
Qed.

Lemma b64_encode_ascii l : is_ascii (b64_encode l) = true /\ drop_breaks (b64_encode l) = b64_encode l.
Proof.
  induction l as [|a|a b|a b c l [IH1 IH2]] using bytes3_ind; [done|..];
    cbn [b64_encode is_ascii drop_breaks];
    repeat match goal with |- context [b64_digit ?n ?i] =>
      let d := fresh "d" in let H := fresh in
      destruct (b64_digit_facts n i) as (_ & H & _ & ->); apply Z.ltb_lt in H; rewrite ?H; clear H;
      set (d := b64_digit n i) end; rewrite ?IH1, ?IH2; done.
Qed.

Lemma group_range a b c : 0 <= group a b c < 2 ^ 24.
Proof.
  unfold group. pose proof (byte_to_Z_range a). pose proof (byte_to_Z_range b).
  pose proof (byte_to_Z_range c). lia.
Qed.

Lemma byte_of_Z_eq z a : z mod 256 = byte_to_Z a -> byte_of_Z z = a.
Proof. intros H. apply byte_to_Z_inj. by rewrite byte_to_of_Z. Qed.

(** A byte slice is read back from its base64 text. *)
Lemma b64_roundtrip l : b64_decode (b64_encode l) = Some l.
Proof.
  unfold b64_decode. rewrite (proj2 (b64_encode_ascii l)).
  induction l as [|a|a b|a b c l IH] using bytes3_ind; [done|..]; cbn [b64_encode b64_groups].
  all: set (n := group _ _ _);
    destruct (b64_digit_facts n 3) as (-> & _); destruct (b64_digit_facts n 2) as (-> & _);
    try (destruct (b64_digit_facts n 1) as (-> & _ & -> & _));
    try (destruct (b64_digit_facts n 0) as (-> & _ & -> & _)); cbn [mbind option_bind];
    rewrite ?IH; cbn [mbind option_bind Ascii.eqb Bool.eqb andb String.eqb].
  all: assert (0 <= n < 2 ^ 24) as Hn by apply group_range; subst n; unfold group in *.
  all: change (byte_to_Z x00) with 0 in *.
  all: change (64 ^ 3) with 262144 in *; change (64 ^ 2) with 4096 in *; change (64 ^ 1) with 64 in *;
    change (64 ^ 0) with 1 in *.
  all: pose proof (byte_to_Z_range a); try pose proof (byte_to_Z_range b); try pose proof (byte_to_Z_range c).
  all: cbn.
  all: repeat f_equal; apply byte_of_Z_eq; Z.to_euclidean_division_equations; lia.
Qed.

(** ** Fields *)

(** The key of a member compared without regard to case: letters in upper
    case, the Kelvin sign as [K] and the long s as [S].  Other letters fold
    among themselves and never meet a name of the program, which are ASCII. *)
Definition upper (c : ascii) : ascii :=
  if (97 <=? code c) && (code c <=? 122) then chr (code c - 32) else c.

Fixpoint fold_name (s : string) : string :=
  match s with
  | EmptyString => ""
  | String a s1 =>
      let plain := String (upper a) (fold_name s1) in
      match s1 with
      | EmptyString => plain
      | String b s2 =>
          if (code a =? 0xC5) && (code b =? 0xBF) then String "S" (fold_name s2)
          else
            match s2 with
            | EmptyString => plain
            | String c s3 =>
                if (code a =? 0xE2) && (code b =? 0x84) && (code c =? 0xAA)
                then String "K" (fold_name s3) else plain
            end
      end
  end.

Section Struct.
Context {T : Type} (fields : list (string * (json -> T -> option T))).

Fixpoint find_field (matches : string -> bool) (fs : list (string * (json -> T -> option T)))
  : option (json -> T -> option T) :=
  match fs with
  | [] => None
  | (name, set) :: fs' => if matches name then Some set else find_field matches fs'
  end.

(** The field of a key: by its exact name, else by its folded name. *)
Definition field_of (key : string) : option (json -> T -> option T) :=
  match find_field (fun name => String.eqb name key) fields with
  | Some set => Some set
  | None => find_field (fun name => String.eqb (fold_name name) (fold_name key)) fields
  end.

(** The members in the order of the text; unknown keys are ignored. *)
Fixpoint decode_members (l : list (string * json)) (x : T) : option T :=
  match l with
  | [] => Some x
  | (k, v) :: l' =>
      match field_of k with
      | Some set => x' ← set v x; decode_members l' x'
      | None => decode_members l' x
      end
  end.

Definition decode_struct (v : json) (x : T) : option T :=
  match v with
  | JNull => Some x
  | JObj l => decode_members l x
  | _ => None
  end.

(** [json.NewDecoder(body).Decode(&x)]. *)
Definition Decode (body : string) (x : T) : option T := v ← read_json body; decode_struct v x.
End Struct.

(** ** Conversions *)

Definition to_string (v : json) (old : string) : option string :=
  match v with JStr s => Some s | JNull => Some old | _ => None end.

Definition to_bool (v : json) (old : bool) : option bool :=
  match v with JBool b => Some b | JNull => Some old | _ => None end.

(** [strconv.ParseUint(s, 10, bits)]. *)
Definition ParseUint (bits : Z) (s : string) : option Z :=
  if decide (s = "") then None
  else n ← parse_digits 0 s; if n <? 2 ^ bits then Some n else None.

(** [int] and [int64]. *)
Definition to_int (v : json) (old : Z) : option Z :=
  match v with JNum lit => Atoi lit | JNull => Some old | _ => None end.

Definition to_uint (bits : Z) (v : json) (old : Z) : option Z :=
  match v with JNum lit => ParseUint bits lit | JNull => Some old | _ => None end.

(** [*int]: [null] is the nil pointer. *)
Definition to_int_ptr (v : json) (old : option Z) : option (option Z) :=
  match v with JNum lit => Some <$> Atoi lit | JNull => Some None | _ => None end.

(** A slice: the elements take the places of the previous ones. *)
Fixpoint to_elems {A} (elem : json -> A -> option A) (zero : A) (l : list json) (old : list A)
  : option (list A) :=
  match l with
  | [] => Some []
  | v :: l' =>
      x ← elem v (hd zero old); xs ← to_elems elem zero l' (tl old); Some (x :: xs)
  end.

Definition to_strings (v : json) (old : list string) : option (list string) :=
  match v with
  | JArr l => to_elems to_string "" l old
  | JNull => Some []
  | _ => None
  end.

(** [[]byte]: base64, or an array of numbers. *)
Definition to_bytes (v : json) (old : list byte) : option (list byte) :=
  match v with
  | JStr s => b64_decode s
  | JArr l => map byte_of_Z <$> to_elems (to_uint 8) 0 l (map byte_to_Z old)
  | JNull => Some []
  | _ => None
  end.

(** ** Facts *)

Lemma decode_members_cons {T} (fields : list (string * (json -> T -> option T))) k v l x set :
  field_of fields k = Some set ->
  decode_members fields ((k, v) :: l) x = (x' ← set v x; decode_members fields l x').
Proof. intros H. cbn [decode_members]. by rewrite H. Qed.

Lemma ParseUint_Itoa n : is_u64 n -> ParseUint 64 (Itoa n) = Some n.
Proof.
  intros [H1 H2]. unfold ParseUint, Itoa. destruct (Z.ltb_spec n 0); [lia|].
  destruct (digits_head (S (Z.to_nat (Z.log2 n))) n "" ltac:(lia)) as (d & s & _ & E).
  rewrite decide_False by (by rewrite E). rewrite parse_Itoa_digits by done. cbn [mbind option_bind].
  by destruct (Z.ltb_spec n (2 ^ 64)); [|lia].
Qed.

Lemma to_strings_map l : to_strings (norm (JArr (map JStr l))) [] = Some (map sanitize l).
Proof. cbn. induction l as [|s l IH]; [done|]. cbn in *. by rewrite IH. Qed.

(** Decoding the text of a value, followed by anything that does not continue
    a number, is decoding the value. *)
Lemma Decode_print {T} (fields : list (string * (json -> T -> option T))) v rest x :
  numbers_ok v = true -> nesting v <= maxNestingDepth -> ends_number rest = true ->
  Decode fields (print v +:+ rest) x = decode_struct fields (norm v) x.
Proof. intros Hn Hd Hr. unfold Decode. by rewrite read_json_print. Qed.

Lemma Decode_print_all {T} (fields : list (string * (json -> T -> option T))) v x :
  numbers_ok v = true -> nesting v <= maxNestingDepth ->
  Decode fields (print v) x = decode_struct fields (norm v) x.
Proof. intros. rewrite <-(string_app_nil_r (print v)). by apply Decode_print. Qed.

(** ** What decoding preserves *)

Lemma ParseUint_range bits s n : ParseUint bits s = Some n -> 0 <= n < 2 ^ bits.
Proof.
  unfold ParseUint. case_decide; [done|]. destruct (parse_digits 0 s) as [m|] eqn:E; [|done].
  cbn. destruct (Z.ltb_spec m (2 ^ bits)); [|done]. intros [= <-].
  by apply parse_digits_nonneg in E.
Qed.

Lemma to_uint_u64 v old n : is_u64 old -> to_uint 64 v old = Some n -> is_u64 n.
Proof. destruct v; try done; cbn; [by intros ? [= <-]|]. intros _. apply ParseUint_range. Qed.

Lemma to_int_i64 v old n : is_i64 old -> to_int v old = Some n -> is_i64 n.
Proof. destruct v; try done; cbn; [by intros ? [= <-]|]. intros _. apply Atoi_i64. Qed.

(** What every field setter preserves holds of a decoded structure. *)
Lemma Decode_inv {T} (P : T -> Prop) (fields : list (string * (json -> T -> option T))) body x y :
  Forall (fun f => forall v x x', P x -> f.2 v x = Some x' -> P x') fields ->
  P x -> Decode fields body x = Some y -> P y.
Proof.
  intros Hf Hx. unfold Decode. destruct (read_json body) as [v|]; [|done]. cbn.
  destruct v as [| | | | |l]; try done; cbn; [by intros [= <-]|].
  assert (forall key set, field_of fields key = Some set ->
    forall v x x', P x -> set v x = Some x' -> P x') as Hset.
  { assert (forall matches fs set, Forall (fun f => forall v x x', P x -> f.2 v x = Some x' -> P x') fs ->
      find_field matches fs = Some set -> forall v x x', P x -> set v x = Some x' -> P x') as Hfind.
    { intros matches fs set Hfs. induction Hfs as [|[name f] fs Hn _ IH]; [done|]. cbn.
      destruct (matches name); [by intros [= <-] | done]. }
    intros key set. unfold field_of. destruct (find_field _ fields) eqn:E.
    - intros [= <-]. by eapply Hfind.
    - by apply Hfind. }
  revert x Hx. induction l as [|[k v] l IH]; intros x Hx; cbn; [by intros [= <-]|].
  destruct (field_of fields k) as [set|] eqn:E; [|by apply IH].
  destruct (set v x) as [x'|] eqn:Es; [|done]. cbn. apply IH. by eapply Hset.
Qed.
