(* ===== verification/Api.v ===== *)
(** * The HTTP handlers: [internal/api/handlers.go], [middleware.go]

    Each handler as a function of the node's state and the decoded request.
    A request body is the decoded structure ([None] when decoding fails), a
    response body the structure that is encoded; the texts are in [Wire].
    Clock readings, disk outcomes and map orders are arguments. *)

From S2P Require Import Prelude.
From S2P Require Import GoBase.
From S2P Require Import Strconv.
From S2P Require Import Url.
From S2P Require Import Lww.
From S2P Require Import Wal.
From S2P Require Import Store.
From S2P Require Import Peer.
From S2P Require Import Replication.
From S2P Require Import Config.
From S2P Require Import Metrics.

(** ** Requests and responses *)

Record PutRequest := mkPutRequest { put_Value : string; put_TTLSeconds : option Z }.

Record ClusterStatusResponse := mkClusterStatus {
  cs_NodeID : string;
  cs_Role : string;
  cs_Uptime : Z;          (* the duration [UptimeSec] is computed from *)
  cs_StoreSize : Z;
  cs_WALSizeBytes : Z;
  cs_PeersCount : Z
}.

Inductive body :=
  | NoBody
  | Text (s : string)
  | Lines (l : list string)
  | ErrorText (msg : string)                    (* {"error": msg} *)
  | ErrorOf (e : error)                         (* {"error": err.Error()} *)
  | PutResponse (version : Z)
  | GetResponse (value : string) (version : Z)
  | DeleteResponse (version : Z) (deleted : bool)
  | KeysResponse (keys : list string) (nextCursor : string)
  | StatusResponse (st : ClusterStatusResponse)
  | PeersResponse (l : list Peer).

Record response := mkResponse { rs_status : Z; rs_body : body }.

Definition StatusOK : Z := 200.
Definition StatusBadRequest : Z := 400.
Definition StatusNotFound : Z := 404.
Definition StatusInternalServerError : Z := 500.

(** [http.StatusText] of the codes the handlers, the router and the file server
    answer with. *)
Definition StatusText (code : Z) : string :=
  if code =? 200 then "OK"
  else if code =? 206 then "Partial Content"
  else if code =? 301 then "Moved Permanently"
  else if code =? 304 then "Not Modified"
  else if code =? 400 then "Bad Request"
  else if code =? 403 then "Forbidden"
  else if code =? 404 then "Not Found"
  else if code =? 405 then "Method Not Allowed"
  else if code =? 412 then "Precondition Failed"
  else if code =? 416 then "Requested Range Not Satisfiable"
  else if code =? 500 then "Internal Server Error"
  else "".

(** The state the handlers share.  The disk stands for the files of the data
    directory. *)
Record API := mkAPI {
  api_disk : Disk;
  api_store : Store;
  api_pm : PeerManager;
  api_replicator : Replicator;
  api_metrics : MetricsCollector;
  api_cfg : Config
}.

Definition with_store (api : API) (d : Disk) (s : Store) : API :=
  mkAPI d s (api_pm api) (api_replicator api) (api_metrics api) (api_cfg api).
Definition with_pm (api : API) (pm : PeerManager) : API :=
  mkAPI (api_disk api) (api_store api) pm (api_replicator api) (api_metrics api) (api_cfg api).
Definition with_replicator (api : API) (r : Replicator) : API :=
  mkAPI (api_disk api) (api_store api) (api_pm api) r (api_metrics api) (api_cfg api).
Definition with_metrics (api : API) (mc : MetricsCollector) : API :=
  mkAPI (api_disk api) (api_store api) (api_pm api) (api_replicator api) mc (api_cfg api).

(** The requests a handler gives to the replicator's goroutines. *)
Abbreviation sends := (list (Peer * ReplicateRequest)).

(** ** Keys *)

Definition handleGetKey (now now2 : Z) (key : string) (api : API) : response * API :=
  if decide (key = "") then (mkResponse StatusBadRequest (ErrorText "key required"), api)
  else
    let '((val, version, found), s) := Store_Get now now2 (api_store api) key in
    let api := with_store api (api_disk api) s in
    if negb found then (mkResponse StatusNotFound (ErrorText "key not found"), api)
    else (mkResponse StatusOK (GetResponse (string_of val) version), api).

(** [time.Duration( *req.TTLSeconds) * time.Second], in [int64] arithmetic. *)
Definition put_ttl (req : PutRequest) : Z :=
  match put_TTLSeconds req with
  | Some n => if 0 <? n then i64 (n * Second) else 0
  | None => 0
  end.

Definition handlePutKey `{MapRange} (now_exp now_ver now_repl : Z) (io : append_io)
    (key : string) (decoded : option PutRequest) (api : API) : response * API * sends :=
  if decide (key = "") then (mkResponse StatusBadRequest (ErrorText "key required"), api, [])
  else
    match decoded with
    | None => (mkResponse StatusBadRequest (ErrorText "invalid request json"), api, [])
    | Some req =>
        let ttl := put_ttl req in
        match Store_Set now_exp now_ver io (api_disk api) (api_store api) key
                (bytes_of (put_Value req)) ttl 0 with
        | (d, s, (_, Some err)) =>
            (mkResponse StatusInternalServerError (ErrorOf err), with_store api d s, [])
        | (d, s, (version, None)) =>
            let expiresAt := if 0 <? ttl then time_Add now_repl ttl else time_zero in
            let '(r, out) := Replicate key (bytes_of (put_Value req)) version expiresAt "SET"
                               (api_pm api) (api_replicator api) in
            (mkResponse StatusOK (PutResponse version),
             with_replicator (with_store api d s) r, out)
        end
    end.

Definition handleDeleteKey `{MapRange} (now_ver : Z) (io : append_io) (key : string) (api : API)
  : response * API * sends :=
  if decide (key = "") then (mkResponse StatusBadRequest (ErrorText "key required"), api, [])
  else
    match Store_Delete now_ver io (api_disk api) (api_store api) key 0 with
    | (d, s, (_, _, Some err)) =>
        (mkResponse StatusInternalServerError (ErrorOf err), with_store api d s, [])
    | (d, s, (version, deleted, None)) =>
        let '(r, out) := Replicate key [] version time_zero "DELETE" (api_pm api) (api_replicator api) in
        (mkResponse StatusOK (DeleteResponse version deleted),
         with_replicator (with_store api d s) r, out)
    end.

(** The page size: 100 unless the parameter is a positive integer, at most
    1000. *)
Definition list_limit (limitStr : string) : Z :=
  if decide (limitStr = "") then 100
  else
    match Atoi limitStr with
    | Some val => if 0 <? val then (if 1000 <? val then 1000 else val) else 100
    | None => 100
    end.

(** [None] is a panic of [Scan]. *)
Definition handleListKeys `{MapRange} (now : Z) (query : string) (api : API) : option response :=
  '(keys, nextCursor) ← Store_Scan now (api_store api) (query_get query "prefix")
      (list_limit (query_get query "limit")) (query_get query "cursor");
  Some (mkResponse StatusOK (KeysResponse keys nextCursor)).

(** ** Cluster endpoints *)

Definition handleClusterPeers `{MapRange} (api : API) : response :=
  mkResponse StatusOK (PeersResponse (GetAll (api_pm api))).

(** The log size reported is a constant. *)
Definition handleClusterStatus `{MapRange} (now : Z) (api : API) : response :=
  let peersCount := Z.of_nat (length (filter (fun p => State p = StateAlive) (GetAll (api_pm api)))) in
  let role := if decide (cfg_SeedAddress (api_cfg api) = "") then "seed" else "peer" in
  mkResponse StatusOK (StatusResponse (mkClusterStatus (cfg_NodeID (api_cfg api)) role
    (Uptime now (api_metrics api)) (Store_Size (api_store api)) 1024 peersCount)).

Definition handleHealthz : response := mkResponse StatusOK (Text "OK").

(** The number of peers in each state, as [main] computes it for the
    exposition. *)
Definition peer_counts `{MapRange} (pm : PeerManager) : gmap string Z :=
  fold_left (fun counts p => <[State p := default 0 (counts !! State p) + 1]> counts) (GetAll pm)
    (<[StateAlive := 0]> (<[StateSuspect := 0]> {[ StateDead := 0 ]})).

Definition handleMetrics `{MapRange} (api : API) : response :=
  mkResponse StatusOK (Lines (WritePrometheus (Some (Store_Size (api_store api)))
    (WAL_Size <$> wal (api_store api)) (Some (peer_counts (api_pm api))) (api_metrics api))).

(** ** Internal endpoints *)

(** What of a peer survives JSON: all but [SuspiciousAt]. *)
Definition peer_json (p : Peer) : Peer :=
  mkPeer (NodeID p) (Address p) (State p) (LastSeen p) (RTT p) (ReplicationLag p) time_zero.

Definition handleInternalPing `{MapRange} (now now' now_me : Z) (query : string) (api : API)
  : response * API :=
  let senderID := query_get query "sender_id" in
  let senderAddr := query_get query "sender_addr" in
  let pm :=
    if decide (senderID <> "" /\ senderAddr <> "")
    then AddOrUpdate now now' senderID senderAddr StateAlive (api_pm api) else api_pm api in
  let me := mkPeer (cfg_NodeID (api_cfg api)) (cfg_AdvertiseAddr (api_cfg api)) StateAlive now_me
              0 0 time_zero in
  (mkResponse StatusOK (PeersResponse (map peer_json (GetAll pm ++ [me]))), with_pm api pm).

(** [now] is the reading of [time.Until]. *)
Definition handleInternalReplicate (now now_exp now_ver : Z) (io : append_io)
    (decoded : option ReplicateRequest) (api : API) : response * API :=
  match decoded with
  | None => (mkResponse StatusBadRequest (ErrorText "invalid request json"), api)
  | Some req =>
      let '(d, s, err) :=
        if decide (req_Action req = "SET") then
          let ttl :=
            if 0 <? req_ExpiresAt req then
              let ttl := time_Sub (time_Unix (req_ExpiresAt req)) now in
              if ttl <=? 0 then Millisecond else ttl
            else 0 in
          let '(d, s, (_, err)) := Store_Set now_exp now_ver io (api_disk api) (api_store api)
            (req_Key req) (req_Value req) ttl (req_Version req) in (d, s, err)
        else if decide (req_Action req = "DELETE") then
          let '(d, s, (_, _, err)) := Store_Delete now_ver io (api_disk api) (api_store api)
            (req_Key req) (req_Version req) in (d, s, err)
        else (api_disk api, api_store api, None) in
      match err with
      | Some e => (mkResponse StatusInternalServerError (ErrorOf e), with_store api d s)
      | None => (mkResponse StatusOK NoBody, with_store api d s)
      end
  end.

(** ** Middleware *)

(** A handler that panics is answered with an internal server error. *)
Definition RecoveryMiddleware (r : option response) : response :=
  match r with
  | Some r => r
  | None => mkResponse StatusInternalServerError (ErrorText "internal server error")
  end.

(** The wrapper around the writer of a response: the status the client got, if
    any, which is the first one written, and the status recorded, which is the
    last one. *)
Record responseWriterWrapper := mkWrapper { rww_sent : option Z; rww_statusCode : Z }.

Definition WriteHeader (code : Z) (rw : responseWriterWrapper) : responseWriterWrapper :=
  mkWrapper (Some (default code (rww_sent rw))) code.

(** The response is counted under its status text and its latency recorded.  A
    handler writes at most one status; one that writes none is answered with
    200, which is also what the wrapper starts from. *)
Definition LoggingAndMetricsMiddleware (start finish : Z) (method path : string) (r : response)
    (api : API) : response * API :=
  let wrapper := WriteHeader (rs_status r) (mkWrapper None StatusOK) in
  let duration := time_Sub finish start in
  (r, with_metrics api
        (RecordLatency method path duration
           (RecordRequest method path (StatusText (rww_statusCode wrapper)) (api_metrics api)))).
