(* ===== verification/ApiSpec.v ===== *)
(** * What the API promises its clients and the other nodes

    Reading one's writes, listing, the end-to-end ping exchange, and the
    convergence of nodes that replicate to each other. *)

From S2P Require Import Prelude.
From S2P Require Import GoBase.
From S2P Require Import Strconv.
From S2P Require Import Url.
From S2P Require Import Lww.
From S2P Require Import Wal.
From S2P Require Import WalSpec.
From S2P Require Import Store.
From S2P Require Import StoreInv.
From S2P Require Import Scan.
From S2P Require Import StoreSpec.
From S2P Require Import Recovery.
From S2P Require Import Peer.
From S2P Require Import Gossip.
From S2P Require Import GossipSpec.
From S2P Require Import Replication.
From S2P Require Import Config.
From S2P Require Import Metrics.
From S2P Require Import Api.

(** ** Nodes *)

(** A node whose store is consistent and whose log, if any, is open. *)
Record node_ok (api : API) : Prop := {
  no_store : store_ok (api_store api);
  no_wal : forall w, wal (api_store api) = Some w -> wal_closed w = false
}.

(** The logging step succeeds on a record the format can hold. *)
Lemma log_mutation_accepts d s t k v ver e :
  (forall w, wal s = Some w -> wal_closed w = false) -> storable (mkLogRecord t k v ver e) ->
  exists d' w', log_mutation append_io_ok d s t k v ver e = (d', with_wal s w', None) /\
    (forall w, w' = Some w -> wal_closed w = false).
Proof.
  intros Hw Hst. destruct (wal s) as [w|] eqn:E.
  - destruct (log_mutation_ok d s w t k v ver e E (Hw w eq_refl) Hst) as [n ->].
    eexists _, _. split; [done|]. by intros ? [= <-].
  - unfold log_mutation. rewrite E. exists d, None. split; [|done]. by destruct s; cbn in *; subst.
Qed.

Lemma writable_storable t k v ver :
  writable k v -> is_u64 ver -> storable (mkLogRecord t k v ver time_zero).
Proof. intros [Hk Hs] Hv. split; cbn; [done | done | by left | done]. Qed.

(** A write without ttl of a writable record is not rejected. *)
Lemma Store_Set_accepts n1 n2 d s k v ttl ver :
  store_ok s -> (forall w, wal s = Some w -> wal_closed w = false) ->
  writable k v -> ttl <= 0 -> is_u64 ver ->
  exists d' s' r, Store_Set n1 n2 append_io_ok d s k v ttl ver = (d', s', (r, None)) /\
    (forall w, wal s' = Some w -> wal_closed w = false).
Proof.
  intros Hs Hw Hwr Httl Hver. unfold Store_Set.
  destruct (pick_version_facts n2 s ver Hs Hver) as (_ & Hu & _).
  assert (wal (pick_version n2 s ver).2 = wal s) as Hw1
    by (unfold pick_version; by destruct (ver =? 0)).
  destruct (pick_version n2 s ver) as [ver' s1]. cbn [fst snd] in *.
  assert (expiry_of n1 ttl = time_zero) as ->
    by (unfold expiry_of; by destruct (Z.ltb_spec 0 ttl); [lia|]).
  destruct (log_mutation_accepts d s1 RecordTypeSet k v ver' time_zero) as (d' & w' & -> & Hw');
    [by rewrite Hw1 | by apply writable_storable |].
  pose proof (Set_apply_wal (with_wal s1 w') k v ver' time_zero) as Hw2.
  destruct (Set_apply (with_wal s1 w') k v ver' time_zero) as [r s2]. cbn in Hw2.
  exists d', s2, r. split; [done|]. by rewrite Hw2.
Qed.

Lemma Store_Delete_accepts n1 d s k ver :
  store_ok s -> (forall w, wal s = Some w -> wal_closed w = false) ->
  writable k [] -> is_u64 ver ->
  exists d' s' r b, Store_Delete n1 append_io_ok d s k ver = (d', s', (r, b, None)) /\
    (forall w, wal s' = Some w -> wal_closed w = false).
Proof.
  intros Hs Hw Hwr Hver. unfold Store_Delete.
  destruct (pick_version_facts n1 s ver Hs Hver) as (_ & Hu & _).
  assert (wal (pick_version n1 s ver).2 = wal s) as Hw1
    by (unfold pick_version; by destruct (ver =? 0)).
  destruct (pick_version n1 s ver) as [ver' s1]. cbn [fst snd] in *.
  destruct (log_mutation_accepts d s1 RecordTypeDelete k [] ver' time_zero) as (d' & w' & -> & Hw');
    [by rewrite Hw1 | by apply writable_storable |].
  pose proof (Delete_apply_wal (with_wal s1 w') k ver') as Hw2.
  destruct (Delete_apply (with_wal s1 w') k ver') as [[r b] s2]. cbn in Hw2.
  exists d', s2, r, b. split; [done|]. by rewrite Hw2.
Qed.

(** ** A node as a replica *)

(** A replication request as it arrives, with the clock readings of its
    handler. *)
Record delivery := mkDelivery { dl_now : Z; dl_now_exp : Z; dl_now_ver : Z; dl_req : ReplicateRequest }.

(** The mutation a request asks for. *)
Definition request_mutation (req : ReplicateRequest) : mutation :=
  if decide (req_Action req = "SET")
  then MSet (req_Key req) (mkEntry (req_Value req) (req_Version req) time_zero)
  else MDelete (req_Key req) (req_Version req).

(** Requests without expiry that fit the record format. *)
Definition acceptable (req : ReplicateRequest) : Prop :=
  (req_Action req = "SET" /\ req_ExpiresAt req = 0 /\ writable (req_Key req) (req_Value req) \/
   req_Action req = "DELETE" /\ writable (req_Key req) []) /\
  0 < req_Version req < 2 ^ 64.

Definition handle_delivery (dl : delivery) (api : API) : response * API :=
  handleInternalReplicate (dl_now dl) (dl_now_exp dl) (dl_now_ver dl) append_io_ok
    (Some (dl_req dl)) api.

Lemma handle_delivery_spec dl api :
  node_ok api -> acceptable (dl_req dl) ->
  (handle_delivery dl api).1 = mkResponse StatusOK NoBody /\
  node_ok (handle_delivery dl api).2 /\
  view (api_store (handle_delivery dl api).2)
  = mutate (request_mutation (dl_req dl)) (view (api_store api)).
Proof.
  intros [Hs Hw] [Hreq Hver]. destruct dl as [n1 n2 n3 req]. cbn [dl_req] in *.
  unfold handle_delivery, handleInternalReplicate, request_mutation.
  cbn [dl_now dl_now_exp dl_now_ver dl_req].
  assert (is_u64 (req_Version req)) as Hu by (unfold is_u64; lia).
  destruct Hreq as [(Ha & He & Hwr)|(Ha & Hwr)]; rewrite Ha.
  - rewrite !(decide_True (P := "SET" = "SET")) by done. rewrite He. cbn [Z.ltb Z.compare].
    destruct (Store_Set_accepts n2 n3 (api_disk api) (api_store api) (req_Key req) (req_Value req) 0
      (req_Version req)) as (d' & s' & r & E & Hw'); [done | done | done | lia | done |].
    pose proof (Store_Set_ok append_io_ok (api_disk api) (api_store api) Hs n2 n3 (req_Key req)
      (req_Value req) 0 (req_Version req) Hu) as Hok.
    pose proof (Store_Set_view append_io_ok (api_disk api) (api_store api) Hs n2 n3 (req_Key req)
      (req_Value req) 0 (req_Version req) Hu) as Hv.
    rewrite E in Hok, Hv |- *. cbn [fst snd] in *. destruct Hv as [Hv _].
    rewrite pick_version_nonzero in Hv by lia. cbn [fst] in Hv.
    split; [done|]. split; [by split|]. exact Hv.
  - rewrite !(decide_False (P := "DELETE" = "SET")) by done.
    rewrite !(decide_True (P := "DELETE" = "DELETE")) by done.
    destruct (Store_Delete_accepts n3 (api_disk api) (api_store api) (req_Key req)
      (req_Version req)) as (d' & s' & r & b & E & Hw'); [done | done | done | done |].
    pose proof (Store_Delete_ok append_io_ok (api_disk api) (api_store api) Hs n3 (req_Key req)
      (req_Version req) Hu) as Hok.
    pose proof (Store_Delete_view append_io_ok (api_disk api) (api_store api) Hs n3 (req_Key req)
      (req_Version req) Hu) as Hv.
    rewrite E in Hok, Hv |- *. cbn [fst snd] in *. destruct Hv as [Hv _].
    rewrite pick_version_nonzero in Hv by lia. cbn [fst] in Hv.
    split; [done|]. split; [by split|]. exact Hv.
Qed.

#[export, refine] Instance node_replica : LwwReplica API delivery := {
  rep_ok := node_ok;
  rep_view := fun api => view (api_store api);
  rep_accepts := fun dl => acceptable (dl_req dl);
  rep_mutation := fun dl => request_mutation (dl_req dl);
  rep_apply := fun dl api => (handle_delivery dl api).2
}.
Proof.
  - intros dl api Hok Hacc. by apply handle_delivery_spec.
  - intros dl api Hok Hacc. by apply handle_delivery_spec.
Defined.

(** ** Facts about single handlers *)

Lemma list_limit_range limitStr : 1 <= list_limit limitStr <= 1000.
Proof.
  unfold list_limit. case_decide; [lia|]. destruct (Atoi limitStr) as [v|]; [|lia].
  destruct (Z.ltb_spec 0 v); [|lia]. destruct (Z.ltb_spec 1000 v); lia.
Qed.

(** GET answers with the live entry. *)
Lemma handleGetKey_live now now2 key api :
  store_ok (api_store api) -> key <> "" ->
  (handleGetKey now now2 key api).1
  = match live now (view (api_store api)) !! key with
    | Some e => mkResponse StatusOK (GetResponse (string_of (Value e)) (Version e))
    | None => mkResponse StatusNotFound (ErrorText "key not found")
    end.
Proof.
  intros Hs Hk. unfold handleGetKey. rewrite decide_False by done.
  pose proof (Store_Get_result now now2 (api_store api) key Hs) as Hg.
  destruct (Store_Get now now2 (api_store api) key) as [[[val ver] found] s']. cbn in Hg.
  destruct (live now (view (api_store api)) !! key); by injection Hg as -> -> ->.
Qed.

Lemma put_ttl_none v : put_ttl (mkPutRequest v None) = 0.
Proof. done. Qed.

(** ** Properties *)

(** Replication converges.  Two nodes that hold the same map and receive
    the same replicated writes (without expiry, one entry per version of a
    key), each in its own order, at its own times and with any repetitions,
    hold the same map afterwards. *)
Theorem replicated_nodes_converge a b la lb :
  node_ok a -> node_ok b -> view (api_store a) = view (api_store b) ->
  Forall (fun dl => acceptable (dl_req dl) /\ req_Action (dl_req dl) = "SET") la ->
  Forall (fun dl => acceptable (dl_req dl)) lb ->
  (forall req, req ∈ dl_req <$> la <-> req ∈ dl_req <$> lb) ->
  consistent (view (api_store a)) (request_mutation ∘ dl_req <$> la) ->
  view (api_store (deliver la a)) = view (api_store (deliver lb b)).
Proof.
  intros Ha Hb Hv Hla Hlb Heq Hc.
  apply (deliver_converge (LA := node_replica) (LB := node_replica) a b la lb Ha Hb Hv).
  - eapply Forall_impl; [exact Hla|]. by intros dl [? _].
  - done.
  - apply Forall_fmap. eapply Forall_impl; [exact Hla|]. intros dl [_ Hset]. cbn.
    unfold request_mutation. by rewrite Hset, decide_True.
  - intros op. rewrite !list_elem_of_fmap. cbn. split; intros (dl & -> & Hdl).
    + assert (dl_req dl ∈ dl_req <$> lb) as (dl' & E & Hdl')%list_elem_of_fmap
        by (apply Heq, list_elem_of_fmap; eauto). exists dl'. by rewrite E.
    + assert (dl_req dl ∈ dl_req <$> la) as (dl' & E & Hdl')%list_elem_of_fmap
        by (apply Heq, list_elem_of_fmap; eauto). exists dl'. by rewrite E.
  - exact Hc.
Qed.

(** A node of a cluster, with an empty in-memory store. *)
Definition cfg_of (id : string) : Config :=
  mkConfig id 8080 "data" "" Second (200 * Millisecond) (5 * Second) (500 * Millisecond) (5 * Second)
    (id +:+ ":8080").
Definition node (id : string) (s : Store) : API :=
  mkAPI ∅ s NewPeerManager (NewReplicator id (500 * Millisecond)) (NewMetricsCollector 0) (cfg_of id).

Lemma node_ok_nolog id s : store_ok s -> wal s = None -> node_ok (node id s).
Proof. intros Hs Hw. split; [done|]. cbn. by rewrite Hw. Qed.

Lemma replicated_nodes_converge_witness :
  let d1 := mkDelivery 0 0 0 (mkReplicateRequest "k" [x61] 7 0 "SET") in
  let d2 := mkDelivery 5 5 5 (mkReplicateRequest "k" [x62] 9 0 "SET") in
  view (api_store (deliver [d1; d2] (node "a" (NewStore None))))
  = view (api_store (deliver [d2; d1; d2] (node "b" (NewStore None)))).
Proof.
  intros d1 d2.
  assert (acceptable (dl_req d1) /\ acceptable (dl_req d2)) as [H1 H2].
  { split; (split; [left; split; [done|split; [done|unfold writable; cbn; lia]] | cbn; lia]). }
  apply replicated_nodes_converge.
  - apply node_ok_nolog; [apply NewStore_ok | done].
  - apply node_ok_nolog; [apply NewStore_ok | done].
  - reflexivity.
  - by repeat constructor.
  - by repeat constructor.
  - intros req. cbn. rewrite !elem_of_cons. tauto.
  - intros k e e'. change (view (api_store (node "a" (NewStore None)))) with (view (NewStore None)).
    rewrite NewStore_view, lookup_empty.
    intros [?|He] [?|He']; try done. unfold request_mutation in *. cbn in He, He'.
    rewrite !elem_of_cons in He, He'.
    repeat match goal with H : _ \/ _ |- _ => destruct H as [H|H] end;
      try (by apply not_elem_of_nil in He); try (by apply not_elem_of_nil in He');
      injection He as ? ->; injection He' as ? ->; done.
Defined.

(** A PUT without ttl that is not older than the stored entry, on a node with a
    working disk: the version it is answered with, the map, and what is given
    to the replicator. *)
Lemma handlePutKey_stores `{MapRange} api n1 n2 n3 key value :
  node_ok api -> key <> "" -> writable key (bytes_of value) ->
  let version := (NextVersion n2 (api_store api)).1 in
  (forall c, view (api_store api) !! key = Some c -> Version c <= version) ->
  let '(resp, api', out) := handlePutKey n1 n2 n3 append_io_ok key (Some (mkPutRequest value None)) api in
  resp = mkResponse StatusOK (PutResponse version) /\ node_ok api' /\
  view (api_store api') = lww_set key (mkEntry (bytes_of value) version time_zero) (view (api_store api)) /\
  api_pm api' = api_pm api /\
  (api_replicator api', out)
  = Replicate key (bytes_of value) version time_zero "SET" (api_pm api) (api_replicator api).
Proof.
  intros [Hs Hw] Hk Hwr version Hnew. unfold handlePutKey.
  rewrite decide_False by done. rewrite put_ttl_none. cbn [put_Value].
  assert (is_u64 0) as Hu by (unfold is_u64; lia).
  destruct (Store_Set_accepts n1 n2 (api_disk api) (api_store api) key (bytes_of value) 0 0)
    as (d' & s' & r & Es & Hw'); [done | done | done | lia | done |].
  pose proof (Store_Set_ok append_io_ok (api_disk api) (api_store api) Hs n1 n2 key
    (bytes_of value) 0 0 Hu) as Hok.
  pose proof (Store_Set_view append_io_ok (api_disk api) (api_store api) Hs n1 n2 key
    (bytes_of value) 0 0 Hu) as Hv.
  rewrite Es in Hok, Hv |- *. cbn [fst snd] in Hok, Hv. cbv zeta in Hv.
  change ((pick_version n2 (api_store api) 0).1) with version in Hv. destruct Hv as [Hv Hr].
  assert (r = version) as ->.
  { rewrite Hr. destruct (view (api_store api) !! key) as [c|]; [|done].
    specialize (Hnew c eq_refl). lia. }
  change (0 <? 0) with false. cbn [Z.ltb]. destruct (Replicate _ _ _ _ _ _ _) as [rp sends].
  split; [done|]. split; [by split|]. by repeat split.
Qed.

(** A client reads its own write.  On a node with a working disk a PUT
    without ttl, of a key whose stored entry is not from the future (not newer
    than the version the clock gives), succeeds with that version, and every
    later GET, at any time, answers with the value put and that version. *)
Theorem put_then_get `{MapRange} api n1 n2 n3 key value resp api' out :
  node_ok api -> key <> "" -> writable key (bytes_of value) ->
  let version := (NextVersion n2 (api_store api)).1 in
  (forall c, view (api_store api) !! key = Some c -> Version c <= version) ->
  handlePutKey n1 n2 n3 append_io_ok key (Some (mkPutRequest value None)) api = (resp, api', out) ->
  resp = mkResponse StatusOK (PutResponse version) /\ node_ok api' /\
  forall now now2, (handleGetKey now now2 key api').1 = mkResponse StatusOK (GetResponse value version).
Proof.
  intros Hok Hk Hwr version Hnew E.
  pose proof (handlePutKey_stores api n1 n2 n3 key value Hok Hk Hwr Hnew) as Hp.
  rewrite E in Hp. destruct Hp as (-> & Hok' & Hv & _). split; [done|]. split; [done|]. intros now now2.
  rewrite handleGetKey_live by (done || apply Hok').
  assert (live now (view (api_store api')) !! key = Some (mkEntry (bytes_of value) version time_zero)) as ->.
  { rewrite lookup_live, Hv, lookup_lww_set. cbn [Version]. fold version.
    destruct (view (api_store api) !! key) as [c|] eqn:Ec; [|done].
    specialize (Hnew c eq_refl). by destruct (Z.ltb_spec version (Version c)); [lia|]. }
  cbn [Value Version]. by rewrite string_of_bytes_of.
Qed.

Lemma put_then_get_witness :
  let now := time_Unix 50 in
  let '(resp, api', _) := handlePutKey now now now append_io_ok "k"
    (Some (mkPutRequest "v" None)) (node "a" (NewStore None)) in
  resp = mkResponse StatusOK (PutResponse 50) /\
  (handleGetKey (time_Unix 99) (time_Unix 99) "k" api').1 = mkResponse StatusOK (GetResponse "v" 50).
Proof.
  intros now. destruct (handlePutKey now now now append_io_ok "k" (Some (mkPutRequest "v" None))
    (node "a" (NewStore None))) as [[resp api'] out] eqn:E.
  destruct (put_then_get (node "a" (NewStore None)) now now now "k" "v" resp api' out)
    as (H1 & _ & H3).
  - apply node_ok_nolog; [apply NewStore_ok | done].
  - discriminate.
  - unfold writable. cbn. lia.
  - intros c Hc. change (view (NewStore None) !! "k" = Some c) in Hc.
    rewrite NewStore_view in Hc. discriminate.
  - exact E.
  - split; [exact H1 | apply H3].
Defined.

(** A PUT that is not answered with 200 changes nothing: whatever fails
    (no key, a body that does not decode, any failure of the log), the served
    map is as before and nothing is sent to the peers. *)
Theorem failed_put_has_no_effect `{MapRange} api n1 n2 n3 io key decoded resp api' out :
  store_ok (api_store api) ->
  handlePutKey n1 n2 n3 io key decoded api = (resp, api', out) ->
  rs_status resp <> StatusOK ->
  view (api_store api') = view (api_store api) /\ out = [] /\ api_pm api' = api_pm api /\
  api_replicator api' = api_replicator api.
Proof.
  intros Hs E Hst. unfold handlePutKey in E. case_decide; [by simplify_eq|].
  destruct decoded as [req|]; [|by simplify_eq].
  assert (is_u64 0) as Hu by (unfold is_u64; lia).
  pose proof (Store_Set_view io (api_disk api) (api_store api) Hs n1 n2 key
    (bytes_of (put_Value req)) (put_ttl req) 0 Hu) as Hv. cbv zeta in Hv.
  destruct (Store_Set _ _ _ _ _ _ _ _ _) as [[d s] [v [err|]]]; cbn [fst snd] in Hv.
  - destruct Hv as [_ Hv]. by injection E as <- <- <-.
  - destruct (Replicate _ _ _ _ _ _ _) as [rp sends]. by injection E as <- <- <-.
Qed.

Lemma failed_put_has_no_effect_witness :
  let '(resp, api', out) := handlePutKey 0 0 0 (mkAppendIO (WriteFails 3) true) "k"
    (Some (mkPutRequest "v" None)) (node "a" fresh_store) in
  view (api_store api') = view fresh_store /\ out = [].
Proof.
  destruct (handlePutKey 0 0 0 (mkAppendIO (WriteFails 3) true) "k" (Some (mkPutRequest "v" None))
    (node "a" fresh_store)) as [[resp api'] out] eqn:E.
  destruct (failed_put_has_no_effect (node "a" fresh_store) 0 0 0 (mkAppendIO (WriteFails 3) true) "k"
    (Some (mkPutRequest "v" None)) resp api' out) as (H1 & H2 & _).
  - apply with_wal_ok, NewStore_ok.
  - exact E.
  - vm_compute in E. injection E as <- _ _. discriminate.
  - split; [exact H1 | exact H2].
Defined.

(** Listing keys never fails.  Whatever the query says, the handler
    answers 200 with between one and a thousand of the live keys that have the
    prefix and follow the cursor (fewer only when there are no more), and the
    cursor of the next page. *)
Theorem list_keys_always_answers `{MapRange} now query api :
  store_ok (api_store api) ->
  let keys := live_keys now (query_get query "prefix") (view (api_store api)) in
  Z.of_nat (length keys) + 1000 < 2 ^ 63 ->
  let limit := list_limit (query_get query "limit") in
  let page := page_spec (Z.to_nat limit) (query_get query "cursor") keys in
  1 <= limit <= 1000 /\
  handleListKeys now query api = Some (mkResponse StatusOK (KeysResponse page.1 page.2)).
Proof.
  intros Hs keys Hlen limit page. pose proof (list_limit_range (query_get query "limit")) as Hl.
  split; [done|]. unfold handleListKeys. rewrite Store_Scan_sorted by done.
  rewrite scan_page_spec; [subst page limit keys; by destruct (page_spec _ _ _) | apply live_keys_sorted | lia |].
  fold keys. fold limit in Hl |- *. lia.
Qed.

Lemma list_keys_always_answers_witness :
  handleListKeys 9 "prefix=a&limit=1" (node "a" three_keys)
  = Some (mkResponse StatusOK (KeysResponse ["aa"] "aa")).
Proof.
  refine (eq_trans (proj2 (list_keys_always_answers 9 "prefix=a&limit=1" (node "a" three_keys) _ _)) _).
  - apply three_keys_ok.
  - vm_compute. reflexivity.
  - vm_compute. reflexivity.
Defined.

(** A ping introduces two nodes to each other.  Node A pings node B and B
    handles the request: B's table has A alive, under the address A
    advertised if A was unknown; A, processing B's answer, has B alive with the
    measured round trip. *)
Theorem ping_exchange `{MapRange} clock gm pmA t p apiB now now' now_me :
  gm_nodeID gm <> "" -> gm_address gm <> "" -> pm_ok (api_pm apiB) ->
  let idB := cfg_NodeID (api_cfg apiB) in
  NodeID p = idB -> idB <> "seed" -> gm_nodeID gm <> idB -> peers (api_pm apiB) !! idB = None ->
  let '(resp, apiB') := handleInternalPing now now' now_me (ping_query gm) apiB in
  (exists q, peers (api_pm apiB') !! gm_nodeID gm = Some q /\ State q = StateAlive /\
     (peers (api_pm apiB) !! gm_nodeID gm = None -> Address q = gm_address gm)) /\
  match rs_body resp with
  | PeersResponse l => rs_status resp = StatusOK /\
      exists p', peers (pingPeer clock gm p (Response (rs_status resp) (Some l)) (pmA, t)).1 !! idB
                 = Some p' /\ State p' = StateAlive /\ RTT p' = time_Sub (clock (S t)) (clock t)
  | _ => False
  end.
Proof.
  intros Hid Had Hok idB Hp Hseed Hne HB. unfold handleInternalPing.
  pose proof (parse_two_pairs "sender_id" "sender_addr" (gm_nodeID gm) (gm_address gm)
    eq_refl eq_refl) as E. cbv zeta in E.
  assert (query_get (ping_query gm) "sender_id" = gm_nodeID gm /\
          query_get (ping_query gm) "sender_addr" = gm_address gm) as [-> ->].
  { unfold query_get. match type of E with parse_query _ ?q = _ => change (ping_query gm) with q end.
    by rewrite E. }
  rewrite decide_True by done. set (pm := AddOrUpdate _ _ _ _ _ _).
  cbn [api_pm with_pm rs_body rs_status]. split.
  - subst pm. rewrite lookup_AddOrUpdate. eexists. split; [done|]. split; [done|].
    by intros ->.
  - split; [done|]. apply ping_reply; [left; split; congruence|].
    rewrite map_app. apply Forall_app_2; [|by constructor].
    apply Forall_map, Forall_forall. intros rp Hrp Hrid. cbn in Hrid |- *.
    apply elem_of_GetAll in Hrp; [|by apply AddOrUpdate_ok].
    subst pm. rewrite Hrid, lookup_AddOrUpdate_ne in Hrp by done. unfold idB in *. congruence.
Qed.

Lemma ping_exchange_witness :
  let b := node "b" (NewStore None) in
  let '(resp, b') := handleInternalPing 3 3 3 (ping_query gm_a) b in
  exists q, peers (api_pm b') !! "a" = Some q /\ State q = StateAlive.
Proof.
  intros b.
  pose proof (ping_exchange (fun n => Z.of_nat n) gm_a NewPeerManager 0 (peer_at "b" StateAlive 0 0) b
    3 3 3) as H.
  destruct (handleInternalPing 3 3 3 (ping_query gm_a) b) as [resp b'].
  destruct H as [(q & H1 & H2 & _) _].
  - discriminate.
  - discriminate.
  - apply NewPeerManager_ok.
  - reflexivity.
  - discriminate.
  - discriminate.
  - reflexivity.
  - exists q. split; [exact H1 | exact H2].
Defined.

(** ** Where nodes diverge *)

(** Two writes with one version: the later arrival wins on each node, so nodes
    that receive them in different orders keep different values. *)
Theorem version_ties_diverge :
  let d1 := mkDelivery 0 0 0 (mkReplicateRequest "k" (bytes_of "x") 7 0 "SET") in
  let d2 := mkDelivery 0 0 0 (mkReplicateRequest "k" (bytes_of "y") 7 0 "SET") in
  (handleGetKey 0 0 "k" (deliver [d1; d2] (node "a" (NewStore None)))).1
    = mkResponse StatusOK (GetResponse "y" 7) /\
  (handleGetKey 0 0 "k" (deliver [d2; d1] (node "b" (NewStore None)))).1
    = mkResponse StatusOK (GetResponse "x" 7).
Proof. vm_compute. auto. Qed.

(** A deletion leaves no trace: when it overtakes the older write it deletes,
    the write is applied afterwards and stays. *)
Theorem overtaken_delete_is_lost :
  let w := mkDelivery 0 0 0 (mkReplicateRequest "k" (bytes_of "x") 7 0 "SET") in
  let del := mkDelivery 0 0 0 (mkReplicateRequest "k" [] 9 0 "DELETE") in
  rs_status (handleGetKey 0 0 "k" (deliver [w; del] (node "a" (NewStore None)))).1 = StatusNotFound /\
  (handleGetKey 0 0 "k" (deliver [del; w] (node "b" (NewStore None)))).1
    = mkResponse StatusOK (GetResponse "x" 7).
Proof. vm_compute. auto. Qed.

(** A PUT that loses against a newer entry is answered with 200 and the
    version of the winner, and the losing value is sent to the peers under
    that version: node a keeps the winner, node b replaces it by the loser. *)
Theorem losing_put_overwrites_peers :
  let w := mkDelivery 0 0 0 (mkReplicateRequest "k" (bytes_of "newer") 100 0 "SET") in
  let pm := AddOrUpdate 0 0 "b" "b:8080" StateAlive NewPeerManager in
  let a := with_pm (deliver [w] (node "a" (NewStore None))) pm in
  let b := deliver [w] (node "b" (NewStore None)) in
  let now := time_Unix 50 in
  let '(resp, a', out) := handlePutKey now now now append_io_ok "k"
    (Some (mkPutRequest "older" None)) a in
  let b' := deliver (map (fun '(_, req) => mkDelivery 0 0 0 req) out) b in
  resp = mkResponse StatusOK (PutResponse 100) /\
  (handleGetKey 0 0 "k" a').1 = mkResponse StatusOK (GetResponse "newer" 100) /\
  (handleGetKey 0 0 "k" b').1 = mkResponse StatusOK (GetResponse "older" 100).
Proof. vm_compute. auto. Qed.

(** A ttl of more seconds than fit into 63 bits of nanoseconds becomes
    negative, and the key is stored without expiry. *)
Theorem huge_ttl_never_expires v n :
  2 ^ 63 <= n * Second < 2 ^ 64 ->
  forall now, expiry_of now (put_ttl (mkPutRequest v (Some n))) = time_zero.
Proof.
  intros Hn now. unfold put_ttl, expiry_of. cbn [put_TTLSeconds].
  destruct (Z.ltb_spec 0 n); [|done].
  rewrite i64_wrap by done.
  by destruct (Z.ltb_spec 0 (n * Second - 2 ^ 64)); [lia|].
Qed.
