(* ===== verification/Wire.v ===== *)
(** * The bodies on the wire

    The JSON texts of the requests and responses of [internal/api/handlers.go]
    and [internal/cluster/replication.go], by the field names of their
    structures.  The decimal text of a [float64], the RFC 3339 text of a time
    (which depends on the time zone of the machine) and the texts of errors
    (which end with those of the operating system) are the parameters
    [Texts]. *)

From S2P Require Import Prelude.
From S2P Require Import GoBase.
From S2P Require Import Strconv.
From S2P Require Import Url.
From S2P Require Import Utf8.
From S2P Require Import Json.
From S2P Require Import Codec.
From S2P Require Import Wal.
From S2P Require Import Peer.
From S2P Require Import Replication.
From S2P Require Import Metrics.
From S2P Require Import Api.

Class Texts := {
  FormatFloat : float64 -> string;
  ParseFloat : string -> option float64;
  FormatTime : Z -> string;
  ParseTime : string -> option Z;
  Error : error -> string
}.

(** What the library documents of them: a finite float is written as a JSON
    number that is read back as the same float, a time as a string of ASCII
    characters that is read back as the same instant. *)
Definition float_readable `{Texts} (f : float64) : Prop :=
  number_literal (FormatFloat f) = true /\ ParseFloat (FormatFloat f) = Some f.
Definition time_readable `{Texts} (t : Z) : Prop :=
  is_ascii (FormatTime t) = true /\ ParseTime (FormatTime t) = Some t.

Definition newline : string := String (chr 10) "".
Definition JInt (n : Z) : json := JNum (Itoa n).

(** ** PUT requests *)

Definition put_fields : list (string * (json -> PutRequest -> option PutRequest)) :=
  [("value", fun v x => s ← to_string v (put_Value x); Some (mkPutRequest s (put_TTLSeconds x)));
   ("ttl_seconds", fun v x => n ← to_int_ptr v (put_TTLSeconds x); Some (mkPutRequest (put_Value x) n))].

Definition decode_PutRequest (body : string) : option PutRequest :=
  Decode put_fields body (mkPutRequest "" None).

(** ** Replication requests *)

(** The value of a deletion is the nil slice, which is written [null]. *)
Definition value_json (action : string) (value : list byte) : json :=
  match value with
  | [] => if decide (action = "DELETE") then JNull else JStr ""
  | _ => JStr (b64_encode value)
  end.

Definition replicate_json (req : ReplicateRequest) : json :=
  JObj [("key", JStr (req_Key req)); ("value", value_json (req_Action req) (req_Value req));
        ("version", JInt (req_Version req)); ("expires_at", JInt (req_ExpiresAt req));
        ("action", JStr (req_Action req))].

Definition encode_ReplicateRequest (req : ReplicateRequest) : string := print (replicate_json req).

Definition replicate_fields : list (string * (json -> ReplicateRequest -> option ReplicateRequest)) :=
  [("key", fun v x => s ← to_string v (req_Key x);
      Some (mkReplicateRequest s (req_Value x) (req_Version x) (req_ExpiresAt x) (req_Action x)));
   ("value", fun v x => b ← to_bytes v (req_Value x);
      Some (mkReplicateRequest (req_Key x) b (req_Version x) (req_ExpiresAt x) (req_Action x)));
   ("version", fun v x => n ← to_uint 64 v (req_Version x);
      Some (mkReplicateRequest (req_Key x) (req_Value x) n (req_ExpiresAt x) (req_Action x)));
   ("expires_at", fun v x => n ← to_int v (req_ExpiresAt x);
      Some (mkReplicateRequest (req_Key x) (req_Value x) (req_Version x) n (req_Action x)));
   ("action", fun v x => s ← to_string v (req_Action x);
      Some (mkReplicateRequest (req_Key x) (req_Value x) (req_Version x) (req_ExpiresAt x) s))].

Definition decode_ReplicateRequest (body : string) : option ReplicateRequest :=
  Decode replicate_fields body (mkReplicateRequest "" [] 0 0 "").

(** ** Responses *)

Section Bodies.
Context `{Texts}.

(** [SuspiciousAt] is not part of the text; the round trip is written as its
    number of nanoseconds. *)
Definition Peer_json (p : Peer) : json :=
  JObj [("node_id", JStr (NodeID p)); ("address", JStr (Address p)); ("state", JStr (State p));
        ("last_seen", JStr (FormatTime (LastSeen p))); ("rtt_ms", JInt (RTT p));
        ("replication_lag", JInt (ReplicationLag p))].

Definition ClusterStatusResponse_json (st : ClusterStatusResponse) : json :=
  JObj [("node_id", JStr (cs_NodeID st)); ("role", JStr (cs_Role st));
        ("uptime_seconds", JNum (FormatFloat (Seconds (cs_Uptime st))));
        ("store_size", JInt (cs_StoreSize st)); ("wal_size_bytes", JInt (cs_WALSizeBytes st));
        ("peers_count", JInt (cs_PeersCount st))].

(** The value [writeJSON] is given, for the bodies it writes. *)
Definition body_json (b : body) : option json :=
  match b with
  | ErrorOf e => Some (JObj [("error", JStr (Error e))])
  | PutResponse version => Some (JObj [("version", JInt version)])
  | GetResponse value version => Some (JObj [("value", JStr value); ("version", JInt version)])
  | DeleteResponse version deleted =>
      Some (JObj [("version", JInt version); ("deleted", JBool deleted)])
  | KeysResponse keys cursor =>
      Some (JObj [("keys", JArr (map JStr keys)); ("next_cursor", JStr cursor)])
  | StatusResponse st => Some (ClusterStatusResponse_json st)
  | PeersResponse l => Some (JArr (map Peer_json l))
  | _ => None
  end.

(** [writeJSON]: the encoder ends the text with a line break. *)
Definition writeJSON (v : json) : string := print v +:+ newline.

(** The bytes of a response.  [http.Error], used with status 400, ends its
    text with a line break, the other fixed texts are written as they are. *)
Definition body_bytes (r : response) : string :=
  match rs_body r with
  | NoBody => ""
  | Text s => s
  | Lines l => foldr (fun line t => line +:+ newline +:+ t) "" l
  | ErrorText msg =>
      print (JObj [("error", JStr msg)])
      +:+ (if rs_status r =? StatusBadRequest then newline else "")
  | b => match body_json b with Some v => writeJSON v | None => "" end
  end.

(** ** Peer lists *)

Definition to_time (v : json) (old : Z) : option Z :=
  match v with JStr s => ParseTime s | JNull => Some old | _ => None end.

Definition peer_fields : list (string * (json -> Peer -> option Peer)) :=
  [("node_id", fun v x => s ← to_string v (NodeID x);
      Some (mkPeer s (Address x) (State x) (LastSeen x) (RTT x) (ReplicationLag x) (SuspiciousAt x)));
   ("address", fun v x => s ← to_string v (Address x);
      Some (mkPeer (NodeID x) s (State x) (LastSeen x) (RTT x) (ReplicationLag x) (SuspiciousAt x)));
   ("state", fun v x => s ← to_string v (State x);
      Some (mkPeer (NodeID x) (Address x) s (LastSeen x) (RTT x) (ReplicationLag x) (SuspiciousAt x)));
   ("last_seen", fun v x => t ← to_time v (LastSeen x);
      Some (mkPeer (NodeID x) (Address x) (State x) t (RTT x) (ReplicationLag x) (SuspiciousAt x)));
   ("rtt_ms", fun v x => n ← to_int v (RTT x);
      Some (mkPeer (NodeID x) (Address x) (State x) (LastSeen x) n (ReplicationLag x) (SuspiciousAt x)));
   ("replication_lag", fun v x => n ← to_int v (ReplicationLag x);
      Some (mkPeer (NodeID x) (Address x) (State x) (LastSeen x) (RTT x) n (SuspiciousAt x)))].

Definition zero_peer : Peer := mkPeer "" "" "" time_zero 0 0 time_zero.

(** [json.Unmarshal(body, &remotePeers)]: only white space may follow the
    value. *)
Definition Unmarshal_peers (body : string) : option (list Peer) :=
  '(v, r) ← read_value (2 * String.length body + 2) maxNestingDepth body;
  if String.eqb (skip_ws r) "" then
    match v with
    | JArr l => to_elems (decode_struct peer_fields) zero_peer l []
    | JNull => Some []
    | _ => None
    end
  else None.
End Bodies.

(** ** Round trips *)

Ltac decode_step :=
  erewrite decode_members_cons by reflexivity; cbn [snd to_string to_int to_uint to_bool mbind option_bind].

Lemma ends_newline : ends_number newline = true.
Proof. reflexivity. Qed.

(** A written JSON body, as a decoder reads it. *)
Lemma Decode_writeJSON {T} (fields : list (string * (json -> T -> option T))) v x :
  numbers_ok v = true -> nesting v <= maxNestingDepth ->
  Decode fields (writeJSON v) x = decode_struct fields (norm v) x.
Proof. intros. unfold writeJSON. by rewrite Decode_print. Qed.

Lemma value_json_facts action value :
  numbers_ok (value_json action value) = true /\ nesting (value_json action value) = 0 /\
  to_bytes (norm (value_json action value)) [] = Some value.
Proof.
  unfold value_json. destruct value as [|b l]; [by case_decide|]. split; [done|]. split; [done|].
  cbn [norm]. destruct (b64_encode_ascii (b :: l)) as [Ha _].
  rewrite sanitize_is_ascii by done. apply b64_roundtrip.
Qed.

(** The request a peer decodes. *)
Definition wire_request (req : ReplicateRequest) : ReplicateRequest :=
  mkReplicateRequest (sanitize (req_Key req)) (req_Value req) (req_Version req) (req_ExpiresAt req)
    (sanitize (req_Action req)).

Lemma decode_encode_ReplicateRequest req :
  is_u64 (req_Version req) -> is_i64 (req_ExpiresAt req) ->
  decode_ReplicateRequest (encode_ReplicateRequest req) = Some (wire_request req).
Proof.
  intros Hv He. destruct req as [key value version expiresAt action]. cbn in Hv, He.
  destruct (value_json_facts action value) as (Hn & Hd & Hb).
  unfold decode_ReplicateRequest, encode_ReplicateRequest, replicate_json.
  cbn [req_Key req_Value req_Version req_ExpiresAt req_Action].
  rewrite Decode_print_all.
  - cbn [norm map decode_struct fst snd JInt]. rewrite (sanitize_is_ascii "key"), (sanitize_is_ascii "value"),
      (sanitize_is_ascii "version"), (sanitize_is_ascii "expires_at"), (sanitize_is_ascii "action") by done.
    decode_step. decode_step. cbn [req_Value]. rewrite Hb. cbn [mbind option_bind].
    decode_step. rewrite ParseUint_Itoa by done. cbn [mbind option_bind].
    decode_step. rewrite Atoi_Itoa by done. cbn [mbind option_bind]. decode_step. done.
  - cbn [numbers_ok forallb snd JInt]. by rewrite Hn, !Itoa_literal.
  - cbn [nesting foldr snd JInt]. rewrite Hd. unfold maxNestingDepth. lia.
Qed.

(** The peer a reader of a list finds. *)
Definition wire_peer (p : Peer) : Peer :=
  mkPeer (sanitize (NodeID p)) (sanitize (Address p)) (sanitize (State p)) (LastSeen p) (RTT p)
    (ReplicationLag p) time_zero.

Section PeerLists.
Context `{Texts}.

Lemma decode_Peer_json p :
  is_i64 (RTT p) -> is_i64 (ReplicationLag p) -> time_readable (LastSeen p) ->
  decode_struct peer_fields (norm (Peer_json p)) zero_peer = Some (wire_peer p).
Proof.
  intros Hr Hl [Ha Ht]. unfold Peer_json. cbn [norm map decode_struct fst snd JInt].
  rewrite (sanitize_is_ascii "node_id"), (sanitize_is_ascii "address"), (sanitize_is_ascii "state"),
    (sanitize_is_ascii "last_seen"), (sanitize_is_ascii "rtt_ms"), (sanitize_is_ascii "replication_lag") by done.
  rewrite (sanitize_is_ascii (FormatTime _)) by done.
  do 3 decode_step. decode_step. cbn [to_time]. rewrite Ht. cbn [mbind option_bind].
  decode_step. rewrite Atoi_Itoa by done. cbn [mbind option_bind].
  decode_step. rewrite Atoi_Itoa by done. done.
Qed.

Lemma Peer_json_facts p : numbers_ok (Peer_json p) = true /\ nesting (Peer_json p) = 1.
Proof. split; [|done]. cbn [Peer_json numbers_ok forallb snd JInt]. by rewrite !Itoa_literal. Qed.

Lemma Unmarshal_PeersResponse l :
  Forall (fun p => is_i64 (RTT p) /\ is_i64 (ReplicationLag p) /\ time_readable (LastSeen p)) l ->
  Unmarshal_peers (body_bytes (mkResponse StatusOK (PeersResponse l))) = Some (map wire_peer l).
Proof.
  intros Hl. unfold Unmarshal_peers, body_bytes. cbn [rs_body body_json]. unfold writeJSON.
  rewrite read_print.
  - cbn [mbind option_bind]. change (String.eqb (skip_ws newline) "") with true. cbn [norm].
    induction Hl as [|p l (Hr & Hp & Ht) _ IH]; [done|]. cbn [map to_elems hd tl].
    rewrite decode_Peer_json by done. cbn [mbind option_bind]. by rewrite IH.
  - cbn [numbers_ok]. apply forallb_forall. intros v (p & <- & _)%in_map_iff. apply Peer_json_facts.
  - cbn [nesting]. enough (foldr (fun x m => Z.max (nesting x) m) 0 (map Peer_json l) <= 1) as Hd
      by (unfold maxNestingDepth; lia).
    clear. induction l as [|p l IH]; cbn [map foldr]; [lia|]. rewrite (proj2 (Peer_json_facts p)). lia.
  - done.
  - rewrite string_length_app. lia.
Qed.
End PeerLists.

(** ** The types of decoded requests *)

Lemma decode_ReplicateRequest_types body req :
  decode_ReplicateRequest body = Some req -> is_u64 (req_Version req) /\ is_i64 (req_ExpiresAt req).
Proof.
  apply (Decode_inv (fun r => is_u64 (req_Version r) /\ is_i64 (req_ExpiresAt r)));
    [|by split; split; cbn; lia].
  repeat (apply List.Forall_cons; [|]); [| | | | |apply List.Forall_nil]; intros v x x' [Hu Hi] E;
    cbn [snd] in E; destruct x as [k vl ver e a]; cbn in Hu, Hi;
    match type of E with (?o ≫= _) = _ => destruct o eqn:Eo; [|done]; injection E as <- end;
    cbn in Eo |- *; eauto using to_uint_u64, to_int_i64.
Qed.

(** ** Properties *)

(** C23: a replicated write arrives as it was sent.  The peer decodes the body
    the replicator encodes to a request with the same value, version, expiry
    and action; its key is the key sent exactly when that is valid UTF-8, and
    otherwise another one. *)
Theorem replicate_request_roundtrip req :
  is_u64 (req_Version req) -> is_i64 (req_ExpiresAt req) ->
  req_Action req = "SET" \/ req_Action req = "DELETE" ->
  exists req', decode_ReplicateRequest (encode_ReplicateRequest req) = Some req' /\
    req_Value req' = req_Value req /\ req_Version req' = req_Version req /\
    req_ExpiresAt req' = req_ExpiresAt req /\ req_Action req' = req_Action req /\
    (req' = req <-> valid_utf8 (req_Key req) = true).
Proof.
  intros Hv He Ha. exists (wire_request req). rewrite decode_encode_ReplicateRequest by done.
  assert (sanitize (req_Action req) = req_Action req) as Hs by (by destruct Ha as [->| ->]).
  repeat (split; [done|]). rewrite valid_sanitize. unfold wire_request. rewrite Hs.
  destruct req as [k v ver e a]. cbn. split; [by intros [= ->] | by intros ->].
Qed.

Lemma replicate_request_roundtrip_witness :
  decode_ReplicateRequest (encode_ReplicateRequest
    (mkReplicateRequest "k" (bytes_of "hello") 7 0 "SET"))
  = Some (mkReplicateRequest "k" (bytes_of "hello") 7 0 "SET").
Proof.
  destruct (replicate_request_roundtrip (mkReplicateRequest "k" (bytes_of "hello") 7 0 "SET"))
    as (req' & E & _ & _ & _ & _ & Hk).
  - split; reflexivity || discriminate.
  - split; reflexivity || discriminate.
  - left. reflexivity.
  - rewrite E. f_equal. apply Hk. reflexivity.
Defined.

(** The membership list of a ping reply is read back.  The text a node
    writes for its peers is decoded by the node that pinged to the same list,
    without the times of suspicion, for ids, addresses and states that are
    valid UTF-8. *)
Theorem peers_body_roundtrip `{Texts} l :
  Forall (fun p => is_i64 (RTT p) /\ is_i64 (ReplicationLag p) /\ time_readable (LastSeen p)) l ->
  Forall (fun p => valid_utf8 (NodeID p) && valid_utf8 (Address p) && valid_utf8 (State p) = true) l ->
  Unmarshal_peers (body_bytes (mkResponse StatusOK (PeersResponse l))) = Some (map peer_json l).
Proof.
  intros Hl Hv. rewrite Unmarshal_PeersResponse by done. f_equal.
  induction Hv as [|p l Hp _ IH]; [done|]. inversion Hl; subst. cbn [map]. rewrite IH by done. f_equal.
  zbool. unfold wire_peer, peer_json. by rewrite !(proj1 (valid_sanitize _)).
Qed.

(** Decimal texts for times, to run the definitions. *)
#[local] Instance decimal_texts : Texts := {
  FormatFloat f := "1.5";
  ParseFloat s := None;
  FormatTime t := Itoa t;
  ParseTime s := Atoi s;
  Error e := ""
}.

Lemma peers_body_roundtrip_witness :
  let p := mkPeer "b" "10.0.0.2:8080" StateSuspect 5 2000000 3 4 in
  Unmarshal_peers (body_bytes (mkResponse StatusOK (PeersResponse [p; zero_peer])))
  = Some [peer_json p; zero_peer].
Proof.
  intros p. refine (peers_body_roundtrip [p; zero_peer] _ _).
  - repeat constructor; try discriminate; reflexivity.
  - repeat constructor.
Defined.
