(* ===== verification/Mux.v ===== *)
(** * Request routing: what the code uses of [net/url] and [http.ServeMux]

    The paths of requests, escaped and decoded, and the choice of a handler by
    method and path as [ServeMux] makes it since Go 1.22: the path is cleaned
    (a request for another spelling is redirected), compared with the patterns
    segment by segment, and a path that only other methods have is reported as
    such. *)

From S2P Require Import Prelude.
From S2P Require Import GoBase.
From S2P Require Import Url.
From S2P Require Import FilePath.
From Stdlib Require Import Ascii.

(** ** Paths of URLs *)

(** The escaping of a whole path: of the reserved characters only the question
    mark is escaped. *)
Definition escape_whole_char (c : ascii) : string :=
  if unreserved c || is_in "$&+,/:;=@" c then String c EmptyString else percent c.
Definition escape_whole : string -> string := escape escape_whole_char.

(** A path that is kept as it was sent. *)
Fixpoint valid_encoded (s : string) : bool :=
  match s with
  | EmptyString => true
  | String c s' =>
      (unreserved c || is_in "!$&'()*+,;=:@[]%/" c) && valid_encoded s'
  end.

(** [u.EscapedPath()] of the URL parsed from the escaped path [raw], whose
    decoded form is [path]. *)
Definition EscapedPath (raw path : string) : string :=
  if valid_encoded raw then raw else escape_whole path.

Fixpoint ends_slash (s : string) : bool :=
  match s with
  | EmptyString => false
  | String c EmptyString => is_slash c
  | String _ s' => ends_slash s'
  end.

Definition cleanPath (p : string) : string :=
  if decide (p = "") then "/"
  else
    let p := if rooted p then p else "/" +:+ p in
    let np := Clean p in
    if ends_slash p && negb (String.eqb np "/") then np +:+ "/" else np.

(** ** Patterns *)

Inductive seg := Lit (s : string) | Wild (name : string) | Multi.

Record pattern := mkPattern { pt_method : string; pt_segs : list seg }.

(** The part of a path before the next slash. *)
Fixpoint seg_split (s : string) : string * string :=
  match s with
  | EmptyString => ("", "")
  | String c s' => if is_slash c then ("", s) else let '(a, b) := seg_split s' in (String c a, b)
  end.

(** [pathUnescape]: a part with a bad escape is kept as it is. *)
Definition pathUnescape (s : string) : string := default s (unescape false s).

Definition firstSegment (path : string) : string * string :=
  if String.eqb path "/" then ("/", "")
  else
    match path with
    | EmptyString => ("", "")
    | String _ p => let '(a, b) := seg_split p in (pathUnescape a, b)
    end.

(** The wildcards of a pattern that matches the path.  A single wildcard does
    not match the segment [/]; the last, nameless one is not recorded. *)
Fixpoint match_segs (segs : list seg) (path : string) : option (list string) :=
  match segs with
  | [] => if String.eqb path "" then Some [] else None
  | s :: segs' =>
      if String.eqb path "" then None
      else
        let '(x, rest) := firstSegment path in
        match s with
        | Lit l => if String.eqb x l then match_segs segs' rest else None
        | Wild _ => if String.eqb x "/" then None else m ← match_segs segs' rest; Some (x :: m)
        | Multi => Some []
        end
  end.

(** A pattern for GET also matches HEAD. *)
Definition method_matches (pm method : string) : bool :=
  String.eqb pm method || (String.eqb pm "GET" && String.eqb method "HEAD").

Definition match_pattern (method path : string) (p : pattern) : option (list string) :=
  if method_matches (pt_method p) method then match_segs (pt_segs p) path else None.

Fixpoint count_slashes (s : string) : nat :=
  match s with
  | EmptyString => O
  | String c s' => (if is_slash c then 1 else 0) + count_slashes s'
  end.

Definition is_multi (s : seg) : bool := match s with Multi => true | _ => false end.

(** The final wildcard, if there is one, matches nothing. *)
Definition exactMatch (p : pattern) (path : string) : bool :=
  if existsb is_multi (pt_segs p)
  then ends_slash path && (length (pt_segs p) =? count_slashes path)%nat
  else true.

(** ** The choice *)

Section Mux.
Context {H : Type}.

Inductive routed :=
  | RedirectTo (location : string)
  | MethodNotAllowed
  | NotFound
  | Found (h : H) (wildcards : list string).

(** A node of the routing tree of [ServeMux]: the patterns that pass through
    it, each with the segments still to be matched below the node. *)
Definition mux_node : Type := list (list seg * (pattern * H)).

Definition literal_child (s : string) (n : mux_node) : mux_node :=
  omap (fun x => match x.1 with
                 | Lit l :: r => if String.eqb s l then Some (r, x.2) else None
                 | _ => None end) n.
Definition wild_child (n : mux_node) : mux_node :=
  omap (fun x => match x.1 with Wild _ :: r => Some (r, x.2) | _ => None end) n.
Definition multi_child (n : mux_node) : option (pattern * H) :=
  head (omap (fun x => match x.1 with Multi :: _ => Some x.2 | _ => None end) n).
Definition leaf (n : mux_node) : option (pattern * H) :=
  head (omap (fun x => match x.1 with [] => Some x.2 | _ => None end) n).

(** [matchPath]: the most specific pattern wins, whatever the order of
    registration.  A literal for the next segment is tried first, then a
    single wildcard, and last a final wildcard.  The fuel is the depth of the
    tree. *)
Fixpoint match_path (fuel : nat) (n : mux_node) (path : string) (matches : list string)
  : option (pattern * H * list string) :=
  if String.eqb path "" then ph ← leaf n; Some (ph, matches)
  else
    match fuel with
    | O => None
    | S fuel' =>
        let '(s, rest) := firstSegment path in
        match match_path fuel' (literal_child s n) rest matches with
        | Some r => Some r
        | None =>
            match (if String.eqb s "/" then None
                   else match_path fuel' (wild_child n) rest (matches ++ [s])) with
            | Some r => Some r
            | None => ph ← multi_child n; Some (ph, matches)
            end
        end
    end.

Definition method_child (method : string) (routes : list (pattern * H)) : mux_node :=
  omap (fun r => if String.eqb (pt_method r.1) method then Some (pt_segs r.1, r) else None) routes.

Definition depth (routes : list (pattern * H)) : nat :=
  foldr (fun r n => Nat.max (length (pt_segs r.1)) n) 0%nat routes.

(** [matchMethodAndPath], for patterns that all name a method: a pattern for
    HEAD itself comes before one for GET. *)
Definition find_pattern (routes : list (pattern * H)) (method path : string)
  : option (pattern * H * list string) :=
  match match_path (depth routes) (method_child method routes) path [] with
  | Some r => Some r
  | None =>
      if String.eqb method "HEAD"
      then match_path (depth routes) (method_child "GET" routes) path [] else None
  end.

Definition exact_found (found : option (pattern * H * list string)) (path : string) : bool :=
  match found with Some (p, _, _) => exactMatch p path | None => false end.

(** [u.String()] for a URL of a path and a query. *)
Definition location (path query : string) : string :=
  escape_whole path +:+ (if String.eqb query "" then "" else "?" +:+ query).

(** Another method has the path. *)
Definition other_method (routes : list (pattern * H)) (path : string) : bool :=
  existsb (fun r => bool_decide (is_Some (match_segs (pt_segs r.1) path)) ||
                    bool_decide (is_Some (match_segs (pt_segs r.1) (path +:+ "/")))) routes.

Definition unmatched (routes : list (pattern * H)) (path : string) : routed :=
  if other_method routes path then MethodNotAllowed else NotFound.

(** [findHandler]: [raw] is the escaped path of the request, [upath] the
    decoded one. *)
Definition findHandler (routes : list (pattern * H)) (method raw upath query : string) : routed :=
  let escapedPath := EscapedPath raw upath in
  let path := if String.eqb method "CONNECT" then escapedPath else cleanPath escapedPath in
  let n := find_pattern routes method path in
  if negb (exact_found n path) && negb (ends_slash path)
     && exact_found (find_pattern routes method (path +:+ "/")) (path +:+ "/")
  then RedirectTo (location (cleanPath upath +:+ "/") query)
  else if negb (String.eqb path escapedPath) then RedirectTo (location path query)
  else
    match n with
    | Some (_, h, m) => Found h m
    | None => unmatched routes path
    end.
End Mux.
Arguments routed H : clear implicits.

(** ** Disjoint patterns *)

(** No path matches both lists of segments. *)
Fixpoint disjoint_segs (a b : list seg) : bool :=
  match a, b with
  | [], [] => false
  | [], _ :: _ => true
  | _ :: _, [] => true
  | x :: a', y :: b' =>
      match x, y with
      | Multi, _ => false
      | _, Multi => false
      | Lit s, Lit t => negb (String.eqb s t) || disjoint_segs a' b'
      | _, _ => disjoint_segs a' b'
      end
  end.

Lemma disjoint_segs_sound a : forall b path,
  disjoint_segs a b = true -> is_Some (match_segs a path) -> is_Some (match_segs b path) -> False.
Proof.
  induction a as [|x a IH]; intros [|y b] path Hd Ha Hb; cbn [match_segs] in *; [done| | |].
  - destruct (String.eqb_spec path "") as [->|]; [by destruct Hb | by destruct Ha].
  - destruct (String.eqb_spec path "") as [->|]; [by destruct Ha | by destruct Hb].
  - destruct (String.eqb path ""); [by destruct Ha|].
    destruct (firstSegment path) as [s rest]. cbn [disjoint_segs] in Hd.
    assert (forall l : list seg, is_Some (m ← match_segs l rest; Some (s :: m)) ->
      is_Some (match_segs l rest)) as Hbind by (intros l [m Hm]; by destruct (match_segs l rest)).
    destruct x as [s1| |], y as [s2| |]; try done.
    + destruct (String.eqb_spec s s1) as [->|]; [|by destruct Ha].
      destruct (String.eqb_spec s1 s2) as [->|]; [|by destruct Hb]. cbn in Hd. eauto.
    + destruct (String.eqb s s1); [|by destruct Ha]. destruct (String.eqb s "/"); [by destruct Hb|]. eauto.
    + destruct (String.eqb s s2); [|by destruct Hb]. destruct (String.eqb s "/"); [by destruct Ha|]. eauto.
    + destruct (String.eqb s "/"); [by destruct Ha|]. eauto.
Qed.

(** No method matches both. *)
Definition disjoint_methods (a b : string) : bool :=
  negb (String.eqb a b) && negb (String.eqb a "HEAD") && negb (String.eqb b "HEAD").

Lemma disjoint_methods_sound a b m :
  disjoint_methods a b = true -> method_matches a m = true -> method_matches b m = true -> False.
Proof.
  unfold disjoint_methods, method_matches. intros [[Hab Ha]%andb_prop Hb]%andb_prop.
  apply negb_true_iff in Hab, Ha, Hb. apply String.eqb_neq in Hab, Ha, Hb.
  rewrite !orb_true_iff, !andb_true_iff, !String.eqb_eq. intuition congruence.
Qed.

Definition disjoint_patterns (p q : pattern) : bool :=
  disjoint_methods (pt_method p) (pt_method q) || disjoint_segs (pt_segs p) (pt_segs q).

Lemma disjoint_patterns_sound p q method path :
  disjoint_patterns p q = true ->
  is_Some (match_pattern method path p) -> is_Some (match_pattern method path q) -> False.
Proof.
  unfold disjoint_patterns, match_pattern. intros [Hd|Hd]%orb_prop Hp Hq;
    destruct (method_matches (pt_method p) method) eqn:E1; try (by destruct Hp);
    destruct (method_matches (pt_method q) method) eqn:E2; try (by destruct Hq).
  - by eapply disjoint_methods_sound.
  - by eapply disjoint_segs_sound.
Qed.

#[global] Instance seg_eq_dec : EqDecision seg.
Proof. solve_decision. Defined.
#[global] Instance pattern_eq_dec : EqDecision pattern.
Proof. solve_decision. Defined.

(** ** Tables whose patterns are pairwise disjoint

    Registering two patterns that overlap without one being more specific
    panics; the patterns of a table that is [unambiguous] do not overlap at
    all. *)

Section Tables.
Context {H : Type} `{EqDecision H}.

Definition unambiguous (routes : list (pattern * H)) : bool :=
  forallb (fun a => forallb (fun b => bool_decide (a = b) || disjoint_patterns a.1 b.1) routes) routes.

Lemma unambiguous_spec routes (a b : pattern * H) method path :
  unambiguous routes = true -> a ∈ routes -> b ∈ routes ->
  is_Some (match_pattern method path a.1) -> is_Some (match_pattern method path b.1) -> a = b.
Proof.
  intros Hu Ha Hb Ma Mb. unfold unambiguous in Hu. rewrite forallb_forall in Hu.
  specialize (Hu a ltac:(by apply list_elem_of_In)). rewrite forallb_forall in Hu.
  specialize (Hu b ltac:(by apply list_elem_of_In)). apply orb_prop in Hu as [Hu|Hu].
  - by apply bool_decide_eq_true in Hu.
  - by destruct (disjoint_patterns_sound _ _ _ _ Hu Ma Mb).
Qed.

Lemma match_path_sound fuel : forall (n : mux_node) path ms p (h : H) m,
  match_path fuel n path ms = Some (p, h, m) ->
  exists segs m', (segs, (p, h)) ∈ n /\ match_segs segs path = Some m' /\ m = ms ++ m'.
Proof.
  assert (forall (n : mux_node) path ms p (h : H) m, String.eqb path "" = true ->
    (ph ← leaf n; Some (ph, ms)) = Some (p, h, m) ->
    exists segs m', (segs, (p, h)) ∈ n /\ match_segs segs path = Some m' /\ m = ms ++ m') as Hleaf.
  { intros n path ms p h m Hp E. unfold leaf in E.
    destruct (head _) as [ph|] eqn:Hh; [|done]. apply head_Some_elem_of in Hh.
    apply list_elem_of_omap in Hh as ([segs ph'] & Hin & Hs). cbn in E, Hs.
    destruct segs; [|done]. simplify_eq. exists [], []. cbn [match_segs]. rewrite Hp, app_nil_r. done. }
  induction fuel as [|fuel IH]; intros n path ms p h m E; cbn [match_path] in E;
    (destruct (String.eqb path "") eqn:Hp; [by apply (Hleaf n)|]); [done|].
  destruct (firstSegment path) as [s rest] eqn:Hf.
  destruct (match_path fuel (literal_child s n) rest ms) as [r|] eqn:E1; simplify_eq.
  { apply IH in E1 as (segs & m' & Hin & Hm & ->). apply list_elem_of_omap in Hin as ([sg ph] & Hin & Hs).
    cbn in Hs. destruct sg as [|[l| |] sg]; try done. destruct (String.eqb s l) eqn:El; [|done]. simplify_eq.
    exists (Lit l :: segs), m'. cbn [match_segs]. by rewrite Hp, Hf, El. }
  destruct (if String.eqb s "/" then None else match_path fuel (wild_child n) rest (ms ++ [s]))
    as [r|] eqn:E2; simplify_eq.
  { destruct (String.eqb s "/") eqn:Es; [done|]. apply IH in E2 as (segs & m' & Hin & Hm & ->).
    apply list_elem_of_omap in Hin as ([sg ph] & Hin & Hs). cbn in Hs.
    destruct sg as [|[|x|] sg]; try done. simplify_eq.
    exists (Wild x :: segs), (s :: m'). cbn [match_segs]. rewrite Hp, Hf, Es, Hm, <-app_assoc. done. }
  unfold multi_child in E. destruct (head _) as [ph|] eqn:Hh; [|done]. apply head_Some_elem_of in Hh.
  apply list_elem_of_omap in Hh as ([sg ph'] & Hin & Hs). cbn in E, Hs.
  destruct sg as [|[| |] sg]; try done. simplify_eq.
  exists (Multi :: sg), []. cbn [match_segs]. by rewrite Hp, Hf, app_nil_r.
Qed.

Lemma head_omap_None {A B} (f : A -> option B) l x y : x ∈ l -> f x = Some y -> head (omap f l) <> None.
Proof.
  intros Hx Hf E. assert (y ∈ omap f l) as Hy by (apply list_elem_of_omap; eauto).
  destruct (omap f l); [by apply not_elem_of_nil in Hy | done].
Qed.

(** The search misses no pattern. *)
Lemma match_path_complete fuel : forall (n : mux_node) path ms segs (ph : pattern * H) m,
  (segs, ph) ∈ n -> (length segs <= fuel)%nat -> match_segs segs path = Some m ->
  match_path fuel n path ms <> None.
Proof.
  induction fuel as [|fuel IH]; intros n path ms segs ph m Hin Hl Hm; cbn [match_path].
  - destruct segs; [|cbn in Hl; lia]. cbn [match_segs] in Hm. destruct (String.eqb path ""); [|done].
    pose proof (head_omap_None (fun x : list seg * (pattern * H) =>
      match x.1 with [] => Some x.2 | _ => None end) n _ ph Hin eq_refl) as Hh.
    unfold leaf. by destruct (head _).
  - destruct segs as [|sg segs]; cbn [match_segs] in Hm; destruct (String.eqb path "") eqn:Hp; try done.
    { pose proof (head_omap_None (fun x : list seg * (pattern * H) =>
        match x.1 with [] => Some x.2 | _ => None end) n _ ph Hin eq_refl) as Hh.
      unfold leaf. by destruct (head _). }
    destruct (firstSegment path) as [s rest]. cbn in Hl.
    destruct sg as [l|x|].
    + destruct (String.eqb s l) eqn:El; [|done].
      assert (match_path fuel (literal_child s n) rest ms <> None) as Hn.
      { apply (IH _ _ _ segs ph m); [|lia|done]. apply list_elem_of_omap.
        exists (Lit l :: segs, ph). split; [done|]. cbn. by rewrite El. }
      by destruct (match_path fuel (literal_child s n) rest ms).
    + destruct (match_path fuel (literal_child s n) rest ms); [done|].
      destruct (String.eqb s "/"); [done|]. destruct (match_segs segs rest) as [m1|] eqn:E1; [|done].
      assert (match_path fuel (wild_child n) rest (ms ++ [s]) <> None) as Hn.
      { apply (IH _ _ _ segs ph m1); [|lia|done]. apply list_elem_of_omap.
        by exists (Wild x :: segs, ph). }
      by destruct (match_path fuel (wild_child n) rest (ms ++ [s])).
    + destruct (match_path fuel (literal_child s n) rest ms); [done|].
      destruct (if String.eqb s "/" then None else _); [done|].
      pose proof (head_omap_None (fun x : list seg * (pattern * H) =>
        match x.1 with Multi :: _ => Some x.2 | _ => None end) n _ ph Hin eq_refl) as Hh.
      unfold multi_child. by destruct (head _).
Qed.

Lemma elem_of_method_child method (routes : list (pattern * H)) segs r :
  (segs, r) ∈ method_child method routes <-> r ∈ routes /\ pt_method r.1 = method /\ segs = pt_segs r.1.
Proof.
  unfold method_child. rewrite list_elem_of_omap. split.
  - intros (r' & Hin & E). destruct (String.eqb_spec (pt_method r'.1) method); by simplify_eq.
  - intros (Hin & <- & ->). exists r. by rewrite String.eqb_refl.
Qed.

Lemma depth_bound (routes : list (pattern * H)) r : r ∈ routes -> (length (pt_segs r.1) <= depth routes)%nat.
Proof. induction 1 as [|r r' l _ IH]; unfold depth in *; cbn [foldr]; lia. Qed.

Lemma find_pattern_Some (routes : list (pattern * H)) method path p h m :
  find_pattern routes method path = Some (p, h, m) ->
  (p, h) ∈ routes /\ match_pattern method path p = Some m.
Proof.
  assert (forall mth, match_path (depth routes) (method_child mth routes) path [] = Some (p, h, m) ->
    (p, h) ∈ routes /\ pt_method p = mth /\ match_segs (pt_segs p) path = Some m) as Hgo.
  { intros mth E. apply match_path_sound in E as (segs & m' & Hin & Hm & ->).
    apply elem_of_method_child in Hin as (Hin & Hmth & ->). done. }
  unfold find_pattern, match_pattern, method_matches.
  destruct (match_path _ (method_child method routes) path []) as [r|] eqn:E.
  - intros [= ->]. apply Hgo in E as (Hin & -> & Hm). by rewrite String.eqb_refl.
  - destruct (String.eqb method "HEAD") eqn:Eh; [|done].
    intros (Hin & Hmth & Hm)%Hgo. rewrite Hmth. by rewrite orb_true_r.
Qed.

Lemma find_pattern_None (routes : list (pattern * H)) method path :
  find_pattern routes method path = None <->
  Forall (fun r => match_pattern method path r.1 = None) routes.
Proof.
  split.
  - intros E. apply Forall_forall. intros [p h] Hin. cbn.
    destruct (match_pattern method path p) as [m|] eqn:Hm; [exfalso|done].
    unfold match_pattern in Hm. destruct (method_matches (pt_method p) method) eqn:Em; [|done].
    assert (match_path (depth routes) (method_child (pt_method p) routes) path [] <> None) as Hn.
    { eapply (match_path_complete _ _ _ _ (pt_segs p) (p, h) m); [|by apply (depth_bound routes (p, h))|done].
      by apply elem_of_method_child. }
    unfold find_pattern in E. destruct (match_path _ (method_child method routes) path []) eqn:E1; [done|].
    unfold method_matches in Em. apply orb_prop in Em as [Em%String.eqb_eq|[Eg%String.eqb_eq Eh]%andb_prop];
      [by rewrite Em in Hn|]. rewrite Eh in E. by rewrite Eg in Hn.
  - intros Hall. destruct (find_pattern routes method path) as [[[p h] m]|] eqn:E; [|done].
    apply find_pattern_Some in E as [Hin Hm]. rewrite Forall_forall in Hall. specialize (Hall _ Hin).
    cbn in Hall. congruence.
Qed.

(** The first entry that matches. *)
Fixpoint first_match (routes : list (pattern * H)) (method path : string)
  : option (pattern * H * list string) :=
  match routes with
  | [] => None
  | (p, h) :: routes' =>
      match match_pattern method path p with
      | Some m => Some (p, h, m)
      | None => first_match routes' method path
      end
  end.

Lemma first_match_spec (routes : list (pattern * H)) method path :
  match first_match routes method path with
  | Some (p, h, m) => (p, h) ∈ routes /\ match_pattern method path p = Some m
  | None => Forall (fun r => match_pattern method path r.1 = None) routes
  end.
Proof.
  induction routes as [|[p h] routes IH]; cbn [first_match]; [constructor|].
  destruct (match_pattern method path p) as [m|] eqn:E; [by split; [left|]|].
  destruct (first_match routes method path) as [[[p' h'] m']|]; [|by constructor].
  destruct IH. split; [by right|done].
Qed.

(** In a table whose patterns are disjoint the tree finds what a search of the
    table finds, in any order. *)
Lemma find_pattern_first routes method path :
  unambiguous routes = true -> find_pattern routes method path = first_match routes method path.
Proof.
  intros Hu. pose proof (first_match_spec routes method path) as Hf.
  destruct (first_match routes method path) as [[[p h] m]|]; [|by apply find_pattern_None].
  destruct Hf as [Hin Hm]. destruct (find_pattern routes method path) as [[[p' h'] m']|] eqn:E.
  - apply find_pattern_Some in E as [Hin' Hm'].
    assert ((p', h') = (p, h)) as [= -> ->]
      by (eapply unambiguous_spec; [exact Hu|done|done|by eexists|by eexists]). congruence.
  - apply find_pattern_None in E. rewrite Forall_forall in E. specialize (E _ Hin). cbn in E. congruence.
Qed.
End Tables.
