(* ===== verification/Router.v ===== *)
(** * The router: [internal/api/router.go]

    The route table, the call of the handler a request is routed to, and the
    chain of middlewares around it.  A request is what [net/http] hands to the
    handler: its method, its path as sent, its query and its body. *)

From S2P Require Import Prelude.
From S2P Require Import GoBase.
From S2P Require Import FilePath.
From S2P Require Import Url.
From S2P Require Import Utf8.
From S2P Require Import Json.
From S2P Require Import Codec.
From S2P Require Import Wal.
From S2P Require Import Store.
From S2P Require Import Peer.
From S2P Require Import Replication.
From S2P Require Import Config.
From S2P Require Import Metrics.
From S2P Require Import Api.
From S2P Require Import Wire.
From S2P Require Import Mux.

Definition NewAPI (d : Disk) (store : Store) (pm : PeerManager) (replicator : Replicator)
    (metrics : MetricsCollector) (cfg : Config) : API :=
  mkAPI d store pm replicator metrics cfg.

(** ** The route table *)

Inductive handler :=
  | handleGetKey_ | handlePutKey_ | handleDeleteKey_ | handleListKeys_
  | handleClusterPeers_ | handleClusterStatus_ | handleHealthz_ | handleMetrics_
  | handleInternalPing_ | handleInternalReplicate_
  | dashboardRedirect | dashboardFiles.

Definition routes : list (pattern * handler) :=
  [(mkPattern "GET" [Lit "v1"; Lit "kv"; Wild "key"], handleGetKey_);
   (mkPattern "PUT" [Lit "v1"; Lit "kv"; Wild "key"], handlePutKey_);
   (mkPattern "DELETE" [Lit "v1"; Lit "kv"; Wild "key"], handleDeleteKey_);
   (mkPattern "GET" [Lit "v1"; Lit "keys"], handleListKeys_);
   (mkPattern "GET" [Lit "v1"; Lit "cluster"; Lit "peers"], handleClusterPeers_);
   (mkPattern "GET" [Lit "v1"; Lit "cluster"; Lit "status"], handleClusterStatus_);
   (mkPattern "GET" [Lit "healthz"], handleHealthz_);
   (mkPattern "GET" [Lit "metrics"], handleMetrics_);
   (mkPattern "GET" [Lit "internal"; Lit "ping"], handleInternalPing_);
   (mkPattern "POST" [Lit "internal"; Lit "replicate"], handleInternalReplicate_);
   (mkPattern "GET" [Lit "dashboard"], dashboardRedirect);
   (mkPattern "GET" [Lit "dashboard"; Multi], dashboardFiles)].

(** The directory of the dashboard; [getwd] is the outcome of [os.Getwd],
    [stat] whether [os.Stat] succeeds. *)
Definition getDashboardDir (getwd : option string) (stat : string -> bool) : string :=
  match getwd with
  | Some pwd =>
      let path := Join pwd "web/dashboard" in
      if stat path then path else "./web/dashboard"
  | None => "./web/dashboard"
  end.

(** ** Requests and answers *)

Record Request := mkRequest {
  r_method : string;
  r_rawPath : string;      (* the path as sent *)
  r_rawQuery : string;
  r_body : string
}.

(** A response with the [Location] header of a redirect; the short HTML text
    of a redirect is not represented. *)
Record answer := mkAnswer { an_response : response; an_location : option string }.

Definition plain_answer (r : response) : answer := mkAnswer r None.
Definition redirect_answer (loc : string) : answer := mkAnswer (mkResponse 301 NoBody) (Some loc).

(** What the environment contributes to one request: the clock, read in the
    order of the calls, and the outcome of the write to the log. *)
Record req_env := mkReqEnv { e_now : nat -> Z; e_io : append_io }.

Section Handler.
Context `{Texts} `{MapRange}.

(** [http.FileServer(http.Dir(dir))]: the answer for a method and a path,
    which depends on the files of the directory. *)
Context (FileServer : string -> string -> string -> answer).
Context (dashboardDir : string).

(** [http.StripPrefix]: the decoded path and, if it is kept, the path as sent
    must have the prefix. *)
Definition StripPrefix (prefix raw path : string) : option string :=
  match strip prefix path with
  | Some p =>
      if String.eqb raw (escape_whole path) || bool_decide (is_Some (strip prefix raw))
      then Some p else None
  | None => None
  end.

Definition not_found : response := mkResponse StatusNotFound (Text ("404 page not found" +:+ newline)).

(** The handler a request is routed to; [key] is [r.PathValue("key")].
    [None] is a panic. *)
Definition call (env : req_env) (h : handler) (key path : string) (req : Request) (api : API)
  : option (answer * API * sends) :=
  let now := e_now env in
  let pure r := Some (plain_answer r, api, []) in
  match h with
  | handleGetKey_ =>
      let '(r, api') := handleGetKey (now 1%nat) (now 2%nat) key api in Some (plain_answer r, api', [])
  | handlePutKey_ =>
      let '(r, api', out) := handlePutKey (now 1%nat) (now 2%nat) (now 3%nat) (e_io env) key
                               (decode_PutRequest (r_body req)) api in Some (plain_answer r, api', out)
  | handleDeleteKey_ =>
      let '(r, api', out) := handleDeleteKey (now 1%nat) (e_io env) key api in
      Some (plain_answer r, api', out)
  | handleListKeys_ => r ← handleListKeys (now 1%nat) (r_rawQuery req) api; pure r
  | handleClusterPeers_ => pure (handleClusterPeers api)
  | handleClusterStatus_ => pure (handleClusterStatus (now 1%nat) api)
  | handleHealthz_ => pure handleHealthz
  | handleMetrics_ => pure (handleMetrics api)
  | handleInternalPing_ =>
      let '(r, api') := handleInternalPing (now 1%nat) (now 2%nat) (now 3%nat) (r_rawQuery req) api in
      Some (plain_answer r, api', [])
  | handleInternalReplicate_ =>
      let '(r, api') := handleInternalReplicate (now 1%nat) (now 2%nat) (now 3%nat) (e_io env)
                          (decode_ReplicateRequest (r_body req)) api in
      Some (plain_answer r, api', [])
  | dashboardRedirect => Some (redirect_answer "/dashboard/", api, [])
  | dashboardFiles =>
      match StripPrefix "/dashboard/" (r_rawPath req) path with
      | Some p => Some (FileServer dashboardDir (r_method req) p, api, [])
      | None => pure not_found
      end
  end.

(** The multiplexer. *)
Definition mux (env : req_env) (path : string) (req : Request) (api : API)
  : option (answer * API * sends) :=
  match findHandler routes (r_method req) (r_rawPath req) path (r_rawQuery req) with
  | RedirectTo loc => Some (redirect_answer loc, api, [])
  | MethodNotAllowed =>
      Some (plain_answer (mkResponse 405 (Text ("Method Not Allowed" +:+ newline))), api, [])
  | NotFound => Some (plain_answer not_found, api, [])
  | Found h wildcards => call env h (hd "" wildcards) path req api
  end.

(** [NewHandler]: recovery from panics inside, logging and metrics outside. *)
Definition NewHandler (env : req_env) (path : string) (req : Request) (api : API)
  : answer * API * sends :=
  let '(an, api1, out) :=
    match mux env path req api with
    | Some x => x
    | None => (plain_answer (RecoveryMiddleware None), api, [])
    end in
  let '(r, api2) := LoggingAndMetricsMiddleware (e_now env 0%nat) (e_now env 4%nat) (r_method req)
                      path (an_response an) api1 in
  (mkAnswer r (an_location an), api2, out).

(** ** The bytes of a response *)

Record http_response := mkHttpResponse { h_status : Z; h_location : option string; h_body : string }.

(** The server: a path that cannot be decoded is refused before the handler
    is called; the body of the answer to HEAD is not sent. *)
Definition Serve (env : req_env) (req : Request) (api : API) : http_response * API * sends :=
  match unescape false (r_rawPath req) with
  | None => (mkHttpResponse StatusBadRequest None "400 Bad Request", api, [])
  | Some path =>
      let '(an, api', out) := NewHandler env path req api in
      (mkHttpResponse (rs_status (an_response an)) (an_location an)
         (if String.eqb (r_method req) "HEAD" then "" else body_bytes (an_response an)), api', out)
  end.
End Handler.
