(* ===== verification/RouterSpec.v ===== *)
(** * What the router does with requests

    Which keys can be addressed, which handler gets a request, and what every
    request preserves. *)

From S2P Require Import Prelude.
From S2P Require Import GoBase.
From S2P Require Import FilePath.
From S2P Require Import Strconv.
From S2P Require Import Url.
From S2P Require Import Utf8.
From S2P Require Import Json.
From S2P Require Import Codec.
From S2P Require Import Lww.
From S2P Require Import Wal.
From S2P Require Import Store.
From S2P Require Import StoreInv.
From S2P Require Import Peer.
From S2P Require Import Replication.
From S2P Require Import Config.
From S2P Require Import Metrics.
From S2P Require Import Api.
From S2P Require Import ApiSpec.
From S2P Require Import Wire.
From S2P Require Import Mux.
From S2P Require Import Router.
From Stdlib Require Import Ascii.

#[global] Instance handler_eq_dec : EqDecision handler.
Proof. solve_decision. Defined.

(** ** The path of a key *)

(** The path the clients build for a key. *)
Definition key_path (key : string) : string := "/v1/kv/" +:+ PathEscape key.

Lemma PathEscape_char_facts c :
  has_slash (escape_path_char c) = false /\ valid_encoded (escape_path_char c) = true /\
  escape_path_char c <> "".
Proof. destruct c as [[] [] [] [] [] [] [] []]; repeat split; discriminate. Qed.

Lemma valid_encoded_app a b : valid_encoded (a +:+ b) = valid_encoded a && valid_encoded b.
Proof.
  induction a as [|c a IH]; [done|]. rewrite string_cons_app. cbn [valid_encoded].
  by rewrite IH, andb_assoc.
Qed.

Lemma PathEscape_facts key :
  plain (PathEscape key) /\ valid_encoded (PathEscape key) = true.
Proof.
  unfold PathEscape, plain. induction key as [|c key [IH1 IH2]]; [done|]. cbn [escape].
  destruct (PathEscape_char_facts c) as (H1 & H2 & _).
  by rewrite has_slash_app, valid_encoded_app, IH1, IH2, H1, H2.
Qed.

Lemma PathEscape_inj k1 k2 : PathEscape k1 = PathEscape k2 -> k1 = k2.
Proof.
  intros E. apply (f_equal (unescape false)) in E. rewrite !PathUnescape_PathEscape in E. congruence.
Qed.

(** The keys whose path is not the path of a key: no segment, a segment that
    is a slash, or one that path cleaning removes. *)
Definition unaddressable : list string := [""; "/"; "."; ".."].

Lemma PathEscape_file_name key : key ∉ unaddressable -> file_name (PathEscape key).
Proof.
  intros Hk. assert (forall k, k ∈ unaddressable -> PathEscape key <> PathEscape k) as Hne
    by (intros k Hin E%PathEscape_inj; congruence).
  split; [apply PathEscape_facts|]. repeat split.
  - apply (Hne ""). compute_done.
  - apply (Hne "."). compute_done.
  - apply (Hne ".."). compute_done.
Qed.

Lemma unescape_key_path key : unescape false (key_path key) = Some ("/v1/kv/" +:+ key).
Proof.
  pose proof (PathUnescape_PathEscape key) as E. unfold key_path.
  change (unescape false ("/v1/kv/" +:+ PathEscape key))
    with (r ← (r ← (r ← (r ← (r ← (r ← (r ← unescape false (PathEscape key); Some (String "/" r));
          Some (String "v" r)); Some (String "k" r)); Some (String "/" r)); Some (String "1" r));
          Some (String "v" r)); Some (String "/" r)).
  by rewrite E.
Qed.

Lemma ends_slash_plain a f : plain f -> f <> "" -> ends_slash (a +:+ f) = false.
Proof.
  intros Hf Hne. induction a as [|c a IH].
  - rewrite string_app_nil_l. clear Hne. unfold plain in Hf. induction f as [|c f IH]; [done|].
    cbn in Hf. apply orb_false_iff in Hf as [Hc Hf]. destruct f; [done|]. by apply IH.
  - rewrite string_cons_app. cbn [ends_slash]. destruct (a +:+ f) eqn:E; [|done].
    by destruct a.
Qed.

Lemma cleanPath_key_path key : key ∉ unaddressable -> cleanPath (key_path key) = key_path key.
Proof.
  intros Hk. pose proof (PathEscape_file_name key Hk) as Hf. unfold cleanPath, key_path.
  rewrite decide_False by done. change (rooted ("/v1/kv/" +:+ PathEscape key)) with true. cbv iota.
  rewrite ends_slash_plain by apply Hf. cbn [andb].
  change ("/v1/kv/" +:+ PathEscape key) with ("/v1/kv" +:+ "/" +:+ PathEscape key).
  pose proof (Join_render "/v1/kv" (PathEscape key) Hf) as E. unfold Join in E.
  rewrite decide_False in E by done. rewrite E. reflexivity.
Qed.

Lemma seg_split_plain s : plain s -> seg_split s = (s, "").
Proof.
  unfold plain. induction s as [|c s IH]; [done|]. cbn. intros [-> H]%orb_false_iff. by rewrite IH.
Qed.

Lemma match_key_path key name :
  key <> "" -> match_segs [Lit "v1"; Lit "kv"; Wild name] (key_path key)
    = if String.eqb key "/" then None else Some [key].
Proof.
  intros Hne. unfold key_path.
  change (match_segs [Lit "v1"; Lit "kv"; Wild name] ("/v1/kv/" +:+ PathEscape key))
    with (match_segs [Wild name] (String "/" (PathEscape key))).
  assert (PathEscape key <> "") as He by (intros E; by apply (PathEscape_inj key "") in E).
  cbn [match_segs]. change (String.eqb (String "/" (PathEscape key)) "") with false. cbv iota.
  unfold firstSegment. change (String.eqb (String "/" (PathEscape key)) "/") with (String.eqb (PathEscape key) "").
  destruct (String.eqb_spec (PathEscape key) ""); [done|].
  rewrite seg_split_plain by apply PathEscape_facts. unfold pathUnescape.
  rewrite PathUnescape_PathEscape. cbn. by destruct (String.eqb key "/").
Qed.

Lemma EscapedPath_key_path key path : EscapedPath (key_path key) path = key_path key.
Proof.
  unfold EscapedPath, key_path. rewrite valid_encoded_app, (proj2 (PathEscape_facts key)). done.
Qed.

(** The patterns of the table are pairwise disjoint. *)
Lemma routes_unambiguous : unambiguous routes = true.
Proof. vm_compute. reflexivity. Qed.

(** A table entry found by its method and wildcard pattern. *)
Lemma findHandler_key method h key path query :
  (method, h) ∈ [("GET", handleGetKey_); ("HEAD", handleGetKey_); ("PUT", handlePutKey_);
                 ("DELETE", handleDeleteKey_)] ->
  key ∉ unaddressable -> findHandler routes method (key_path key) path query = Found h [key].
Proof.
  intros Hm Hk. unfold findHandler. rewrite EscapedPath_key_path, cleanPath_key_path by done.
  assert (String.eqb method "CONNECT" = false) as ->.
  { rewrite !elem_of_cons, elem_of_nil in Hm. by destruct Hm as [[= -> _]|[[= -> _]|[[= -> _]|[[= -> _]|[]]]]]. }
  assert (key <> "") as Hne by (intros ->; apply Hk; compute_done).
  assert (key <> "/") as Hns by (intros ->; apply Hk; compute_done).
  assert (find_pattern routes method (key_path key)
          = Some (mkPattern (if String.eqb method "HEAD" then "GET" else method)
                    [Lit "v1"; Lit "kv"; Wild "key"], h, [key])) as ->.
  { rewrite find_pattern_first by apply routes_unambiguous. unfold routes. cbn [first_match match_pattern pt_method pt_segs]. unfold match_pattern. cbn [pt_method pt_segs].
    rewrite !match_key_path by done. apply String.eqb_neq in Hns. rewrite Hns.
    rewrite !elem_of_cons, elem_of_nil in Hm.
    by destruct Hm as [[= -> ->]|[[= -> ->]|[[= -> ->]|[[= -> ->]|[]]]]]. }
  cbn [exact_found exactMatch pt_segs existsb is_multi orb negb andb]. by rewrite String.eqb_refl.
Qed.

(** ** The types of a node's state *)

Record hist_ok (h : bucketCounters) : Prop := {
  ho_length : length (bc_counts h) = 10%nat;
  ho_counts : Forall is_u64 (bc_counts h);
  ho_totals : is_u64 (bc_inf h) /\ is_u64 (bc_sum h) /\ is_u64 (bc_count h)
}.

Record metrics_ok (mc : MetricsCollector) : Prop := {
  mo_counts : map_Forall (fun _ n => is_u64 n) (reqCounts mc);
  mo_hists : map_Forall (fun _ h => hist_ok h) (histograms mc)
}.

Record api_ok (api : API) : Prop := {
  ao_store : store_ok (api_store api);
  ao_pm : pm_ok (api_pm api);
  ao_served : is_u64 (rp_lastServed (api_replicator api));
  ao_metrics : metrics_ok (api_metrics api)
}.

(** What is sent to the peers: a version and an expiry of their types, to a
    known peer that is not dead. *)
Definition send_ok (pm : PeerManager) (x : Peer * ReplicateRequest) : Prop :=
  is_u64 (req_Version x.2) /\ is_i64 (req_ExpiresAt x.2) /\ peers pm !! NodeID x.1 = Some x.1 /\
  State x.1 <> StateDead.

Lemma is_u64_0 : is_u64 0.
Proof. unfold is_u64. lia. Qed.

Lemma observe_ok d h : hist_ok h -> hist_ok (observe d h).
Proof.
  intros [Hl Hc (Hi & Hs & Hn)]. unfold observe. destruct (find_bucket _ _ _) as [i|].
  - split; cbn; [by rewrite length_alter | | auto with kv].
    apply Forall_alter; [done|]. intros n _ _. auto with kv.
  - split; cbn; [done | done | auto with kv].
Qed.

Lemma hist_zero_ok : hist_ok bucketCounters_zero.
Proof. split; [done | by repeat constructor | by repeat split]. Qed.

Lemma record_ok start finish method path r api :
  api_ok api -> api_ok (LoggingAndMetricsMiddleware start finish method path r api).2.
Proof.
  intros [Hs Hp Hr [Hc Hh]]. split; cbn; [done|done|done|]. split; cbn.
  - apply map_Forall_insert_2; [auto with kv | done].
  - apply map_Forall_insert_2; [|done]. apply observe_ok.
    destruct (histograms (api_metrics api) !! _) as [h|] eqn:E; [by eapply Hh|apply hist_zero_ok].
Qed.

(** The handlers that write. *)

Lemma Replicate_ok `{MapRange} key value version expiresAt action pm r :
  pm_ok pm -> is_u64 version -> is_u64 (rp_lastServed r) ->
  is_u64 (rp_lastServed (Replicate key value version expiresAt action pm r).1) /\
  Forall (send_ok pm) (Replicate key value version expiresAt action pm r).2.
Proof.
  intros Hpm Hv Hr. unfold Replicate. cbn [fst snd]. destruct (UpdateLastServed_max version r) as [-> _].
  split; [unfold is_u64 in *; lia|]. apply Forall_fmap, Forall_forall. intros p [Ht Hin]%list_elem_of_filter.
  apply elem_of_GetAll in Hin; [|done]. split; [done|]. split; [|split; [done|]].
  - cbn. unfold expNano_of. destruct (IsZero expiresAt); [unfold is_i64; lia | apply i64_range].
  - intros Hd. cbn in Hd. unfold replication_target in Ht.
    by rewrite (bool_decide_eq_true_2 _ Hd), orb_true_r in Ht.
Qed.

Lemma stored_version_u64 s k ver c :
  store_ok s -> is_u64 ver -> view s !! k = Some c -> is_u64 (Z.max ver (Version c)).
Proof. intros Hs Hv Hc. pose proof (so_versions s Hs k c Hc). unfold is_u64 in *. lia. Qed.

Lemma handlePutKey_ok `{MapRange} n1 n2 n3 io key decoded api :
  api_ok api ->
  api_ok (handlePutKey n1 n2 n3 io key decoded api).1.2 /\
  Forall (send_ok (api_pm api)) (handlePutKey n1 n2 n3 io key decoded api).2.
Proof.
  intros Ha. unfold handlePutKey. case_decide; [done|]. destruct decoded as [req|]; [|done].
  pose proof (Store_Set_ok io (api_disk api) (api_store api) (ao_store _ Ha) n1 n2 key
    (bytes_of (put_Value req)) (put_ttl req) 0 is_u64_0) as Hok.
  pose proof (Store_Set_view io (api_disk api) (api_store api) (ao_store _ Ha) n1 n2 key
    (bytes_of (put_Value req)) (put_ttl req) 0 is_u64_0) as Hv. cbv zeta in Hv.
  destruct (pick_version_facts n2 (api_store api) 0 (ao_store _ Ha) is_u64_0) as (_ & Hu & _).
  destruct (Store_Set _ _ _ _ _ _ _ _ _) as [[d s] [v [err|]]]; cbn [fst snd] in Hok, Hv.
  - split; [|done]. destruct Ha. by split.
  - assert (is_u64 v) as Hvu.
    { destruct Hv as [_ ->]. destruct (view (api_store api) !! key) eqn:E; [|done].
      eapply stored_version_u64; [apply Ha|done|done]. }
    destruct (Replicate_ok key (bytes_of (put_Value req)) v
      (if 0 <? put_ttl req then time_Add n3 (put_ttl req) else time_zero) "SET" (api_pm api)
      (api_replicator api) (ao_pm _ Ha) Hvu (ao_served _ Ha)) as [H1 H2].
    destruct (Replicate _ _ _ _ _ _ _) as [r out]. split; [|done]. destruct Ha. by split.
Qed.

Lemma handleDeleteKey_ok `{MapRange} n io key api :
  api_ok api ->
  api_ok (handleDeleteKey n io key api).1.2 /\
  Forall (send_ok (api_pm api)) (handleDeleteKey n io key api).2.
Proof.
  intros Ha. unfold handleDeleteKey. case_decide; [done|].
  pose proof (Store_Delete_ok io (api_disk api) (api_store api) (ao_store _ Ha) n key 0 is_u64_0) as Hok.
  pose proof (Store_Delete_view io (api_disk api) (api_store api) (ao_store _ Ha) n key 0 is_u64_0) as Hv.
  cbv zeta in Hv. destruct (pick_version_facts n (api_store api) 0 (ao_store _ Ha) is_u64_0) as (_ & Hu & _).
  destruct (Store_Delete _ _ _ _ _ _) as [[d s] [[v b] [err|]]]; cbn [fst snd] in Hok, Hv.
  - split; [|done]. destruct Ha. by split.
  - assert (is_u64 v) as Hvu.
    { destruct Hv as [_ Hv]. destruct (view (api_store api) !! key) eqn:E; injection Hv as -> _; [|done].
      eapply stored_version_u64; [apply Ha|done|done]. }
    destruct (Replicate_ok key [] v time_zero "DELETE" (api_pm api) (api_replicator api)
      (ao_pm _ Ha) Hvu (ao_served _ Ha)) as [H1 H2].
    destruct (Replicate _ _ _ _ _ _ _) as [r out]. split; [|done]. destruct Ha. by split.
Qed.

Lemma handleInternalReplicate_ok n1 n2 n3 io decoded api :
  (forall req, decoded = Some req -> is_u64 (req_Version req)) -> api_ok api ->
  api_ok (handleInternalReplicate n1 n2 n3 io decoded api).2.
Proof.
  intros Hd Ha. unfold handleInternalReplicate. destruct decoded as [req|]; [|done].
  specialize (Hd req eq_refl). pose proof (ao_store _ Ha) as Hs.
  assert (forall d s, store_ok s -> api_ok (with_store api d s)) as Hw
    by (intros; destruct Ha; by split).
  case_decide; [|case_decide].
  - match goal with |- context [Store_Set n2 n3 io ?d ?s ?k ?v ?ttl ?ver] =>
      pose proof (Store_Set_ok io d s Hs n2 n3 k v ttl ver Hd) as Hok;
      destruct (Store_Set n2 n3 io d s k v ttl ver) as [[d' s'] [? [|]]] end; by apply Hw.
  - match goal with |- context [Store_Delete n3 io ?d ?s ?k ?ver] =>
      pose proof (Store_Delete_ok io d s Hs n3 k ver Hd) as Hok;
      destruct (Store_Delete n3 io d s k ver) as [[d' s'] [[? ?] [|]]] end; by apply Hw.
  - by apply Hw.
Qed.

Section Requests.
Context `{Texts} `{MapRange} (FileServer : string -> string -> string -> answer) (dir : string).

Lemma call_ok env h key path req api an api' out :
  api_ok api -> call FileServer dir env h key path req api = Some (an, api', out) ->
  api_ok api' /\ Forall (send_ok (api_pm api)) out.
Proof.
  intros Ha. unfold call. destruct h.
  - unfold handleGetKey. case_decide; [by intros [= _ <- <-]|].
    pose proof (Store_Get_ok (e_now env 1%nat) (e_now env 2%nat) (api_store api) key (ao_store _ Ha)) as Hg.
    destruct (Store_Get _ _ _ _) as [[[v ver] []] s]; cbn; intros [= _ <- <-]; (split; [|done]);
      destruct Ha; by split.
  - pose proof (handlePutKey_ok (e_now env 1%nat) (e_now env 2%nat) (e_now env 3%nat) (e_io env) key
      (decode_PutRequest (r_body req)) api Ha) as Hp.
    destruct (handlePutKey _ _ _ _ _ _ _) as [[r a] o]. by intros [= _ <- <-].
  - pose proof (handleDeleteKey_ok (e_now env 1%nat) (e_io env) key api Ha) as Hp.
    destruct (handleDeleteKey _ _ _ _) as [[r a] o]. by intros [= _ <- <-].
  - destruct (handleListKeys _ _ _); [|done]. by intros [= _ <- <-].
  - by intros [= _ <- <-].
  - by intros [= _ <- <-].
  - by intros [= _ <- <-].
  - by intros [= _ <- <-].
  - unfold handleInternalPing. intros [= _ <- <-]. split; [|done]. destruct Ha. split; try done.
    cbn. case_decide; [by apply AddOrUpdate_ok | done].
  - pose proof (handleInternalReplicate_ok (e_now env 1%nat) (e_now env 2%nat) (e_now env 3%nat)
      (e_io env) (decode_ReplicateRequest (r_body req)) api) as Hp.
    destruct (handleInternalReplicate _ _ _ _ _ _) as [r a]. intros [= _ <- <-]. split; [|done].
    apply Hp; [|done]. intros rq E. by destruct (decode_ReplicateRequest_types _ _ E).
  - by intros [= _ <- <-].
  - destruct (StripPrefix _ _ _); by intros [= _ <- <-].
Qed.

Lemma mux_ok env path req api an api' out :
  api_ok api -> mux FileServer dir env path req api = Some (an, api', out) ->
  api_ok api' /\ Forall (send_ok (api_pm api)) out.
Proof.
  intros Ha. unfold mux. destruct (findHandler _ _ _ _ _); try (by intros [= _ <- <-]).
  by apply call_ok.
Qed.

Lemma requests_keep_types env req api :
  api_ok api ->
  let '(resp, api', out) := Serve FileServer dir env req api in
  api_ok api' /\ Forall (send_ok (api_pm api)) out.
Proof.
  intros Ha. unfold Serve. destruct (unescape false (r_rawPath req)) as [path|]; [|done].
  unfold NewHandler. destruct (mux FileServer dir env path req api) as [[[an api1] out]|] eqn:E.
  - destruct (mux_ok _ _ _ _ _ _ _ Ha E) as [H1 H2]. split; [by apply record_ok | done].
  - split; [by apply record_ok | done].
Qed.

(** C11: the types are preserved.  Whatever requests arrive, one after the
    other (any methods, paths, queries and bodies, any clock readings and any
    outcomes of the log), the state of the node keeps its types: the store its
    invariant, the membership table its keys, all counters and versions their
    64 bits, every histogram its ten buckets; and what is sent to peers has a
    64-bit version and expiry. *)
Theorem requests_preserve_types reqs : forall api,
  api_ok api ->
  let '(api', out) := fold_left (fun st er =>
      let '(_, api', out) := Serve FileServer dir er.1 er.2 st.1 in (api', st.2 ++ out)) reqs (api, []) in
  api_ok api' /\
  Forall (fun x => is_u64 (req_Version x.2) /\ is_i64 (req_ExpiresAt x.2)) out.
Proof.
  assert (forall reqs st, api_ok st.1 ->
    Forall (fun x : Peer * ReplicateRequest => is_u64 (req_Version x.2) /\ is_i64 (req_ExpiresAt x.2)) st.2 ->
    let st' := fold_left (fun st er =>
      let '(_, api', out) := Serve FileServer dir er.1 er.2 st.1 in (api', st.2 ++ out)) reqs st in
    api_ok st'.1 /\
    Forall (fun x : Peer * ReplicateRequest => is_u64 (req_Version x.2) /\ is_i64 (req_ExpiresAt x.2)) st'.2) as Hgo.
  { clear. induction reqs as [|[env req] reqs IH]; intros [api out] Ha Hout; [done|]. cbn [fold_left fst snd].
    pose proof (requests_keep_types env req api Ha) as Ht.
    destruct (Serve FileServer dir env req api) as [[r api'] out']. destruct Ht as [H1 H2].
    apply IH; cbn; [done|]. apply Forall_app_2; [done|].
    eapply Forall_impl; [exact H2|]. intros x (Hu & Hi & _). by split. }
  intros api Ha. specialize (Hgo reqs (api, []) Ha ltac:(constructor)). cbv zeta in Hgo.
  destruct (fold_left _ _ _). exact Hgo.
Qed.

(** ** Every request is counted *)

(** The counter of a request and its answer. *)
Definition counted_as (req : Request) (path : string) (an : answer) : requestKey :=
  mkRequestKey (r_method req) path (StatusText (rs_status (an_response an))).

(** The handlers leave the collector alone. *)
Lemma mux_metrics env path req api an api' out :
  mux FileServer dir env path req api = Some (an, api', out) -> api_metrics api' = api_metrics api.
Proof.
  unfold mux. destruct (findHandler _ _ _ _ _) as [| | |h w]; try (by intros [= _ <- _]).
  unfold call, handleGetKey, handlePutKey, handleDeleteKey, handleInternalPing, handleInternalReplicate.
  destruct h; intros E; try (destruct (handleListKeys _ _ _); [|done]); cbn in E;
    repeat (case_match; simplify_eq/=; try done); by simplify_eq/=.
Qed.

(** What the middleware records. *)
Lemma recorded method path status d mc :
  let key := mkRequestKey method path status in
  let hkey := mkHistogramKey method path in
  let mc' := RecordLatency method path d (RecordRequest method path status mc) in
  reqCounts mc' = <[key := u64 (default 0 (reqCounts mc !! key) + 1)]> (reqCounts mc) /\
  default 0 (bc_count <$> histograms mc' !! hkey)
    = u64 (default 0 (bc_count <$> histograms mc !! hkey) + 1) /\
  (forall k, k <> hkey -> histograms mc' !! k = histograms mc !! k).
Proof.
  cbv zeta. split; [done|]. split; [|intros k Hk; by apply lookup_insert_ne].
  cbn [RecordLatency RecordRequest histograms]. rewrite lookup_insert_eq. unfold observe.
  by destruct (histograms mc !! _), (find_bucket _ _ _).
Qed.

(** Every request a handler sees is counted once.  The counter of its
    method, its decoded path and the status it was answered with goes up by one,
    as does the number of latencies observed for its method and path; no
    other counter changes, panicking handlers included. *)
Theorem every_request_is_counted env req api path :
  unescape false (r_rawPath req) = Some path ->
  let '(resp, api', _) := Serve FileServer dir env req api in
  let key := mkRequestKey (r_method req) path (StatusText (h_status resp)) in
  let hkey := mkHistogramKey (r_method req) path in
  let observed mc := default 0 (bc_count <$> histograms mc !! hkey) in
  reqCounts (api_metrics api') =
    <[key := u64 (default 0 (reqCounts (api_metrics api) !! key) + 1)]> (reqCounts (api_metrics api)) /\
  observed (api_metrics api') = u64 (observed (api_metrics api) + 1) /\
  (forall k, k <> hkey -> histograms (api_metrics api') !! k = histograms (api_metrics api) !! k).
Proof.
  intros Hp. unfold Serve. rewrite Hp. unfold NewHandler.
  destruct (mux FileServer dir env path req api) as [[[an api1] out]|] eqn:E; [|apply recorded].
  rewrite <-(mux_metrics _ _ _ _ _ _ _ E). apply recorded.
Qed.

(** ** Requests that only read *)

Lemma Found_method method raw path query h w :
  findHandler routes method raw path query = Found h w ->
  match h with
  | handlePutKey_ => method = "PUT"
  | handleDeleteKey_ => method = "DELETE"
  | handleInternalReplicate_ => method = "POST"
  | _ => True
  end.
Proof.
  unfold findHandler. destruct (_ && exact_found _ _); [done|]. destruct (negb _); [done|].
  destruct (find_pattern _ _ _) as [[[p h'] m]|] eqn:E; [|unfold unmatched; by destruct (other_method _ _)].
  intros [= -> ->]. destruct (find_pattern_Some _ _ _ _ _ _ E) as [Hin Hm]. unfold match_pattern in Hm.
  destruct (method_matches (pt_method p) method) eqn:Em; [|done]. clear E Hm. unfold method_matches in Em.
  unfold routes in Hin. rewrite !elem_of_cons, elem_of_nil in Hin.
  repeat destruct Hin as [[= -> ->]|Hin]; try done; cbn [pt_method] in Em; apply orb_prop in Em as [Em|Em];
    try discriminate Em; by apply String.eqb_eq in Em.
Qed.

(** C40: reading requests do not write.  A request with any method but PUT,
    DELETE and POST leaves the log and the other files as they are, issues no
    version and sends nothing to the peers; the only change of the map it can
    make is to drop one entry that has expired. *)
Theorem safe_methods_do_not_write env req api :
  store_ok (api_store api) -> r_method req ∉ ["PUT"; "DELETE"; "POST"] ->
  let '(_, api', out) := Serve FileServer dir env req api in
  api_disk api' = api_disk api /\ wal (api_store api') = wal (api_store api) /\
  lastVersion (api_store api') = lastVersion (api_store api) /\ out = [] /\
  (view (api_store api') = view (api_store api) \/
   exists k e, view (api_store api) !! k = Some e /\ IsExpired (e_now env 1%nat) e = true /\
     view (api_store api') = delete k (view (api_store api))).
Proof.
  intros Hs Hm. unfold Serve. destruct (unescape false (r_rawPath req)) as [path|]; [|by repeat split; left].
  unfold NewHandler.
  enough (forall an api1 out, mux FileServer dir env path req api = Some (an, api1, out) ->
    api_disk api1 = api_disk api /\ wal (api_store api1) = wal (api_store api) /\
    lastVersion (api_store api1) = lastVersion (api_store api) /\ out = [] /\
    (view (api_store api1) = view (api_store api) \/
     exists k e, view (api_store api) !! k = Some e /\ IsExpired (e_now env 1%nat) e = true /\
       view (api_store api1) = delete k (view (api_store api)))) as Hmux.
  { destruct (mux FileServer dir env path req api) as [[[an api1] out]|]; [exact (Hmux an api1 out eq_refl)|].
    by repeat split; left. }
  intros an api1 out. unfold mux.
  destruct (findHandler _ _ _ _ _) as [| | |h w] eqn:Ef; try (intros [= _ <- <-]; by repeat split; left).
  pose proof (Found_method _ _ _ _ _ _ Ef) as Hh. unfold call.
  destruct h; try (intros [= _ <- <-]; by repeat split; left);
    try (exfalso; apply Hm; rewrite Hh; compute_done).
  - unfold handleGetKey. case_decide; [intros [= _ <- <-]; by repeat split; left|].
    pose proof (Store_Get_view (e_now env 1%nat) (e_now env 2%nat) (api_store api) (hd "" w) Hs) as Hv.
    pose proof (Store_Get_rest (e_now env 1%nat) (e_now env 2%nat) (api_store api) (hd "" w)) as [Hw Hl].
    destruct (Store_Get _ _ _ _) as [[[v ver] f] s']. cbn in Hv, Hw, Hl.
    assert (view s' = view (api_store api) \/ exists k e, view (api_store api) !! k = Some e /\
      IsExpired (e_now env 1%nat) e = true /\ view s' = delete k (view (api_store api))) as Hv'
      by (destruct Hv as [?|(e & ? & ? & _ & ?)]; [by left | right; by exists (hd "" w), e]).
    destruct f; intros [= _ <- <-]; by repeat split.
  - destruct (handleListKeys _ _ _); [|done]. intros [= _ <- <-]. by repeat split; left.
  - destruct (StripPrefix _ _ _); intros [= _ <- <-]; by repeat split; left.
Qed.
End Requests.

(** C20: which keys can be addressed.  The path the clients build for a key is
    routed to the handler of the method with exactly that key, whatever bytes
    the key has (slashes and escapes included), except for four keys: the
    empty one, the slash, the dot and the double dot never reach a handler of
    keys. *)
Theorem addressable_keys method h key query :
  (method, h) ∈ [("GET", handleGetKey_); ("HEAD", handleGetKey_); ("PUT", handlePutKey_);
                 ("DELETE", handleDeleteKey_)] ->
  unescape false (key_path key) = Some ("/v1/kv/" +:+ key) /\
  (findHandler routes method (key_path key) ("/v1/kv/" +:+ key) query = Found h [key]
   <-> key ∉ [""; "/"; "."; ".."]).
Proof.
  intros Hm. split; [apply unescape_key_path|]. split; [|by apply findHandler_key].
  intros Ef Hk. rewrite !elem_of_cons, elem_of_nil in Hm. rewrite !elem_of_cons, elem_of_nil in Hk.
  destruct Hk as [->|[->|[->|[->|[]]]]];
    destruct Hm as [[= -> ->]|[[= -> ->]|[[= -> ->]|[[= -> ->]|[]]]]]; vm_compute in Ef; discriminate.
Qed.

Lemma addressable_keys_witness :
  findHandler routes "PUT" (key_path "a/b c") ("/v1/kv/" +:+ "a/b c") "x=1"
    = Found handlePutKey_ ["a/b c"] /\
  findHandler routes "GET" (key_path "..") ("/v1/kv/" +:+ "..") "" <> Found handleGetKey_ [".."].
Proof.
  split.
  - apply (addressable_keys "PUT" handlePutKey_ "a/b c" "x=1"); compute_done.
  - intros E. apply (addressable_keys "GET" handleGetKey_ ".." "") in E; [apply E|]; compute_done.
Defined.

(** ** Runs *)

Section Runs.
(** Texts to run the definitions with. *)
#[local] Instance no_texts : Texts := {
  FormatFloat f := "0"; ParseFloat s := None; FormatTime t := ""; ParseTime s := None; Error e := "error"
}.

Definition no_files (dir method path : string) : answer := plain_answer not_found.
Definition env_at (now : Z) : req_env := mkReqEnv (fun _ => now) append_io_ok.
Definition put_body (v : string) : string := print (JObj [("value", JStr v)]).

Lemma node_api_ok id s : store_ok s -> api_ok (node id s).
Proof.
  intros Hs. split; [done | apply NewPeerManager_ok | apply is_u64_0 |].
  split; apply map_Forall_empty.
Qed.

Lemma requests_preserve_types_witness :
  let r := Serve no_files "" (env_at (time_Unix 50))
    (mkRequest "PUT" "/v1/kv/k" "" (put_body "v")) (node "a" (NewStore None)) in
  h_status r.1.1 = 200 /\ api_ok r.1.2.
Proof.
  intros r. split; [vm_compute; reflexivity|].
  pose proof (requests_preserve_types no_files "" [(env_at (time_Unix 50),
    mkRequest "PUT" "/v1/kv/k" "" (put_body "v"))] (node "a" (NewStore None))
    (node_api_ok "a" _ (NewStore_ok _))) as Ht.
  cbn [fold_left fst snd] in Ht. fold r in Ht. destruct r as [[resp api'] out]. apply Ht.
Defined.

Lemma every_request_is_counted_witness :
  let r := Serve no_files "" (env_at 0) (mkRequest "GET" "/nope" "" "") (node "a" (NewStore None)) in
  reqCounts (api_metrics r.1.2) !! mkRequestKey "GET" "/nope" "Not Found" = Some 1.
Proof.
  intros r. assert (h_status r.1.1 = 404) as Hst by (vm_compute; reflexivity).
  pose proof (every_request_is_counted no_files "" (env_at 0) (mkRequest "GET" "/nope" "" "")
    (node "a" (NewStore None)) "/nope" eq_refl) as Hc.
  fold r in Hc. destruct r as [[resp api'] out]. cbn [fst snd] in *. destruct Hc as [-> _].
  rewrite Hst. reflexivity.
Defined.

Lemma safe_methods_do_not_write_witness :
  let '(_, api', out) := Serve no_files "" (env_at 99) (mkRequest "GET" "/v1/kv/k" "" "")
    (node "a" (NewStore None)) in
  api_disk api' = ∅ /\ out = [].
Proof.
  pose proof (safe_methods_do_not_write no_files "" (env_at 99) (mkRequest "GET" "/v1/kv/k" "" "")
    (node "a" (NewStore None)) (NewStore_ok _)) as Hs.
  destruct (Serve no_files "" (env_at 99) (mkRequest "GET" "/v1/kv/k" "" "") (node "a" (NewStore None)))
    as [[resp api'] out] eqn:E.
  destruct Hs as (H1 & _ & _ & H2 & _); [compute_done|]. by split.
Defined.
End Runs.
