(* ===== verification/Routing.v ===== *)
(** * The route table as a client sees it

    Which method and path reach which handler, stated on the segments of the
    path by a table of its own, and what the other requests get: a redirect to
    the cleaned path, 405 or 404. *)

From S2P Require Import Prelude.
From S2P Require Import GoBase.
From S2P Require Import Url.
From S2P Require Import FilePath.
From S2P Require Import Mux.
From S2P Require Import Router.
From S2P Require Import RouterSpec.
From Stdlib Require Import Ascii.

(** ** Segments *)

(** The decoded segments of a path that starts with a slash; a path that ends
    in a slash has an empty last one. *)
Definition segments (path : string) : list string :=
  match path with
  | EmptyString => []
  | String _ p => pathUnescape <$> split_slash p
  end.

(** The multiplexer reads an empty last segment as a slash. *)
Definition shown (x : string) (xs : list string) : string :=
  match xs with [] => if String.eqb x "" then "/" else x | _ => x end.

Fixpoint match_list (pats : list seg) (segs : list string) : option (list string) :=
  match pats, segs with
  | [], [] => Some []
  | Lit l :: pats', x :: segs' => if String.eqb (shown x segs') l then match_list pats' segs' else None
  | Wild _ :: pats', x :: segs' =>
      if String.eqb (shown x segs') "/" then None
      else m ← match_list pats' segs'; Some (shown x segs' :: m)
  | Multi :: _, _ :: _ => Some []
  | _, _ => None
  end.

Lemma seg_split_spec p :
  let '(a, b) := seg_split p in
  split_slash p = a :: match b with EmptyString => [] | String _ b' => split_slash b' end /\
  (b = "" \/ rooted b = true) /\ (b = "" -> a = p).
Proof.
  induction p as [|c p IH]; cbn [seg_split split_slash]; [split; [done|by split; [left|]]|].
  destruct (is_slash c) eqn:Ec.
  - split; [done|]. split; [by right|done].
  - destruct (seg_split p) as [a b]. destruct IH as (-> & Hb & Ha).
    split; [done|]. split; [done|]. intros Hb0. by rewrite Ha.
Qed.

Lemma pathUnescape_empty a : pathUnescape a = "" -> a = "".
Proof.
  unfold pathUnescape. destruct a as [|c s]; [done|].
  enough (unescape false (String c s) <> Some "") as Hne
    by (destruct (unescape false (String c s)); cbn; congruence).
  destruct c as [[] [] [] [] [] [] [] []]; cbn;
    try (destruct (unescape false s); done).
  destruct s as [|a [|b s]]; [done..|]. by destruct (unhex a), (unhex b), (unescape false s).
Qed.

Lemma match_segs_list pats : forall path,
  path = "" \/ rooted path = true -> match_segs pats path = match_list pats (segments path).
Proof.
  induction pats as [|s pats IH]; intros path Hp; destruct path as [|c p].
  1,3: by try destruct s.
  { cbn. pose proof (split_slash_nonempty p). by destruct (split_slash p). }
  destruct Hp as [|Hc]; [done|]. cbn in Hc.
  cbn [match_segs]. change (String.eqb (String c p) "") with false. cbv iota.
  pose proof (seg_split_spec p) as Hs. unfold firstSegment. cbn [segments].
  assert (String.eqb (String c p) "/" = String.eqb p "") as ->.
  { apply Ascii.eqb_eq in Hc as ->. done. }
  destruct (String.eqb_spec p "") as [->|Hp].
  { clear Hs. destruct s as [l|x|]; [|done|done]. cbv iota beta.
    change (match_list (Lit l :: pats) (pathUnescape <$> split_slash ""))
      with (if String.eqb "/" l then match_list pats (segments "") else None).
    rewrite <-IH by (by left). done. }
  destruct (seg_split p) as [a b]. destruct Hs as (-> & Hb & Ha). cbn [fmap list_fmap match_list].
  assert (shown (pathUnescape a) (pathUnescape <$> match b with EmptyString => [] | String _ b' => split_slash b' end)
    = pathUnescape a) as Hsh.
  { unfold shown. destruct b as [|c' b']; cbn.
    - destruct (String.eqb_spec (pathUnescape a) ""); [|done].
      exfalso. apply Hp. rewrite <-Ha by done. by apply pathUnescape_empty.
    - pose proof (split_slash_nonempty b'). by destruct (split_slash b'). }
  assert (segments b = pathUnescape <$> match b with EmptyString => [] | String _ b' => split_slash b' end)
    as Hb' by (by destruct b).
  rewrite Hsh, <-Hb', <-IH by done. by destruct s.
Qed.

Lemma segments_slash path :
  rooted path = true -> segments (path +:+ "/") = segments path ++ [""].
Proof.
  destruct path as [|c p]; [done|]. intros _. rewrite string_cons_app. cbn [segments].
  pose proof (split_slash_app p "") as E.
  change ("/" +:+ "") with "/" in E. rewrite E, fmap_app. done.
Qed.

Lemma count_slashes_segments path :
  rooted path = true -> length (segments path) = count_slashes path.
Proof.
  destruct path as [|c p]; [done|]. cbn [rooted segments count_slashes]. intros ->.
  rewrite length_fmap. induction p as [|c' p IH]; [done|]. cbn [split_slash count_slashes].
  destruct (is_slash c'); cbn [length]; [by rewrite IH|].
  pose proof (split_slash_nonempty p). destruct (split_slash p); [done|]. exact IH.
Qed.

Lemma cleanPath_rooted p : rooted (cleanPath p) = true.
Proof.
  unfold cleanPath. case_decide; [done|].
  set (q := if rooted p then p else "/" +:+ p).
  assert (rooted q = true) as Hq by (subst q; by destruct (rooted p) eqn:E).
  assert (rooted (Clean q) = true) as Hc.
  { unfold Clean. rewrite render_rooted; [done|]. apply dir_elems_cleaned. }
  destruct (_ && _); [|done]. destruct (Clean q); [done|]. exact Hc.
Qed.

(** ** The table *)

(** The handlers at a fixed path, with their methods. *)
Definition fixed_routes : list (list string * (string * handler)) :=
  [(["v1"; "keys"], ("GET", handleListKeys_));
   (["v1"; "cluster"; "peers"], ("GET", handleClusterPeers_));
   (["v1"; "cluster"; "status"], ("GET", handleClusterStatus_));
   (["healthz"], ("GET", handleHealthz_));
   (["metrics"], ("GET", handleMetrics_));
   (["internal"; "ping"], ("GET", handleInternalPing_));
   (["internal"; "replicate"], ("POST", handleInternalReplicate_));
   (["dashboard"], ("GET", dashboardRedirect))].

Fixpoint same_segments (a b : list string) : bool :=
  match a, b with
  | [], [] => true
  | x :: a', y :: b' => String.eqb x y && same_segments a' b'
  | _, _ => false
  end.

(** The key of a path [/v1/kv/<key>]. *)
Definition key_of (segs : list string) : option string :=
  match segs with
  | [a; b; key] =>
      if String.eqb a "v1" && String.eqb b "kv" && negb (String.eqb key "") && negb (String.eqb key "/")
      then Some key else None
  | _ => None
  end.

Definition in_dashboard (segs : list string) : bool :=
  match segs with a :: _ :: _ => String.eqb a "dashboard" | _ => false end.

(** What a path offers: methods, handlers and the key they are called with. *)
Definition endpoint (segs : list string) : list (string * (handler * list string)) :=
  match key_of segs with
  | Some key => [("GET", (handleGetKey_, [key])); ("PUT", (handlePutKey_, [key]));
                 ("DELETE", (handleDeleteKey_, [key]))]
  | None =>
      if in_dashboard segs then [("GET", (dashboardFiles, []))]
      else omap (fun r => if same_segments segs r.1 then Some (r.2.1, (r.2.2, [])) else None) fixed_routes
  end.

(** GET is also offered as HEAD. *)
Definition offers (method : string) (e : string * (handler * list string)) : bool :=
  String.eqb e.1 method || (String.eqb e.1 "GET" && String.eqb method "HEAD").

Definition route_of (method : string) (segs : list string) : option (handler * list string) :=
  snd <$> List.find (offers method) (endpoint segs).

(** Case analysis on which literals the segments are. *)
Ltac segment_cases :=
  repeat match goal with
  | |- context [String.eqb ?x ?l] => is_var x; destruct (String.eqb_spec x l); [subst x|]; cbn
  end.

Lemma first_match_table method path :
  rooted path = true ->
  (fun x => (x.1.2, x.2)) <$> first_match routes method path = route_of method (segments path).
Proof.
  intros Hr. unfold routes. cbn [first_match]. unfold match_pattern. cbn [pt_method pt_segs].
  rewrite !match_segs_list by (by right). unfold route_of, endpoint, fixed_routes.
  set (mm := fun m => method_matches m method).
  change (offers method) with (fun e : string * (handler * list string) => mm e.1).
  repeat match goal with |- context [method_matches ?m method] => change (method_matches m method) with (mm m) end.
  clearbody mm. generalize (segments path) as segs. clear. intros segs.
  destruct segs as [|a [|b [|c [|d segs]]]]; cbn; segment_cases;
    destruct (mm "GET"), (mm "PUT"), (mm "DELETE"), (mm "POST"); reflexivity.
Qed.

(** The paths some method has. *)
Lemma other_method_table path :
  rooted path = true ->
  other_method routes path = match endpoint (segments path) with [] => false | _ => true end.
Proof.
  intros Hr. assert (rooted (path +:+ "/") = true) as Hr' by (by destruct path).
  unfold other_method, routes. cbn [existsb fst pt_segs].
  rewrite !match_segs_list by (by right). rewrite segments_slash by done. generalize (segments path) as segs. clear. intros segs.
  unfold endpoint, fixed_routes.
  destruct segs as [|a [|b [|c [|d segs]]]]; cbn; segment_cases; reflexivity.
Qed.

Lemma routed_pattern method path p h m :
  rooted path = true -> find_pattern routes method path = Some (p, h, m) ->
  (p, h) ∈ routes /\ match_list (pt_segs p) (segments path) = Some m.
Proof.
  intros Hr E. apply find_pattern_Some in E as [Hin Hm]. split; [done|]. unfold match_pattern in Hm.
  destruct (method_matches _ _); [|done]. by rewrite <-match_segs_list by (by right).
Qed.

(** A final slash is matched by a final wildcard only. *)
Lemma match_list_slash pats : forall segs,
  forallb (fun s => match s with Lit l => negb (String.eqb l "/") | Wild _ => true | Multi => false end) pats
  = true -> match_list pats (segs ++ [""]) = None.
Proof.
  induction pats as [|s pats IH]; intros segs Hp; [by destruct segs|].
  cbn in Hp. apply andb_prop in Hp as [Hs Hp].
  destruct segs as [|x segs]; cbn [app match_list].
  - destruct s as [l| |]; [|done|done]. change (shown "" []) with "/".
    apply negb_true_iff in Hs. rewrite String.eqb_sym in Hs. by rewrite Hs.
  - destruct s as [l| |]; [| |done]; rewrite (IH segs Hp);
      by destruct (String.eqb (shown x (segs ++ [""])) _).
Qed.

(** Only [/dashboard] has a route of its own below a slash, and it is itself
    routed. *)
Lemma no_slash_redirect method path :
  rooted path = true ->
  exact_found (find_pattern routes method (path +:+ "/")) (path +:+ "/") = true ->
  exact_found (find_pattern routes method path) path = true.
Proof.
  intros Hr. assert (rooted (path +:+ "/") = true) as Hr' by (by destruct path).
  destruct (find_pattern routes method (path +:+ "/")) as [[[p h] m]|] eqn:E; [|done]. cbn [exact_found].
  pose proof (find_pattern_Some _ _ _ _ _ _ E) as [_ Hmm]. unfold match_pattern in Hmm.
  destruct (method_matches (pt_method p) method) eqn:Em; [|done]. clear Hmm.
  destruct (routed_pattern _ _ _ _ _ Hr' E) as [Hin Hm]. clear E. rewrite segments_slash in Hm by done.
  assert (p = mkPattern "GET" [Lit "dashboard"; Multi]) as ->.
  { unfold routes in Hin. rewrite !elem_of_cons, elem_of_nil in Hin.
    repeat destruct Hin as [[= -> _]|Hin]; try done;
      (rewrite match_list_slash in Hm by reflexivity; discriminate). }
  unfold exactMatch. rewrite <-count_slashes_segments, segments_slash by done. cbn [pt_segs pt_method] in *.
  intros [_ Hlen%Nat.eqb_eq]%andb_prop. rewrite length_app in Hlen.
  assert (segments path = ["dashboard"]) as Hsegs.
  { destruct (segments path) as [|a [|b segs]]; [done| |cbn in Hlen; lia].
    cbn in Hm. destruct (String.eqb_spec a "dashboard"); by subst. }
  destruct (find_pattern routes method path) as [[[p2 h2] m2]|] eqn:E2.
  - destruct (routed_pattern _ _ _ _ _ Hr E2) as [Hin2 Hm2]. rewrite Hsegs in Hm2.
    unfold routes in Hin2. rewrite !elem_of_cons, elem_of_nil in Hin2.
    repeat destruct Hin2 as [[= -> _]|Hin2]; try done; discriminate Hm2.
  - apply find_pattern_None in E2. rewrite Forall_forall in E2.
    specialize (E2 (mkPattern "GET" [Lit "dashboard"], dashboardRedirect) ltac:(compute_done)).
    cbn [fst] in E2. unfold match_pattern in E2. cbn [pt_method pt_segs] in E2.
    rewrite Em, match_segs_list, Hsegs in E2 by (by right). discriminate E2.
Qed.

(** C39: the route table.  A request whose path is not clean is redirected to
    the cleaned path.  Otherwise the segments of its path decide: [/v1/kv/key]
    offers GET, PUT and DELETE of the key, the other paths of the table the
    method the table gives, HEAD goes with GET; a path of the table under
    another method is answered 405, every other path 404. *)
Theorem routing_table method raw upath query :
  method <> "CONNECT" ->
  let path := EscapedPath raw upath in
  findHandler routes method raw upath query =
  if decide (cleanPath path = path) then
    match route_of method (segments path) with
    | Some (h, key) => Found h key
    | None => match endpoint (segments path) with [] => NotFound | _ => MethodNotAllowed end
    end
  else RedirectTo (location (cleanPath path) query).
Proof.
  intros Hc path. unfold findHandler. fold path. apply String.eqb_neq in Hc. rewrite Hc.
  pose proof (cleanPath_rooted path) as Hr. set (cp := cleanPath path) in *.
  pose proof (no_slash_redirect method cp Hr) as Hx.
  assert (negb (exact_found (find_pattern routes method cp) cp) && negb (ends_slash cp)
    && exact_found (find_pattern routes method (cp +:+ "/")) (cp +:+ "/") = false) as ->.
  { destruct (exact_found (find_pattern routes method (cp +:+ "/")) _).
    - by rewrite Hx. - by rewrite andb_false_r. }
  case_decide as Hcp.
  - rewrite Hcp, String.eqb_refl in *. cbn [negb].
    rewrite <-(first_match_table method path) by done.
    rewrite find_pattern_first by apply routes_unambiguous.
    destruct (first_match routes method path) as [[[p h] m]|]; [done|]. cbn.
    unfold unmatched. rewrite other_method_table by done. by destruct (endpoint _).
  - apply String.eqb_neq in Hcp. by rewrite Hcp.
Qed.

Lemma routing_table_witness :
  findHandler routes "PUT" "/v1/kv/a%2Fb" "/v1/kv/a/b" "" = Found handlePutKey_ ["a/b"] /\
  findHandler routes "POST" "/v1/keys" "/v1/keys" "" = MethodNotAllowed /\
  findHandler routes "GET" "/internal//ping" "/internal//ping" "x=1" = RedirectTo "/internal/ping?x=1".
Proof.
  split; [|split].
  - refine (eq_trans (routing_table "PUT" _ _ _ _) _); [discriminate|vm_compute; reflexivity].
  - refine (eq_trans (routing_table "POST" _ _ _ _) _); [discriminate|vm_compute; reflexivity].
  - refine (eq_trans (routing_table "GET" _ _ _ _) _); [discriminate|vm_compute; reflexivity].
Defined.
