(* ===== verification/Client.v ===== *)
(** * The Go client: [pkg/client/client.go]

    Each method builds a request, sends it and decodes the answer.  The network
    with what is behind it is a function on a state of its own, [transport];
    [None] is a request without response.  The types are the client's own, as
    in the source. *)

From S2P Require Import Prelude.
From S2P Require Import GoBase.
From S2P Require Import Strconv.
From S2P Require Import FilePath.
From S2P Require Import QuickSort.
From S2P Require Import Url.
From S2P Require Import Utf8.
From S2P Require Import Json.
From S2P Require Import Codec.
From S2P Require Import Metrics.
From S2P Require Import Wire.
From S2P Require Import Mux.
From S2P Require Import Router.
From Stdlib Require Import Ascii.

(** ** URLs: [url.Parse] and [u.String()] *)

Record URL := mkURL {
  u_scheme : string;
  u_authority : option string;     (* what follows the two slashes *)
  u_opaque : string;
  u_rawPath : string;
  u_rawQuery : string
}.

Definition is_letter (c : ascii) : bool :=
  ((97 <=? code c) && (code c <=? 122)) || ((65 <=? code c) && (code c <=? 90)).

Definition lower (c : ascii) : ascii :=
  if (65 <=? code c) && (code c <=? 90) then chr (code c + 32) else c.

(** [getScheme]: the scheme and the rest, no scheme, or an error. *)
Fixpoint get_scheme (first : bool) (s : string) : option (option (string * string)) :=
  match s with
  | EmptyString => Some None
  | String c s' =>
      if is_letter c || (negb first && (is_digit c || is_in "+-." c)) then
        r ← get_scheme false s';
        Some (match r with Some (a, b) => Some (String (lower c) a, b) | None => None end)
      else if Ascii.eqb c ":" then if first then None else Some (Some ("", s'))
      else Some None
  end.

Fixpoint has_ctl (s : string) : bool :=
  match s with
  | EmptyString => false
  | String c s' => (code c <? 32) || (code c =? 127) || has_ctl s'
  end.

Section Parse.
(** Whether [net/url] accepts the text as user, host and port. *)
Context (parseAuthority : string -> bool).

Definition split_authority (rest : string) : option string * string :=
  match strip "//" rest with
  | Some t => let '(a, r) := seg_split t in (Some a, r)
  | None => (None, rest)
  end.

Definition url_Parse (rawURL : string) : option URL :=
  let '(u, frag) := cut "#" rawURL in
  if has_ctl u then None
  else
    x ← get_scheme true u;
    let '(scheme, rest) := match x with Some (a, b) => (a, b) | None => ("", u) end in
    let '(rest, query) := cut "?" rest in
    if negb (rooted rest) && negb (String.eqb scheme "") then
      _ ← unescape false frag; Some (mkURL scheme None rest "" query)
    else if negb (rooted rest) && has_char ":" (fst (cut "/" rest)) then None
    else
      let '(authority, path) :=
        if String.eqb scheme "" && bool_decide (is_Some (strip "///" rest)) then (None, rest)
        else split_authority rest in
      if match authority with Some a => parseAuthority a | None => true end then
        _ ← unescape false path; _ ← unescape false frag;
        Some (mkURL scheme authority "" path query)
      else None.

(** [u.EscapedPath()]. *)
Definition url_EscapedPath (raw : string) : string := EscapedPath raw (default raw (unescape false raw)).

(** [u.String()]. *)
Definition url_String (u : URL) : string :=
  (if String.eqb (u_scheme u) "" then "" else u_scheme u +:+ ":")
  +:+ u_opaque u
  +:+ match u_authority u with Some a => "//" +:+ a | None => "" end
  +:+ url_EscapedPath (u_rawPath u)
  +:+ (if String.eqb (u_rawQuery u) "" then "" else "?" +:+ u_rawQuery u).
End Parse.

(** [url.Values]: the keys with their values. *)
Definition Values : Type := list (string * list string).

Definition values_add (k v : string) (q : Values) : Values :=
  match list_find (fun kv => kv.1 = k) q with
  | Some (_, (_, vs)) => map (fun kv => if decide (kv.1 = k) then (k, vs ++ [v]) else kv) q
  | None => q ++ [(k, [v])]
  end.

(** [u.Query()]. *)
Definition query_values (query : string) : Values :=
  fold_left (fun q kv => values_add kv.1 kv.2 q) (parse_query (S (String.length query)) query) [].

Definition values_set (k v : string) (q : Values) : Values :=
  filter (fun kv => kv.1 <> k) q ++ [(k, [v])].

(** [q.Encode()]: in the order of the keys. *)
Definition values_encode (q : Values) : string :=
  String.concat "&"
    (concat (map (fun k =>
       match list_find (fun kv => kv.1 = k) q with
       | Some (_, (_, vs)) => map (fun v => QueryEscape k +:+ "=" +:+ QueryEscape v) vs
       | None => []
       end) (merge_sort String.le (map fst q)))).

(** ** Types *)

Record ClusterStatus := mkClientStatus {
  st_NodeID : string;
  st_Role : string;
  st_UptimeSec : float64;
  st_StoreSize : Z;
  st_WALSizeBytes : Z;
  st_PeersCount : Z
}.

Record PutRequest := mkPut { pq_Value : string; pq_TTLSeconds : option Z }.
Record PutResponse := mkPutResponse { pr_Version : Z }.
Record GetResponse := mkGetResponse { gr_Value : string; gr_Version : Z }.
Record DeleteResponse := mkDeleteResponse { dr_Version : Z; dr_Deleted : bool }.
Record KeysResponse := mkKeysResponse { kr_Keys : list string; kr_NextCursor : string }.

(** [omitempty] leaves out a nil pointer. *)
Definition PutRequest_json (r : PutRequest) : json :=
  JObj (("value", JStr (pq_Value r)) ::
        match pq_TTLSeconds r with Some n => [("ttl_seconds", JInt n)] | None => [] end).

Definition PutResponse_fields : list (string * (json -> PutResponse -> option PutResponse)) :=
  [("version", fun v x => n ← to_uint 64 v (pr_Version x); Some (mkPutResponse n))].

Definition GetResponse_fields : list (string * (json -> GetResponse -> option GetResponse)) :=
  [("value", fun v x => s ← to_string v (gr_Value x); Some (mkGetResponse s (gr_Version x)));
   ("version", fun v x => n ← to_uint 64 v (gr_Version x); Some (mkGetResponse (gr_Value x) n))].

Definition DeleteResponse_fields : list (string * (json -> DeleteResponse -> option DeleteResponse)) :=
  [("version", fun v x => n ← to_uint 64 v (dr_Version x); Some (mkDeleteResponse n (dr_Deleted x)));
   ("deleted", fun v x => b ← to_bool v (dr_Deleted x); Some (mkDeleteResponse (dr_Version x) b))].

Definition KeysResponse_fields : list (string * (json -> KeysResponse -> option KeysResponse)) :=
  [("keys", fun v x => l ← to_strings v (kr_Keys x); Some (mkKeysResponse l (kr_NextCursor x)));
   ("next_cursor", fun v x => s ← to_string v (kr_NextCursor x); Some (mkKeysResponse (kr_Keys x) s))].

Definition to_float `{Texts} (v : json) (old : float64) : option float64 :=
  match v with JNum lit => ParseFloat lit | JNull => Some old | _ => None end.

Definition ClusterStatus_fields `{Texts} : list (string * (json -> ClusterStatus -> option ClusterStatus)) :=
  [("node_id", fun v x => s ← to_string v (st_NodeID x);
      Some (mkClientStatus s (st_Role x) (st_UptimeSec x) (st_StoreSize x) (st_WALSizeBytes x) (st_PeersCount x)));
   ("role", fun v x => s ← to_string v (st_Role x);
      Some (mkClientStatus (st_NodeID x) s (st_UptimeSec x) (st_StoreSize x) (st_WALSizeBytes x) (st_PeersCount x)));
   ("uptime_seconds", fun v x => f ← to_float v (st_UptimeSec x);
      Some (mkClientStatus (st_NodeID x) (st_Role x) f (st_StoreSize x) (st_WALSizeBytes x) (st_PeersCount x)));
   ("store_size", fun v x => n ← to_int v (st_StoreSize x);
      Some (mkClientStatus (st_NodeID x) (st_Role x) (st_UptimeSec x) n (st_WALSizeBytes x) (st_PeersCount x)));
   ("wal_size_bytes", fun v x => n ← to_int v (st_WALSizeBytes x);
      Some (mkClientStatus (st_NodeID x) (st_Role x) (st_UptimeSec x) (st_StoreSize x) n (st_PeersCount x)));
   ("peers_count", fun v x => n ← to_int v (st_PeersCount x);
      Some (mkClientStatus (st_NodeID x) (st_Role x) (st_UptimeSec x) (st_StoreSize x) (st_WALSizeBytes x) n))].

(** The errors of the methods.  [ErrInternal] is declared and never
    returned. *)
Inductive client_error :=
  | ErrKeyNotFound
  | ErrBadRequest
  | ErrInternal
  | BadURL                          (* of [http.NewRequestWithContext] *)
  | RequestFailed                   (* of [httpClient.Do] *)
  | UnexpectedStatus (status : Z)
  | DecodeFailed.

Record Client := mkClient { c_addr : string }.
Definition NewClient (addr : string) : Client := mkClient addr.

(** ** The methods *)

Section Methods.
Context `{Texts} (parseAuthority : string -> bool).
Context {St : Type} (transport : string -> Request -> St -> option http_response * St).

(** The request that follows a redirect, as [http.Client] makes it for a
    location that is an absolute path: with GET and no body for 301, 302 and
    303. *)
Definition redirected (req : Request) (resp : http_response) : option Request :=
  match h_location resp with
  | Some loc =>
      let '(raw, query) := cut "?" loc in
      let path := url_EscapedPath raw in
      let st := h_status resp in
      if (st =? 301) || (st =? 302) || (st =? 303) then
        Some (mkRequest (if String.eqb (r_method req) "HEAD" then "HEAD" else "GET") path query "")
      else if (st =? 307) || (st =? 308) then Some (mkRequest (r_method req) path query (r_body req))
      else None
  | None => None
  end.

(** [httpClient.Do]: redirects are followed, ten requests are made at most. *)
Fixpoint Do_loop (fuel : nat) (authority : string) (req : Request) (st : St)
  : (http_response + client_error) * St :=
  match transport authority req st with
  | (None, st') => (inr RequestFailed, st')
  | (Some resp, st') =>
      match redirected req resp with
      | Some req' =>
          match fuel with
          | O => (inr RequestFailed, st')
          | S fuel' => Do_loop fuel' authority req' st'
          end
      | None => (inl resp, st')
      end
  end.

(** [NewRequestWithContext] and [Do] for a URL; only [http] and [https] URLs
    with a host can be requested. *)
Definition send (method u body : string) (st : St) : (http_response + client_error) * St :=
  match url_Parse parseAuthority u with
  | None => (inr BadURL, st)
  | Some url =>
      match u_authority url with
      | Some authority =>
          if (String.eqb (u_scheme url) "http" || String.eqb (u_scheme url) "https")
             && negb (String.eqb authority "")
          then
            let path := if String.eqb (u_rawPath url) "" then "/" else url_EscapedPath (u_rawPath url) in
            Do_loop 9 authority (mkRequest method path (u_rawQuery url) body) st
          else (inr RequestFailed, st)
      | None => (inr RequestFailed, st)
      end
  end.

Definition key_url (c : Client) (key : string) : string := c_addr c +:+ "/v1/kv/" +:+ PathEscape key.

(** Decoding the body of a good answer. *)
Definition decode_ok {T R} (fields : list (string * (json -> T -> option T))) (zero : T) (result : T -> R)
    (resp : http_response) : R + client_error :=
  match Decode fields (h_body resp) zero with
  | Some x => inl (result x)
  | None => inr DecodeFailed
  end.

Definition Client_Get (c : Client) (key : string) (st : St) : (list byte * Z + client_error) * St :=
  match send "GET" (key_url c key) "" st with
  | (inr e, st') => (inr e, st')
  | (inl resp, st') =>
      (if h_status resp =? 404 then inr ErrKeyNotFound
       else if negb (h_status resp =? 200) then inr (UnexpectedStatus (h_status resp))
       else decode_ok GetResponse_fields (mkGetResponse "" 0)
              (fun r => (bytes_of (gr_Value r), gr_Version r)) resp, st')
  end.

Definition Client_Set (c : Client) (key : string) (value : list byte) (ttlSeconds : Z) (st : St)
  : (Z + client_error) * St :=
  let reqBody := mkPut (string_of value) (if 0 <? ttlSeconds then Some ttlSeconds else None) in
  match send "PUT" (key_url c key) (print (PutRequest_json reqBody)) st with
  | (inr e, st') => (inr e, st')
  | (inl resp, st') =>
      (if h_status resp =? 400 then inr ErrBadRequest
       else if negb (h_status resp =? 200) then inr (UnexpectedStatus (h_status resp))
       else decode_ok PutResponse_fields (mkPutResponse 0) pr_Version resp, st')
  end.

Definition Client_Delete (c : Client) (key : string) (st : St) : (Z * bool + client_error) * St :=
  match send "DELETE" (key_url c key) "" st with
  | (inr e, st') => (inr e, st')
  | (inl resp, st') =>
      (if negb (h_status resp =? 200) then inr (UnexpectedStatus (h_status resp))
       else decode_ok DeleteResponse_fields (mkDeleteResponse 0 false)
              (fun r => (dr_Version r, dr_Deleted r)) resp, st')
  end.

Definition list_values (prefix : string) (limit : Z) (cursor : string) (q : Values) : Values :=
  let q := if decide (prefix = "") then q else values_set "prefix" prefix q in
  let q := if 0 <? limit then values_set "limit" (Itoa limit) q else q in
  if decide (cursor = "") then q else values_set "cursor" cursor q.

Definition Client_ListKeys (c : Client) (prefix : string) (limit : Z) (cursor : string) (st : St)
  : (list string * string + client_error) * St :=
  match url_Parse parseAuthority (c_addr c +:+ "/v1/keys") with
  | None => (inr BadURL, st)
  | Some u =>
      let q := list_values prefix limit cursor (query_values (u_rawQuery u)) in
      let u := mkURL (u_scheme u) (u_authority u) (u_opaque u) (u_rawPath u) (values_encode q) in
      match send "GET" (url_String u) "" st with
      | (inr e, st') => (inr e, st')
      | (inl resp, st') =>
          (if negb (h_status resp =? 200) then inr (UnexpectedStatus (h_status resp))
           else decode_ok KeysResponse_fields (mkKeysResponse [] "")
                  (fun r => (kr_Keys r, kr_NextCursor r)) resp, st')
      end
  end.

Definition Client_ClusterStatus (c : Client) (st : St) : (ClusterStatus + client_error) * St :=
  match send "GET" (c_addr c +:+ "/v1/cluster/status") "" st with
  | (inr e, st') => (inr e, st')
  | (inl resp, st') =>
      (if negb (h_status resp =? 200) then inr (UnexpectedStatus (h_status resp))
       else decode_ok ClusterStatus_fields (mkClientStatus "" "" (float_of_int 0) 0 0 0)
              (fun r => r) resp, st')
  end.
End Methods.
