(* ===== verification/ClientSpec.v ===== *)
(** * The client against the server

    The requests of the Go client, carried over a network that delivers them,
    handled by the router of a node and answered: what the client gets is what
    the node holds. *)

From S2P Require Import Prelude.
From S2P Require Import GoBase.
From S2P Require Import FilePath.
From S2P Require Import Strconv.
From S2P Require Import Url.
From S2P Require Import Utf8.
From S2P Require Import Json.
From S2P Require Import Codec.
From S2P Require Import Lww.
From S2P Require Import Wal.
From S2P Require Import Store.
From S2P Require Import StoreInv.
From S2P Require Import Scan.
From S2P Require Import StoreSpec.
From S2P Require Import Recovery.
From S2P Require Import Peer.
From S2P Require Import Replication.
From S2P Require Import Config.
From S2P Require Import Metrics.
From S2P Require Import Api.
From S2P Require Import ApiSpec.
From S2P Require Import Wire.
From S2P Require Import Mux.
From S2P Require Import Router.
From S2P Require Import RouterSpec.
From S2P Require Client.
From S2P Require Import Client.
From Stdlib Require Import Ascii.

(** ** The URLs of the client *)

(** A host name or address with its port. *)
Definition host_ok (host : string) : bool :=
  negb (has_slash host || has_char "?" host || has_char "#" host || has_ctl host
        || String.eqb host "").

Lemma has_ctl_app a b : has_ctl (a +:+ b) = has_ctl a || has_ctl b.
Proof.
  induction a as [|c a IH]; [done|]. rewrite string_cons_app. cbn [has_ctl]. by rewrite IH, !orb_assoc.
Qed.

Lemma seg_split_app a p : plain a -> rooted p = true -> seg_split (a +:+ p) = (a, p).
Proof.
  unfold plain. intros Ha Hp. induction a as [|c a IH].
  - rewrite string_app_nil_l. destruct p as [|c p]; [done|]. cbn in Hp |- *. by rewrite Hp.
  - rewrite string_cons_app. cbn in Ha |- *. apply orb_false_iff in Ha as [-> Ha]. by rewrite IH.
Qed.

(** What an URL may consist of. *)
Definition url_clean (s : string) : Prop := has_char "#" s = false /\ has_ctl s = false.

Lemma url_clean_app a b : url_clean a -> url_clean b -> url_clean (a +:+ b).
Proof. intros [H1 H2] [H3 H4]. split; [by rewrite has_char_app, H1, H3 | by rewrite has_ctl_app, H2, H4]. Qed.

Section Urls.
Context (parseAuthority : string -> bool).

(** An address followed by a path and perhaps a query. *)
Lemma url_Parse_http host path tail query :
  host_ok host = true -> parseAuthority host = true ->
  rooted path = true -> has_char "?" path = false -> url_clean path -> url_clean tail ->
  is_Some (unescape false path) -> cut "?" (path +:+ tail) = (path, query) ->
  url_Parse parseAuthority ("http://" +:+ host +:+ path +:+ tail)
  = Some (mkURL "http" (Some host) "" path query).
Proof.
  intros Hh Ha Hr Hq Hp Ht [x Hx] Hcut. unfold host_ok in Hh. apply negb_true_iff in Hh.
  rewrite !orb_false_iff in Hh. destruct Hh as ((((H1 & H2) & H3) & H4) & H5).
  assert (url_clean ("http://" +:+ host +:+ path +:+ tail)) as [Hf Hc]
    by (repeat apply url_clean_app; done).
  unfold url_Parse. rewrite cut_none by exact Hf. rewrite Hc.
  change (get_scheme true ("http://" +:+ host +:+ path +:+ tail))
    with (Some (Some ("http", "//" +:+ host +:+ path +:+ tail))). cbn [mbind option_bind].
  assert (cut "?" ("//" +:+ host +:+ path +:+ tail) = ("//" +:+ host +:+ path, query)) as ->.
  { assert (forall a b, has_char "?" a = false -> cut "?" (a +:+ b)
      = let '(u, v) := cut "?" b in (a +:+ u, v)) as Happ.
    { intros a b. induction a as [|c a IH]; intros Hna; [rewrite string_app_nil_l; by destruct (cut "?" b)|].
      rewrite string_cons_app. cbn in Hna |- *. apply orb_false_iff in Hna as [-> Hna].
      rewrite IH by done. by destruct (cut "?" b). }
    rewrite (Happ "//"), (Happ host), Hcut by done. done. }
  change (rooted ("//" +:+ host +:+ path)) with true. cbn [negb andb].
  change (String.eqb "http" "") with false. cbn [andb]. unfold split_authority.
  change (strip "//" ("//" +:+ host +:+ path)) with (Some (host +:+ path)). cbv iota beta.
  rewrite seg_split_app by done. rewrite Ha, Hx. done.
Qed.
End Urls.

Lemma PathEscape_char_url c :
  has_char "?" (escape_path_char c) = false /\ has_char "#" (escape_path_char c) = false /\
  has_ctl (escape_path_char c) = false.
Proof. destruct c as [[] [] [] [] [] [] [] []]; repeat split. Qed.

Lemma key_path_url key : has_char "?" (key_path key) = false /\ url_clean (key_path key).
Proof.
  assert (has_char "?" (PathEscape key) = false /\ url_clean (PathEscape key)) as (H1 & H2 & H3).
  { unfold PathEscape, url_clean. induction key as [|c key (IH1 & IH2 & IH3)]; [done|]. cbn [escape].
    destruct (PathEscape_char_url c) as (H1 & H2 & H3).
    by rewrite !has_char_app, has_ctl_app, IH1, IH2, IH3, H1, H2, H3. }
  unfold key_path. split; [by rewrite has_char_app, H1|]. by apply url_clean_app.
Qed.

(** ** The network: every request reaches the node and is answered *)

Section Client.
Context `{Texts} `{MapRange} (FileServer : string -> string -> string -> answer) (dir : string).
Context (parseAuthority : string -> bool).

(** The node, what it sent to its peers, and the number of requests it has
    handled; request number [t] finds the environment [envs t]. *)
Record world := mkWorld { w_api : API; w_sent : sends; w_t : nat }.
Context (envs : nat -> req_env).

Definition network (authority : string) (req : Request) (w : world) : option http_response * world :=
  let '(resp, api', out) := Serve FileServer dir (envs (w_t w)) req (w_api w) in
  (Some resp, mkWorld api' (w_sent w ++ out) (S (w_t w))).

(** The client of the node. *)
Context (c : Client) (host : string).
Context (Haddr : c_addr c = "http://" +:+ host) (Hhost : host_ok host = true)
  (Hauth : parseAuthority host = true).

(** A path of the node with an optional query: the request is made and
    redirects are followed. *)
Lemma send_loop method path tail query body w :
  rooted path = true -> has_char "?" path = false -> url_clean path -> url_clean tail ->
  is_Some (unescape false path) -> cut "?" (path +:+ tail) = (path, query) ->
  valid_encoded path = true ->
  send parseAuthority network method (c_addr c +:+ path +:+ tail) body w
  = Do_loop network 9 host (mkRequest method path query body) w.
Proof using Haddr Hhost Hauth.
  intros Hr Hq Hp Ht Hx Hcut Hv. unfold send.
  assert (c_addr c +:+ path +:+ tail = "http://" +:+ host +:+ path +:+ tail) as ->
    by (rewrite Haddr; by rewrite string_app_assoc).
  rewrite (url_Parse_http parseAuthority host path tail query) by done.
  cbn [u_authority u_scheme u_rawPath u_rawQuery].
  assert (String.eqb host "" = false) as ->.
  { unfold host_ok in Hhost. apply negb_true_iff in Hhost. rewrite !orb_false_iff in Hhost. apply Hhost. }
  change (String.eqb "http" "http") with true. cbn [orb andb negb].
  assert (String.eqb path "" = false) as -> by (by destruct path).
  assert (url_EscapedPath path = path) as -> by (unfold url_EscapedPath, EscapedPath; by rewrite Hv).
  done.
Qed.

(** The answer to the first request, when it is no redirect. *)
Lemma Do_direct n authority req w resp w' :
  network authority req w = (Some resp, w') -> h_location resp = None ->
  Do_loop network n authority req w = (inl resp, w').
Proof.
  intros Hn Hl. destruct n; cbn [Do_loop]; rewrite Hn; unfold redirected; by rewrite Hl.
Qed.

Lemma send_key_loop method key body w :
  send parseAuthority network method (key_url c key) body w
  = Do_loop network 9 host (mkRequest method (key_path key) "" body) w.
Proof using Haddr Hhost Hauth.
  unfold key_url. destruct (key_path_url key) as [Hq Hc].
  pose proof (send_loop method (key_path key) "" "" body w) as Hs.
  rewrite string_app_nil_r in Hs. apply Hs; try done.
  - rewrite unescape_key_path. by eexists.
  - by apply cut_none.
  - unfold key_path. rewrite valid_encoded_app. by rewrite (proj2 (PathEscape_facts key)).
Qed.

Lemma send_key method key body w resp w' :
  network host (mkRequest method (key_path key) "" body) w = (Some resp, w') -> h_location resp = None ->
  send parseAuthority network method (key_url c key) body w = (inl resp, w').
Proof using Haddr Hhost Hauth. intros Hn Hl. rewrite send_key_loop. by apply Do_direct. Qed.

Lemma elem_of_HEAD (x g p d h : string * handler) : x ∈ [g; p; d] -> x ∈ [g; h; p; d].
Proof. rewrite !elem_of_cons. tauto. Qed.

(** A request for a key, as the node handles it. *)
Lemma Serve_key env method h key body api an api1 out :
  (method, h) ∈ [("GET", handleGetKey_); ("PUT", handlePutKey_); ("DELETE", handleDeleteKey_)] ->
  key ∉ unaddressable ->
  call FileServer dir env h key ("/v1/kv/" +:+ key) (mkRequest method (key_path key) "" body) api
    = Some (plain_answer an, api1, out) ->
  Serve FileServer dir env (mkRequest method (key_path key) "" body) api
  = (mkHttpResponse (rs_status an) None (body_bytes an),
     (LoggingAndMetricsMiddleware (e_now env 0%nat) (e_now env 4%nat) method ("/v1/kv/" +:+ key) an api1).2,
     out).
Proof.
  intros Hm Hk Hcall. unfold Serve. cbn [r_rawPath r_method]. rewrite unescape_key_path.
  unfold NewHandler, mux. cbn [r_rawPath r_method r_rawQuery].
  rewrite (findHandler_key method h) by (done || by apply elem_of_HEAD). cbn [hd]. rewrite Hcall.
  cbn [plain_answer an_response an_location LoggingAndMetricsMiddleware fst snd].
  rewrite !elem_of_cons, elem_of_nil in Hm.
  by destruct Hm as [[= -> _]|[[= -> _]|[[= -> _]|[]]]].
Qed.

(** ** Bodies *)

Lemma decode_PutRequest_client v ttl :
  (forall n, ttl = Some n -> is_i64 n) ->
  decode_PutRequest (print (PutRequest_json (mkPut v ttl))) = Some (mkPutRequest (sanitize v) ttl).
Proof.
  intros Ht. unfold decode_PutRequest, PutRequest_json. cbn [pq_Value pq_TTLSeconds].
  destruct ttl as [n|]; rewrite Decode_print_all.
  - cbn [norm map decode_struct fst snd JInt].
    rewrite (sanitize_is_ascii "value"), (sanitize_is_ascii "ttl_seconds") by done.
    decode_step. decode_step. cbn [to_int_ptr]. by rewrite Atoi_Itoa by auto.
  - cbn [numbers_ok forallb snd JInt]. by rewrite Itoa_literal.
  - unfold maxNestingDepth. cbn. lia.
  - cbn [norm map decode_struct fst snd JInt]. rewrite (sanitize_is_ascii "value") by done. by decode_step.
  - done.
  - unfold maxNestingDepth. cbn. lia.
Qed.

(** A response body that consists of fields with integers, strings and
    flags, read by a decoder. *)
Ltac decode_body :=
  unfold body_bytes; cbn [rs_body body_json]; rewrite Decode_writeJSON;
    [ cbn [norm map decode_struct fst snd JInt];
      rewrite ?(sanitize_is_ascii "value"), ?(sanitize_is_ascii "version"), ?(sanitize_is_ascii "deleted"),
        ?(sanitize_is_ascii "keys"), ?(sanitize_is_ascii "next_cursor") by done
    | cbn [numbers_ok forallb snd JInt]; rewrite ?Itoa_literal; done
    | unfold maxNestingDepth; cbn; lia ].

Lemma decode_version_body version :
  is_u64 version ->
  Decode PutResponse_fields (body_bytes (mkResponse StatusOK (Api.PutResponse version))) (mkPutResponse 0)
  = Some (mkPutResponse version).
Proof. intros Hv. decode_body. decode_step. by rewrite ParseUint_Itoa. Qed.

Lemma decode_get_body value version :
  is_u64 version ->
  Decode GetResponse_fields (body_bytes (mkResponse StatusOK (Api.GetResponse value version))) (mkGetResponse "" 0)
  = Some (mkGetResponse (sanitize value) version).
Proof. intros Hv. decode_body. do 2 decode_step. by rewrite ParseUint_Itoa. Qed.

Lemma decode_delete_body version deleted :
  is_u64 version ->
  Decode DeleteResponse_fields (body_bytes (mkResponse StatusOK (Api.DeleteResponse version deleted)))
    (mkDeleteResponse 0 false) = Some (mkDeleteResponse version deleted).
Proof.
  intros Hv. decode_body. decode_step. rewrite ParseUint_Itoa by done. cbn [mbind option_bind].
  by decode_step.
Qed.

(** ** The methods *)

(** The world after a request whose handler leaves the node as [api1]. *)
Definition after (method key : string) (an : response) (api1 : API) (out : sends) (w : world) : world :=
  let env := envs (w_t w) in
  mkWorld (LoggingAndMetricsMiddleware (e_now env 0%nat) (e_now env 4%nat) method ("/v1/kv/" +:+ key) an api1).2
    (w_sent w ++ out) (S (w_t w)).

Lemma Client_Get_spec key w :
  store_ok (api_store (w_api w)) -> key ∉ unaddressable ->
  let now := e_now (envs (w_t w)) in
  let '(r, api1) := handleGetKey (now 1%nat) (now 2%nat) key (w_api w) in
  Client_Get parseAuthority (network) c key w
  = (match live (now 1%nat) (view (api_store (w_api w))) !! key with
     | Some e => inl (bytes_of (sanitize (string_of (Value e))), Version e)
     | None => inr ErrKeyNotFound
     end, after "GET" key r api1 [] w).
Proof using Haddr Hhost Hauth.
  intros Hs Hk now. destruct (handleGetKey (now 1%nat) (now 2%nat) key (w_api w)) as [r api1] eqn:Eg.
  assert (network host (mkRequest "GET" (key_path key) "" "") w
    = (Some (mkHttpResponse (rs_status r) None (body_bytes r)), after "GET" key r api1 [] w)) as Hn.
  { unfold network, after. rewrite (Serve_key _ "GET" handleGetKey_ _ _ _ r api1 []); [done|compute_done|done|].
    unfold call. fold now. by rewrite Eg. }
  unfold Client_Get. rewrite (send_key _ _ _ _ _ _ Hn) by done.
  unfold handleGetKey in Eg. rewrite decide_False in Eg by (intros ->; apply Hk; compute_done).
  pose proof (Store_Get_result (now 1%nat) (now 2%nat) (api_store (w_api w)) key Hs) as Hg.
  destruct (Store_Get _ _ _ _) as [[[val ver] found] s']. cbn [fst] in Hg.
  rewrite lookup_live in Hg |- *.
  destruct (view (api_store (w_api w)) !! key) as [e|] eqn:Ee; [destruct (IsExpired (now 1%nat) e)|];
    injection Hg as -> -> ->; cbn [negb] in Eg; injection Eg as <- <-; [done| |done].
  cbn [h_status rs_status StatusOK]. change (200 =? 404) with false. change (200 =? 200) with true. cbn [negb].
  unfold decode_ok. cbn [h_body]. change (mkResponse 200 ?b) with (mkResponse StatusOK b). rewrite decode_get_body; [done|].
  by apply (so_versions _ Hs key).
Qed.

(** What [Get] returns, from what the handler answers. *)
Lemma client_get_value key w v version :
  store_ok (api_store (w_api w)) -> key ∉ unaddressable ->
  (handleGetKey (e_now (envs (w_t w)) 1%nat) (e_now (envs (w_t w)) 2%nat) key (w_api w)).1
    = mkResponse StatusOK (Api.GetResponse v version) ->
  exists w', Client_Get parseAuthority network c key w = (inl (bytes_of (sanitize v), version), w').
Proof using Haddr Hhost Hauth.
  intros Hs Hk Hg. pose proof (Client_Get_spec key w Hs Hk) as E. cbv zeta in E.
  assert (key <> "") as Hne by (intros ->; apply Hk; compute_done).
  rewrite handleGetKey_live in Hg by done.
  destruct (handleGetKey _ _ _ _) as [r api1].
  destruct (live _ _ !! key) as [e|]; [|done]. injection Hg as <- <-. by eexists.
Qed.

(** The handlers of writes answer with a 64-bit version, or with 500. *)
Lemma handlePutKey_answer n1 n2 n3 io key req api r api1 out :
  api_ok api -> key <> "" ->
  handlePutKey n1 n2 n3 io key (Some req) api = (r, api1, out) ->
  (exists v, is_u64 v /\ r = mkResponse StatusOK (Api.PutResponse v)) \/
  (exists e, r = mkResponse StatusInternalServerError (ErrorOf e)).
Proof.
  intros Ha Hk. unfold handlePutKey. rewrite decide_False by done.
  pose proof (Store_Set_view io (api_disk api) (api_store api) (ao_store _ Ha) n1 n2 key
    (bytes_of (put_Value req)) (put_ttl req) 0 is_u64_0) as Hv. cbv zeta in Hv.
  destruct (pick_version_facts n2 (api_store api) 0 (ao_store _ Ha) is_u64_0) as (_ & Hu & _).
  destruct (Store_Set _ _ _ _ _ _ _ _ _) as [[d s] [v [err|]]]; cbn [fst snd] in Hv.
  - intros [= <- _ _]. right. by eexists.
  - destruct (Replicate _ _ _ _ _ _ _) as [rp o]. intros [= <- _ _]. left. exists v. split; [|done].
    destruct Hv as [_ ->]. destruct (view (api_store api) !! key) eqn:E; [|done].
    by eapply stored_version_u64; [apply Ha|..].
Qed.

Lemma Client_Set_spec key value ttl w r api1 out :
  api_ok (w_api w) -> key ∉ unaddressable -> is_i64 ttl ->
  let env := envs (w_t w) in
  let req := mkPutRequest (sanitize (string_of value)) (if 0 <? ttl then Some ttl else None) in
  handlePutKey (e_now env 1%nat) (e_now env 2%nat) (e_now env 3%nat) (e_io env) key (Some req) (w_api w)
    = (r, api1, out) ->
  Client_Set parseAuthority network c key value ttl w
  = (match rs_body r with
     | Api.PutResponse v => inl v
     | _ => inr (UnexpectedStatus StatusInternalServerError)
     end, after "PUT" key r api1 out w).
Proof using Haddr Hhost Hauth.
  intros Ha Hk Ht env req Ep. unfold Client_Set.
  set (body := print (PutRequest_json (mkPut (string_of value) (if 0 <? ttl then Some ttl else None)))).
  assert (decode_PutRequest body = Some req) as Hd.
  { apply decode_PutRequest_client. intros n. destruct (0 <? ttl); [by intros [= <-] | done]. }
  assert (network host (mkRequest "PUT" (key_path key) "" body) w
    = (Some (mkHttpResponse (rs_status r) None (body_bytes r)), after "PUT" key r api1 out w)) as Hn.
  { unfold network, after. rewrite (Serve_key _ "PUT" handlePutKey_ _ _ _ r api1 out); [done|compute_done|done|].
    unfold call. cbn [r_body]. rewrite Hd. fold env. by rewrite Ep. }
  rewrite (send_key _ _ _ _ _ _ Hn) by done.
  assert (key <> "") as Hne by (intros ->; apply Hk; compute_done).
  destruct (handlePutKey_answer _ _ _ _ _ _ _ _ _ _ Ha Hne Ep) as [(v & Hv & ->)|[e ->]]; [|done].
  cbn [h_status rs_status StatusOK rs_body]. change (200 =? 400) with false. change (200 =? 200) with true. cbn [negb].
  unfold decode_ok. cbn [h_body]. change (mkResponse 200 ?b) with (mkResponse StatusOK b).
  by rewrite decode_version_body.
Qed.

(** C7: the client reads its own write.  Against a node with a working disk
    that stores no newer entry of the key than the version it issues next,
    [Set] without ttl of a key that can be addressed and a value that fits the
    record format returns that version, and a [Get] that follows returns the
    value with that version; a value that is not valid UTF-8 comes back with
    its ill-formed bytes replaced. *)
Theorem client_reads_own_write key value w :
  api_ok (w_api w) -> node_ok (w_api w) -> e_io (envs (w_t w)) = append_io_ok ->
  key ∉ [""; "/"; "."; ".."] -> writable key (bytes_of (sanitize (string_of value))) ->
  let version := (NextVersion (e_now (envs (w_t w)) 2%nat) (api_store (w_api w))).1 in
  (forall old, view (api_store (w_api w)) !! key = Some old -> Version old <= version) ->
  exists w1 w2,
    Client_Set parseAuthority network c key value 0 w = (inl version, w1) /\
    Client_Get parseAuthority network c key w1
      = (inl (bytes_of (sanitize (string_of value)), version), w2) /\
    (valid_utf8 (string_of value) = true -> bytes_of (sanitize (string_of value)) = value).
Proof using Haddr Hhost Hauth.
  intros Ha Hok Hio Hk Hwr version Hnew. set (env := envs (w_t w)) in *.
  assert (key <> "") as Hne by (intros ->; apply Hk; compute_done).
  set (v := sanitize (string_of value)) in *.
  destruct (handlePutKey (e_now env 1%nat) (e_now env 2%nat) (e_now env 3%nat) (e_io env) key
    (Some (mkPutRequest v None)) (w_api w)) as [[r api1] out] eqn:Ep.
  pose proof (Client_Set_spec key value 0 w r api1 out Ha Hk ltac:(unfold is_i64; lia) Ep) as Es.
  rewrite Hio in Ep.
  destruct (put_then_get (w_api w) _ _ _ key v r api1 out Hok Hne Hwr Hnew Ep) as (-> & Hok1 & Hget).
  exists (after "PUT" key (mkResponse StatusOK (Api.PutResponse version)) api1 out w).
  set (w1 := after _ _ _ _ _ _) in *.
  specialize (Hget (e_now (envs (w_t w1)) 1%nat) (e_now (envs (w_t w1)) 2%nat)).
  rewrite handleGetKey_live in Hget by (done || apply Hok1).
  destruct (client_get_value key w1 v version (no_store _ Hok1) Hk) as [w2 Eg];
    [by rewrite handleGetKey_live by (done || apply Hok1)|].
  exists w2. split; [exact Es|]. split.
  - rewrite Eg. subst v. by rewrite sanitize_idem.
  - intros Hv%valid_sanitize. subst v. by rewrite Hv, bytes_of_string_of.
Qed.

(** ** Deleting *)

Lemma handleDeleteKey_answer n io key api r api1 out :
  api_ok api -> key <> "" -> handleDeleteKey n io key api = (r, api1, out) ->
  (exists v b, is_u64 v /\ r = mkResponse StatusOK (Api.DeleteResponse v b)) \/
  (exists e, r = mkResponse StatusInternalServerError (ErrorOf e)).
Proof.
  intros Ha Hk. unfold handleDeleteKey. rewrite decide_False by done.
  pose proof (Store_Delete_view io (api_disk api) (api_store api) (ao_store _ Ha) n key 0 is_u64_0) as Hv.
  cbv zeta in Hv. destruct (pick_version_facts n (api_store api) 0 (ao_store _ Ha) is_u64_0) as (_ & Hu & _).
  destruct (Store_Delete _ _ _ _ _ _) as [[d s] [[v b] [err|]]]; cbn [fst snd] in Hv.
  - intros [= <- _ _]. right. by eexists.
  - destruct (Replicate _ _ _ _ _ _ _) as [rp o]. intros [= <- _ _]. left. exists v, b. split; [|done].
    destruct Hv as [_ Hv]. destruct (view (api_store api) !! key) eqn:E; injection Hv as -> _; [|done].
    by eapply stored_version_u64; [apply Ha|..].
Qed.

Lemma Client_Delete_spec key w r api1 out :
  api_ok (w_api w) -> key ∉ unaddressable ->
  handleDeleteKey (e_now (envs (w_t w)) 1%nat) (e_io (envs (w_t w))) key (w_api w) = (r, api1, out) ->
  Client_Delete parseAuthority network c key w
  = (match rs_body r with
     | Api.DeleteResponse v b => inl (v, b)
     | _ => inr (UnexpectedStatus StatusInternalServerError)
     end, after "DELETE" key r api1 out w).
Proof using Haddr Hhost Hauth.
  intros Ha Hk Ed. unfold Client_Delete.
  assert (network host (mkRequest "DELETE" (key_path key) "" "") w
    = (Some (mkHttpResponse (rs_status r) None (body_bytes r)), after "DELETE" key r api1 out w)) as Hn.
  { unfold network, after. rewrite (Serve_key _ "DELETE" handleDeleteKey_ _ _ _ r api1 out);
      [done|compute_done|done|]. unfold call. by rewrite Ed. }
  rewrite (send_key _ _ _ _ _ _ Hn) by done.
  assert (key <> "") as Hne by (intros ->; apply Hk; compute_done).
  destruct (handleDeleteKey_answer _ _ _ _ _ _ _ Ha Hne Ed) as [(v & b & Hv & ->)|[e ->]]; [|done].
  cbn [h_status rs_status StatusOK rs_body]. change (200 =? 200) with true. cbn [negb].
  unfold decode_ok. cbn [h_body]. change (mkResponse 200 ?b) with (mkResponse StatusOK b).
  by rewrite decode_delete_body.
Qed.

(** C21: the client deletes.  Against a node with a working disk
    that stores no newer entry of the key than the version it issues next,
    [Delete] of a key that can be addressed returns that version and whether
    the key was stored, and a [Get] that follows reports that the key is not
    found. *)
Theorem client_deletes key w :
  api_ok (w_api w) -> node_ok (w_api w) -> e_io (envs (w_t w)) = append_io_ok ->
  key ∉ [""; "/"; "."; ".."] -> writable key [] ->
  let version := (NextVersion (e_now (envs (w_t w)) 1%nat) (api_store (w_api w))).1 in
  (forall old, view (api_store (w_api w)) !! key = Some old -> Version old <= version) ->
  exists w1 w2,
    Client_Delete parseAuthority network c key w
      = (inl (version, bool_decide (is_Some (view (api_store (w_api w)) !! key))), w1) /\
    Client_Get parseAuthority network c key w1 = (inr ErrKeyNotFound, w2).
Proof using Haddr Hhost Hauth.
  intros Ha [Hs Hw] Hio Hk Hwr version Hnew.
  destruct (handleDeleteKey (e_now (envs (w_t w)) 1%nat) (e_io (envs (w_t w))) key (w_api w))
    as [[r api1] out] eqn:Ed.
  pose proof (Client_Delete_spec key w r api1 out Ha Hk Ed) as Es.
  assert (key <> "") as Hne by (intros ->; apply Hk; compute_done).
  unfold handleDeleteKey in Ed. rewrite decide_False, Hio in Ed by done.
  destruct (Store_Delete_accepts (e_now (envs (w_t w)) 1%nat) (api_disk (w_api w)) (api_store (w_api w))
    key 0 Hs Hw Hwr is_u64_0) as (d' & s' & v & b & Ea & _).
  pose proof (Store_Delete_ok append_io_ok (api_disk (w_api w)) (api_store (w_api w)) Hs
    (e_now (envs (w_t w)) 1%nat) key 0 is_u64_0) as Hok.
  pose proof (Store_Delete_view append_io_ok (api_disk (w_api w)) (api_store (w_api w)) Hs
    (e_now (envs (w_t w)) 1%nat) key 0 is_u64_0) as Hv. cbv zeta in Hv.
  rewrite Ea in Ed, Hv, Hok. cbn [fst snd] in Hv, Hok. fold version in Hv.
  change (pick_version _ _ 0).1 with version in Hv. destruct Hv as [Hv Hret].
  destruct (Replicate _ _ _ _ _ _ _) as [rp o]. injection Ed as <- <- <-. cbn [rs_body] in Es.
  assert ((v, b) = (version, bool_decide (is_Some (view (api_store (w_api w)) !! key)))) as [= -> ->].
  { rewrite Hret. destruct (view (api_store (w_api w)) !! key) as [old|].
    - specialize (Hnew old eq_refl). rewrite bool_decide_eq_true_2 by (by eexists).
      destruct (Z.leb_spec (Version old) version); [f_equal; lia | lia].
    - by rewrite bool_decide_eq_false_2 by (by intros [? ?]). }
  match type of Es with _ = (_, ?w') => set (w1 := w') in * end.
  pose proof (Client_Get_spec key w1 Hok Hk) as Eg. cbv zeta in Eg.
  destruct (handleGetKey _ _ _ _) as [r2 api2]. eexists w1, _. split; [exact Es|]. rewrite Eg. f_equal.
  rewrite lookup_live. change (view (api_store (w_api w1))) with (view s').
  rewrite Hv, lookup_lww_delete. destruct (view (api_store (w_api w)) !! key) as [old|]; [|done].
  specialize (Hnew old eq_refl). by destruct (Z.ltb_spec version (Version old)); [lia|].
Qed.

(** ** Keys without a path *)

(** The status and location of a request no handler gets; it changes nothing
    but the metrics. *)
Lemma network_unrouted method path upath query body w status loc :
  unescape false path = Some upath -> method <> "HEAD" ->
  match findHandler routes method path upath query with
  | NotFound => (404, None)
  | MethodNotAllowed => (405, None)
  | RedirectTo l => (301, Some l)
  | Found _ _ => (200, None)
  end = (status, loc) -> status <> 200 ->
  exists b w', network host (mkRequest method path query body) w
    = (Some (mkHttpResponse status loc b), w') /\
    api_store (w_api w') = api_store (w_api w) /\ w_sent w' = w_sent w.
Proof.
  intros Hu Hm Hf Hst. unfold network, Serve. cbn [r_rawPath r_method]. rewrite Hu.
  unfold NewHandler, mux. cbn [r_rawPath r_method r_rawQuery].
  destruct (findHandler routes method path upath query); injection Hf as <- <-; try done;
    (eexists _, _; split; [done|]; split; [done | apply app_nil_r]).
Qed.

(** The outcome of a request that ends in 404 and leaves the store alone. *)
Definition ends_in_404 (method key body : string) (w : world) : Prop :=
  exists b w', Do_loop network 9 host (mkRequest method (key_path key) "" body) w
    = (inl (mkHttpResponse 404 None b), w') /\
    api_store (w_api w') = api_store (w_api w) /\ w_sent w' = w_sent w.

Lemma unrouted_404 method key body w :
  method <> "HEAD" -> findHandler routes method (key_path key) ("/v1/kv/" +:+ key) "" = NotFound ->
  ends_in_404 method key body w.
Proof.
  intros Hh Hf.
  destruct (network_unrouted method (key_path key) ("/v1/kv/" +:+ key) "" body w 404 None)
    as (b & w1 & E & Hst1 & Hse1); [apply unescape_key_path|done|by rewrite Hf|done|].
  exists b, w1. split; [by apply Do_direct | done].
Qed.

Lemma redirected_404 method key body w loc :
  method <> "HEAD" -> findHandler routes method (key_path key) ("/v1/kv/" +:+ key) "" = RedirectTo loc ->
  cut "?" loc = (loc, "") -> url_EscapedPath loc = loc -> unescape false loc = Some loc ->
  findHandler routes "GET" loc loc "" = NotFound -> ends_in_404 method key body w.
Proof.
  intros Hh Hf Hcut He Hu Hf'.
  destruct (network_unrouted method (key_path key) ("/v1/kv/" +:+ key) "" body w 301 (Some loc))
    as (b & w1 & E & Hst1 & Hse1); [apply unescape_key_path|done|by rewrite Hf|done|].
  destruct (network_unrouted "GET" loc loc "" "" w1 404 None) as (b2 & w2 & E2 & Hst2 & Hse2);
    [done|done|by rewrite Hf'|done|].
  exists b2, w2. split; [|split; congruence]. cbn [Do_loop]. rewrite E. unfold redirected.
  cbn [h_location h_status r_method]. rewrite Hcut, He. cbn [Z.eqb orb].
  replace (String.eqb method "HEAD") with false by (symmetry; by apply String.eqb_neq).
  apply (Do_direct 8); [exact E2 | done].
Qed.

Lemma keyless_request method key body w :
  method ∈ ["GET"; "PUT"; "DELETE"] -> key ∈ unaddressable -> ends_in_404 method key body w.
Proof.
  intros Hm Hk. assert (method <> "HEAD") as Hh by (intros ->; revert Hm; compute_done).
  unfold unaddressable in Hk. rewrite !elem_of_cons, elem_of_nil in Hk.
  rewrite !elem_of_cons, elem_of_nil in Hm.
  destruct Hk as [->|[->|[->|[->|[]]]]];
    [apply unrouted_404 | apply unrouted_404 | apply (redirected_404 _ "." _ _ "/v1/kv")
    | apply (redirected_404 _ ".." _ _ "/v1")];
    try done; by destruct Hm as [->|[->|[->|[]]]].
Qed.

(** C38: keys without a path.  The empty key, the slash, the dot and the double
    dot cannot be used through the client: [Set] and [Delete] fail with an
    unexpected status (404, after a redirect for the dots), [Get] reports that
    the key is not found, and the node's map is not touched. *)
Theorem client_rejects_pathless_keys key value ttl w :
  key ∈ [""; "/"; "."; ".."] ->
  (exists w', Client_Set parseAuthority network c key value ttl w = (inr (UnexpectedStatus 404), w') /\
     api_store (w_api w') = api_store (w_api w) /\ w_sent w' = w_sent w) /\
  (exists w', Client_Delete parseAuthority network c key w = (inr (UnexpectedStatus 404), w') /\
     api_store (w_api w') = api_store (w_api w) /\ w_sent w' = w_sent w) /\
  (exists w', Client_Get parseAuthority network c key w = (inr ErrKeyNotFound, w')).
Proof using Haddr Hhost Hauth.
  intros Hk. unfold Client_Set, Client_Delete, Client_Get. rewrite !send_key_loop.
  split; [|split];
    (edestruct keyless_request as (b & w' & -> & Hst & Hse); [|exact Hk|]; [compute_done|]; by exists w').
Qed.

(** ** Listing *)

(** The pairs of the query [ListKeys] builds, in the order of their keys. *)
Definition list_pairs (prefix : string) (limit : Z) (cursor : string) : list (string * string) :=
  (if decide (cursor = "") then [] else [("cursor", cursor)]) ++
  (if 0 <? limit then [("limit", Itoa limit)] else []) ++
  (if decide (prefix = "") then [] else [("prefix", prefix)]).

Lemma list_values_encode prefix limit cursor :
  values_encode (list_values prefix limit cursor []) = encode_pairs (list_pairs prefix limit cursor).
Proof. unfold list_values, list_pairs. repeat case_decide; destruct (0 <? limit); reflexivity. Qed.

Lemma list_pairs_plain prefix limit cursor :
  Forall (fun kv => plain_key kv.1 = true) (list_pairs prefix limit cursor).
Proof. unfold list_pairs. repeat case_decide; destruct (0 <? limit); by repeat constructor. Qed.

(** What the handler finds in it. *)
Lemma list_query_get prefix limit cursor :
  let q := encode_pairs (list_pairs prefix limit cursor) in
  query_get q "prefix" = prefix /\ query_get q "cursor" = cursor /\
  query_get q "limit" = if 0 <? limit then Itoa limit else "".
Proof.
  intros q. unfold query_get, q. rewrite parse_encode_pairs by (apply list_pairs_plain || lia).
  unfold list_pairs. repeat case_decide; destruct (0 <? limit); subst; by repeat split.
Qed.

Lemma QueryEscape_url s : url_clean (QueryEscape s).
Proof.
  unfold QueryEscape. induction s as [|x s IH]; [done|]. cbn [escape]. apply url_clean_app; [|done].
  by destruct x as [[] [] [] [] [] [] [] []].
Qed.

Lemma list_query_url prefix limit cursor : url_clean (encode_pairs (list_pairs prefix limit cursor)).
Proof.
  assert (forall kv, url_clean kv.1 -> url_clean (encode_pair kv)) as Hp.
  { intros kv Hk. apply url_clean_app; [done|]. apply (url_clean_app "="); [done | apply QueryEscape_url]. }
  assert (Forall (fun kv => url_clean kv.1) (list_pairs prefix limit cursor)) as Hl
    by (unfold list_pairs; repeat case_decide; destruct (0 <? limit); by repeat constructor).
  induction Hl as [|kv l Hk Hl IH]; [done|]. destruct (decide (l = [])) as [->|Hne]; [by apply Hp|].
  rewrite encode_pairs_cons by done. apply url_clean_app; [by apply Hp|]. by apply (url_clean_app "&").
Qed.

(** The page size asked for. *)
Definition page_size (limit : Z) : Z := if 0 <? limit then Z.min limit 1000 else 100.

Lemma list_limit_page limit :
  is_i64 limit -> list_limit (if 0 <? limit then Itoa limit else "") = page_size limit.
Proof.
  intros Hl. unfold page_size, list_limit. destruct (Z.ltb_spec 0 limit); [|done].
  rewrite Atoi_Itoa by done. rewrite decide_False.
  - destruct (Z.ltb_spec 0 limit); [|lia]. destruct (Z.ltb_spec 1000 limit); lia.
  - intros E. pose proof (Atoi_Itoa limit Hl) as Ha. by rewrite E in Ha.
Qed.

(** A GET that only reads, as the node answers it. *)
Lemma network_get path h wild query w an :
  unescape false path = Some path -> findHandler routes "GET" path path query = Found h wild ->
  call FileServer dir (envs (w_t w)) h (hd "" wild) path (mkRequest "GET" path query "") (w_api w)
    = Some (plain_answer an, w_api w, []) ->
  exists w', network host (mkRequest "GET" path query "") w
    = (Some (mkHttpResponse (rs_status an) None (body_bytes an)), w').
Proof.
  intros Hu Hf Hc. unfold network, Serve. cbn [r_rawPath r_method]. rewrite Hu.
  unfold NewHandler, mux. cbn [r_rawPath r_method r_rawQuery]. rewrite Hf, Hc. by eexists.
Qed.

Lemma decode_keys_body keys cursor :
  Decode KeysResponse_fields (body_bytes (mkResponse StatusOK (Api.KeysResponse keys cursor)))
    (mkKeysResponse [] "") = Some (mkKeysResponse (map sanitize keys) (sanitize cursor)).
Proof.
  unfold body_bytes. cbn [rs_body body_json]. rewrite Decode_writeJSON.
  - cbn [norm map decode_struct fst snd].
    rewrite (sanitize_is_ascii "keys"), (sanitize_is_ascii "next_cursor") by done. decode_step.
    cbn [kr_Keys]. pose proof (to_strings_map keys) as E. cbn [norm] in E. rewrite E.
    cbn [mbind option_bind]. by decode_step.
  - cbn [numbers_ok forallb snd andb]. by induction keys.
  - cbn [nesting foldr snd]. unfold maxNestingDepth.
    assert (foldr (fun x m => Z.max (nesting x) m) 0 (map JStr keys) = 0) as ->; [|lia].
    by induction keys as [|k keys IH]; [|cbn; rewrite IH].
Qed.

(** C22: the client lists keys.  [ListKeys] returns the page of the node's live
    keys that have the prefix and follow the cursor, as long as asked for (at
    most 1000, and 100 when no positive limit is given), and the cursor of the
    next page; prefixes and cursors may contain any bytes.  Keys that are not
    valid UTF-8 come back altered. *)
Theorem client_lists_page prefix limit cursor w :
  store_ok (api_store (w_api w)) -> is_i64 limit ->
  let keys := live_keys (e_now (envs (w_t w)) 1%nat) prefix (view (api_store (w_api w))) in
  Z.of_nat (length keys) + 1000 < 2 ^ 63 ->
  let page := page_spec (Z.to_nat (page_size limit)) cursor keys in
  exists w', Client_ListKeys parseAuthority network c prefix limit cursor w
    = (inl (map sanitize page.1, sanitize page.2), w').
Proof using Haddr Hhost Hauth.
  intros Hs Hl keys Hlen page. unfold Client_ListKeys.
  assert (c_addr c +:+ "/v1/keys" = "http://" +:+ host +:+ "/v1/keys" +:+ "") as ->
    by (by rewrite Haddr, string_app_assoc).
  rewrite (url_Parse_http parseAuthority host "/v1/keys" "" "") by (done || by eexists).
  cbn [u_rawQuery u_scheme u_authority u_opaque u_rawPath].
  change (query_values "") with (@nil (string * list string)). rewrite list_values_encode.
  set (q := encode_pairs (list_pairs prefix limit cursor)).
  assert (exists tail, url_String (mkURL "http" (Some host) "" "/v1/keys" q) = c_addr c +:+ "/v1/keys" +:+ tail /\
    url_clean tail /\ cut "?" ("/v1/keys" +:+ tail) = ("/v1/keys", q)) as (tail & -> & Htail & Hcut).
  { exists (if String.eqb q "" then "" else "?" +:+ q). split; [|split].
    - unfold url_String. cbn [u_scheme u_authority u_opaque u_rawPath u_rawQuery]. rewrite Haddr.
      by rewrite !string_app_assoc.
    - destruct (String.eqb q ""); [done|]. apply (url_clean_app "?"); [done | apply list_query_url].
    - destruct (String.eqb_spec q "") as [->|_]; [reflexivity|]. by apply cut_first. }
  rewrite (send_loop "GET" "/v1/keys" tail q) by (done || by eexists).
  destruct (list_query_get prefix limit cursor) as (Hp & Hc & Hq). fold q in Hp, Hc, Hq.
  pose proof (list_keys_always_answers (e_now (envs (w_t w)) 1%nat) q (w_api w) Hs) as Ha.
  cbv zeta in Ha. rewrite Hp, Hc, Hq, list_limit_page in Ha by done.
  fold keys in Ha. destruct (Ha Hlen) as [_ Hans]. fold page in Hans.
  destruct (network_get "/v1/keys" handleListKeys_ [] q w (mkResponse StatusOK (Api.KeysResponse page.1 page.2)))
    as [w' Hn]; [done | done | unfold call; cbn [r_rawQuery]; by rewrite Hans |].
  exists w'. rewrite (Do_direct _ _ _ _ _ _ Hn) by done.
  cbn [h_status rs_status]. change (StatusOK =? 200) with true. cbn [negb].
  unfold decode_ok. cbn [h_body]. by rewrite decode_keys_body.
Qed.

(** ** The status *)

Lemma decode_status_body st :
  float_readable (Seconds (cs_Uptime st)) ->
  is_i64 (cs_StoreSize st) -> is_i64 (cs_WALSizeBytes st) -> is_i64 (cs_PeersCount st) ->
  Decode ClusterStatus_fields (body_bytes (mkResponse StatusOK (StatusResponse st)))
    (mkClientStatus "" "" (float_of_int 0) 0 0 0)
  = Some (mkClientStatus (sanitize (cs_NodeID st)) (sanitize (cs_Role st)) (Seconds (cs_Uptime st))
            (cs_StoreSize st) (cs_WALSizeBytes st) (cs_PeersCount st)).
Proof.
  intros [Hlit Hf] H1 H2 H3. unfold body_bytes. cbn [rs_body body_json]. rewrite Decode_writeJSON.
  - unfold ClusterStatusResponse_json. cbn [norm map decode_struct fst snd JInt].
    rewrite (sanitize_is_ascii "node_id"), (sanitize_is_ascii "role"), (sanitize_is_ascii "uptime_seconds"),
      (sanitize_is_ascii "store_size"), (sanitize_is_ascii "wal_size_bytes"), (sanitize_is_ascii "peers_count")
      by done.
    do 3 decode_step. cbn [to_float]. rewrite Hf. cbn [mbind option_bind].
    decode_step. rewrite Atoi_Itoa by done. cbn [mbind option_bind].
    decode_step. rewrite Atoi_Itoa by done. cbn [mbind option_bind].
    decode_step. by rewrite Atoi_Itoa by done.
  - unfold ClusterStatusResponse_json. cbn [numbers_ok forallb snd JInt]. by rewrite Hlit, !Itoa_literal.
  - unfold maxNestingDepth. cbn. lia.
Qed.

(** The client sees the node's status: its id and role, its uptime, the
    number of keys it holds and the number of peers it has alive; the size
    reported for the log is always 1024. *)
Theorem client_sees_status w :
  let api := w_api w in
  let uptime := Seconds (Uptime (e_now (envs (w_t w)) 1%nat) (api_metrics api)) in
  let alive := filter (fun p => State p = StateAlive) (GetAll (api_pm api)) in
  store_ok (api_store api) -> float_readable uptime -> Z.of_nat (length alive) < 2 ^ 63 ->
  exists w', Client_ClusterStatus parseAuthority network c w
    = (inl (mkClientStatus (sanitize (cfg_NodeID (api_cfg api)))
         (if decide (cfg_SeedAddress (api_cfg api) = "") then "seed" else "peer") uptime
         (i64 (Z.of_nat (size (view (api_store api))))) 1024 (Z.of_nat (length alive))), w').
Proof using Haddr Hhost Hauth.
  intros api uptime alive Hs Hf Hn. pose proof (so_count _ Hs) as Hcount. unfold api in Hcount.
  unfold Client_ClusterStatus.
  pose proof (send_loop "GET" "/v1/cluster/status" "" "" "" w) as E. rewrite string_app_nil_r in E.
  rewrite E; [|done|done|done|done|by eexists|done|done].
  destruct (network_get "/v1/cluster/status" handleClusterStatus_ [] "" w
    (handleClusterStatus (e_now (envs (w_t w)) 1%nat) (w_api w))) as [w' Hw]; [done|done|done|].
  exists w'. rewrite (Do_direct _ _ _ _ _ _ Hw) by done. unfold handleClusterStatus.
  cbn [h_status rs_status]. change (StatusOK =? 200) with true. cbn [negb].
  unfold decode_ok. cbn [h_body]. rewrite decode_status_body; cbn [cs_NodeID cs_Role cs_Uptime cs_StoreSize
    cs_WALSizeBytes cs_PeersCount]; unfold Store_Size, is_i64.
  - rewrite Hcount. subst alive uptime api. by destruct (decide (cfg_SeedAddress _ = "")).
  - exact Hf.
  - rewrite Hcount. apply i64_range.
  - lia.
  - fold api. fold alive. lia.
Qed.
End Client.

(** ** Runs *)

Section Runs.
(** One float and its text, to run the definitions with. *)
#[local] Instance run_texts : Texts := {
  FormatFloat f := "0";
  ParseFloat s := if String.eqb s "0" then Some (Seconds 0) else None;
  FormatTime t := ""; ParseTime s := None; Error e := "error"
}.

Definition any_host (host : string) : bool := true.
Definition run_client : Client := NewClient "http://localhost:8080".
Definition run_envs (t : nat) : req_env := mkReqEnv (fun _ => time_Unix 50) append_io_ok.
Definition run_world : world := mkWorld (node "a" (NewStore None)) [] 0.
Abbreviation run_network := (network no_files "" run_envs).

Lemma run_api_ok : api_ok (w_api run_world).
Proof. apply node_api_ok, NewStore_ok. Qed.
Lemma run_node_ok : node_ok (w_api run_world).
Proof. apply node_ok_nolog; [apply NewStore_ok | done]. Qed.
Lemma run_no_entry key old : view (api_store (w_api run_world)) !! key = Some old -> False.
Proof. change (view (NewStore None) !! key = Some old -> False). by rewrite NewStore_view, lookup_empty. Qed.

Lemma client_reads_own_write_witness :
  exists w1 w2,
    Client_Set any_host run_network run_client "a/b" (bytes_of "v") 0 run_world = (inl 50, w1) /\
    Client_Get any_host run_network run_client "a/b" w1 = (inl (bytes_of "v", 50), w2).
Proof.
  destruct (client_reads_own_write no_files "" any_host run_envs run_client "localhost:8080"
    eq_refl eq_refl eq_refl "a/b" (bytes_of "v") run_world run_api_ok run_node_ok eq_refl)
    as (w1 & w2 & H1 & H2 & _).
  - compute_done.
  - vm_compute. repeat split; reflexivity || discriminate.
  - intros old Hold. destruct (run_no_entry _ _ Hold).
  - exists w1, w2. split; [exact H1 | exact H2].
Defined.

Lemma client_deletes_witness :
  exists w1 w2,
    Client_Delete any_host run_network run_client "k" run_world = (inl (50, false), w1) /\
    Client_Get any_host run_network run_client "k" w1 = (inr ErrKeyNotFound, w2).
Proof.
  refine (client_deletes no_files "" any_host run_envs run_client "localhost:8080"
    eq_refl eq_refl eq_refl "k" run_world run_api_ok run_node_ok eq_refl _ _ _).
  - compute_done.
  - vm_compute. repeat split; reflexivity || discriminate.
  - intros old Hold. destruct (run_no_entry _ _ Hold).
Defined.

Lemma client_rejects_pathless_keys_witness :
  exists w', Client_Set any_host run_network run_client ".." (bytes_of "v") 0 run_world
    = (inr (UnexpectedStatus 404), w').
Proof.
  destruct (client_rejects_pathless_keys no_files "" any_host run_envs run_client "localhost:8080"
    eq_refl eq_refl eq_refl ".." (bytes_of "v") 0 run_world) as [(w' & H1 & _) _].
  - compute_done.
  - exists w'. exact H1.
Defined.

Lemma client_lists_page_witness :
  exists w', Client_ListKeys any_host run_network run_client "a" 1 ""
    (mkWorld (node "a" three_keys) [] 0) = (inl (["aa"], "aa"), w').
Proof.
  refine (client_lists_page no_files "" any_host run_envs run_client "localhost:8080"
    eq_refl eq_refl eq_refl "a" 1 "" (mkWorld (node "a" three_keys) [] 0) _ _ _).
  - apply three_keys_ok.
  - split; reflexivity || discriminate.
  - vm_compute. reflexivity.
Defined.

Lemma client_sees_status_witness :
  exists w', Client_ClusterStatus any_host (network no_files "" (fun _ => mkReqEnv (fun _ => 0) append_io_ok))
    run_client run_world
  = (inl (mkClientStatus "a" "seed" (Seconds 0) 0 1024 0), w').
Proof.
  refine (client_sees_status no_files "" any_host (fun _ => mkReqEnv (fun _ => 0) append_io_ok) run_client
    "localhost:8080" eq_refl eq_refl eq_refl run_world _ _ _).
  - apply NewStore_ok.
  - split; reflexivity.
  - reflexivity.
Defined.

(** A value or key that is not valid UTF-8 does not survive JSON: the byte 0xFF
    is written as the replacement character and is read back as that. *)
Example client_alters_bytes :
  let w1 := (Client_Set any_host run_network run_client "k" [xff] 0 run_world).2 in
  (Client_Get any_host run_network run_client "k" w1).1 = inl (bytes_of replacement, 50).
Proof. vm_compute. reflexivity. Qed.

(** Nor does a cursor: with the keys 0xFE and 0xFF stored, the first page of
    one key ends with the replacement character, which sorts before both keys,
    so the page that follows it is the first page again. *)
Definition two_byte_keys : Store :=
  (Store_Set 0 0 append_io_ok ∅ (Store_Set 0 0 append_io_ok ∅ (NewStore None) (text [0xFE]) [] 0 7).1.2
     (text [0xFF]) [] 0 8).1.2.

Example client_pagination_repeats :
  let w := mkWorld (node "a" two_byte_keys) [] 0 in
  let '(r1, w1) := Client_ListKeys any_host run_network run_client "" 1 "" w in
  let '(r2, _) := Client_ListKeys any_host run_network run_client "" 1 replacement w1 in
  r1 = inl ([replacement], replacement) /\ r2 = r1.
Proof. vm_compute. auto. Qed.
End Runs.
