(* ===== verification/ClusterSpec.v ===== *)
(** * Two nodes over HTTP

    What one node sends, encoded, routed and decoded by another: a replicated
    write and a ping. *)

From S2P Require Import Prelude.
From S2P Require Import GoBase.
From S2P Require Import Strconv.
From S2P Require Import Url.
From S2P Require Import Utf8.
From S2P Require Import Json.
From S2P Require Import Codec.
From S2P Require Import Lww.
From S2P Require Import Wal.
From S2P Require Import Store.
From S2P Require Import StoreInv.
From S2P Require Import Recovery.
From S2P Require Import Peer.
From S2P Require Import Gossip.
From S2P Require Import GossipSpec.
From S2P Require Import Replication.
From S2P Require Import Config.
From S2P Require Import Metrics.
From S2P Require Import Api.
From S2P Require Import ApiSpec.
From S2P Require Import Wire.
From S2P Require Import Mux.
From S2P Require Import Router.
From S2P Require Import RouterSpec.

Section Nodes.
Context `{Texts} `{MapRange} (FileServer : string -> string -> string -> answer) (dir : string).

(** The request [replicateToPeer] makes, as the peer receives it. *)
Definition replicate_http (r : Replicator) (req : ReplicateRequest) : Request :=
  mkRequest "POST" "/internal/replicate" ("sender_id=" +:+ rp_nodeID r) (encode_ReplicateRequest req).

(** The request [pingPeer] makes. *)
Definition ping_http (gm : GossipManager) : Request :=
  mkRequest "GET" "/internal/ping" (ping_query gm) "".

(** How the pinged node's answer looks to [pingPeer]. *)
Definition ping_outcome_of (resp : http_response) : ping_outcome :=
  Response (h_status resp) (Unmarshal_peers (h_body resp)).

(** ** A replicated write *)

(** The requests a PUT gives to the replicator carry the write. *)
Lemma handlePutKey_sends n1 n2 n3 io key value api v api' out p req :
  handlePutKey n1 n2 n3 io key (Some (mkPutRequest value None)) api
    = (mkResponse StatusOK (PutResponse v), api', out) ->
  (p, req) ∈ out -> req = mkReplicateRequest key (bytes_of value) v 0 "SET".
Proof.
  unfold handlePutKey. case_decide; [by intros [= ]|]. rewrite put_ttl_none. cbn [put_Value].
  destruct (Store_Set _ _ _ _ _ _ _ _ _) as [[d s] [v' [err|]]]; [by intros [= ]|].
  unfold Replicate. intros [= -> _ <-] (p' & [= _ ->] & _)%list_elem_of_fmap. done.
Qed.

(** The request is routed to its handler. *)
Lemma routed_replicate r :
  findHandler routes "POST" "/internal/replicate" "/internal/replicate" ("sender_id=" +:+ rp_nodeID r)
  = Found handleInternalReplicate_ [].
Proof. reflexivity. Qed.

Lemma Serve_replicate_handler env r req api :
  Serve FileServer dir env (replicate_http r req) api
  = let '(rs, api1) := handleInternalReplicate (e_now env 1%nat) (e_now env 2%nat) (e_now env 3%nat) (e_io env)
                         (decode_ReplicateRequest (encode_ReplicateRequest req)) api in
    (mkHttpResponse (rs_status rs) None (body_bytes rs),
     (LoggingAndMetricsMiddleware (e_now env 0%nat) (e_now env 4%nat) "POST" "/internal/replicate" rs api1).2, []).
Proof.
  unfold Serve, replicate_http. cbn [r_rawPath].
  change (unescape false "/internal/replicate") with (Some "/internal/replicate").
  unfold NewHandler, mux. cbn [r_rawPath r_method r_rawQuery]. rewrite routed_replicate. cbn [call r_body hd].
  by destruct (handleInternalReplicate _ _ _ _ _ _).
Qed.

(** The peer's side: the request is decoded and applied. *)
Lemma Serve_replicate env r req api :
  e_io env = append_io_ok -> node_ok api -> acceptable req -> is_i64 (req_ExpiresAt req) ->
  valid_utf8 (req_Key req) = true ->
  let '(resp, api', out) := Serve FileServer dir env (replicate_http r req) api in
  h_status resp = 200 /\ out = [] /\ node_ok api' /\
  view (api_store api') = mutate (request_mutation req) (view (api_store api)).
Proof.
  intros Hio Hok Hacc He Hv. rewrite Serve_replicate_handler.
  assert (wire_request req = req) as Hw.
  { unfold wire_request. rewrite (proj1 (valid_sanitize _) Hv).
    assert (sanitize (req_Action req) = req_Action req) as ->
      by (by destruct Hacc as [[(-> & _)|(-> & _)] _]).
    by destruct req. }
  rewrite decode_encode_ReplicateRequest, Hw by (done || unfold is_u64; destruct Hacc; lia).
  rewrite Hio.
  destruct (handle_delivery_spec (mkDelivery (e_now env 1%nat) (e_now env 2%nat) (e_now env 3%nat) req) api
    Hok Hacc) as (Hr & Hok' & Hview).
  unfold handle_delivery in *. cbn [dl_now dl_now_exp dl_now_ver dl_req] in *.
  destruct (handleInternalReplicate _ _ _ _ _ _) as [rs api1]. cbn [fst snd] in *. subst rs.
  split; [done|]. split; [done|]. split; [|done]. destruct Hok'. by split.
Qed.


(** ** A ping *)

(** A peer whose text can be read back. *)
Definition peer_wire_ok (p : Peer) : Prop :=
  (is_i64 (RTT p) /\ is_i64 (ReplicationLag p) /\ time_readable (LastSeen p)) /\
  valid_utf8 (NodeID p) && valid_utf8 (Address p) && valid_utf8 (State p) = true.

Lemma peer_json_idem p : peer_json (peer_json p) = peer_json p.
Proof. done. Qed.

Lemma AddOrUpdate_wire_ok now now' id addr pm :
  map_Forall (fun _ p => peer_wire_ok p) (peers pm) ->
  time_readable now -> valid_utf8 id = true -> valid_utf8 addr = true ->
  map_Forall (fun _ p => peer_wire_ok p) (peers (AddOrUpdate now now' id addr StateAlive pm)).
Proof.
  intros Hpm Hn Hid Ha k q Hq. destruct (decide (k = id)) as [->|Hne].
  - rewrite lookup_AddOrUpdate in Hq. injection Hq as <-.
    destruct (peers pm !! id) as [p|] eqn:E.
    + destruct (Hpm _ _ E) as ((H1 & H2 & _) & Hv). zbool. split; [by split|]. cbn.
      by apply andb_true_intro; split; [apply andb_true_intro|].
    + split; [split; [|split; [|done]]; unfold is_i64; cbn; lia|]. cbn -[valid_utf8]. by rewrite Hid, Ha.
  - rewrite lookup_AddOrUpdate_ne in Hq by done. by eapply Hpm.
Qed.

(** The list of a reply survives the wire. *)
Lemma ping_reply_decoded now now' now_me query api :
  pm_ok (api_pm api) ->
  map_Forall (fun _ p => peer_wire_ok p) (peers (api_pm (handleInternalPing now now' now_me query api).2)) ->
  valid_utf8 (cfg_NodeID (api_cfg api)) = true -> valid_utf8 (cfg_AdvertiseAddr (api_cfg api)) = true ->
  time_readable now_me ->
  match rs_body (handleInternalPing now now' now_me query api).1 with
  | PeersResponse l => Unmarshal_peers (body_bytes (handleInternalPing now now' now_me query api).1) = Some l
  | _ => False
  end.
Proof.
  intros Hok Hpm Hid Had Hme. unfold handleInternalPing in *. cbn [fst snd rs_body with_pm api_pm] in *.
  set (pm := if decide _ then _ else _) in *.
  assert (pm_ok pm) as Hok' by (subst pm; case_decide; [by apply AddOrUpdate_ok | done]).
  assert (Forall (fun p => peer_wire_ok p) (map peer_json (GetAll pm ++
    [mkPeer (cfg_NodeID (api_cfg api)) (cfg_AdvertiseAddr (api_cfg api)) StateAlive now_me 0 0 time_zero])))
    as Hl.
  { apply Forall_map, Forall_app_2.
    - apply Forall_forall. intros p Hp. apply elem_of_GetAll in Hp; [|done]. exact (Hpm _ _ Hp).
    - constructor; [|done]. split; [split; [|split; [|done]]; unfold is_i64; cbn; lia|].
      cbn -[valid_utf8]. by rewrite Hid, Had. }
  rewrite peers_body_roundtrip.
  - f_equal. rewrite List.map_map. by apply map_ext.
  - eapply Forall_impl; [exact Hl|]. by intros p [? _].
  - eapply Forall_impl; [exact Hl|]. by intros p [_ ?].
Qed.

(** C24: a ping over HTTP introduces two nodes to each other.  Node [A] builds
    its ping URL, node [B]'s router hands the request to the ping handler, and
    [A] decodes the text of the answer: [B]'s table then has [A] alive, under
    the address [A] advertised if [A] was unknown, and [A]'s has [B] alive with
    the measured round trip. *)
Theorem ping_over_http clock gm pmA t p env apiB :
  gm_nodeID gm <> "" -> gm_address gm <> "" -> pm_ok (api_pm apiB) ->
  let idB := cfg_NodeID (api_cfg apiB) in
  NodeID p = idB -> idB <> "seed" -> gm_nodeID gm <> idB -> peers (api_pm apiB) !! idB = None ->
  map_Forall (fun _ q => peer_wire_ok q) (peers (api_pm apiB)) ->
  valid_utf8 idB && valid_utf8 (cfg_AdvertiseAddr (api_cfg apiB)) && valid_utf8 (gm_nodeID gm)
    && valid_utf8 (gm_address gm) = true ->
  time_readable (e_now env 1%nat) -> time_readable (e_now env 3%nat) ->
  let '(resp, apiB', out) := Serve FileServer dir env (ping_http gm) apiB in
  out = [] /\
  (exists q, peers (api_pm apiB') !! gm_nodeID gm = Some q /\ State q = StateAlive /\
     (peers (api_pm apiB) !! gm_nodeID gm = None -> Address q = gm_address gm)) /\
  (exists p', peers (pingPeer clock gm p (ping_outcome_of resp) (pmA, t)).1 !! idB = Some p' /\
     State p' = StateAlive /\ RTT p' = time_Sub (clock (S t)) (clock t)).
Proof.
  intros Hid Had Hok idB Hp Hseed Hne HB Hpm Hv Hn1 Hn3. zbool.
  pose proof (ping_exchange clock gm pmA t p apiB (e_now env 1%nat) (e_now env 2%nat) (e_now env 3%nat)
    Hid Had Hok Hp Hseed Hne HB) as Hx.
  pose proof (ping_reply_decoded (e_now env 1%nat) (e_now env 2%nat) (e_now env 3%nat) (ping_query gm) apiB Hok)
    as Hd.
  unfold Serve, ping_http. cbn [r_rawPath].
  change (unescape false "/internal/ping") with (Some "/internal/ping").
  unfold NewHandler, mux. cbn [r_rawPath r_method r_rawQuery].
  change (findHandler routes "GET" "/internal/ping" "/internal/ping" (ping_query gm))
    with (Found handleInternalPing_ []). cbn [call r_rawQuery hd].
  assert (map_Forall (fun _ q => peer_wire_ok q)
    (peers (api_pm (handleInternalPing (e_now env 1%nat) (e_now env 2%nat) (e_now env 3%nat)
      (ping_query gm) apiB).2))) as Hpm'.
  { unfold handleInternalPing. cbn [snd with_pm api_pm]. case_decide; [|done].
    destruct (ping_query_roundtrip gm) as [-> ->]. by apply AddOrUpdate_wire_ok. }
  specialize (Hd Hpm').
  destruct (handleInternalPing _ _ _ _ _) as [rs apiB1]. cbn [fst snd] in *.
  destruct Hx as [Hq Hx]. destruct (rs_body rs) as [| | | | | | | | | |l]; try done. destruct Hx as [Hst Hp'].
  split; [done|]. split; [exact Hq|]. unfold ping_outcome_of.
  change (String.eqb "GET" "HEAD") with false.
  cbn [h_status h_body plain_answer an_response LoggingAndMetricsMiddleware]. rewrite Hd by done. exact Hp'.
Qed.
End Nodes.

(** ** Runs *)

Section Runs.
#[local] Instance cluster_texts : Texts := {
  FormatFloat f := "0"; ParseFloat s := None; FormatTime t := Itoa t; ParseTime s := Atoi s; Error e := ""
}.


Lemma ping_over_http_witness :
  let '(resp, b', _) := Serve no_files "" (env_at 3) (ping_http gm_a) (node "b" (NewStore None)) in
  (exists q, peers (api_pm b') !! "a" = Some q /\ State q = StateAlive) /\
  (exists p', peers (pingPeer (fun n => Z.of_nat n) gm_a (peer_at "b" StateAlive 0 0)
     (ping_outcome_of resp) (NewPeerManager, 0%nat)).1 !! "b" = Some p' /\ RTT p' = 1).
Proof.
  pose proof (ping_over_http no_files "" (fun n => Z.of_nat n) gm_a NewPeerManager 0
    (peer_at "b" StateAlive 0 0) (env_at 3) (node "b" (NewStore None))) as Hw.
  destruct (Serve _ _ _ _ _) as [[resp b'] out].
  destruct Hw as (_ & (q & H1 & H2 & _) & (p' & H3 & _ & H4)).
  - discriminate.
  - discriminate.
  - apply NewPeerManager_ok.
  - reflexivity.
  - discriminate.
  - discriminate.
  - reflexivity.
  - apply map_Forall_empty.
  - reflexivity.
  - split; reflexivity.
  - split; reflexivity.
  - split; [exists q; by split|]. exists p'. split; [exact H3 | exact H4].
Defined.

(** A key that is not valid UTF-8 is replicated under another key: node [b]
    stores the write to the key 0xFF under the replacement character. *)
Example replicated_key_changes :
  let req := mkReplicateRequest (text [0xFF]) (bytes_of "v") 7 0 "SET" in
  let b' := (Serve no_files "" (env_at 0) (replicate_http (NewReplicator "a" 0) req)
               (node "b" (NewStore None))).1.2 in
  rs_status (handleGetKey 0 0 (text [0xFF]) b').1 = 404 /\
  (handleGetKey 0 0 replacement b').1 = mkResponse StatusOK (GetResponse "v" 7).
Proof. vm_compute. auto. Qed.
End Runs.
