(* ===== verification/Server.v ===== *)
(** * The server process: [cmd/server/main.go] and the background loops

    [main] puts the parts together and starts goroutines; from then on the
    process is a sequence of events: a request, a tick of one of the four
    loops, the end of a ping or of a replication.  A tick of a loop is the
    function the loop calls, so the loops ([ticker_loop] and its instances) and
    the events of the process share their bodies. *)

From S2P Require Import Prelude.
From S2P Require Import GoBase.
From S2P Require Import Wal.
From S2P Require Import Store.
From S2P Require Import Snapshot.
From S2P Require Import Recovery.
From S2P Require Import Peer.
From S2P Require Import Gossip.
From S2P Require Import Replication.
From S2P Require Import Config.
From S2P Require Import Metrics.
From S2P Require Import Api.
From S2P Require Import Wire.
From S2P Require Import Router.

(** ** Ticker loops *)

Section TickerLoop.
(** What one tick does; [None] is a panic, which ends the process. *)
Context {St Ev : Type} (on_tick : Ev -> St -> option St).

(** [for { select { case <-ticker.C: ... case <-stop: return } }]: the events
    the loop sees, [None] for the closed channel.  The result says whether the
    loop has returned. *)
Fixpoint ticker_loop (events : list (option Ev)) (st : St) : option (St * bool) :=
  match events with
  | [] => Some (st, false)
  | Some e :: events' => st' ← on_tick e st; ticker_loop events' st'
  | None :: _ => Some (st, true)
  end.
End TickerLoop.

Section Loops.
Context `{MapRange}.

(** The reaper of the store. *)
Definition reaper_tick (now : Z) (s : Store) : option Store := Some (reap now s).

Definition StartReaper (interval : Z) (events : list (option Z)) (s : Store) : option (Store * bool) :=
  _ ← NewTicker interval; ticker_loop reaper_tick events s.

(** Gossip: a tick starts a ping of the peer it picks. *)
Definition gossip_tick (gm : GossipManager) (now : Z) (st : PeerManager * list Peer)
  : option (PeerManager * list Peer) :=
  let '(pm, pings) := st in
  target ← tick now gm pm;
  Some (pm, match target with Some p => pings ++ [p] | None => pings end).

Definition gossipLoop (gm : GossipManager) (events : list (option Z)) (st : PeerManager * list Peer)
  : option (PeerManager * list Peer * bool) :=
  _ ← NewTicker (gm_gossipInterval gm); ticker_loop (gossip_tick gm) events st.

(** The suspicion check; its clock readings are those of [clock]. *)
Definition suspicion_tick (gm : GossipManager) (clock : nat -> Z) (pm : PeerManager) : option PeerManager :=
  Some (checkSuspicious clock gm (pm, 0%nat)).1.

Definition suspicionCheckLoop (gm : GossipManager) (events : list (option (nat -> Z))) (pm : PeerManager)
  : option (PeerManager * bool) :=
  _ ← NewTicker (500 * Millisecond); ticker_loop (suspicion_tick gm) events pm.

(** The compactor: the outcome of the snapshot is only logged. *)
Record snapshot_io := mkSnapshotIO { si_now : Z; si_open_ok : bool; si_fault : option (nat * nat) }.

Definition compactor_tick (io : snapshot_io) (ds : Disk * Store) : option (Disk * Store) :=
  Some (CreateSnapshot (si_now io) (si_open_ok io) (si_fault io) ds.1 ds.2).1.

Definition compactor (events : list (option snapshot_io)) (ds : Disk * Store)
  : option (Disk * Store * bool) :=
  _ ← NewTicker (120 * Second); ticker_loop compactor_tick events ds.
End Loops.

(** ** The process *)

(** The node, its gossip manager, the pings and replications that wait for an
    answer, and whether the bootstrap goroutine is still to run. *)
Record Server := mkServer {
  sv_api : API;
  sv_gossip : GossipManager;
  sv_pings : list Peer;
  sv_sends : sends;
  sv_bootstrap : bool
}.

Inductive main_result :=
  | Running (sv : Server)
  | Exited (e : error)            (* [log.Fatalf] *)
  | ConfigFailed
  | Panicked.                     (* a ticker with an interval that is not positive *)

(** Steps 1 to 10.  [None] is running out of fuel in the record loops. *)
Definition main (load : option Config) (io : startup_io) (clock : nat -> Z) (now : Z) (d : Disk)
  : option main_result :=
  match load with
  | None => Some ConfigFailed
  | Some cfg =>
      match start io clock d (cfg_DataDir cfg) with
      | None => None
      | Some (Fatal e) => Some (Exited e)
      | Some (Started d' s) =>
          match NewTicker (cfg_ReapInterval cfg), NewTicker (cfg_GossipInterval cfg) with
          | Some _, Some _ =>
              let pm := NewPeerManager in
              let gossip := NewGossipManager (cfg_NodeID cfg) (cfg_AdvertiseAddr cfg) (cfg_SeedAddress cfg)
                (cfg_GossipInterval cfg) (cfg_PingTimeout cfg) (cfg_SuspicionWindow cfg) in
              let replicator := NewReplicator (cfg_NodeID cfg) (cfg_ReplicationTimeout cfg) in
              let mc := NewMetricsCollector now in
              Some (Running (mkServer (NewAPI d' s pm replicator mc cfg) gossip [] []
                (bool_decide (Bootstrap ∈ GM_Start gossip))))
          | _, _ => Some Panicked
          end
      end
  end.

Inductive event :=
  | EvRequest (env : req_env) (req : Request)
  | EvReplicated (i : nat) (out : send_outcome)       (* goroutine [i] of the replicator ends *)
  | EvReap (now : Z)
  | EvCompact (io : snapshot_io)
  | EvBootstrap (clock : nat -> Z)                    (* [bootstrap] starts its ping *)
  | EvGossip (now : Z)
  | EvPinged (i : nat) (clock : nat -> Z) (out : ping_outcome)
  | EvSuspicion (clock : nat -> Z).

Section Process.
Context `{Texts} `{MapRange} (FileServer : string -> string -> string -> answer) (dir : string).

Definition with_api (sv : Server) (api : API) : Server :=
  mkServer api (sv_gossip sv) (sv_pings sv) (sv_sends sv) (sv_bootstrap sv).

(** One event; [None] is the end of the process by a panic. *)
Definition server_step (ev : event) (sv : Server) : option Server :=
  let api := sv_api sv in
  match ev with
  | EvRequest env req =>
      let '(_, api', out) := Serve FileServer dir env req api in
      Some (mkServer api' (sv_gossip sv) (sv_pings sv) (sv_sends sv ++ out) (sv_bootstrap sv))
  | EvReplicated i out =>
      match sv_sends sv !! i with
      | Some (p, req) =>
          Some (mkServer (with_pm api (replicateToPeer (api_replicator api) p (req_Version req) out (api_pm api)))
                  (sv_gossip sv) (sv_pings sv) (delete i (sv_sends sv)) (sv_bootstrap sv))
      | None => Some sv
      end
  | EvReap now => s ← reaper_tick now (api_store api); Some (with_api sv (with_store api (api_disk api) s))
  | EvCompact io =>
      ds ← compactor_tick io (api_disk api, api_store api); Some (with_api sv (with_store api ds.1 ds.2))
  | EvBootstrap clock =>
      let gm := sv_gossip sv in
      if sv_bootstrap sv then
        Some (mkServer (with_pm api (mark clock "seed" (gm_seedAddr gm) StateAlive (api_pm api, 0%nat)).1) gm
                (sv_pings sv ++ [mkPeer "seed" (gm_seedAddr gm) "" time_zero 0 0 time_zero]) (sv_sends sv) false)
      else Some sv
  | EvGossip now =>
      st ← gossip_tick (sv_gossip sv) now (api_pm api, sv_pings sv);
      Some (mkServer (with_pm api st.1) (sv_gossip sv) st.2 (sv_sends sv) (sv_bootstrap sv))
  | EvPinged i clock out =>
      match sv_pings sv !! i with
      | Some p =>
          Some (mkServer (with_pm api (pingPeer clock (sv_gossip sv) p out (api_pm api, 0%nat)).1)
                  (sv_gossip sv) (delete i (sv_pings sv)) (sv_sends sv) (sv_bootstrap sv))
      | None => Some sv
      end
  | EvSuspicion clock =>
      pm ← suspicion_tick (sv_gossip sv) clock (api_pm api); Some (with_api sv (with_pm api pm))
  end.

Fixpoint run (events : list event) (sv : Server) : option Server :=
  match events with
  | [] => Some sv
  | ev :: events' => sv' ← server_step ev sv; run events' sv'
  end.

(** Step 11, once the requests in flight have been served: gossip is stopped,
    the final snapshot is written, the store and its log are closed.  The
    errors of the last two are logged; [None] is a panic. *)
Definition shutdown (io : snapshot_io) (close_ok : bool) (sv : Server) : option (Server * list error) :=
  let api := sv_api sv in
  gm ← GM_Stop (sv_gossip sv);
  let '(d, s, err) := CreateSnapshot (si_now io) (si_open_ok io) (si_fault io) (api_disk api) (api_store api) in
  '(s', err') ← Store_Close close_ok s;
  Some (mkServer (with_store api d s') gm (sv_pings sv) (sv_sends sv) (sv_bootstrap sv),
        option_list err ++ option_list err').
End Process.
