(* ===== verification/ServerSpec.v ===== *)
(** * What the process guarantees

    Start-up always comes to an end and leaves a consistent store; every event
    keeps the node consistent; a graceful shutdown preserves what was served. *)

From S2P Require Import Prelude.
From S2P Require Import GoBase.
From S2P Require Import FilePath.
From S2P Require Import Lww.
From S2P Require Import Wal.
From S2P Require Import WalSpec.
From S2P Require Import Store.
From S2P Require Import StoreInv.
From S2P Require Import Snapshot.
From S2P Require Import SnapshotSpec.
From S2P Require Import Recovery.
From S2P Require Import Peer.
From S2P Require Import Gossip.
From S2P Require Import GossipSpec.
From S2P Require Import Replication.
From S2P Require Import Config.
From S2P Require Import Metrics.
From S2P Require Import Url.
From S2P Require Import Api.
From S2P Require Import ApiSpec.
From S2P Require Import Wire.
From S2P Require Import Mux.
From S2P Require Import Router.
From S2P Require Import RouterSpec.
From S2P Require Import Server.

(** ** Loops *)

(** A loop performs the ticks before the stop, and nothing after it. *)
Lemma ticker_loop_stops {St Ev} (on_tick : Ev -> St -> option St) ticks rest st :
  ticker_loop on_tick (map Some ticks ++ None :: rest) st
  = (st' ← foldl (fun acc e => st ← acc; on_tick e st) (Some st) ticks; Some (st', true)).
Proof.
  revert st. induction ticks as [|e ticks IH]; intros st; [done|]. cbn [map app ticker_loop foldl].
  assert (forall o, foldl (fun acc e => st ← acc; on_tick e st) o ticks
    = (st ← o; foldl (fun acc e => st ← acc; on_tick e st) (Some st) ticks)) as Hf.
  { intros [x|]; [done|]. cbn. clear. by induction ticks. }
  rewrite Hf. cbn [mbind option_bind]. destruct (on_tick e st) as [st'|]; [|done]. cbn. apply IH.
Qed.

(** ** What the operations leave alone *)

(** Path and state of the log's file, and whether the reaper was stopped. *)
Definition handles (s : Store) : option (string * bool) * bool :=
  ((fun w => (wal_path w, wal_closed w)) <$> wal s, reaperStopped s).

Lemma WAL_Append_handle io d w t k v ver e :
  let w' := (WAL_Append io d w t k v ver e).1.2 in
  wal_path w' = wal_path w /\ wal_closed w' = wal_closed w.
Proof. unfold WAL_Append. repeat case_match; done. Qed.

Lemma log_mutation_handles io d s t k v ver e :
  handles (log_mutation io d s t k v ver e).1.2 = handles s.
Proof.
  unfold log_mutation, handles. destruct (wal s) as [w|] eqn:E; [|by cbn; rewrite E].
  pose proof (WAL_Append_handle io d w t k v ver e) as Ha.
  destruct (WAL_Append io d w t k v ver e) as [[d' w'] err]. cbn in *. destruct Ha as [-> ->]. done.
Qed.

Lemma pick_version_handles n s ver : handles (pick_version n s ver).2 = handles s.
Proof. unfold pick_version. by destruct (ver =? 0). Qed.

Lemma Set_apply_handles s k v ver e : handles (Set_apply s k v ver e).2 = handles s.
Proof. unfold Set_apply. repeat case_match; done. Qed.

Lemma Delete_apply_handles s k ver : handles (Delete_apply s k ver).2 = handles s.
Proof. unfold Delete_apply. repeat case_match; done. Qed.

Lemma Store_Set_handles n1 n2 io d s k v ttl ver :
  handles (Store_Set n1 n2 io d s k v ttl ver).1.2 = handles s.
Proof.
  unfold Store_Set. pose proof (pick_version_handles n2 s ver) as Hp.
  destruct (pick_version n2 s ver) as [ver' s1]. cbn in Hp.
  pose proof (log_mutation_handles io d s1 RecordTypeSet k v ver' (expiry_of n1 ttl)) as Hl.
  destruct (log_mutation _ _ _ _ _ _ _ _) as [[d2 s2] [err|]]; cbn [fst snd] in *; [congruence|].
  pose proof (Set_apply_handles s2 k v ver' (expiry_of n1 ttl)) as Ha.
  destruct (Set_apply _ _ _ _ _) as [r s3]. cbn [fst snd] in *. congruence.
Qed.

Lemma Store_Delete_handles n io d s k ver :
  handles (Store_Delete n io d s k ver).1.2 = handles s.
Proof.
  unfold Store_Delete. pose proof (pick_version_handles n s ver) as Hp.
  destruct (pick_version n s ver) as [ver' s1]. cbn in Hp.
  pose proof (log_mutation_handles io d s1 RecordTypeDelete k [] ver' time_zero) as Hl.
  destruct (log_mutation _ _ _ _ _ _ _ _) as [[d2 s2] [err|]]; cbn [fst snd] in *; [congruence|].
  pose proof (Delete_apply_handles s2 k ver') as Ha.
  destruct (Delete_apply _ _ _) as [[r b] s3]. cbn [fst snd] in *. congruence.
Qed.

Lemma Store_Get_handles now now2 s key : handles (Store_Get now now2 s key).2 = handles s.
Proof. unfold Store_Get, Get_reap. repeat case_match; done. Qed.

Section Snap.
Context `{MapRange}.

Lemma reap_handles now s : handles (reap now s) = handles s.
Proof.
  unfold reap. generalize (seq 0 (Z.to_nat ShardCount)) as l. intros l. revert s.
  induction l as [|i l IH]; intros s; [done|]. cbn [fold_left]. rewrite IH.
  unfold reap_shard. destruct (shards s !! i) as [db|]; [|done].
  by destruct (reap_entries now (range db) (db, keyCount s)).
Qed.

(** A snapshot, whatever fails, changes neither the map nor the handle. *)
Lemma CreateSnapshot_handles now open_ok fault d s :
  let s' := (CreateSnapshot now open_ok fault d s).1.2 in
  handles s' = handles s /\ (store_ok s -> store_ok s') /\ view s' = view s.
Proof.
  unfold CreateSnapshot. destruct (wal s) as [w|] eqn:E; [|done]. destruct (negb open_ok); [done|].
  destruct (run_plan _ _ _) as [d' [err|]]; [done|]. cbn. split; [|split; [apply with_wal_ok|done]].
  unfold handles. by rewrite E.
Qed.
End Snap.

(** ** The state of the process *)

Record server_ok (dataDir : string) (sv : Server) : Prop := {
  sk_api : api_ok (sv_api sv);
  sk_handles : handles (api_store (sv_api sv)) = (Some (Join dataDir "wal.log", false), false);
  sk_gossip : gm_stopped (sv_gossip sv) = false
}.

Section Events.
Context `{Texts} `{MapRange} (FileServer : string -> string -> string -> answer) (dir : string).

(** A request leaves the handles alone. *)
Lemma Serve_handles env req api :
  handles (api_store (Serve FileServer dir env req api).1.2) = handles (api_store api).
Proof.
  unfold Serve. destruct (unescape false (r_rawPath req)) as [path|]; [|done]. unfold NewHandler.
  enough (forall an api1 out, mux FileServer dir env path req api = Some (an, api1, out) ->
    handles (api_store api1) = handles (api_store api)) as Hm.
  { destruct (mux FileServer dir env path req api) as [[[an api1] out]|]; [|done].
    exact (Hm an api1 out eq_refl). }
  intros an api1 out. unfold mux.
  destruct (findHandler _ _ _ _ _) as [| | |h w]; try (by intros [= _ <- _]). unfold call.
  destruct h; try (by intros [= _ <- _]).
  - unfold handleGetKey. case_decide; [by intros [= _ <- _]|].
    pose proof (Store_Get_handles (e_now env 1%nat) (e_now env 2%nat) (api_store api) (hd "" w)) as Hh.
    destruct (Store_Get _ _ _ _) as [[[v ver] []] s']; by intros [= _ <- _].
  - unfold handlePutKey. case_decide; [by intros [= _ <- _]|].
    destruct (decode_PutRequest _) as [rq|]; [|by intros [= _ <- _]].
    pose proof (Store_Set_handles (e_now env 1%nat) (e_now env 2%nat) (e_io env) (api_disk api)
      (api_store api) (hd "" w) (bytes_of (put_Value rq)) (put_ttl rq) 0) as Hh.
    destruct (Store_Set _ _ _ _ _ _ _ _ _) as [[d s'] [v [err|]]]; [by intros [= _ <- _]|].
    destruct (Replicate _ _ _ _ _ _ _). by intros [= _ <- _].
  - unfold handleDeleteKey. case_decide; [by intros [= _ <- _]|].
    pose proof (Store_Delete_handles (e_now env 1%nat) (e_io env) (api_disk api) (api_store api) (hd "" w) 0) as Hh.
    destruct (Store_Delete _ _ _ _ _ _) as [[d s'] [[v b] [err|]]]; [by intros [= _ <- _]|].
    destruct (Replicate _ _ _ _ _ _ _). by intros [= _ <- _].
  - destruct (handleListKeys _ _ _); [|done]. by intros [= _ <- _].
  - unfold handleInternalReplicate. destruct (decode_ReplicateRequest _) as [rq|]; [|by intros [= _ <- _]].
    case_decide; [|case_decide; [|by intros [= _ <- _]]].
    + match goal with |- context [Store_Set ?n ?m ?io ?d ?s ?k ?v ?ttl ?ver] =>
        pose proof (Store_Set_handles n m io d s k v ttl ver) as Hh;
        destruct (Store_Set n m io d s k v ttl ver) as [[d' s'] [? [|]]] end; by intros [= _ <- _].
    + match goal with |- context [Store_Delete ?n ?io ?d ?s ?k ?ver] =>
        pose proof (Store_Delete_handles n io d s k ver) as Hh;
        destruct (Store_Delete n io d s k ver) as [[d' s'] [[? ?] [|]]] end; by intros [= _ <- _].
  - destruct (StripPrefix _ _ _); by intros [= _ <- _].
Qed.

(** The membership table stays well formed. *)
Lemma pingPeer_ok clock gm p out st : pm_ok st.1 -> pm_ok (pingPeer clock gm p out st).1.
Proof.
  destruct st as [pm t]. cbn [fst]. intros Hok. unfold pingPeer, ping_failed.
  destruct out as [| |status body]; [done | case_decide; [by apply mark_ok | done] |].
  destruct (negb _); [case_decide; [by apply mark_ok | done]|].
  destruct body as [rps|]; [|done].
  assert (forall id rtt pm1, pm_ok pm1 ->
    pm_ok (let '(pm, t) := mark clock id (Address p) StateAlive (pm1, S (S t)) in
           MergePeers clock gm rps (UpdateRTT (clock t) id rtt pm, S t)).1) as Hgo.
  { intros id rtt pm1 H1. pose proof (mark_ok clock id (Address p) StateAlive (pm1, S (S t)) H1) as H2.
    destruct (mark _ _ _ _ _) as [pm2 t2]. by apply MergePeers_ok, UpdateRTT_ok. }
  case_decide; [destruct (seed_identity p rps) as [rp|]|]; apply Hgo; [|done..]. by apply forget_ok.
Qed.

Lemma checkSuspicious_ok clock gm st : pm_ok st.1 -> pm_ok (checkSuspicious clock gm st).1.
Proof.
  destruct st as [pm t]. cbn [fst]. unfold checkSuspicious, mark_dead.
  generalize (overdue gm (clock t) (GetAll pm)) as l. generalize (S t) as t'. intros t' l. revert pm t'.
  induction l as [|p l IH]; intros pm t' Hok; [done|]. cbn [fold_left].
  pose proof (mark_ok clock (NodeID p) (Address p) StateDead (pm, t') Hok) as H1.
  destruct (mark _ _ _ _ _) as [pm1 t1]. by apply IH.
Qed.

Lemma replicateToPeer_ok r p version out pm : pm_ok pm -> pm_ok (replicateToPeer r p version out pm).
Proof.
  intros Hok. unfold replicateToPeer. destruct out as [| |status]; [done|by apply UpdateLag_ok|].
  by destruct (status =? 200); apply UpdateLag_ok.
Qed.

Lemma with_pm_ok api pm : api_ok api -> pm_ok pm -> api_ok (with_pm api pm).
Proof. intros [] ?. by split. Qed.
Lemma with_store_ok api d s : api_ok api -> store_ok s -> api_ok (with_store api d s).
Proof. intros [] ?. by split. Qed.

(** Every event keeps the state of the process. *)
Lemma server_step_ok dataDir ev sv sv' :
  server_ok dataDir sv -> server_step FileServer dir ev sv = Some sv' -> server_ok dataDir sv'.
Proof.
  intros [Ha Hh Hg]. pose proof (ao_pm _ Ha) as Hpm. destruct ev; cbn [server_step].
  - pose proof (requests_keep_types FileServer dir env req (sv_api sv) Ha) as Ht.
    pose proof (Serve_handles env req (sv_api sv)) as Hs.
    destruct (Serve _ _ _ _ _) as [[r api'] out]. intros [= <-]. destruct Ht as [Ht _].
    split; cbn in *; [done | congruence | done].
  - destruct (sv_sends sv !! i) as [[p req]|]; intros [= <-]; [|by split].
    split; cbn [sv_api sv_gossip with_api with_pm with_store api_store]; [by apply with_pm_ok, replicateToPeer_ok | done | done].
  - intros [= <-]. split; cbn [sv_api sv_gossip with_api with_pm with_store api_store]; [by apply with_store_ok, reap_facts, (ao_store _ Ha) | | done].
    by rewrite reap_handles.
  - unfold compactor_tick. cbn [fst snd mbind option_bind].
    pose proof (CreateSnapshot_handles (si_now io) (si_open_ok io) (si_fault io) (api_disk (sv_api sv))
      (api_store (sv_api sv))) as (H1 & H2 & _).
    destruct (CreateSnapshot _ _ _ _ _) as [[d s'] err]. intros [= <-]. cbn in H1, H2.
    split; cbn [sv_api sv_gossip with_api with_pm with_store api_store]; [by apply with_store_ok, H2, (ao_store _ Ha) | congruence | done].
  - destruct (sv_bootstrap sv); intros [= <-]; [|by split].
    split; cbn [sv_api sv_gossip with_api with_pm with_store api_store]; [|done|done].
    apply with_pm_ok; [done|]. exact (mark_ok clock "seed" _ StateAlive (_, 0%nat) Hpm).
  - unfold gossip_tick. destruct (tick now (sv_gossip sv) (api_pm (sv_api sv))) as [t|]; [|done].
    intros [= <-]. split; cbn [sv_api sv_gossip with_api with_pm with_store api_store]; [by apply with_pm_ok | done | done].
  - destruct (sv_pings sv !! i) as [p|]; intros [= <-]; [|by split].
    split; cbn [sv_api sv_gossip with_api with_pm with_store api_store]; [|done|done].
    apply with_pm_ok; [done|]. exact (pingPeer_ok clock (sv_gossip sv) p out (_, 0%nat) Hpm).
  - intros [= <-]. split; cbn [sv_api sv_gossip with_api with_pm with_store api_store]; [|done|done].
    apply with_pm_ok; [done|]. exact (checkSuspicious_ok clock (sv_gossip sv) (_, 0%nat) Hpm).
Qed.

Lemma run_ok dataDir events : forall sv sv',
  server_ok dataDir sv -> run FileServer dir events sv = Some sv' -> server_ok dataDir sv'.
Proof.
  induction events as [|ev events IH]; intros sv sv' Hs; cbn; [by intros [= <-]|].
  destruct (server_step FileServer dir ev sv) as [sv1|] eqn:E; [|done]. cbn.
  apply IH. by eapply server_step_ok.
Qed.
End Events.

(** ** Start-up *)

Lemma load_apply_handles lr st : handles (load_apply lr st).1.1 = handles st.1.
Proof. destruct st as [s n]. unfold load_apply. repeat case_match; done. Qed.

(** Loading always ends, and what it loads without an error is consistent. *)
Lemma LoadSnapshot_total b e d p :
  exists s' ok err, LoadSnapshot b e d (NewStore None) p = Some (s', (ok, err)) /\
    (err = None -> store_ok s' /\ handles s' = (None, false)).
Proof.
  unfold LoadSnapshot.
  destruct (d !! p) as [c|]; [|eexists _, _, _; split; [done|]; intros _; split; [apply NewStore_ok|done]].
  destruct (negb b); [by eexists _, _, _|].
  destruct (ReadFull 6 e c) as [[h r]|err]; [|by eexists _, _, _].
  destruct (negb (bool_decide _)); [by eexists _, _, _|]. destruct (negb (_ =? _)); [by eexists _, _, _|].
  destruct (replay_loop_total ReadSnapshotRecordHeaderFailed ReadSnapshotPayloadFailed load_apply e
    (S (length r)) r (NewStore None, 0)) as [res Hres]; [lia|].
  specialize (Hres (S (length r)) ltac:(lia)). rewrite Hres.
  destruct res as [[s' n] [err|]]; [by eexists _, _, _|]. eexists _, _, _. split; [done|]. intros _.
  split.
  - apply loading_store.
    exact (replay_invariant _ _ load_apply loading e load_apply_loading _ _ _ _ (NewStore_loading None) Hres).
  - refine (replay_invariant _ _ load_apply (fun st => handles st.1 = (None, false)) e _ _ _ _ _ _ Hres);
      [|done]. intros lr st _ Hst. by rewrite load_apply_handles.
Qed.

Lemma replay_callback_keeps clock lr st :
  is_u64 (lr_version lr) -> store_ok st.1 /\ handles st.1 = (None, false) ->
  store_ok (replay_callback clock lr st).1.1 /\ handles (replay_callback clock lr st).1.1 = (None, false).
Proof.
  destruct st as [s t]. cbn [fst]. intros Hu [Hs Hh]. unfold replay_callback. case_decide; [|case_decide; [|done]].
  - destruct (negb _ && _); [done|].
    match goal with |- context [Store_Set ?n ?m ?io ?d ?s ?k ?v ?ttl ?ver] =>
      pose proof (Store_Set_ok io d s Hs n m k v ttl ver Hu) as H1;
      pose proof (Store_Set_handles n m io d s k v ttl ver) as H2;
      destruct (Store_Set n m io d s k v ttl ver) as [[d' s'] [? err]] end.
    cbn in *. split; [done | congruence].
  - match goal with |- context [Store_Delete ?n ?io ?d ?s ?k ?ver] =>
      pose proof (Store_Delete_ok io d s Hs n k ver Hu) as H1;
      pose proof (Store_Delete_handles n io d s k ver) as H2;
      destruct (Store_Delete n io d s k ver) as [[d' s'] [[? ?] err]] end.
    cbn in *. split; [done | congruence].
Qed.

Lemma start_total io clock d dataDir :
  (exists e, start io clock d dataDir = Some (Fatal e)) \/
  (exists d' s, start io clock d dataDir = Some (Started d' s) /\ store_ok s /\
     handles s = (Some (Join dataDir "wal.log", false), false)).
Proof.
  unfold start. destruct (LoadSnapshot_total (su_snap_open_ok io) (su_snap_end io) d (Join dataDir "snapshot.bin"))
    as (s0 & ok & [err|] & -> & H0); [by left; eexists|]. destruct (H0 eq_refl) as [Hs0 Hh0].
  destruct (NewWAL _ _ _ _ _) as [d' [w|err]] eqn:Ew; [|by left; eexists].
  assert (wal_path w = Join dataDir "wal.log" /\ wal_closed w = false) as [Hp Hc].
  { unfold NewWAL in Ew. repeat case_match; simplify_eq; done. }
  unfold WAL_Replay. destruct (_ || _); [by left; eexists|].
  destruct (replay_loop_total ReadHeaderFailed ReadPayloadFailed (replay_callback clock)
    (rio_end (su_replay io)) (S (length (file_of d' (wal_path w)))) (file_of d' (wal_path w)) (s0, 0%nat))
    as [res Hres]; [lia|].
  specialize (Hres (S (length (file_of d' (wal_path w)))) ltac:(lia)).
  pose proof (replay_invariant _ _ (replay_callback clock)
    (fun st => store_ok st.1 /\ handles st.1 = (None, false)) (rio_end (su_replay io))
    (replay_callback_keeps clock) _ _ (s0, 0%nat) _ (conj Hs0 Hh0) Hres) as [Hs1 Hh1].
  rewrite Hres. destruct res as [[s1 t1] [err|]]; [by left; eexists|].
  destruct (negb _); [by left; eexists|]. right. eexists _, _. split; [done|]. cbn [fst] in *.
  split; [by apply with_wal_ok|]. unfold handles in *. cbn. rewrite Hp, Hc. by injection Hh1 as _ ->.
Qed.

(** C18: start-up always comes to a decision.  Whatever the files of the data
    directory contain and whichever of its operations fail, [main] either ends
    with an error (or panics on an interval that is not positive) or serves with
    a consistent store and its log open in the data directory; it never loops
    on the files. *)
Theorem startup_decides cfg io clock now d :
  (exists e, main (Some cfg) io clock now d = Some (Exited e)) \/
  main (Some cfg) io clock now d = Some Panicked \/
  (exists sv, main (Some cfg) io clock now d = Some (Running sv) /\ server_ok (cfg_DataDir cfg) sv /\
     0 < cfg_ReapInterval cfg /\ 0 < cfg_GossipInterval cfg).
Proof.
  unfold main.
  destruct (start_total io clock d (cfg_DataDir cfg)) as [[e ->]|(d' & s & -> & Hs & Hh)]; [by left; eexists|].
  unfold NewTicker. destruct (Z.ltb_spec 0 (cfg_ReapInterval cfg)); [|by right; left].
  destruct (Z.ltb_spec 0 (cfg_GossipInterval cfg)); [|by right; left].
  right. right. eexists. split; [done|]. split; [|done]. split; [|done|done].
  split; [done | apply NewPeerManager_ok | apply is_u64_0 |]. split; apply map_Forall_empty.
Qed.

Lemma main_running cfg io clock now d sv :
  main (Some cfg) io clock now d = Some (Running sv) -> server_ok (cfg_DataDir cfg) sv.
Proof.
  unfold main.
  destruct (start_total io clock d (cfg_DataDir cfg)) as [[e ->]|(d' & s & -> & Hs & Hh)]; [done|].
  destruct (NewTicker _); [|done]. destruct (NewTicker _); [|done]. intros [= <-]. split; [|done|done].
  split; [done | apply NewPeerManager_ok | apply is_u64_0 |]. split; apply map_Forall_empty.
Qed.

(** ** Shutdown *)

(** Start-up on a snapshot and an empty log. *)
Lemma start_empty_log clock d dataDir s2 ok :
  LoadSnapshot true AtEOF d (NewStore None) (Join dataDir "snapshot.bin") = Some (s2, (ok, None)) ->
  d !! Join dataDir "wal.log" = Some [] ->
  exists d' w, start startup_io_ok clock d dataDir = Some (Started d' (SetWAL s2 w)) /\
    file_of d' (Join dataDir "wal.log") = [].
Proof.
  intros Hl Hw. unfold start. cbn [su_snap_open_ok su_snap_end startup_io_ok]. rewrite Hl.
  unfold NewWAL. cbn [negb su_wal_open_ok su_wal_stat_ok startup_io_ok].
  assert (file_of d (Join dataDir "wal.log") = []) as -> by (unfold file_of; by rewrite Hw).
  unfold WAL_Replay. cbn [su_replay startup_io_ok rio_seek_start_ok wal_closed negb orb replay_io_ok
    wal_path rio_end rio_seek_end_ok].
  assert (forall d : Disk, file_of (<[Join dataDir "wal.log" := []]> d) (Join dataDir "wal.log") = []) as Hf
    by (intros d0; unfold file_of; by rewrite lookup_insert_eq).
  rewrite Hf. cbn [length replay_loop]. rewrite next_record_short by (cbn; lia).
  eexists _, _. split; [done | apply Hf].
Qed.

(** A final snapshot and the start-up after it. *)
Lemma snapshot_then_start `{MapRange} stop_time clock d s w dataDir :
  store_ok s -> storable_map (view s) ->
  wal s = Some w -> wal_path w = Join dataDir "wal.log" -> wal_closed w = false ->
  exists d1 w1, CreateSnapshot stop_time true None d s = (d1, with_wal s (Some w1), None) /\
    wal_closed w1 = false /\
    exists d2 s2, start startup_io_ok clock d1 dataDir = Some (Started d2 s2) /\
      view s2 = live stop_time (view s) /\ file_of d2 (Join dataDir "wal.log") = [] /\
      map_Forall (fun _ e => Version e <= lastVersion s2) (view s2).
Proof.
  intros Hs Hst Hw Hp Hc.
  destruct (CreateSnapshot_ok stop_time s w (data_dir_distinct dataDir w Hp) d Hw Hc)
    as (d1 & E & Hsnap & Hlog & _ & _).
  destruct (data_dir_paths dataDir w Hp) as [Hsn _]. unfold WAL_Path in Hlog. rewrite Hsn in Hsnap. rewrite Hp in Hlog.
  destruct (LoadSnapshot_bytes stop_time s d1 _ Hs Hst Hsnap) as (s2 & El & _ & Hv & Hver).
  destruct (start_empty_log clock d1 dataDir s2 true El Hlog) as (d2 & w2 & Est & Hf).
  exists d1, (mkWAL (wal_path w) 0 false). split; [done|]. split; [done|].
  exists d2, (SetWAL s2 w2). done.
Qed.

Section Shutdown.
Context `{Texts} `{MapRange} (FileServer : string -> string -> string -> answer) (dir : string).

(** C10: the process stays consistent.  From any start-up on, through any
    sequence of events (requests, ticks of the reaper, the compactor, gossip
    and the suspicion check, pings and replications that end in any way), the
    node keeps its types and invariants and its log open, and a shutdown, with
    whatever disk faults, runs to its end without a panic. *)
Theorem process_stays_consistent cfg io clock now d events sv0 sv :
  main (Some cfg) io clock now d = Some (Running sv0) ->
  run FileServer dir events sv0 = Some sv ->
  server_ok (cfg_DataDir cfg) sv /\
  forall sio close_ok, exists sv' errs, shutdown sio close_ok sv = Some (sv', errs) /\
    view (api_store (sv_api sv')) = view (api_store (sv_api sv)).
Proof.
  intros Hm Hr. apply main_running in Hm. pose proof (run_ok FileServer dir _ _ _ _ Hm Hr) as Hok.
  split; [done|]. intros sio close_ok. destruct Hok as [Ha Hh Hg]. unfold shutdown, GM_Stop. rewrite Hg.
  cbn [mbind option_bind].
  destruct (CreateSnapshot_handles (si_now sio) (si_open_ok sio) (si_fault sio) (api_disk (sv_api sv))
    (api_store (sv_api sv))) as (H1 & _ & H3).
  destruct (CreateSnapshot _ _ _ _ _) as [[d' s'] err]. cbn [fst snd] in H1, H3.
  unfold Store_Close. assert (reaperStopped s' = false) as ->
    by (rewrite Hh in H1; unfold handles in H1; by injection H1).
  cbn [wal]. destruct (wal s') as [w|]; [destruct (WAL_Close close_ok w)|]; eexists _, _; by split.
Qed.

(** C6: a graceful restart restores what was served.  The server has run
    through any events and holds entries the record format can store, expiring
    ones included.  When its shutdown finds a working disk, the next start-up on
    that disk succeeds, at any time, and serves exactly the entries that were
    live at the shutdown, with their values, versions and expiry times, with an
    empty log, and with a version counter no lower than any of them. *)
Theorem graceful_restart cfg io clock now d events sv0 sv stop_time clock' now' :
  main (Some cfg) io clock now d = Some (Running sv0) ->
  run FileServer dir events sv0 = Some sv ->
  storable_map (view (api_store (sv_api sv))) ->
  exists sv1 sv2,
    shutdown (mkSnapshotIO stop_time true None) true sv = Some (sv1, []) /\
    main (Some cfg) startup_io_ok clock' now' (api_disk (sv_api sv1)) = Some (Running sv2) /\
    view (api_store (sv_api sv2)) = live stop_time (view (api_store (sv_api sv))) /\
    file_of (api_disk (sv_api sv2)) (Join (cfg_DataDir cfg) "wal.log") = [] /\
    map_Forall (fun _ e => Version e <= lastVersion (api_store (sv_api sv2)))
      (view (api_store (sv_api sv2))).
Proof.
  intros Hm Hr Hst. pose proof (main_running _ _ _ _ _ _ Hm) as Hok0.
  pose proof (run_ok FileServer dir _ _ _ _ Hok0 Hr) as [Ha Hh Hg].
  unfold handles in Hh. destruct (wal (api_store (sv_api sv))) as [w|] eqn:Hw; [|done].
  injection Hh as Hp Hc Hrs.
  destruct (snapshot_then_start stop_time clock' (api_disk (sv_api sv)) (api_store (sv_api sv)) w
    (cfg_DataDir cfg) (ao_store _ Ha) Hst Hw Hp Hc) as (d1 & w1 & Ec & Hc1 & d2 & s2 & Es & Hv & Hf & Hver).
  unfold shutdown, GM_Stop. rewrite Hg. cbn [mbind option_bind si_now si_open_ok si_fault]. rewrite Ec.
  unfold Store_Close. cbn [reaperStopped with_wal wal]. rewrite Hrs. unfold WAL_Close. rewrite Hc1.
  cbn [negb orb mbind option_bind]. eexists _, _. split; [done|].
  cbn [sv_api with_store api_disk option_list app]. unfold main in Hm |- *. rewrite Es.
  destruct (start io clock d (cfg_DataDir cfg)) as [[|]|]; try done.
  destruct (NewTicker _); [|done]. destruct (NewTicker _); [|done]. split; [done|]. done.
Qed.
End Shutdown.

(** ** Runs *)

Section Runs.
#[local] Instance server_texts : Texts := {
  FormatFloat f := "0"; ParseFloat s := None; FormatTime t := ""; ParseTime s := None; Error e := ""
}.

(** A server on an empty directory that stores a key with a ttl of ten
    seconds, reaps, takes a snapshot and ticks. *)
Definition first_start : option main_result :=
  main (Some (cfg_of "a")) startup_io_ok (fun _ => 0) 0 ∅.
Definition first_server : Server :=
  match first_start with
  | Some (Running sv) => sv
  | _ => mkServer (node "a" (NewStore None)) gm_a [] [] false
  end.
Definition put_ttl_body : string :=
  Json.print (Json.JObj [("value", Json.JStr "v"); ("ttl_seconds", Json.JNum "10")]).
Definition some_events : list event :=
  [EvRequest (env_at (time_Unix 50)) (mkRequest "PUT" "/v1/kv/k" "" put_ttl_body);
   EvReap (time_Unix 60); EvCompact (mkSnapshotIO (time_Unix 70) true None); EvGossip (time_Unix 80);
   EvSuspicion (fun _ => time_Unix 90)].
Definition later_server : Server := default first_server (run no_files "" some_events first_server).

Lemma first_server_runs : first_start = Some (Running first_server).
Proof. vm_compute. reflexivity. Qed.
Lemma later_server_runs : run no_files "" some_events first_server = Some later_server.
Proof. vm_compute. reflexivity. Qed.
Lemma later_server_view :
  view (api_store (sv_api later_server))
  = {[ "k" := mkEntry (bytes_of "v") 50 (time_Add (time_Unix 50) (10 * Second)) ]}.
Proof. vm_compute. reflexivity. Qed.

Lemma process_stays_consistent_witness :
  server_ok "data" later_server /\
  exists sv' errs, shutdown (mkSnapshotIO 0 false None) false later_server = Some (sv', errs) /\
    view (api_store (sv_api sv')) = view (api_store (sv_api later_server)).
Proof.
  destruct (process_stays_consistent no_files "" (cfg_of "a") startup_io_ok (fun _ => 0) 0 ∅ some_events
    first_server later_server first_server_runs later_server_runs) as [H1 H2].
  split; [exact H1 | apply H2].
Defined.

Lemma graceful_restart_witness :
  exists sv1 sv2,
    shutdown (mkSnapshotIO (time_Unix 99) true None) true later_server = Some (sv1, []) /\
    main (Some (cfg_of "a")) startup_io_ok (fun _ => time_Unix 200) 0 (api_disk (sv_api sv1))
      = Some (Running sv2) /\
    view (api_store (sv_api sv2)) !! "k"
      = Some (mkEntry (bytes_of "v") 50 (time_Add (time_Unix 50) (10 * Second))).
Proof.
  destruct (graceful_restart no_files "" (cfg_of "a") startup_io_ok (fun _ => 0) 0 ∅ some_events
    first_server later_server (time_Unix 99) (fun _ => time_Unix 200) 0 first_server_runs later_server_runs)
    as (sv1 & sv2 & H1 & H2 & H3 & _).
  - rewrite later_server_view. apply map_Forall_singleton.
    split; vm_compute; try (right; split); repeat split; reflexivity || discriminate.
  - exists sv1, sv2. split; [exact H1|]. split; [exact H2|]. rewrite H3, later_server_view.
    vm_compute. reflexivity.
Defined.
End Runs.
