(* ===== verification/Membership.v ===== *)
(** * Dead peers in the running process

    What the events of the process do with a peer that has been declared dead:
    gossip cannot revive it ("dead is final" in [MergePeers]), ticks do not
    ping it and writes are not replicated to it, until it makes contact
    itself. *)

From S2P Require Import Prelude.
From S2P Require Import GoBase.
From S2P Require Import Url.
From S2P Require Import FilePath.
From S2P Require Import Wal.
From S2P Require Import Store.
From S2P Require Import StoreInv.
From S2P Require Import Snapshot.
From S2P Require Import Peer.
From S2P Require Import Gossip.
From S2P Require Import GossipSpec.
From S2P Require Import Replication.
From S2P Require Import Config.
From S2P Require Import Codec.
From S2P Require Import Api.
From S2P Require Import ApiSpec.
From S2P Require Import Wire.
From S2P Require Import Mux.
From S2P Require Import Router.
From S2P Require Import RouterSpec.
From S2P Require Import Routing.
From S2P Require Import Recovery.
From S2P Require Import Server.
From S2P Require Import ServerSpec.

(** ** The table *)

Definition dead_at (k : string) (pm : PeerManager) : Prop :=
  State <$> peers pm !! k = Some StateDead.

Section Table.
Context (k : string) (clock : nat -> Z) (gm : GossipManager).

Lemma dead_at_ext pm pm' : peers pm' !! k = peers pm !! k -> dead_at k pm -> dead_at k pm'.
Proof. unfold dead_at. by intros ->. Qed.

Lemma mark_dead_at id a st x :
  id <> k \/ st = StateDead -> dead_at k x.1 -> dead_at k (mark clock id a st x).1.
Proof.
  intros Hor Hd. destruct (decide (id = k)) as [->|Hne].
  - destruct Hor as [| ->]; [done|]. apply mark_state.
  - revert Hd. apply dead_at_ext. by apply mark_lookup_ne.
Qed.

Lemma UpdateRTT_dead_at now id rtt pm : dead_at k pm -> dead_at k (UpdateRTT now id rtt pm).
Proof.
  intros Hd. destruct (decide (id = k)) as [->|Hne].
  - unfold dead_at, UpdateRTT in *. destruct (peers pm !! k) as [p|]; [|done]. cbn.
    by rewrite lookup_insert_eq.
  - revert Hd. apply dead_at_ext. by apply lookup_UpdateRTT_ne.
Qed.

Lemma UpdateLag_dead_at id lag pm : dead_at k pm -> dead_at k (UpdateLag id lag pm).
Proof.
  unfold dead_at, UpdateLag. intros Hd. destruct (peers pm !! id) as [p|] eqn:E; [|done]. cbn.
  destruct (decide (id = k)) as [->|Hne]; [|by rewrite lookup_insert_ne].
  rewrite lookup_insert_eq. by rewrite E in Hd.
Qed.

(** Gossip about a dead peer is ignored. *)
Lemma merge_one_dead_at st rp : dead_at k st.1 -> dead_at k (merge_one clock gm st rp).1.
Proof.
  destruct st as [pm t]. cbn [fst]. intros Hd.
  destruct (decide (NodeID rp = k)) as [Ek|Hne].
  - unfold merge_one. destruct (decide (NodeID rp = gm_nodeID gm)); [done|].
    unfold PM_Get. rewrite Ek. unfold dead_at in Hd.
    destruct (peers pm !! k) as [p|] eqn:E; [|done]. injection Hd as Hs. cbn [negb].
    rewrite decide_True by done. unfold dead_at. cbn [fst]. rewrite E. cbn. by rewrite Hs.
  - revert Hd. apply dead_at_ext. apply (merge_one_ne clock gm (pm, t)). by left.
Qed.

Lemma MergePeers_dead_at rps : forall st, dead_at k st.1 -> dead_at k (MergePeers clock gm rps st).1.
Proof.
  induction rps as [|rp rps IH]; intros st Hd; [done|]. apply IH. by apply merge_one_dead_at.
Qed.

(** The id under which the outcome of a ping is recorded. *)
Definition pinged_id (p : Peer) (out : ping_outcome) : string :=
  match out with
  | Response _ (Some rps) =>
      if decide (NodeID p = "seed") then
        match seed_identity p rps with Some rp => NodeID rp | None => NodeID p end
      else NodeID p
  | _ => NodeID p
  end.

Lemma pingPeer_dead_at p out st :
  k <> "seed" -> NodeID p <> k -> pinged_id p out <> k ->
  dead_at k st.1 -> dead_at k (pingPeer clock gm p out st).1.
Proof.
  destruct st as [pm t]. cbn [fst]. intros Hk Hp Hi Hd. unfold pingPeer, ping_failed.
  destruct out as [| |status body]; [done | case_decide; [apply mark_dead_at; auto | done] |].
  destruct (negb _); [case_decide; [apply mark_dead_at; auto | done]|].
  destruct body as [rps|]; [|done].
  assert (forall id rtt pm1, id <> k -> dead_at k pm1 ->
    dead_at k (let '(pm, t) := mark clock id (Address p) StateAlive (pm1, S (S t)) in
           MergePeers clock gm rps (UpdateRTT (clock t) id rtt pm, S t)).1) as Hgo.
  { intros id rtt pm1 Hid H1.
    pose proof (mark_dead_at id (Address p) StateAlive (pm1, S (S t)) (or_introl Hid) H1) as H2.
    destruct (mark _ _ _ _ _) as [pm2 t2]. by apply MergePeers_dead_at, UpdateRTT_dead_at. }
  cbn [pinged_id] in Hi. case_decide; [destruct (seed_identity p rps) as [rp|]|]; apply Hgo; try done.
  revert Hd. apply dead_at_ext. cbn. by rewrite lookup_delete_ne.
Qed.

Lemma checkSuspicious_dead_at `{MapRange} st : dead_at k st.1 -> dead_at k (checkSuspicious clock gm st).1.
Proof.
  destruct st as [pm t]. cbn [fst]. unfold checkSuspicious, mark_dead.
  generalize (overdue gm (clock t) (GetAll pm)) as l. generalize (S t) as t'. intros t' l. revert pm t'.
  induction l as [|p l IH]; intros pm t' Hd; [done|]. cbn [fold_left].
  pose proof (mark_dead_at (NodeID p) (Address p) StateDead (pm, t') (or_intror eq_refl) Hd) as H1.
  destruct (mark _ _ _ _ _) as [pm1 t1]. by apply IH.
Qed.

(** A tick picks nobody who is dead. *)
Lemma tick_not_dead `{MapRange} now pm p :
  pm_ok pm -> dead_at k pm -> tick now gm pm = Some (Some p) -> NodeID p <> k.
Proof.
  intros Hok Hd. unfold tick. destruct (_ =? 0); [done|]. destruct (_ <? 0); [done|].
  destruct (_ !! Z.to_nat _) as [q|] eqn:E; [|done]. intros [= ->].
  apply list_elem_of_lookup_2, list_elem_of_filter in E as [Hc Hin].
  apply elem_of_GetAll in Hin; [|done]. intros Hk. rewrite Hk in Hin. unfold dead_at in Hd.
  rewrite Hin in Hd. injection Hd as Hs. unfold ping_candidate in Hc.
  by rewrite (bool_decide_eq_true_2 _ Hs), orb_true_r in Hc.
Qed.
End Table.

(** ** Requests *)

(** A ping request in which [k] names itself as the sender. *)
Definition ping_from (k : string) (req : Request) : Prop :=
  exists path, unescape false (r_rawPath req) = Some path /\
    segments (EscapedPath (r_rawPath req) path) = ["internal"; "ping"] /\
    query_get (r_rawQuery req) "sender_id" = k.

Lemma Found_ping method raw path query w :
  findHandler routes method raw path query = Found handleInternalPing_ w ->
  segments (EscapedPath raw path) = ["internal"; "ping"].
Proof.
  unfold findHandler. destruct (_ && exact_found _ _); [done|].
  destruct (String.eqb_spec (if String.eqb method "CONNECT" then EscapedPath raw path
    else cleanPath (EscapedPath raw path)) (EscapedPath raw path)) as [Hcp|]; [|done]. cbn [negb].
  destruct (find_pattern _ _ _) as [[[p h] m]|] eqn:E; [|unfold unmatched; by destruct (other_method _ _)].
  intros [= -> ->]. destruct (find_pattern_Some _ _ _ _ _ _ E) as [Hin Hm]. clear E.
  assert (p = mkPattern "GET" [Lit "internal"; Lit "ping"]) as ->.
  { unfold routes in Hin. rewrite !elem_of_cons, elem_of_nil in Hin.
    by repeat destruct Hin as [[= ->]|Hin]. }
  unfold match_pattern in Hm. cbn [pt_method pt_segs] in Hm.
  destruct (method_matches "GET" method) eqn:Em; [|done].
  destruct (String.eqb_spec method "CONNECT") as [->|_]; [done|].
  rewrite match_segs_list in Hm by (right; apply cleanPath_rooted). rewrite Hcp in Hm.
  destruct (segments (EscapedPath raw path)) as [|a [|b [|c segs]]]; [done|..].
  - cbn [match_list] in Hm. by destruct (String.eqb _ _).
  - cbn [match_list] in Hm. change (shown a [b]) with a in Hm.
    destruct (String.eqb_spec a "internal") as [->|]; [|done]. unfold shown in Hm.
    destruct (String.eqb b ""); [done|].
    destruct (String.eqb b "ping") eqn:Eb; [|done]. by apply String.eqb_eq in Eb as ->.
  - cbn [match_list] in Hm. destruct (String.eqb _ _); [|done].
    by destruct (String.eqb _ _).
Qed.

Section Requests.
Context `{Texts} `{MapRange} (FileServer : string -> string -> string -> answer) (dir : string).

(** Only a ping changes the table, and it changes the record of its sender. *)
Lemma Serve_table k env req api :
  ~ ping_from k req ->
  peers (api_pm (Serve FileServer dir env req api).1.2) !! k = peers (api_pm api) !! k.
Proof.
  intros Hn. unfold Serve. destruct (unescape false (r_rawPath req)) as [path|] eqn:Hu; [|done].
  unfold NewHandler.
  enough (forall an api1 out, mux FileServer dir env path req api = Some (an, api1, out) ->
    peers (api_pm api1) !! k = peers (api_pm api) !! k) as Hm.
  { destruct (mux FileServer dir env path req api) as [[[an api1] out]|]; [|done].
    exact (Hm an api1 out eq_refl). }
  intros an api1 out. unfold mux.
  destruct (findHandler _ _ _ _ _) as [| | |h w] eqn:Ef; try (by intros [= _ <- _]).
  destruct (decide (h = handleInternalPing_)) as [->|Hh].
  - cbn [call]. unfold handleInternalPing. intros [= _ <- _]. cbn [api_pm with_pm].
    case_decide; [|done]. apply lookup_AddOrUpdate_ne. intros Hk. apply Hn. exists path.
    split; [done|]. split; [by eapply Found_ping|done].
  - intros E. f_equal. revert E. unfold call, handleGetKey, handlePutKey, handleDeleteKey,
      handleInternalReplicate.
    destruct h; intros E; try done; try (destruct (handleListKeys _ _ _); [|done]); cbn in E;
      repeat (case_match; simplify_eq/=; try done); by simplify_eq/=.
Qed.
End Requests.

(** ** Events *)

(** The events in which the process hears from [k] directly: a ping request of
    [k], and the end of a ping that is recorded under [k] (a ping of [k], or of
    the seed when the reply gives [k] as the id at the seed's address). *)
Definition hears_from (k : string) (sv : Server) (ev : event) : Prop :=
  match ev with
  | EvRequest _ req => ping_from k req
  | EvPinged i _ out => exists p, sv_pings sv !! i = Some p /\ pinged_id p out = k
  | _ => False
  end.

Section Events.
Context `{Texts} `{MapRange} (FileServer : string -> string -> string -> answer) (dir : string).
Context (dataDir k : string) (Hk : k <> "seed").

(** No event of the run hears from [k]. *)
Fixpoint unheard (events : list event) (sv : Server) : Prop :=
  match events with
  | [] => True
  | ev :: events' =>
      ~ hears_from k sv ev /\
      match server_step FileServer dir ev sv with Some sv' => unheard events' sv' | None => True end
  end.

(** [k] is dead and no ping of it is in flight. *)
Record buried (sv : Server) : Prop := {
  bu_ok : server_ok dataDir sv;
  bu_dead : dead_at k (api_pm (sv_api sv));
  bu_pings : Forall (fun q => NodeID q <> k) (sv_pings sv)
}.

(** The sends to [k] that [sv'] has in flight were in flight in [sv]. *)
Definition no_new_sends (sv sv' : Server) : Prop :=
  forall x, x ∈ sv_sends sv' -> NodeID x.1 = k -> x ∈ sv_sends sv.

Lemma server_step_buried ev sv sv' :
  buried sv -> ~ hears_from k sv ev -> server_step FileServer dir ev sv = Some sv' ->
  buried sv' /\ no_new_sends sv sv'.
Proof using Hk.
  intros [Hok Hd Hp] Hn E. pose proof (server_step_ok FileServer dir dataDir ev sv sv' Hok E) as Hok'.
  pose proof (ao_pm _ (sk_api _ _ Hok)) as Hpm.
  enough (dead_at k (api_pm (sv_api sv')) /\ Forall (fun q => NodeID q <> k) (sv_pings sv') /\
    no_new_sends sv sv') as (H1 & H2 & H3) by done.
  assert (forall sv2, sv_sends sv2 = sv_sends sv -> no_new_sends sv sv2) as Hsame
    by (intros sv2 E2 x; by rewrite E2).
  destruct ev; cbn [server_step hears_from] in *.
  - pose proof (Serve_table FileServer dir k env req (sv_api sv) Hn) as Ht.
    pose proof (requests_keep_types FileServer dir env req (sv_api sv) (sk_api _ _ Hok)) as Hs.
    destruct (Serve _ _ _ _ _) as [[r api'] out]. injection E as <-. cbn in Ht |- *.
    split; [by eapply dead_at_ext|]. split; [done|].
    intros x [Hx|Hx]%elem_of_app Hxk; [done|]. exfalso. destruct Hs as [_ Hs].
    rewrite Forall_forall in Hs. destruct (Hs x Hx) as (_ & _ & Hl & Hnd). rewrite Hxk in Hl.
    unfold dead_at in Hd. rewrite Hl in Hd. injection Hd as Hd. done.
  - destruct (sv_sends sv !! i) as [[p req]|] eqn:Ei; injection E as <-; [|by auto].
    cbn. split; [|split; [done|]].
    + unfold replicateToPeer. repeat case_match; by try apply UpdateLag_dead_at.
    + intros x Hx _. by apply list_elem_of_delete_inv in Hx.
  - injection E as <-. by auto.
  - unfold compactor_tick in E. cbn [fst snd mbind option_bind] in E.
    destruct (CreateSnapshot _ _ _ _ _) as [[d s'] err]. injection E as <-. by auto.
  - destruct (sv_bootstrap sv); injection E as <-; [|by auto]. cbn [sv_api sv_pings sv_sends with_pm api_pm].
    split; [|split; [|by apply Hsame]].
    + apply (mark_dead_at k clock "seed" _ StateAlive (_, 0%nat)); [by left|done].
    + apply Forall_app_2; [done|]. apply Forall_singleton. cbn. done.
  - unfold gossip_tick in E. destruct (tick now (sv_gossip sv) (api_pm (sv_api sv))) as [t|] eqn:Et; [|done].
    injection E as <-. cbn. split; [done|]. split; [|by apply Hsame]. destruct t as [p|]; [|done].
    apply Forall_app_2; [done|]. apply Forall_singleton. by eapply tick_not_dead.
  - destruct (sv_pings sv !! i) as [p|] eqn:Ei; injection E as <-; [|by auto].
    cbn [sv_api sv_pings sv_sends with_pm api_pm]. split; [|split; [by apply Forall_delete|by apply Hsame]].
    apply (pingPeer_dead_at k clock (sv_gossip sv) p out (_, 0%nat)); [done| | |done].
    + by eapply Forall_lookup_1 in Hp.
    + intros Hi. apply Hn. by exists p.
  - injection E as <-. split; [|by auto].
    by apply (checkSuspicious_dead_at k clock (sv_gossip sv) (_, 0%nat)).
Qed.

Lemma run_buried events : forall sv sv',
  buried sv -> unheard events sv -> run FileServer dir events sv = Some sv' ->
  buried sv' /\ no_new_sends sv sv'.
Proof using Hk.
  induction events as [|ev events IH]; intros sv sv' Hb Hu; cbn; [intros [= <-]; by split; [|intros ?]|].
  destruct Hu as [Hn Hu]. destruct (server_step FileServer dir ev sv) as [sv1|] eqn:E; [|done]. cbn.
  intros Hr. destruct (server_step_buried ev sv sv1 Hb Hn E) as [Hb1 Hs1].
  destruct (IH sv1 sv' Hb1 Hu Hr) as [Hb' Hs']. split; [done|]. intros x Hx Hxk. auto.
Qed.
End Events.

(** ** Properties *)

(** C35: a dead peer is left alone until it makes contact itself.  Take a
    running process that holds peer [k] for dead and has no ping of it in
    flight, and any events (requests, gossip whatever the lists it carries
    say about [k], ticks, suspicion checks, replications, snapshots) among
    which the process does not hear from [k] directly.  Then a record of [k]
    still says dead, no ping of [k] was started, and no write was sent to [k]
    beyond those in flight before.  ([k] is not the placeholder of the seed.) *)
Theorem dead_peer_is_left_alone `{Texts} `{MapRange} FileServer dir dataDir k events sv sv' :
  k <> "seed" -> server_ok dataDir sv -> dead_at k (api_pm (sv_api sv)) ->
  Forall (fun q => NodeID q <> k) (sv_pings sv) ->
  unheard FileServer dir k events sv -> run FileServer dir events sv = Some sv' ->
  (forall p, peers (api_pm (sv_api sv')) !! k = Some p -> State p = StateDead) /\
  Forall (fun q => NodeID q <> k) (sv_pings sv') /\
  (forall q req, (q, req) ∈ sv_sends sv' -> NodeID q = k -> (q, req) ∈ sv_sends sv).
Proof.
  intros Hk Hok Hd Hp Hu Hr.
  destruct (run_buried FileServer dir dataDir k Hk events sv sv' (Build_buried _ _ _ Hok Hd Hp) Hu Hr)
    as [[_ Hd' Hp'] Hs]. split; [|split; [done|]].
  - intros p E. unfold dead_at in Hd'. rewrite E in Hd'. by injection Hd'.
  - intros q req Hin Hq. exact (Hs (q, req) Hin Hq).
Qed.

Section Runs.
(** Texts to run the definitions with. *)
#[local] Instance membership_texts : Texts := {
  FormatFloat f := "0"; ParseFloat s := None; FormatTime t := ""; ParseTime s := None; Error e := ""
}.

(** A node that holds ["b"] for dead and is waiting for the reply of ["c"]. *)
Definition peer_b : Peer := peer_at "b" StateAlive 5 time_zero.
Definition peer_c : Peer := peer_at "c" StateAlive 5 time_zero.
Definition two_peers : PeerManager :=
  mkPeerManager {[ "b" := peer_at "b" StateDead 1 time_zero; "c" := peer_c ]}.
Definition waiting_server : Server :=
  mkServer (with_pm (node "a" (SetWAL (NewStore None) (mkWAL "data/wal.log" 0 false))) two_peers)
    gm_a [peer_c] [] false.
Definition gossip_about_b : list event :=
  [EvPinged 0 (fun _ => time_Unix 9) (Response 200 (Some [peer_b])); EvGossip (time_Unix 10)].

Lemma waiting_server_ok : server_ok "data" waiting_server.
Proof.
  split; [|reflexivity|reflexivity]. apply with_pm_ok.
  - apply node_api_ok, with_wal_ok, NewStore_ok.
  - apply map_Forall_insert_2; [reflexivity|]. by apply map_Forall_singleton.
Qed.

(** The reply of ["c"] says that ["b"] is alive. *)
Lemma dead_peer_is_left_alone_witness :
  exists sv', run no_files "" gossip_about_b waiting_server = Some sv' /\
    State <$> peers (api_pm (sv_api sv')) !! "b" = Some StateDead /\
    NodeID <$> sv_pings sv' = ["c"] /\ Forall (fun q => NodeID q <> "b") (sv_pings sv').
Proof.
  destruct (run no_files "" gossip_about_b waiting_server) as [sv'|] eqn:E; [|by vm_compute in E].
  destruct (dead_peer_is_left_alone no_files "" "data" "b" gossip_about_b waiting_server sv') as (H1 & H2 & _).
  - discriminate.
  - apply waiting_server_ok.
  - vm_compute. reflexivity.
  - repeat constructor. discriminate.
  - split; [intros (p & [= <-] & Hp); vm_compute in Hp; discriminate|].
    destruct (server_step no_files "" _ waiting_server); [|exact I]. by split; [intros []|case_match].
  - exact E.
  - exists sv'. split; [reflexivity|]. split; [|split; [|exact H2]].
    + vm_compute in E. injection E as <-. vm_compute. reflexivity.
    + vm_compute in E. injection E as <-. vm_compute. reflexivity.
Defined.
End Runs.

(** "Dead is final" fails for a ping in flight: the ping was started while
    the peer was alive and carries a copy of its record; the peer is declared
    dead meanwhile; when the ping fails, the copy still says alive and the
    peer becomes suspect, to be pinged and replicated to again. *)
Theorem stale_ping_revives_dead_peer :
  let pm := (MergePeers (fun _ => time_Unix 8) gm_a [peer_at "b" StateDead 7 time_zero]
               (mkPeerManager {[ "b" := peer_b ]}, 0%nat)).1 in
  let pm' := (pingPeer (fun _ => time_Unix 9) gm_a peer_b NoResponse (pm, 0%nat)).1 in
  State <$> peers pm !! "b" = Some StateDead /\ State <$> peers pm' !! "b" = Some StateSuspect.
Proof. vm_compute. auto. Qed.
