(* ===== verification/Cluster.v ===== *)
(** * A cluster of server processes

    The processes of [Server] at their addresses, and a network that delivers
    the requests of the replicators one at a time, in any order, or never.  The
    requests in flight are those the processes wait for ([sv_sends]); a delivery
    is a request at the receiver and the end of a goroutine at the sender. *)

From S2P Require Import Prelude.
From S2P Require Import GoBase.
From S2P Require Import Url.
From S2P Require Import Utf8.
From S2P Require Import Lww.
From S2P Require Import Wal.
From S2P Require Import Store.
From S2P Require Import StoreInv.
From S2P Require Import Recovery.
From S2P Require Import Peer.
From S2P Require Import Gossip.
From S2P Require Import Replication.
From S2P Require Import Config.
From S2P Require Import Metrics.
From S2P Require Import Api.
From S2P Require Import ApiSpec.
From S2P Require Import Wire.
From S2P Require Import Mux.
From S2P Require Import Router.
From S2P Require Import RouterSpec.
From S2P Require Import ClusterSpec.
From S2P Require Import Server.
From S2P Require Import ServerSpec.

(** The processes by the addresses at which their peers reach them. *)
Abbreviation Cluster := (gmap string Server).

Inductive cluster_event :=
  | Local (a : string) (ev : event)
      (* an event at one node; the end of a replication whose request was lost is one *)
  | Deliver (a : string) (i : nat) (env : req_env) (answered : bool).
      (* request [i] of node [a] is handled by its receiver; the answer may be lost *)

Section Steps.
Context `{Texts} `{MapRange} (FileServer : string -> string -> string -> answer) (dir : string).

Definition cluster_step (ce : cluster_event) (cl : Cluster) : option Cluster :=
  match ce with
  | Local a ev =>
      sv ← cl !! a; sv' ← server_step FileServer dir ev sv; Some (<[a := sv']> cl)
  | Deliver a i env answered =>
      sv ← cl !! a; '(p, req) ← sv_sends sv !! i; dst ← cl !! Address p;
      let http := replicate_http (api_replicator (sv_api sv)) req in
      let resp := (Serve FileServer dir env http (sv_api dst)).1.1 in
      dst' ← server_step FileServer dir (EvRequest env http) dst;
      let cl1 := <[Address p := dst']> cl in
      sv1 ← cl1 !! a;
      sv' ← server_step FileServer dir
              (EvReplicated i (if answered then SendResponse (h_status resp) else SendNoResponse)) sv1;
      Some (<[a := sv']> cl1)
  end.

Fixpoint cluster_run (events : list cluster_event) (cl : Cluster) : option Cluster :=
  match events with
  | [] => Some cl
  | ce :: events' => cl' ← cluster_step ce cl; cluster_run events' cl'
  end.

(** ** What a request asks to be written *)

Definition asked (req : Request) : list (string * list byte) :=
  match unescape false (r_rawPath req) with
  | None => []
  | Some path =>
      match findHandler routes (r_method req) (r_rawPath req) path (r_rawQuery req) with
      | Found handlePutKey_ w =>
          match decode_PutRequest (r_body req) with
          | Some pr => [(hd "" w, bytes_of (put_Value pr))]
          | None => []
          end
      | Found handleInternalReplicate_ _ =>
          match decode_ReplicateRequest (r_body req) with
          | Some rq => if decide (req_Action rq = "SET") then [(req_Key rq, req_Value rq)] else []
          | None => []
          end
      | _ => []
      end
  end.

Definition event_asked (ev : event) : list (string * list byte) :=
  match ev with EvRequest _ req => asked req | _ => [] end.

(** A map with nothing but entries of another and writes of a list. *)
Definition grows_by (l : list (string * list byte)) (m m' : KV) : Prop :=
  forall k e, m' !! k = Some e -> m !! k = Some e \/ (k, Value e) ∈ l.

Lemma grows_by_refl l m : grows_by l m m.
Proof. intros k e He. by left. Qed.

Lemma grows_by_delete l m k : grows_by l m (delete k m).
Proof. intros j e [_ He]%lookup_delete_Some. by left. Qed.

Lemma grows_by_live l m now : grows_by l m (live now m).
Proof.
  intros k e. rewrite lookup_live. destruct (m !! k); [|done]. destruct (IsExpired _ _); [done|].
  intros [= <-]. by left.
Qed.

Lemma grows_by_mutate l m op :
  (forall k e, op = MSet k e -> (k, Value e) ∈ l) -> grows_by l m (mutate op m).
Proof.
  intros Hop k e. rewrite lookup_mutate. destruct op as [k' e'|k' v]; cbn [mutate_at].
  - case_decide; [|by left]. subst k'. intros [= <-].
    destruct (m !! k) as [c|]; [destruct (Version e' <? Version c)|]; [by left|right|right]; by apply Hop.
  - case_decide; [|by left]. destruct (m !! k) as [c|]; [|done]. destruct (v <? Version c); by left.
Qed.

(** What is sent is a deletion, or a write that was asked for. *)
Definition sends_asked (l : list (string * list byte)) (x : Peer * ReplicateRequest) : Prop :=
  req_Action x.2 = "SET" /\ (req_Key x.2, req_Value x.2) ∈ l \/ req_Action x.2 = "DELETE".

Lemma handlePutKey_asked n1 n2 n3 io key pr api :
  store_ok (api_store api) ->
  let '(_, api', out) := handlePutKey n1 n2 n3 io key (Some pr) api in
  let l := [(key, bytes_of (put_Value pr))] in
  grows_by l (view (api_store api)) (view (api_store api')) /\ Forall (sends_asked l) out.
Proof.
  intros Hs. unfold handlePutKey. case_decide; [split; [apply grows_by_refl | done]|].
  pose proof (Store_Set_view io (api_disk api) (api_store api) Hs n1 n2 key (bytes_of (put_Value pr))
    (put_ttl pr) 0 is_u64_0) as Hv. cbv zeta in Hv.
  destruct (Store_Set _ _ _ _ _ _ _ _ _) as [[d s] [v [err|]]]; cbn [fst snd] in Hv; destruct Hv as [Hv1 Hv2].
  - cbn. rewrite Hv2. split; [apply grows_by_refl | done].
  - unfold Replicate. cbn [api_store with_replicator with_store]. rewrite Hv1. split.
    + apply (grows_by_mutate _ _ (MSet _ _)). intros k e [= <- <-]. by left.
    + apply Forall_fmap, Forall_forall. intros p _. left. split; [done|]. by left.
Qed.

Lemma handleDeleteKey_asked n io key api :
  store_ok (api_store api) ->
  let '(_, api', out) := handleDeleteKey n io key api in
  grows_by [] (view (api_store api)) (view (api_store api')) /\ Forall (sends_asked []) out.
Proof.
  intros Hs. unfold handleDeleteKey. case_decide; [split; [apply grows_by_refl | done]|].
  pose proof (Store_Delete_view io (api_disk api) (api_store api) Hs n key 0 is_u64_0) as Hv. cbv zeta in Hv.
  destruct (Store_Delete _ _ _ _ _ _) as [[d s] [[v b] [err|]]]; cbn [fst snd] in Hv.
  - destruct Hv as (_ & _ & Hv). cbn. rewrite Hv. split; [apply grows_by_refl | done].
  - unfold Replicate. cbn [api_store with_replicator with_store]. destruct Hv as [-> _]. split.
    + by apply (grows_by_mutate _ _ (MDelete _ _)).
    + apply Forall_fmap, Forall_forall. intros p _. by right.
Qed.

Lemma handleInternalReplicate_asked n1 n2 n3 io rq api :
  store_ok (api_store api) -> is_u64 (req_Version rq) ->
  let api' := (handleInternalReplicate n1 n2 n3 io (Some rq) api).2 in
  grows_by (if decide (req_Action rq = "SET") then [(req_Key rq, req_Value rq)] else [])
    (view (api_store api)) (view (api_store api')).
Proof.
  intros Hs Hu. cbv zeta. unfold handleInternalReplicate. case_decide; [|case_decide].
  - match goal with |- context [Store_Set n2 n3 io ?d ?s ?k ?v ?ttl ?ver] =>
      pose proof (Store_Set_view io d s Hs n2 n3 k v ttl ver Hu) as Hv; cbv zeta in Hv;
      destruct (Store_Set n2 n3 io d s k v ttl ver) as [[d' s'] [? [|]]] end;
      cbn [fst snd] in Hv; destruct Hv as [Hv1 Hv2]; cbn [snd api_store with_store].
    + rewrite Hv2. apply grows_by_refl.
    + rewrite Hv1. apply (grows_by_mutate _ _ (MSet _ _)). intros k e [= <- <-]. by left.
  - match goal with |- context [Store_Delete n3 io ?d ?s ?k ?ver] =>
      pose proof (Store_Delete_view io d s Hs n3 k ver Hu) as Hv; cbv zeta in Hv;
      destruct (Store_Delete n3 io d s k ver) as [[d' s'] [[? ?] [|]]] end;
      cbn [fst snd] in Hv; cbn [snd api_store with_store].
    + destruct Hv as (_ & _ & ->). apply grows_by_refl.
    + destruct Hv as [-> _]. by apply (grows_by_mutate _ _ (MDelete _ _)).
  - apply grows_by_refl.
Qed.

(** Nothing but what a request asks for is written or sent because of it. *)
Lemma Serve_asked env req api :
  store_ok (api_store api) ->
  let '(_, api', out) := Serve FileServer dir env req api in
  grows_by (asked req) (view (api_store api)) (view (api_store api')) /\
  Forall (sends_asked (asked req)) out.
Proof.
  intros Hs. unfold Serve, asked. destruct (unescape false (r_rawPath req)) as [path|];
    [|split; [apply grows_by_refl | done]].
  unfold NewHandler, mux.
  destruct (findHandler _ _ _ _ _) as [| | |h w]; try (split; [apply grows_by_refl | done]).
  unfold call. destruct h; try (split; [apply grows_by_refl | done]).
  - unfold handleGetKey. case_decide; [split; [apply grows_by_refl | done]|].
    pose proof (Store_Get_view (e_now env 1%nat) (e_now env 2%nat) (api_store api) (hd "" w) Hs) as Hv.
    destruct (Store_Get _ _ _ _) as [[[v ver] f] s']. cbn [snd] in Hv.
    assert (grows_by [] (view (api_store api)) (view s')) as Hg
      by (destruct Hv as [->|(e & _ & _ & _ & ->)]; [apply grows_by_refl | apply grows_by_delete]).
    by destruct f.
  - destruct (decode_PutRequest (r_body req)) as [pr|].
    + pose proof (handlePutKey_asked (e_now env 1%nat) (e_now env 2%nat) (e_now env 3%nat) (e_io env)
        (hd "" w) pr api Hs) as Hp. by destruct (handlePutKey _ _ _ _ _ _ _) as [[r a] o].
    + unfold handlePutKey. case_decide; (split; [apply grows_by_refl | done]).
  - pose proof (handleDeleteKey_asked (e_now env 1%nat) (e_io env) (hd "" w) api Hs) as Hp.
    by destruct (handleDeleteKey _ _ _ _) as [[r a] o].
  - destruct (handleListKeys _ _ _); (split; [apply grows_by_refl | done]).
  - destruct (decode_ReplicateRequest (r_body req)) as [rq|] eqn:E.
    + destruct (decode_ReplicateRequest_types _ _ E) as [Hu _].
      pose proof (handleInternalReplicate_asked (e_now env 1%nat) (e_now env 2%nat) (e_now env 3%nat)
        (e_io env) rq api Hs Hu) as Hp. cbv zeta in Hp.
      destruct (handleInternalReplicate _ _ _ _ _ _) as [r a]. by split.
    + split; [apply grows_by_refl | done].
  - destruct (StripPrefix _ _ _); (split; [apply grows_by_refl | done]).
Qed.

(** ** Nothing is served that nobody wrote *)

(** [W] says which values were written to which keys; a replicated write may
    have had its key rewritten to valid UTF-8 on the way. *)
Definition written (W : string -> list byte -> Prop) (k : string) (v : list byte) : Prop :=
  exists k0, W k0 v /\ (k = k0 \/ k = sanitize k0).

Lemma written_sanitize W k v : written W k v -> written W (sanitize k) v.
Proof.
  intros (k0 & HW & Hk). exists k0. split; [done|]. right.
  destruct Hk as [->| ->]; [done | apply sanitize_idem].
Qed.

Lemma written_mono (W W' : string -> list byte -> Prop) k v :
  (forall k v, W k v -> W' k v) -> written W k v -> written W' k v.
Proof. intros HW (k0 & H1 & H2). exists k0. eauto. Qed.

(** A request in flight: its fields have their types and its value was
    written. *)
Record flight_ok (W : string -> list byte -> Prop) (x : Peer * ReplicateRequest) : Prop := {
  fo_version : is_u64 (req_Version x.2);
  fo_expiry : is_i64 (req_ExpiresAt x.2);
  fo_value : req_Action x.2 = "SET" /\ written W (req_Key x.2) (req_Value x.2) \/ req_Action x.2 = "DELETE"
}.

(** A process that holds, and waits to send, nothing but written values. *)
Record node_written (W : string -> list byte -> Prop) (sv : Server) : Prop := {
  nw_ok : exists dataDir, server_ok dataDir sv;
  nw_view : map_Forall (fun k e => written W k (Value e)) (view (api_store (sv_api sv)));
  nw_sends : Forall (flight_ok W) (sv_sends sv)
}.

Lemma node_written_mono (W W' : string -> list byte -> Prop) sv :
  (forall k v, W k v -> W' k v) -> node_written W sv -> node_written W' sv.
Proof.
  intros HW [Hok Hv Hs]. split; [done | |].
  - intros k e He. eapply written_mono; [exact HW | by apply Hv].
  - eapply Forall_impl; [exact Hs|]. intros x [Hu Hi Hval]. split; [done..|].
    destruct Hval as [[Ha Hval]|?]; [|by right]. left. eauto using written_mono.
Qed.

Lemma grows_by_written W l m m' :
  (forall k v, (k, v) ∈ l -> written W k v) -> grows_by l m m' ->
  map_Forall (fun k e => written W k (Value e)) m -> map_Forall (fun k e => written W k (Value e)) m'.
Proof. intros Hl Hg Hm k e He. destruct (Hg k e He) as [Hin|Hin]; [by apply (Hm k) | by apply Hl]. Qed.

(** Every event of a process keeps that, if the values it asks for are
    written. *)
Lemma server_step_written W ev sv sv' :
  (forall k v, (k, v) ∈ event_asked ev -> written W k v) ->
  node_written W sv -> server_step FileServer dir ev sv = Some sv' -> node_written W sv'.
Proof.
  intros Hl [[dataDir Hok] Hv Hs] E.
  assert (exists dataDir, server_ok dataDir sv') as Hok'
    by (exists dataDir; by eapply server_step_ok).
  enough (map_Forall (fun k e => written W k (Value e)) (view (api_store (sv_api sv'))) /\
          Forall (flight_ok W) (sv_sends sv')) as [H1 H2] by done.
  clear Hok'. pose proof (ao_store _ (sk_api _ _ Hok)) as Hst. destruct ev; cbn [server_step event_asked] in E, Hl.
  - pose proof (Serve_asked env req (sv_api sv) Hst) as Ha.
    pose proof (requests_keep_types FileServer dir env req (sv_api sv) (sk_api _ _ Hok)) as Ht.
    destruct (Serve _ _ _ _ _) as [[r api'] out]. injection E as <-. destruct Ha as [Hg Ho], Ht as [_ Ht].
    cbn [sv_api sv_sends]. split; [by eapply grows_by_written|]. apply Forall_app_2; [done|].
    rewrite Forall_forall in Ho, Ht |- *. intros x Hx. destruct (Ht x Hx) as (Hu & Hi & _).
    split; [done|done|]. destruct (Ho x Hx) as [[Ha Hin]|Hd]; [left | by right]. split; [done | by apply Hl].
  - destruct (sv_sends sv !! i) as [[p req]|]; injection E as <-; [|done]. split; [done|].
    by apply Forall_delete.
  - injection E as <-. split; [|done]. cbn [sv_api with_api with_store api_store].
    rewrite (proj2 (reap_facts now _ Hst)). eapply (grows_by_written W []); [|apply grows_by_live|done]. set_solver.
  - unfold compactor_tick in E. cbn [fst snd mbind option_bind] in E.
    destruct (CreateSnapshot_handles (si_now io) (si_open_ok io) (si_fault io) (api_disk (sv_api sv))
      (api_store (sv_api sv))) as (_ & _ & H3).
    destruct (Snapshot.CreateSnapshot _ _ _ _ _) as [[d s'] err]. injection E as <-. cbn [fst snd] in H3.
    cbn [sv_api sv_sends with_api with_store api_store]. by rewrite H3.
  - destruct (sv_bootstrap sv); injection E as <-; by split.
  - destruct (gossip_tick _ _ _) as [st|]; [|done]. injection E as <-. by split.
  - destruct (sv_pings sv !! i); injection E as <-; by split.
  - injection E as <-. by split.
Qed.

(** What the receiver of a request in flight is asked to write. *)
Lemma asked_replicate W r p req :
  flight_ok W (p, req) ->
  forall k v, (k, v) ∈ asked (replicate_http r req) -> written W k v.
Proof.
  intros [Hu Hi Hv] k v. cbn [snd] in *. unfold asked, replicate_http. cbn [r_rawPath r_method r_rawQuery r_body].
  change (unescape false "/internal/replicate") with (Some "/internal/replicate").
  cbv beta iota. rewrite routed_replicate, decode_encode_ReplicateRequest by done. cbn [wire_request req_Action req_Key req_Value].
  destruct Hv as [[-> Hv]| ->].
  - change (sanitize "SET") with "SET". rewrite decide_True by done.
    intros [= -> ->]%list_elem_of_singleton. by apply written_sanitize.
  - change (sanitize "DELETE") with "DELETE". rewrite decide_False by done. by intros ?%not_elem_of_nil.
Qed.

(** A delivery as two events. *)
Lemma Deliver_events a i env answered cl cl' :
  cluster_step (Deliver a i env answered) cl = Some cl' ->
  exists sv p req dst dst' sv1 sv' outcome,
    cl !! a = Some sv /\ sv_sends sv !! i = Some (p, req) /\ cl !! Address p = Some dst /\
    server_step FileServer dir (EvRequest env (replicate_http (api_replicator (sv_api sv)) req)) dst = Some dst' /\
    <[Address p := dst']> cl !! a = Some sv1 /\
    server_step FileServer dir (EvReplicated i outcome) sv1 = Some sv' /\
    cl' = <[a := sv']> (<[Address p := dst']> cl).
Proof.
  unfold cluster_step. intros (sv & Ea & E)%bind_Some. apply bind_Some in E as ([p req] & Ei & E).
  apply bind_Some in E as (dst & Ed & E). cbv zeta in E. apply bind_Some in E as (dst' & Es & E).
  apply bind_Some in E as (sv1 & E1 & E). apply bind_Some in E as (sv' & Es' & E). injection E as <-.
  by eexists sv, p, req, dst, dst', sv1, sv', _.
Qed.

Lemma cluster_step_written W ce cl cl' :
  (forall a ev, ce = Local a ev -> forall k v, (k, v) ∈ event_asked ev -> written W k v) ->
  map_Forall (fun _ sv => node_written W sv) cl ->
  cluster_step ce cl = Some cl' -> map_Forall (fun _ sv => node_written W sv) cl'.
Proof.
  intros Hask Hcl E. destruct ce as [a ev|a i env answered].
  - unfold cluster_step in E. apply bind_Some in E as (sv & Ea & E). apply bind_Some in E as (sv' & Es & E).
    injection E as <-. apply map_Forall_insert_2; [|done].
    eapply server_step_written; [by apply (Hask a ev)|by apply (Hcl a)|done].
  - apply Deliver_events in E as (sv & p & req & dst & dst' & sv1 & sv' & outcome & Ea & Ei & Ed & Es & E1 & Es' & ->).
    assert (flight_ok W (p, req)) as Hf.
    { eapply (proj1 (Forall_forall _ _)); [exact (nw_sends _ _ (Hcl a sv Ea))|]. by eapply list_elem_of_lookup_2. }
    assert (map_Forall (fun _ sv => node_written W sv) (<[Address p := dst']> cl)) as H1.
    { apply map_Forall_insert_2; [|done]. eapply server_step_written; [|exact (Hcl _ _ Ed)|exact Es].
      exact (asked_replicate W _ p req Hf). }
    apply map_Forall_insert_2; [|exact H1].
    refine (server_step_written W (EvReplicated i outcome) sv1 sv' _ (H1 _ _ E1) Es').
    intros k v Hin. destruct (not_elem_of_nil _ Hin).
Qed.

Lemma cluster_run_written W events : forall cl cl',
  (forall a ev, Local a ev ∈ events -> forall k v, (k, v) ∈ event_asked ev -> written W k v) ->
  map_Forall (fun _ sv => node_written W sv) cl ->
  cluster_run events cl = Some cl' -> map_Forall (fun _ sv => node_written W sv) cl'.
Proof.
  induction events as [|ce events IH]; intros cl cl' Hask Hcl; cbn; [by intros [= <-]|].
  destruct (cluster_step ce cl) as [cl1|] eqn:E; [|done]. cbn [mbind option_bind].
  apply IH; [intros a ev Hin; apply (Hask a); by right|].
  eapply cluster_step_written; [|exact Hcl|exact E]. intros a ev ->. apply (Hask a). by left.
Qed.

(** A process as [main] leaves it on some disk. *)
Definition started (sv : Server) : Prop :=
  exists cfg io clock now d, main (Some cfg) io clock now d = Some (Running sv).

Lemma started_facts sv : started sv -> (exists dataDir, server_ok dataDir sv) /\ sv_sends sv = [].
Proof.
  intros (cfg & io & clock & now & d & E). split; [eexists; by eapply main_running|].
  unfold main in E. destruct (start io clock d (cfg_DataDir cfg)) as [[d' s|e]|]; try done.
  destruct (NewTicker _); [|done]. destruct (NewTicker _); [|done]. by injection E as <-.
Qed.

(** C9: the cluster serves nothing that nobody wrote.  Processes that [main]
    started on any disks go through any events, with requests of any form to
    any node, deliveries in any order, lost requests and lost answers, disk
    faults, reaping, snapshots and gossip.  Every value a node then holds for a
    key was held for it by some node at the start, or is the value some
    request to some node asked to write for it; up to the rewriting of the key
    to valid UTF-8 between nodes. *)
Theorem cluster_serves_written_values cl0 events cl a sv k e :
  map_Forall (fun _ sv0 => started sv0) cl0 ->
  cluster_run events cl0 = Some cl ->
  cl !! a = Some sv -> view (api_store (sv_api sv)) !! k = Some e ->
  exists k0, (k = k0 \/ k = sanitize k0) /\
    ((exists b sv0 e0, cl0 !! b = Some sv0 /\ view (api_store (sv_api sv0)) !! k0 = Some e0 /\
        Value e0 = Value e) \/
     (exists b env req, Local b (EvRequest env req) ∈ events /\ (k0, Value e) ∈ asked req)).
Proof.
  intros Hst Hr Ha He.
  set (W := fun k0 v =>
    (exists b sv0 e0, cl0 !! b = Some sv0 /\ view (api_store (sv_api sv0)) !! k0 = Some e0 /\ Value e0 = v) \/
    (exists b env req, Local b (EvRequest env req) ∈ events /\ (k0, v) ∈ asked req)).
  assert (map_Forall (fun _ sv => node_written W sv) cl) as Hcl.
  { eapply cluster_run_written; [| |exact Hr].
    - intros b ev Hin k' v Hkv. exists k'. split; [|by left]. right.
      destruct ev; try by apply not_elem_of_nil in Hkv. by eexists _, _, _.
    - intros b sv0 Hb. destruct (started_facts sv0 (Hst b sv0 Hb)) as [Hok Hs].
      split; [done| |by rewrite Hs]. intros k' e' He'. exists k'. split; [|by left]. left. by eexists _, _, _. }
  destruct (nw_view _ _ (Hcl a sv Ha) k e He) as (k0 & HW & Hk). by exists k0.
Qed.
End Steps.

(** ** An example: one node and one write *)

Section Example.
#[local] Instance solo_texts : Texts := {
  FormatFloat f := "0"; ParseFloat s := None; FormatTime t := ""; ParseTime s := None; Error e := ""
}.

Definition solo_event : event :=
  EvRequest (env_at (time_Unix 50)) (mkRequest "PUT" "/v1/kv/k" "" (put_body "v")).
Definition solo_server : Server := default first_server (server_step no_files "" solo_event first_server).

Lemma solo_step : server_step no_files "" solo_event first_server = Some solo_server.
Proof.
  unfold solo_server, solo_event, server_step. by destruct (Serve _ _ _ _ _) as [[resp api'] out].
Qed.
Lemma solo_view :
  view (api_store (sv_api solo_server)) !! "k" = Some (mkEntry (bytes_of "v") 50 time_zero).
Proof. vm_compute. reflexivity. Qed.

Lemma cluster_serves_written_values_witness :
  let events := [Local "a:8080" solo_event] in
  exists k0, ("k" = k0 \/ "k" = sanitize k0) /\
    ((exists b sv0 e0, ({[ "a:8080" := first_server ]} : Cluster) !! b = Some sv0 /\
        view (api_store (sv_api sv0)) !! k0 = Some e0 /\ Value e0 = bytes_of "v") \/
     (exists b env req, Local b (EvRequest env req) ∈ events /\ (k0, bytes_of "v") ∈ asked req)).
Proof.
  intros events.
  refine (cluster_serves_written_values no_files "" {[ "a:8080" := first_server ]} events
    (<["a:8080" := solo_server]> {[ "a:8080" := first_server ]}) "a:8080" solo_server "k"
    (mkEntry (bytes_of "v") 50 time_zero) _ _ (lookup_insert_eq _ _ _) solo_view).
  - apply map_Forall_singleton. eexists _, _, _, _, _. exact first_server_runs.
  - unfold events. cbn [cluster_run cluster_step]. rewrite lookup_singleton_eq. cbn [mbind option_bind].
    by rewrite solo_step.
Defined.
End Example.
