(* ===== verification/Convergence.v ===== *)
(** * The cluster converges

    Clients write to any nodes and read from any nodes while the replicated
    writes travel in any order; once they have arrived, all nodes hold the same
    map.  The membership is complete and stays so: the runs of this file
    contain no failed ping and no suspicion check. *)

From S2P Require Import Prelude.
From S2P Require Import GoBase.
From S2P Require Import Url.
From S2P Require Import Utf8.
From S2P Require Import Lww.
From S2P Require Import Wal.
From S2P Require Import Store.
From S2P Require Import StoreInv.
From S2P Require Import Recovery.
From S2P Require Import Peer.
From S2P Require Import Gossip.
From S2P Require Import Replication.
From S2P Require Import Config.
From S2P Require Import Metrics.
From S2P Require Import Json.
From S2P Require Import Client.
From S2P Require Import ClientSpec.
From S2P Require Import Api.
From S2P Require Import ApiSpec.
From S2P Require Import Wire.
From S2P Require Import Mux.
From S2P Require Import Router.
From S2P Require Import RouterSpec.
From S2P Require Import ClusterSpec.
From S2P Require Import Server.
From S2P Require Import ServerSpec.
From S2P Require Import Cluster.

(** ** One node *)

(** The node sends its writes to the node at address [b]. *)
Definition knows (api : API) (b : string) : Prop :=
  exists p, peers (api_pm api) !! NodeID p = Some p /\ Address p = b /\
    NodeID p <> rp_nodeID (api_replicator api) /\ State p <> StateDead.

Lemma knows_ext api api' b :
  api_pm api' = api_pm api -> rp_nodeID (api_replicator api') = rp_nodeID (api_replicator api) ->
  knows api b -> knows api' b.
Proof. intros E1 E2. unfold knows. by rewrite E1, E2. Qed.

Lemma knows_AddOrUpdate now now' id a api b :
  knows api b -> knows (with_pm api (AddOrUpdate now now' id a StateAlive (api_pm api))) b.
Proof.
  intros (p & Hp & Ha & Hid & Hd). destruct (decide (id = NodeID p)) as [->|Hne].
  - exists (set_state now now' StateAlive p). cbn [api_pm with_pm api_replicator].
    rewrite lookup_AddOrUpdate, Hp. by split.
  - exists p. cbn [api_pm with_pm api_replicator]. by rewrite lookup_AddOrUpdate_ne.
Qed.

Lemma knows_UpdateLag id lag api b :
  knows api b -> knows (with_pm api (UpdateLag id lag (api_pm api))) b.
Proof.
  intros (p & Hp & Ha & Hid & Hd). unfold UpdateLag. cbn [api_pm with_pm].
  destruct (peers (api_pm api) !! id) as [q|] eqn:Eq; [|by exists p].
  destruct (decide (id = NodeID p)) as [->|Hne].
  - rewrite Hp in Eq. injection Eq as <-.
    exists (mkPeer (NodeID p) (Address p) (State p) (LastSeen p) (RTT p) lag (SuspiciousAt p)).
    cbn [knows api_pm api_replicator with_pm peers NodeID Address State]. by rewrite lookup_insert_eq.
  - exists p. cbn [knows api_pm api_replicator with_pm peers]. by rewrite lookup_insert_ne.
Qed.

Lemma knows_replicateToPeer r p version out api b :
  knows api b -> knows (with_pm api (replicateToPeer r p version out (api_pm api))) b.
Proof.
  intros Hk. unfold replicateToPeer. destruct out as [| |status]; [by apply (knows_ext api) | by apply knows_UpdateLag|].
  by destruct (status =? 200); apply knows_UpdateLag.
Qed.

Section Node.
Context `{Texts} `{MapRange} (FileServer : string -> string -> string -> answer) (dir : string).

(** The request of a client's [Set] without ttl. *)
Definition put_http (key value : string) : Request :=
  mkRequest "PUT" (key_path key) "" (print (PutRequest_json (mkPut value None))).

(** The write such a request causes. *)
Definition put_message (env : req_env) (key value : string) (api : API) : ReplicateRequest :=
  mkReplicateRequest key (bytes_of (sanitize value)) (NextVersion (e_now env 2%nat) (api_store api)).1 0 "SET".

(** A write that will win: the disk works, the key can be addressed and written
    as JSON, the clock is past 1970 and the stored entry is not newer. *)
Record put_wins (env : req_env) (key value : string) (api : API) : Prop := {
  pw_io : e_io env = append_io_ok;
  pw_key : key ∉ [""; "/"; "."; ".."];
  pw_utf8 : valid_utf8 key = true;
  pw_fits : writable key (bytes_of (sanitize value));
  pw_clock : 0 < (NextVersion (e_now env 2%nat) (api_store api)).1;
  pw_newer : forall old, view (api_store api) !! key = Some old ->
    Version old <= (NextVersion (e_now env 2%nat) (api_store api)).1
}.

Lemma Serve_put env key value api :
  node_ok api -> pm_ok (api_pm api) -> put_wins env key value api ->
  let '(_, api', out) := Serve FileServer dir env (put_http key value) api in
  let msg := put_message env key value api in
  node_ok api' /\ view (api_store api') = mutate (request_mutation msg) (view (api_store api)) /\
  (forall b, knows api b -> knows api' b /\ exists p, (p, msg) ∈ out /\ Address p = b) /\
  Forall (fun x => x.2 = msg) out.
Proof.
  intros Hok Hpm [Hio Hk Hv Hw Hc Hn].
  assert (key <> "") as Hne by (intros ->; apply Hk; compute_done).
  pose proof (handlePutKey_stores api (e_now env 1%nat) (e_now env 2%nat) (e_now env 3%nat) key (sanitize value)
    Hok Hne Hw Hn) as Hp.
  destruct (handlePutKey _ _ _ _ _ _ _) as [[r api1] out] eqn:Ep.
  destruct Hp as (_ & Hok' & Hview & Hpm' & Er).
  unfold put_http. rewrite (Serve_key FileServer dir env "PUT" handlePutKey_ key _ api r api1 out);
    [|compute_done|exact Hk|].
  2: { unfold call. cbn [r_body]. by rewrite decode_PutRequest_client, Hio, Ep by done. }
  cbn [LoggingAndMetricsMiddleware snd with_metrics api_store].
  pose proof (replicate_reaches_every_live_peer key (bytes_of (sanitize value))
    (NextVersion (e_now env 2%nat) (api_store api)).1 time_zero "SET" (api_pm api) (api_replicator api) Hpm) as Hr.
  rewrite <-Er in Hr. destruct Hr as (_ & _ & Hout).
  split; [destruct Hok'; by split|]. split; [exact Hview|]. split.
  - intros b Hb. split.
    + apply (knows_ext api); [done| |done]. unfold Replicate in Er. injection Er as Er _. cbn. rewrite Er.
      apply UpdateLastServed_max.
    + destruct Hb as (p & Hp & Ha & Hnid & Hd). exists p. split; [|done]. by apply Hout.
  - apply Forall_forall. intros [p req] Hin. by apply Hout in Hin as [-> _].
Qed.

(** The delivery of a write. *)
Definition message_ok (req : ReplicateRequest) : Prop :=
  req_Action req = "SET" /\ req_ExpiresAt req = 0 /\ writable (req_Key req) (req_Value req) /\
  0 < req_Version req < 2 ^ 64 /\ valid_utf8 (req_Key req) = true.

Lemma put_message_ok env key value api :
  put_wins env key value api -> message_ok (put_message env key value api).
Proof.
  intros [Hio Hk Hv Hw Hc Hn]. pose proof (NextVersion_u64 (e_now env 2%nat) (api_store api)) as Hu.
  unfold is_u64 in Hu. unfold message_ok, put_message. cbn [req_Action req_ExpiresAt req_Key req_Value req_Version].
  split; [done|]. split; [done|]. split; [done|]. split; [lia | done].
Qed.

Lemma Serve_message env r req api :
  node_ok api -> e_io env = append_io_ok -> message_ok req ->
  let '(_, api', out) := Serve FileServer dir env (replicate_http r req) api in
  node_ok api' /\ view (api_store api') = mutate (request_mutation req) (view (api_store api)) /\
  (forall b, knows api b -> knows api' b) /\ out = [].
Proof.
  intros Hok Hio (Ha & He & Hw & Hver & Hv).
  pose proof (Serve_replicate FileServer dir env r req api Hio Hok) as Hs.
  assert (api_pm (Serve FileServer dir env (replicate_http r req) api).1.2 = api_pm api /\
    api_replicator (Serve FileServer dir env (replicate_http r req) api).1.2 = api_replicator api) as [E1 E2].
  { rewrite Serve_replicate_handler. unfold LoggingAndMetricsMiddleware. unfold handleInternalReplicate.
    generalize (decode_ReplicateRequest (encode_ReplicateRequest req)) as decoded. intros [rq|]; [|by split].
    case_decide; [|case_decide; [|by split]];
      [ destruct (Store_Set _ _ _ _ _ _ _ _ _) as [[d s] [? [|]]]
      | destruct (Store_Delete _ _ _ _ _ _) as [[d s] [[? ?] [|]]] ]; split; reflexivity. }
  destruct (Serve _ _ _ _ _) as [[resp api'] out]. cbn [fst snd] in E1, E2.
  destruct Hs as (_ & Hout & Hok' & Hview).
  - split; [by left | done].
  - unfold is_i64. rewrite He. lia.
  - done.
  - split; [done|]. split; [done|]. split; [|done]. intros b. apply knows_ext; congruence.
Qed.

(** A request that reads. *)
Lemma Serve_reads env req api :
  node_ok api -> map_Forall (fun _ e => ExpiresAt e = time_zero) (view (api_store api)) ->
  r_method req ∉ ["PUT"; "DELETE"; "POST"] ->
  let '(_, api', out) := Serve FileServer dir env req api in
  view (api_store api') = view (api_store api) /\ (forall b, knows api b -> knows api' b) /\ out = [].
Proof.
  intros [Hs Hw] Hf Hm. unfold Serve. destruct (unescape false (r_rawPath req)) as [path|]; [|done].
  unfold NewHandler. enough (forall an api1 out, mux FileServer dir env path req api = Some (an, api1, out) ->
    view (api_store api1) = view (api_store api) /\ (forall b, knows api b -> knows api1 b) /\ out = []) as Hmux.
  { destruct (mux FileServer dir env path req api) as [[[an api1] out]|]; [exact (Hmux an api1 out eq_refl)|done]. }
  intros an api1 out. unfold mux.
  destruct (findHandler _ _ _ _ _) as [| | |h w] eqn:Ef; try (by intros [= _ <- <-]).
  pose proof (Found_method _ _ _ _ _ _ Ef) as Hh. unfold call.
  destruct h; try (by intros [= _ <- <-]); try (exfalso; apply Hm; rewrite Hh; compute_done).
  - unfold handleGetKey. case_decide; [by intros [= _ <- <-]|].
    pose proof (Store_Get_view (e_now env 1%nat) (e_now env 2%nat) (api_store api) (hd "" w) Hs) as Hv.
    destruct (Store_Get _ _ _ _) as [[[v ver] f] s']. cbn [snd] in Hv.
    assert (view s' = view (api_store api)) as Hv'.
    { destruct Hv as [?|(e & Ee & Hx & _)]; [done|]. exfalso. unfold IsExpired in Hx.
      by rewrite (Hf _ _ Ee) in Hx. }
    destruct f; by intros [= _ <- <-].
  - destruct (handleListKeys _ _ _); [|done]. by intros [= _ <- <-].
  - unfold handleInternalPing. intros [= _ <- <-]. split; [done|]. split; [|done]. intros b Hb.
    case_decide; [by apply knows_AddOrUpdate | done].
  - destruct (StripPrefix _ _ _); by intros [= _ <- <-].
Qed.
End Node.

(** ** The cluster *)

(** Every write of [W] that a node may not have seen is on its way to it. *)
Definition pending (cl : Cluster) (b : string) (op : mutation) : Prop :=
  exists a sv p req, cl !! a = Some sv /\ (p, req) ∈ sv_sends sv /\ Address p = b /\
    request_mutation req = op.

(** A member of a cluster with the addresses [D]. *)
Record member (D : gset string) (W : list mutation) (a : string) (sv : Server) : Prop := {
  mb_api : api_ok (sv_api sv);
  mb_node : node_ok (sv_api sv);
  mb_knows : forall b, b ∈ D -> b <> a -> knows (sv_api sv) b;
  mb_sends : Forall (fun x => message_ok x.2 /\ request_mutation x.2 ∈ W) (sv_sends sv)
}.

Lemma member_mono D (W W' : list mutation) a sv :
  (forall op, op ∈ W -> op ∈ W') -> member D W a sv -> member D W' a sv.
Proof.
  intros HW [? ? ? Hs]. split; [done..|]. eapply Forall_impl; [exact Hs|]. intros x [? ?]. auto.
Qed.

Section Calm.
(** The map all nodes started from. *)
Context (m0 : KV).

(** The writes [W] have been made; node [a] has seen [L a]. *)
Record calm (W : list mutation) (L : string -> list mutation) (cl : Cluster) : Prop := {
  ca_member : map_Forall (member (dom cl) W) cl;
  ca_view : map_Forall (fun a sv => view (api_store (sv_api sv)) = run_mutations (L a) m0) cl;
  ca_seen : forall a op, op ∈ L a -> op ∈ W;
  ca_pending : forall b op, b ∈ dom cl -> op ∈ W -> op ∈ L b \/ pending cl b op
}.

(** What stays pending when one node changes. *)
Lemma pending_update cl a sv sv' b op :
  cl !! a = Some sv ->
  (forall x, x ∈ sv_sends sv -> Address x.1 = b -> request_mutation x.2 = op -> x ∈ sv_sends sv') ->
  pending cl b op -> pending (<[a := sv']> cl) b op.
Proof.
  intros Ha Hs (c & svc & p & req & Hc & Hin & Hb & Hop). destruct (decide (a = c)) as [->|Hne].
  - exists c, sv', p, req. rewrite lookup_insert_eq. split; [done|]. split; [|done].
    apply (Hs (p, req)); [|done|done]. congruence.
  - exists c, svc, p, req. by rewrite lookup_insert_ne.
Qed.

(** One node changes. *)
Lemma calm_update W W' L L' cl a sv sv' :
  calm W L cl -> cl !! a = Some sv -> (forall op, op ∈ W -> op ∈ W') ->
  member (dom cl) W' a sv' -> view (api_store (sv_api sv')) = run_mutations (L' a) m0 ->
  (forall op, op ∈ L' a -> op ∈ W') -> (forall b, b <> a -> L' b = L b) ->
  (forall b op, b ∈ dom cl -> op ∈ W' -> op ∈ L' b \/ pending (<[a := sv']> cl) b op) ->
  calm W' L' (<[a := sv']> cl).
Proof.
  intros [Hm Hv Hs Hp] Ha HW Hm' Hv' Hs' HL Hp'.
  assert (dom (<[a := sv']> cl) = dom cl) as Hdom by (apply dom_insert_lookup_L; by eexists).
  split.
  - rewrite Hdom. apply map_Forall_insert_2; [done|]. intros b svb Hb. eapply member_mono; [exact HW|by apply Hm].
  - intros b svb Hb. destruct (decide (b = a)) as [->|Hne].
    + rewrite lookup_insert_eq in Hb. by injection Hb as <-.
    + rewrite lookup_insert_ne in Hb by done. rewrite HL by done. by apply Hv.
  - intros b op Hop. destruct (decide (b = a)) as [->|Hne]; [by apply Hs'|].
    rewrite HL in Hop by done. eauto.
  - by rewrite Hdom.
Qed.

(** A node that keeps its map and what it has to send. *)
Lemma calm_same W L cl a sv sv' :
  calm W L cl -> cl !! a = Some sv -> api_ok (sv_api sv') -> node_ok (sv_api sv') ->
  view (api_store (sv_api sv')) = view (api_store (sv_api sv)) ->
  (forall b, knows (sv_api sv) b -> knows (sv_api sv') b) -> sv_sends sv' = sv_sends sv ->
  calm W L (<[a := sv']> cl).
Proof.
  intros Hc Ha Hapi Hnode Hv Hk Hs. pose proof (ca_member _ _ _ Hc a sv Ha) as [Hm1 Hm2 Hm3 Hm4].
  eapply calm_update; [exact Hc|exact Ha|done| | |apply (ca_seen _ _ _ Hc)|done|].
  - split; [done|done|eauto|by rewrite Hs].
  - rewrite Hv. by apply (ca_view _ _ _ Hc).
  - intros b op Hb Hop. destruct (ca_pending _ _ _ Hc b op Hb Hop) as [?|Hpen]; [by left|right].
    eapply pending_update; [exact Ha| |exact Hpen]. intros x Hx _ _. by rewrite Hs.
Qed.

(** One more mutation seen by node [a]. *)
Definition see (L : string -> list mutation) (a : string) (op : mutation) : string -> list mutation :=
  fun b => if decide (b = a) then L a ++ [op] else L b.

Lemma see_at L a op : see L a op a = L a ++ [op].
Proof. unfold see. by rewrite decide_True. Qed.
Lemma see_ne L a op b : b <> a -> see L a op b = L b.
Proof. intros. unfold see. by rewrite decide_False. Qed.
Lemma elem_of_see L a op b op' : op' ∈ L b -> op' ∈ see L a op b.
Proof. intros. unfold see. case_decide; [|done]. subst. rewrite elem_of_app. by left. Qed.
Lemma see_new L a op : op ∈ see L a op a.
Proof. rewrite see_at, elem_of_app. right. by left. Qed.

(** A node applies a mutation of [W'] and may have more to send. *)
Lemma calm_apply W W' L cl a sv sv' op :
  calm W L cl -> cl !! a = Some sv -> (forall op, op ∈ W -> op ∈ W') -> op ∈ W' ->
  member (dom cl) W' a sv' ->
  view (api_store (sv_api sv')) = mutate op (view (api_store (sv_api sv))) ->
  (forall x, x ∈ sv_sends sv -> x ∈ sv_sends sv') ->
  (forall b op', b ∈ dom cl -> b <> a -> op' ∈ W' -> op' ∈ W \/ exists p req,
     (p, req) ∈ sv_sends sv' /\ Address p = b /\ request_mutation req = op') ->
  (forall op', op' ∈ W' -> op' ∈ W \/ op' = op) ->
  calm W' (see L a op) (<[a := sv']> cl).
Proof.
  intros Hc Ha HW Hop Hm Hv Hs Hnew Hall.
  assert (forall b op', b ∈ dom cl -> op' ∈ W ->
    op' ∈ see L a op b \/ pending (<[a := sv']> cl) b op') as Hold.
  { intros b op' Hb Hin. destruct (ca_pending _ _ _ Hc b op' Hb Hin) as [?|Hpen].
    - left. by apply elem_of_see.
    - right. eapply pending_update; [exact Ha| |exact Hpen]. auto. }
  eapply calm_update; [exact Hc|exact Ha|done|done| | |apply see_ne|].
  - rewrite see_at, run_mutations_app, Hv. by rewrite (ca_view _ _ _ Hc a sv Ha).
  - intros op'. rewrite see_at, elem_of_app, list_elem_of_singleton.
    intros [Hin| ->]; [|done]. by apply HW, (ca_seen _ _ _ Hc a).
  - intros b op' Hb Hin. destruct (decide (b = a)) as [->|Hne].
    + destruct (Hall op' Hin) as [?| ->]; [by apply Hold | left; apply see_new].
    + destruct (Hnew b op' Hb Hne Hin) as [?|(p & req & Hpr & Hp)]; [by apply Hold|].
      right. exists a, sv', p, req. by rewrite lookup_insert_eq.
Qed.

(** A message that was seen by its receiver is no longer in flight. *)
Lemma calm_done W L cl a i sv sv' p req :
  calm W L cl -> cl !! a = Some sv -> sv_sends sv !! i = Some (p, req) ->
  (Address p ∈ dom cl -> request_mutation req ∈ L (Address p)) ->
  api_ok (sv_api sv') -> node_ok (sv_api sv') ->
  view (api_store (sv_api sv')) = view (api_store (sv_api sv)) ->
  (forall b, knows (sv_api sv) b -> knows (sv_api sv') b) -> sv_sends sv' = delete i (sv_sends sv) ->
  calm W L (<[a := sv']> cl).
Proof.
  intros Hc Ha Hi Hseen Hapi Hnode Hv Hk Hs. pose proof (ca_member _ _ _ Hc a sv Ha) as [Hm1 Hm2 Hm3 Hm4].
  eapply calm_update; [exact Hc|exact Ha|done| | |apply (ca_seen _ _ _ Hc)|done|].
  - split; [done|done|eauto|]. rewrite Hs. by apply Forall_delete.
  - rewrite Hv. by apply (ca_view _ _ _ Hc).
  - intros b op Hb Hop. destruct (decide (b = Address p /\ op = request_mutation req)) as [[-> ->]|Hne];
      [left; by apply Hseen|].
    destruct (ca_pending _ _ _ Hc b op Hb Hop) as [?|Hpen]; [by left|right].
    eapply pending_update; [exact Ha| |exact Hpen]. intros x Hx Hxb Hxop. rewrite Hs.
    rewrite <-(take_drop_middle _ _ _ Hi) in Hx. rewrite delete_take_drop.
    rewrite elem_of_app, elem_of_cons in Hx. rewrite elem_of_app.
    destruct Hx as [?|[->|?]]; [by left| |by right]. exfalso. apply Hne. by subst.
Qed.
End Calm.

(** ** Runs *)

(** A write that never expires. *)
Definition eternal (op : mutation) : Prop :=
  match op with MSet _ e => ExpiresAt e = time_zero | MDelete _ _ => False end.

Lemma eternal_run l : forall m,
  Forall eternal l -> map_Forall (fun _ e => ExpiresAt e = time_zero) m ->
  map_Forall (fun _ e => ExpiresAt e = time_zero) (run_mutations l m).
Proof.
  induction l as [|op l IH]; intros m Hl Hm; [done|]. inversion Hl as [|? ? Hop Hl']; subst.
  apply (IH (mutate op m)); [done|]. apply map_Forall_mutate; [|done]. by intros k e ->.
Qed.

Lemma message_mutation req :
  message_ok req ->
  request_mutation req = MSet (req_Key req) (mkEntry (req_Value req) (req_Version req) time_zero).
Proof. intros (Ha & _). unfold request_mutation. by rewrite decide_True. Qed.

Lemma node_ok_handles api api' :
  node_ok api -> store_ok (api_store api') -> handles (api_store api') = handles (api_store api) ->
  node_ok api'.
Proof.
  intros [_ Hw] Hs Hh. split; [done|]. intros w Ew. unfold handles in Hh. rewrite Ew in Hh.
  destruct (wal (api_store api)) as [w0|]; [|done]. injection Hh as _ Hc _. rewrite Hc. by apply Hw.
Qed.

Lemma option_bind_Some {A B} (f : A -> option B) x : (Some x ≫= f) = f x.
Proof. done. Qed.

Section Runs.
Context `{Texts} `{MapRange} (FileServer : string -> string -> string -> answer) (dir : string).

(** What may happen at a node besides writes: requests that read, reaping,
    snapshots with or without disk faults, gossip ticks. *)
Definition undisturbing (ev : event) : Prop :=
  match ev with
  | EvRequest _ req => r_method req ∉ ["PUT"; "DELETE"; "POST"]
  | EvReap _ | EvCompact _ | EvGossip _ => True
  | _ => False
  end.

(** The steps of a calm run, labelled with the writes the clients make. *)
Inductive calm_step : Cluster -> list mutation -> Cluster -> Prop :=
  | calm_put cl a sv env key value cl' :
      cl !! a = Some sv -> put_wins env key value (sv_api sv) ->
      cluster_step FileServer dir (Local a (EvRequest env (put_http key value))) cl = Some cl' ->
      calm_step cl [request_mutation (put_message env key value (sv_api sv))] cl'
  | calm_deliver cl a i env answered cl' :
      e_io env = append_io_ok -> cluster_step FileServer dir (Deliver a i env answered) cl = Some cl' ->
      calm_step cl [] cl'
  | calm_local cl a ev cl' :
      undisturbing ev -> cluster_step FileServer dir (Local a ev) cl = Some cl' -> calm_step cl [] cl'.

(** What a request changes of the process. *)
Lemma request_step env req sv sv' :
  server_step FileServer dir (EvRequest env req) sv = Some sv' ->
  sv_api sv' = (Serve FileServer dir env req (sv_api sv)).1.2 /\
  sv_sends sv' = sv_sends sv ++ (Serve FileServer dir env req (sv_api sv)).2.
Proof. unfold server_step. destruct (Serve _ _ _ _ _) as [[resp api'] out]. by intros [= <-]. Qed.

Context (m0 : KV).

Lemma calm_put_step W L cl a sv env key value cl' :
  calm m0 W L cl -> cl !! a = Some sv -> put_wins env key value (sv_api sv) ->
  cluster_step FileServer dir (Local a (EvRequest env (put_http key value))) cl = Some cl' ->
  let op := request_mutation (put_message env key value (sv_api sv)) in
  calm m0 (W ++ [op]) (see L a op) cl'.
Proof.
  intros Hc Ha Hw E op. unfold cluster_step in E. rewrite Ha in E.
  apply bind_Some in E as (sv0 & [= <-] & E). apply bind_Some in E as (sv' & Es & E). injection E as <-.
  pose proof (ca_member _ _ _ _ Hc a sv Ha) as [Hapi Hnode Hk Hsends].
  pose proof (put_message_ok _ _ _ _ Hw) as Hmsg.
  pose proof (Serve_put FileServer dir env key value (sv_api sv) Hnode (ao_pm _ Hapi) Hw) as Hp.
  pose proof (requests_keep_types FileServer dir env (put_http key value) (sv_api sv) Hapi) as Ht.
  unfold server_step in Es.
  destruct (Serve FileServer dir env (put_http key value) (sv_api sv)) as [[resp api'] out].
  injection Es as <-. destruct Hp as (Hnode' & Hview & Hknow & Hout), Ht as [Hapi' _].
  assert (forall op', op' ∈ W ++ [op] -> op' ∈ W \/ op' = op) as Hall
    by (intros op'; rewrite elem_of_app, list_elem_of_singleton; tauto).
  eapply calm_apply; [exact Hc|exact Ha| | | |exact Hview| | |exact Hall].
  - intros op' ?. rewrite elem_of_app. by left.
  - rewrite elem_of_app. right. by left.
  - split; [done|done|intros b Hb Hne; by apply Hknow, Hk|]. cbn [sv_sends]. apply Forall_app_2.
    + eapply Forall_impl; [exact Hsends|]. intros x [? ?]. rewrite elem_of_app. auto.
    + eapply Forall_impl; [exact Hout|]. intros x ->. split; [done|]. rewrite elem_of_app. right. by left.
  - intros x ?. cbn [sv_sends]. rewrite elem_of_app. by left.
  - intros b op' Hb Hne Hin. destruct (Hall op' Hin) as [?| ->]; [by left|right].
    destruct (Hknow b (Hk b Hb Hne)) as [_ (p & Hin' & Hp)]. eexists p, _. cbn [sv_sends].
    rewrite elem_of_app. split; [right; exact Hin' | done].
Qed.

Lemma calm_deliver_step W L cl a i env answered cl' :
  calm m0 W L cl -> e_io env = append_io_ok ->
  cluster_step FileServer dir (Deliver a i env answered) cl = Some cl' -> exists L', calm m0 W L' cl'.
Proof.
  intros Hc Hio E.
  apply Deliver_events in E as (sv & p & req & dst & dst' & sv1 & sv' & outcome & Ea & Ei & Ed & Es & E1 & Es' & ->).
  pose proof (ca_member _ _ _ _ Hc a sv Ea) as [_ _ _ Hsends].
  pose proof (ca_member _ _ _ _ Hc _ dst Ed) as [Hapi Hnode Hk Hsd].
  destruct (proj1 (Forall_forall _ _) Hsends (p, req)) as [Hmsg HW]; [by eapply list_elem_of_lookup_2|].
  cbn [snd] in Hmsg, HW. set (op := request_mutation req) in *.
  pose proof (Serve_message FileServer dir env (api_replicator (sv_api sv)) req (sv_api dst) Hnode Hio Hmsg) as Hm.
  pose proof (requests_keep_types FileServer dir env (replicate_http (api_replicator (sv_api sv)) req) (sv_api dst)
    Hapi) as Ht.
  apply request_step in Es as [Es1 Es2].
  destruct (Serve FileServer dir env (replicate_http _ req) (sv_api dst)) as [[resp api'] out].
  cbn [fst snd] in Es1, Es2. destruct Hm as (Hnode' & Hview & Hknow & ->), Ht as [Hapi' _].
  rewrite app_nil_r in Es2.
  assert (calm m0 W (see L (Address p) op) (<[Address p := dst']> cl)) as Hc1.
  { eapply calm_apply; [exact Hc|exact Ed|done|exact HW| | | | |by left]; rewrite ?Es1, ?Es2.
    - split; rewrite ?Es1, ?Es2; [done|done|intros b Hb Hne; by apply Hknow, Hk|done].
    - exact Hview.
    - done.
    - by left. }
  exists (see L (Address p) op).
  assert (sv_sends sv1 !! i = Some (p, req)) as Ei1.
  { destruct (decide (a = Address p)) as [->|Hne].
    - rewrite lookup_insert_eq in E1. injection E1 as <-. rewrite Es2. congruence.
    - rewrite lookup_insert_ne in E1 by done. congruence. }
  pose proof (ca_member _ _ _ _ Hc1 a sv1 E1) as [Hapi1 Hnode1 _ _].
  unfold server_step in Es'. rewrite Ei1 in Es'. injection Es' as <-.
  eapply calm_done; [exact Hc1|exact E1|exact Ei1|intros _; apply see_new|..]; cbn [sv_api sv_sends]; try done.
  - apply with_pm_ok; [done|]. apply replicateToPeer_ok, (ao_pm _ Hapi1).
  - destruct Hnode1. by split.
  - intros b. apply knows_replicateToPeer.
Qed.

Lemma calm_local_step W L cl a ev cl' :
  calm m0 W L cl -> Forall eternal W -> map_Forall (fun _ e => ExpiresAt e = time_zero) m0 ->
  undisturbing ev -> cluster_step FileServer dir (Local a ev) cl = Some cl' -> calm m0 W L cl'.
Proof.
  intros Hc HW Hm0 Hev E. unfold cluster_step in E.
  apply bind_Some in E as (sv & Ha & E). apply bind_Some in E as (sv' & Es & E). injection E as <-.
  pose proof (ca_member _ _ _ _ Hc a sv Ha) as [Hapi Hnode Hk Hsends].
  assert (map_Forall (fun _ e => ExpiresAt e = time_zero) (view (api_store (sv_api sv)))) as Hf.
  { rewrite (ca_view _ _ _ _ Hc a sv Ha). apply eternal_run; [|done]. rewrite Forall_forall in HW |- *.
    intros op Hop. by apply HW, (ca_seen _ _ _ _ Hc a). }
  pose proof (ao_store _ Hapi) as Hst.
  destruct ev; try done; cbn [server_step undisturbing] in Es, Hev.
  - pose proof (Serve_reads FileServer dir env req (sv_api sv) Hnode Hf Hev) as Hr.
    pose proof (requests_keep_types FileServer dir env req (sv_api sv) Hapi) as Ht.
    pose proof (Serve_handles FileServer dir env req (sv_api sv)) as Hh.
    destruct (Serve FileServer dir env req (sv_api sv)) as [[resp api'] out]. injection Es as <-.
    destruct Hr as (Hview & Hknow & ->), Ht as [Hapi' _]. cbn [fst snd] in Hh.
    eapply calm_same; [exact Hc|exact Ha|done| |done|done|apply app_nil_r].
    apply (node_ok_handles (sv_api sv)); [done|apply Hapi'|done].
  - injection Es as <-. destruct (reap_facts now _ Hst) as [Hst' Hv].
    eapply calm_same; [exact Hc|exact Ha| | | | |done]; cbn [sv_api with_api with_store api_store].
    + by apply with_store_ok.
    + apply (node_ok_handles (sv_api sv)); [done|done|]. apply reap_handles.
    + rewrite Hv. by apply live_forever.
    + intros b. by apply knows_ext.
  - unfold compactor_tick in Es. cbn [fst snd mbind option_bind] in Es.
    destruct (CreateSnapshot_handles (si_now io) (si_open_ok io) (si_fault io) (api_disk (sv_api sv))
      (api_store (sv_api sv))) as (H1 & H2 & H3).
    destruct (Snapshot.CreateSnapshot _ _ _ _ _) as [[d s'] err]. injection Es as <-. cbn [fst snd] in H1, H2, H3.
    eapply calm_same; [exact Hc|exact Ha| | |done| |done]; cbn [sv_api with_api with_store api_store].
    + apply with_store_ok; [done|]. by apply H2.
    + apply (node_ok_handles (sv_api sv)); [done|by apply H2|done].
    + intros b. by apply knows_ext.
  - unfold gossip_tick in Es. destruct (tick _ _ _) as [t|]; [|done]. injection Es as <-.
    eapply calm_same; [exact Hc|exact Ha| | |done| |done]; cbn [sv_api].
    + apply with_pm_ok; [done|apply Hapi].
    + destruct Hnode. by split.
    + intros b. by apply knows_ext.
Qed.

Lemma calm_steps cl W cl' :
  trace calm_step cl W cl' -> map_Forall (fun _ e => ExpiresAt e = time_zero) m0 ->
  forall W0 L, Forall eternal W0 -> calm m0 W0 L cl ->
  Forall eternal (W0 ++ W) /\ exists L', calm m0 (W0 ++ W) L' cl'.
Proof.
  intros Ht Hm0. induction Ht as [cl|cl l cl1 l' cl' Hstep _ IH]; intros W0 L HW Hc.
  { rewrite app_nil_r. eauto. }
  rewrite app_assoc. destruct Hstep as [cl a sv env key value cl1 Ha Hw E|cl a i env answered cl1 Hio E|cl a ev cl1 Hev E].
  - eapply IH; [|by eapply calm_put_step]. apply Forall_app_2; [done|]. constructor; [|done].
    by rewrite (message_mutation _ (put_message_ok _ _ _ _ Hw)).
  - rewrite app_nil_r. destruct (calm_deliver_step _ _ _ _ _ _ _ _ Hc Hio E) as [L1 Hc1]. by eapply IH.
  - rewrite app_nil_r. eapply IH; [done|]. by eapply calm_local_step.
Qed.

(** ** Draining the network *)

(** Nothing is on its way to a node of the cluster. *)
Definition quiet (cl : Cluster) : Prop :=
  map_Forall (fun _ sv => Forall (fun x => Address x.1 ∉ dom cl) (sv_sends sv)) cl.

(** In a quiet cluster every node has seen every write. *)
Lemma quiet_converged W L cl :
  calm m0 W L cl -> Forall eternal W -> consistent m0 W -> quiet cl ->
  map_Forall (fun _ sv => view (api_store (sv_api sv)) = run_mutations W m0) cl.
Proof.
  intros Hc HW Hcons Hq a sv Ha. rewrite (ca_view _ _ _ _ Hc a sv Ha). symmetry. apply run_sets_converge.
  - eapply Forall_impl; [exact HW|]. by intros [].
  - intros op. split; [|by apply (ca_seen _ _ _ _ Hc)]. intros Hop.
    assert (a ∈ dom cl) as Hdom by (apply elem_of_dom; by eexists).
    destruct (ca_pending _ _ _ _ Hc a op Hdom Hop) as [?|(c & svc & p & req & Hcc & Hin & Hp & _)]; [done|].
    exfalso. apply (proj1 (Forall_forall _ _) (Hq c svc Hcc) (p, req) Hin). cbn. by rewrite Hp.
  - done.
Qed.

Definition in_flight (cl : Cluster) : nat :=
  map_fold (fun _ sv n => length (sv_sends sv) + n)%nat 0%nat cl.

Lemma in_flight_insert cl a sv sv' :
  cl !! a = Some sv ->
  (in_flight (<[a := sv']> cl) + length (sv_sends sv) = in_flight cl + length (sv_sends sv'))%nat.
Proof.
  intros Ha. unfold in_flight. rewrite <-(insert_delete_eq cl a sv'), map_fold_insert_L;
    [|intros; lia|apply lookup_delete_eq].
  rewrite (map_fold_delete_L _ _ a sv cl); [lia|intros; lia|done].
Qed.

(** A delivery takes one request off the network and adds none. *)
Lemma Deliver_flight a i env answered cl cl' :
  cluster_step FileServer dir (Deliver a i env answered) cl = Some cl' -> in_flight cl = S (in_flight cl').
Proof.
  intros E.
  apply Deliver_events in E as (sv & p & req & dst & dst' & sv1 & sv' & outcome & Ea & Ei & Ed & Es & E1 & Es' & ->).
  assert (sv_sends dst' = sv_sends dst) as Hd.
  { apply request_step in Es as [_ ->]. rewrite Serve_replicate_handler.
    destruct (handleInternalReplicate _ _ _ _ _ _). apply app_nil_r. }
  assert (sv_sends sv1 = sv_sends sv) as Hs.
  { destruct (decide (a = Address p)) as [->|Hne].
    - rewrite lookup_insert_eq in E1. congruence.
    - rewrite lookup_insert_ne in E1 by done. congruence. }
  pose proof (in_flight_insert _ _ _ dst' Ed) as H1. pose proof (in_flight_insert _ _ _ sv' E1) as H2.
  unfold server_step in Es'. rewrite Hs, Ei in Es'. injection Es' as <-. cbn [sv_sends] in *.
  rewrite Hs in H2. rewrite Hd in H1.
  pose proof (length_delete (sv_sends sv) i ltac:(by eexists)). pose proof (lookup_lt_Some _ _ _ Ei). lia.
Qed.

Lemma request_enabled env req sv : is_Some (server_step FileServer dir (EvRequest env req) sv).
Proof. unfold server_step. destruct (Serve _ _ _ _ _) as [[resp api'] out]. by eexists. Qed.

Lemma request_at a sv env req cl :
  cl !! a = Some sv ->
  exists sv', cluster_step FileServer dir (Local a (EvRequest env req)) cl = Some (<[a := sv']> cl).
Proof.
  intros Ha. destruct (request_enabled env req sv) as [sv' E]. exists sv'. unfold cluster_step.
  by rewrite Ha, option_bind_Some, E.
Qed.

Lemma replicated_enabled i out sv : is_Some (server_step FileServer dir (EvReplicated i out) sv).
Proof. unfold server_step. destruct (sv_sends sv !! i) as [[p req]|]; by eexists. Qed.

Lemma Deliver_enabled a i env answered cl sv p req :
  cl !! a = Some sv -> sv_sends sv !! i = Some (p, req) -> Address p ∈ dom cl ->
  is_Some (cluster_step FileServer dir (Deliver a i env answered) cl).
Proof.
  intros Ea Ei [dst Ed]%elem_of_dom. unfold cluster_step. cbv zeta.
  rewrite Ea, option_bind_Some, Ei, option_bind_Some, Ed, option_bind_Some.
  destruct (request_enabled env (replicate_http (api_replicator (sv_api sv)) req) dst) as [dst' ->].
  rewrite option_bind_Some.
  assert (is_Some (<[Address p := dst']> cl !! a)) as [sv1 ->]
    by (apply lookup_insert_is_Some'; right; by eexists).
  rewrite option_bind_Some.
  match goal with |- context [EvReplicated i ?o] => destruct (replicated_enabled i o sv1) as [sv' ->] end.
  by eexists.
Qed.

Definition is_delivery (ce : cluster_event) : Prop :=
  match ce with Deliver _ _ env _ => e_io env = append_io_ok | Local _ _ => False end.

Lemma cluster_step_dom ce cl cl' : cluster_step FileServer dir ce cl = Some cl' -> dom cl' = dom cl.
Proof.
  destruct ce as [a ev|a i env answered]; intros E.
  - unfold cluster_step in E. apply bind_Some in E as (sv & Ha & E). apply bind_Some in E as (sv' & _ & E).
    injection E as <-. apply dom_insert_lookup_L. by eexists.
  - apply Deliver_events in E as (sv & p & req & dst & dst' & sv1 & sv' & outcome & _ & _ & Ed & _ & E1 & _ & ->).
    rewrite dom_insert_lookup_L by (by eexists). apply dom_insert_lookup_L. by eexists.
Qed.

(** The network can be drained. *)
Lemma drain n : forall W L cl, (in_flight cl <= n)%nat -> calm m0 W L cl ->
  exists events cl' L', Forall is_delivery events /\ cluster_run FileServer dir events cl = Some cl' /\
    calm m0 W L' cl' /\ quiet cl' /\ dom cl' = dom cl.
Proof.
  induction n as [|n IH]; intros W L cl Hn Hc;
    (destruct (decide (quiet cl)) as [Hq|Hq]; [by exists [], cl, L|]);
    apply map_not_Forall in Hq as (a & sv & Ha & Hx); try apply _;
    apply not_Forall_Exists in Hx; try apply _;
    apply Exists_exists in Hx as ([p req] & [i Hi]%list_elem_of_lookup_1 & Hp); cbn [fst] in Hp;
    apply dec_stable in Hp;
    destruct (Deliver_enabled a i (mkReqEnv (fun _ => 0) append_io_ok) true cl sv p req Ha Hi Hp) as [cl1 E];
    pose proof (Deliver_flight _ _ _ _ _ _ E) as Hf; [lia|].
  destruct (calm_deliver_step W L cl a i (mkReqEnv (fun _ => 0) append_io_ok) true cl1 Hc eq_refl E) as [L1 Hc1].
  destruct (IH W L1 cl1) as (events & cl' & L' & Hd & Hr & Hc' & Hq' & Hdom); [lia|done|].
  exists (Deliver a i (mkReqEnv (fun _ => 0) append_io_ok) true :: events), cl', L'.
  split; [by constructor|]. split; [cbn [cluster_run]; by rewrite E|]. split; [done|]. split; [done|].
  rewrite Hdom. by eapply cluster_step_dom.
Qed.

(** ** Convergence *)

(** The cluster before the run: every node holds [m0], has nothing to send and
    knows all the others. *)
Record joined (cl : Cluster) (a : string) (sv : Server) : Prop := {
  jo_api : api_ok (sv_api sv);
  jo_node : node_ok (sv_api sv);
  jo_view : view (api_store (sv_api sv)) = m0;
  jo_sends : sv_sends sv = [];
  jo_knows : forall b, b ∈ dom cl -> b <> a -> knows (sv_api sv) b
}.

Lemma joined_calm cl : map_Forall (joined cl) cl -> calm m0 [] (fun _ => []) cl.
Proof.
  intros Hj. split.
  - intros a sv Ha. destruct (Hj a sv Ha) as [? ? ? Hs ?]. split; [done..|]. by rewrite Hs.
  - intros a sv Ha. by apply (jo_view _ _ _ (Hj a sv Ha)).
  - done.
  - intros b op _ Hop. by apply not_elem_of_nil in Hop.
Qed.

End Runs.

(** ** An example: two nodes and two writes of one key *)

Section Example.
#[local] Instance pair_texts : Texts := {
  FormatFloat f := "0"; ParseFloat s := None; FormatTime t := ""; ParseTime s := None; Error e := ""
}.

Definition pair_node (id other : string) : Server :=
  mkServer (with_pm (node id (NewStore None))
              (AddOrUpdate 0 0 other (other +:+ ":8080") StateAlive NewPeerManager))
    (NewGossipManager id (id +:+ ":8080") "" Second Second Second) [] [] false.
Definition pair : Cluster :=
  <["a:8080" := pair_node "a" "b"]> {[ "b:8080" := pair_node "b" "a" ]}.
Definition pair_put (at_node value : string) (time : Z) : cluster_event :=
  Local at_node (EvRequest (env_at (time_Unix time)) (put_http "k" value)).
Definition pair1 : Cluster := default pair (cluster_step no_files "" (pair_put "a:8080" "v" 50) pair).
Definition pair2 : Cluster := default pair (cluster_step no_files "" (pair_put "b:8080" "w" 60) pair1).
Definition pair_writes : list mutation :=
  [MSet "k" (mkEntry (bytes_of "v") 50 time_zero); MSet "k" (mkEntry (bytes_of "w") 60 time_zero)].

Lemma pair1_runs :
  cluster_step no_files "" (pair_put "a:8080" "v" 50) pair = Some pair1 /\
  pair1 !! "b:8080" = Some (pair_node "b" "a").
Proof.
  unfold pair1, pair_put.
  destruct (request_at no_files "" "a:8080" (pair_node "a" "b") (env_at (time_Unix 50)) (put_http "k" "v") pair
    eq_refl) as [sv' ->]. split; [done|]. exact (lookup_insert_ne pair "a:8080" "b:8080" sv' ltac:(discriminate)).
Qed.
Lemma pair2_runs : cluster_step no_files "" (pair_put "b:8080" "w" 60) pair1 = Some pair2.
Proof.
  unfold pair2, pair_put. destruct pair1_runs as [_ Hb].
  by destruct (request_at no_files "" "b:8080" _ (env_at (time_Unix 60)) (put_http "k" "w") pair1 Hb) as [sv' ->].
Qed.
Lemma pair_messages :
  request_mutation (put_message (env_at (time_Unix 50)) "k" "v" (sv_api (pair_node "a" "b")))
    = MSet "k" (mkEntry (bytes_of "v") 50 time_zero) /\
  request_mutation (put_message (env_at (time_Unix 60)) "k" "w" (sv_api (pair_node "b" "a")))
    = MSet "k" (mkEntry (bytes_of "w") 60 time_zero).
Proof. vm_compute. auto. Qed.

Lemma pair_node_joined id other b :
  other <> id -> b = other +:+ ":8080" ->
  api_ok (sv_api (pair_node id other)) /\ node_ok (sv_api (pair_node id other)) /\
  view (api_store (sv_api (pair_node id other))) = ∅ /\ knows (sv_api (pair_node id other)) b.
Proof.
  intros Hne ->. split.
  { apply with_pm_ok; [apply node_api_ok, NewStore_ok|]. apply AddOrUpdate_ok, NewPeerManager_ok. }
  split; [split; [apply NewStore_ok | done]|]. split; [apply NewStore_view|].
  exists (set_state 0 0 StateAlive (mkPeer other (other +:+ ":8080") "" time_zero 0 0 time_zero)).
  cbn [sv_api pair_node with_pm api_pm api_replicator node].
  split; [apply lookup_AddOrUpdate|]. split; [done|]. split; [exact Hne | discriminate].
Qed.

End Example.
